(** * willys-mcp: the request pipeline, the ranking engine and the validators

    A shallow embedding of the Go package [internal/willys] and machine-checked
    statements of its specification.  Go strings are byte strings
    ([String.string]), [float64] is Rocq's primitive binary64 float, [int] is
    [Z], slices are lists indexed by [nat]; a Go [panic] (index out of range)
    is [None]. *)

From Stdlib Require Import ZArith List String Ascii Floats Lia Bool Permutation.
From Stdlib Require DecimalString.
From stdpp Require Import base tactics option list.
Import ListNotations.

Set Warnings "-register-all".

Local Open Scope string_scope.
Local Open Scope Z_scope.

(* ===================================================================== *)
(** * Package [strings]                                                    *)
(* ===================================================================== *)

Module strings.

(** [strings.HasPrefix(s, prefix)] *)
Fixpoint HasPrefix (s prefix : string) : bool :=
  match prefix, s with
  | EmptyString, _ => true
  | String _ _, EmptyString => false
  | String p prefix', String c s' => Ascii.eqb c p && HasPrefix s' prefix'
  end.

Fixpoint drop (n : nat) (s : string) : string :=
  match n, s with
  | O, _ => s
  | S _, EmptyString => EmptyString
  | S n', String _ s' => drop n' s'
  end.

Fixpoint take (n : nat) (s : string) : string :=
  match n, s with
  | O, _ => EmptyString
  | S _, EmptyString => EmptyString
  | S n', String c s' => String c (take n' s')
  end.

(** [strings.HasSuffix(s, suffix)]:
    [len(s) >= len(suffix) && s[len(s)-len(suffix):] == suffix] *)
Definition HasSuffix (s suffix : string) : bool :=
  (String.length suffix <=? String.length s)%nat
  && String.eqb (drop (String.length s - String.length suffix) s) suffix.

(** [strings.TrimSuffix(s, suffix)] *)
Definition TrimSuffix (s suffix : string) : string :=
  if HasSuffix s suffix
  then take (String.length s - String.length suffix) s
  else s.

(** [strings.Contains(s, substr)]: some position of [s] starts with [substr]. *)
Fixpoint Contains (s substr : string) : bool :=
  HasPrefix s substr
  || match s with
     | EmptyString => false
     | String _ s' => Contains s' substr
     end.

(** [strings.ReplaceAll(s, old, new)] for a non-empty [old]: the
    non-overlapping occurrences of [old], leftmost first.  [skip] counts the
    bytes of a matched occurrence that remain to be dropped. *)
Fixpoint replace_from (old new : string) (skip : nat) (s : string) : string :=
  match s with
  | EmptyString => EmptyString
  | String c s' =>
      match skip with
      | S k => replace_from old new k s'
      | O =>
          if HasPrefix s old
          then new ++ replace_from old new (String.length old - 1) s'
          else String c (replace_from old new O s')
      end
  end.

Definition ReplaceAll (s old new : string) : string := replace_from old new O s.

(** [strings.Split(s, sep)] for a non-empty [sep]: [cur] is the part being
    read, in reverse. *)
Fixpoint rev_string (acc s : string) : string :=
  match s with
  | EmptyString => acc
  | String c s' => rev_string (String c acc) s'
  end.

Fixpoint split_from (sep : string) (skip : nat) (cur : string) (s : string)
  : list string :=
  match s with
  | EmptyString => [rev_string EmptyString cur]
  | String c s' =>
      match skip with
      | S k => split_from sep k cur s'
      | O =>
          if HasPrefix s sep
          then rev_string EmptyString cur
               :: split_from sep (String.length sep - 1) EmptyString s'
          else split_from sep O (String c cur) s'
      end
  end.

Definition Split (s sep : string) : list string := split_from sep O EmptyString s.

(** The UTF-8 encodings of the code points with Unicode property White_Space
    ([unicode.IsSpace]): U+0009..U+000D, U+0020, U+0085, U+00A0, U+1680,
    U+2000..U+200A, U+2028, U+2029, U+202F, U+205F, U+3000. *)
Definition byte (n : nat) : ascii := ascii_of_nat n.

Definition str (l : list nat) : string :=
  fold_right (fun n s => String (byte n) s) EmptyString l.

Definition spaces : list string :=
  map str
    ([[9%nat]; [10%nat]; [11%nat]; [12%nat]; [13%nat]; [32%nat];
      [194; 133]; [194; 160]; [225; 154; 128]]%nat
     ++ map (fun k => [226; 128; 128 + k]%nat) (seq 0 11)
     ++ [[226; 128; 168]; [226; 128; 169]; [226; 128; 175];
         [226; 129; 159]; [227; 128; 128]]%nat).

Definition leading_space (s : string) : option nat :=
  match List.filter (HasPrefix s) spaces with
  | sp :: _ => Some (String.length sp)
  | [] => None
  end.

Definition trailing_space (s : string) : option nat :=
  match List.filter (HasSuffix s) spaces with
  | sp :: _ => Some (String.length sp)
  | [] => None
  end.

(** The two loops of [strings.TrimSpace]; each round removes one white-space
    code point, so [String.length s] rounds are enough. *)
Fixpoint trim_left (fuel : nat) (s : string) : string :=
  match fuel with
  | O => s
  | S fuel' =>
      match leading_space s with
      | Some n => trim_left fuel' (drop n s)
      | None => s
      end
  end.

Fixpoint trim_right (fuel : nat) (s : string) : string :=
  match fuel with
  | O => s
  | S fuel' =>
      match trailing_space s with
      | Some n => trim_right fuel' (take (String.length s - n) s)
      | None => s
      end
  end.

Definition TrimSpace (s : string) : string :=
  let s1 := trim_left (String.length s) s in
  trim_right (String.length s1) s1.

(** [strings.ToLower] restricted to the ASCII letters: bytes outside
    ['A'..'Z'] are kept. *)
Definition lower_byte (c : ascii) : ascii :=
  let n := nat_of_ascii c in
  if ((65 <=? n) && (n <=? 90))%nat then ascii_of_nat (n + 32) else c.

Fixpoint ToLowerASCII (s : string) : string :=
  match s with
  | EmptyString => EmptyString
  | String c s' => String (lower_byte c) (ToLowerASCII s')
  end.

End strings.

(* ===================================================================== *)
(** * errors.go                                                           *)
(* ===================================================================== *)

(** The error values of the package: the four exported kinds, the errors
    built with [fmt.Errorf], the cancellation error [ctx.Err()] and the errors
    of the HTTP transport. *)
Inductive Error : Type :=
| ValidationError (Field Message : string)
| AuthenticationError (Message : string) (Cause : option Error)
| APIError (StatusCode : Z) (Message Endpoint : string) (Cause : option Error)
| NotFoundError (Resource ID : string)
| Errorf (format : string) (wrapped : option Error)
| ContextErr
| TransportErr (detail : string).

Definition NewValidationError (field message : string) : Error :=
  ValidationError field message.

Definition NewAuthenticationError (message : string) (cause : option Error) : Error :=
  AuthenticationError message cause.

Definition NewAPIError (statusCode : Z) (endpoint message : string)
  (cause : option Error) : Error :=
  APIError statusCode message endpoint cause.

Definition NewNotFoundError (resource id : string) : Error :=
  NotFoundError resource id.

Definition IsValidationError (err : Error) : bool :=
  match err with ValidationError _ _ => true | _ => false end.

Definition IsAuthenticationError (err : Error) : bool :=
  match err with AuthenticationError _ _ => true | _ => false end.

Definition IsAPIError (err : Error) : bool :=
  match err with APIError _ _ _ _ => true | _ => false end.

(* ===================================================================== *)
(** * validation.go                                                       *)
(* ===================================================================== *)

Module regexp.

(** The fragment of RE2 syntax the validators use; a pattern [^r$] is a
    match of the whole text against [r]. *)
Inductive re : Type :=
| Eps
| Lit (c : ascii)
| Range (lo hi : ascii)
| Cat (r1 r2 : re)
| Alt (r1 r2 : re).

(** [matches r s k]: [r] matches a prefix of [s] and [k] accepts the rest. *)
Fixpoint matches (r : re) (s : string) (k : string -> bool) : bool :=
  match r with
  | Eps => k s
  | Lit c =>
      match s with
      | String d s' => Ascii.eqb c d && k s'
      | EmptyString => false
      end
  | Range lo hi =>
      match s with
      | String d s' =>
          ((nat_of_ascii lo <=? nat_of_ascii d)%nat
           && (nat_of_ascii d <=? nat_of_ascii hi)%nat) && k s'
      | EmptyString => false
      end
  | Cat r1 r2 => matches r1 s (fun rest => matches r2 rest k)
  | Alt r1 r2 => matches r1 s k || matches r2 s k
  end.

Definition MatchString (r : re) (s : string) : bool :=
  matches r s (fun rest => match rest with EmptyString => true | _ => false end).

Definition digit : re := Range "0" "9".

(** [\s]: the class [[\t\n\f\r ]]. *)
Definition space : re :=
  Alt (Range (strings.byte 9) (strings.byte 10))
      (Alt (Range (strings.byte 12) (strings.byte 13)) (Lit " ")).

Definition Opt (r : re) : re := Alt r Eps.

Fixpoint Rep (n : nat) (r : re) : re :=
  match n with
  | O => Eps
  | S n' => Cat r (Rep n' r)
  end.

End regexp.

Module time.

(** A [time.Time], as the number of seconds since 0000-01-01T00:00:00Z. *)
Definition Time : Type := Z.

(** The zero [Time], 0001-01-01T00:00:00Z: the year 0 has 366 days. *)
Definition zero : Time := 366 * 86400.

Definition isDigit (c : ascii) : bool :=
  ((48 <=? nat_of_ascii c) && (nat_of_ascii c <=? 57))%nat.

Definition digitVal (c : ascii) : Z := Z.of_nat (nat_of_ascii c) - 48.

(** [getnum(s, fixed)]: one or two leading digits; two are required when
    [fixed]. *)
Definition getnum (s : string) (fixed : bool) : option (Z * string) :=
  match s with
  | String c s1 =>
      if isDigit c then
        match s1 with
        | String d s2 =>
            if isDigit d then Some (digitVal c * 10 + digitVal d, s2)
            else if fixed then None else Some (digitVal c, s1)
        | EmptyString => if fixed then None else Some (digitVal c, s1)
        end
      else None
  | EmptyString => None
  end.

(** [time.Parse("15:04", value)]: hour, the literal [":"], two-digit
    minute, nothing after; the date is 1 January of the year 0, UTC. *)
Definition Parse_15_04 (value : string) : option Time :=
  match getnum value false with
  | Some (hour, String ":" rest) =>
      if (hour <? 24) then
        match getnum rest true with
        | Some (minute, EmptyString) =>
            if (minute <? 60) then Some (hour * 3600 + minute * 60) else None
        | _ => None
        end
      else None
  | _ => None
  end.

(** [t, _ := time.Parse(...)]: the zero [Time] on error. *)
Definition Parse_15_04_value (value : string) : Time :=
  match Parse_15_04 value with Some t => t | None => zero end.

Definition After (t u : Time) : bool := u <? t.

End time.

(** [postalCodeRegex = ^\d{5}$|^\d{3}\s?\d{2}$] *)
Definition postalCodeRegex : regexp.re :=
  regexp.Alt
    (regexp.Rep 5 regexp.digit)
    (regexp.Cat (regexp.Rep 3 regexp.digit)
       (regexp.Cat (regexp.Opt regexp.space) (regexp.Rep 2 regexp.digit))).

(** [timeFormatRegex = ^([01]\d|2[0-3]):([0-5]\d)$] *)
Definition timeFormatRegex : regexp.re :=
  regexp.Cat
    (regexp.Alt (regexp.Cat (regexp.Range "0" "1") regexp.digit)
                (regexp.Cat (regexp.Lit "2") (regexp.Range "0" "3")))
    (regexp.Cat (regexp.Lit ":")
                (regexp.Cat (regexp.Range "0" "5") regexp.digit)).

Definition ValidatePostalCode (postalCode : string) : option Error :=
  if String.eqb postalCode "" then
    Some (NewValidationError "postal_code" "cannot be empty")
  else if negb (regexp.MatchString postalCodeRegex postalCode) then
    Some (NewValidationError "postal_code"
            "invalid format (expected: 12345 or 123 45)")
  else None.

Definition ValidateTimeSlot (timeSlot : string) : string * string * option Error :=
  if String.eqb timeSlot "" then
    ("", "", Some (NewValidationError "time_slot" "cannot be empty"))
  else
    match strings.Split timeSlot "-" with
    | [part0; part1] =>
        let startTime := strings.TrimSpace part0 in
        let endTime := strings.TrimSpace part1 in
        if negb (regexp.MatchString timeFormatRegex startTime) then
          ("", "", Some (NewValidationError "time_slot"
                           ("invalid start time: " ++ startTime)))
        else if negb (regexp.MatchString timeFormatRegex endTime) then
          ("", "", Some (NewValidationError "time_slot"
                           ("invalid end time: " ++ endTime)))
        else
          let start := time.Parse_15_04_value startTime in
          let end_ := time.Parse_15_04_value endTime in
          if negb (time.After end_ start) then
            ("", "", Some (NewValidationError "time_slot"
                             "end time must be after start time"))
          else (startTime, endTime, None)
    | _ =>
        ("", "", Some (NewValidationError "time_slot"
                         "invalid format (expected: HH:MM-HH:MM)"))
    end.

(* ===================================================================== *)
(** * Package [sort]: [sort.Slice]                                        *)
(* ===================================================================== *)

Module sort.

Inductive sortedHint : Type := unknownHint | increasingHint | decreasingHint.

(** [bits.Len(x)]: the number of bits of [x]. *)
Definition bits_Len (x : Z) : Z := if x <=? 0 then 0 else Z.log2 x + 1.

(** [xorshift.Next] on a [uint64]. *)
Definition uint64 (x : Z) : Z := x mod 2 ^ 64.

Definition xorshift_Next (r : Z) : Z :=
  let r := Z.lxor r (uint64 (Z.shiftl r 13)) in
  let r := Z.lxor r (Z.shiftr r 7) in
  let r := Z.lxor r (uint64 (Z.shiftl r 17)) in
  r.

Definition nextPowerOfTwo (length : Z) : Z := Z.shiftl 1 (bits_Len length).

Section Slice.
Context {A : Type} (less : A -> A -> bool).

(** [data.Less(i, j)]: the closure reads elements [i] and [j] of the slice
    being sorted. *)
Definition Less (l : list A) (i j : nat) : option bool :=
  x ← l !! i; y ← l !! j; Some (less x y).

(** [data.Swap(i, j)], the swapper of [reflectlite.Swapper]. *)
Definition Swap (l : list A) (i j : nat) : option (list A) :=
  x ← l !! i; y ← l !! j; Some (<[j:=x]> (<[i:=y]> l)).

(** [for j := i; j > a && data.Less(j, j-1); j-- { data.Swap(j, j-1) }] *)
Fixpoint insertionSort_inner (a j : nat) (l : list A) : option (list A) :=
  match j with
  | O => Some l
  | S j' =>
      if decide (a < j)%nat then
        c ← Less l j j';
        if c : bool then l' ← Swap l j j'; insertionSort_inner a j' l'
        else Some l
      else Some l
  end.

(** [for i := ...; i < b; i++ { body }], as the list of the values of [i]. *)
Fixpoint for_each (idxs : list nat) (body : nat -> list A -> option (list A))
  (l : list A) : option (list A) :=
  match idxs with
  | [] => Some l
  | i :: idxs' => l' ← body i l; for_each idxs' body l'
  end.

Definition insertionSort (a b : nat) (l : list A) : option (list A) :=
  for_each (seq (a + 1) (b - (a + 1))) (insertionSort_inner a) l.

(** The loop of [siftDown_func]; [root] grows at every round and stays
    below [hi]. *)
Fixpoint siftDown_loop (fuel : nat) (hi first root : nat) (l : list A)
  : option (list A) :=
  match fuel with
  | O => None
  | S fuel' =>
      let child := (2 * root + 1)%nat in
      if decide (hi <= child)%nat then Some l
      else
        c1 ← (if decide (child + 1 < hi)%nat
              then Less l (first + child) (first + child + 1)
              else Some false);
        let child := if c1 : bool then (child + 1)%nat else child in
        c2 ← Less l (first + root) (first + child);
        if negb c2 then Some l
        else
          l' ← Swap l (first + root) (first + child);
          siftDown_loop fuel' hi first child l'
  end.

Definition siftDown (lo hi first : nat) (l : list A) : option (list A) :=
  siftDown_loop (S hi) hi first lo l.

Definition heapSort (a b : nat) (l : list A) : option (list A) :=
  let first := a in
  let lo := O in
  let hi := (b - a)%nat in
  l1 ← for_each (rev (seq 0 ((hi - 1) / 2 + 1)))
         (fun i l => siftDown i hi first l) l;
  for_each (rev (seq 0 hi))
    (fun i l => l' ← Swap l first (first + i); siftDown lo i first l') l1.

(** [for i <= j && data.Less(i, a) { i++ }]; the loop goes on while
    [data.Less(i, p)] ([data.Less(p, i)] when [flip]) is [want]. *)
Definition test (flip : bool) (l : list A) (k p : nat) : option bool :=
  if flip then Less l p k else Less l k p.

Fixpoint scan_up (fuel : nat) (flip want : bool) (p j i : nat) (l : list A)
  : option nat :=
  match fuel with
  | O => Some i
  | S fuel' =>
      if decide (i <= j)%nat then
        c ← test flip l i p;
        if Bool.eqb c want then scan_up fuel' flip want p j (S i) l else Some i
      else Some i
  end.

(** [for i <= j && !data.Less(j, a) { j-- }]; [i] is positive at every
    call, so [j] never goes below zero. *)
Fixpoint scan_down (flip want : bool) (p i j : nat) (l : list A) : option nat :=
  match j with
  | O => if decide (i <= j)%nat
         then c ← test flip l j p;
              if Bool.eqb c want then None else Some j
         else Some j
  | S j' =>
      if decide (i <= j)%nat then
        c ← test flip l j p;
        if Bool.eqb c want then scan_down flip want p i j' l else Some j
      else Some j
  end.

(** The outer [for] of [partition_func] and of [partitionEqual_func]:
    [flip = false] scans with [Less(i, a)] / [!Less(j, a)],
    [flip = true] with [!Less(a, i)] / [Less(a, j)]. *)
Fixpoint partition_loop (fuel : nat) (flip : bool) (a i j : nat) (l : list A)
  : option (list A * nat * nat) :=
  match fuel with
  | O => None
  | S fuel' =>
      i ← scan_up (S j - i) flip (negb flip) a j i l;
      j ← scan_down flip flip a i j l;
      if decide (j < i)%nat then Some (l, i, j)
      else
        l' ← Swap l i j;
        match j with
        | O => None
        | S j' => partition_loop fuel' flip a (S i) j' l'
        end
  end.

Definition partition_for (flip : bool) (a i j : nat) (l : list A)
  : option (list A * nat * nat) :=
  partition_loop (S (S j - i)) flip a i j l.

(** [partition_func]; it panics on [b = 0] ([j] starts at [-1]). *)
Definition partition (a b pivot : nat) (l : list A)
  : option (list A * nat * bool) :=
  match b with
  | O => None
  | S b' =>
      l ← Swap l a pivot;
      let i := (a + 1)%nat in
      let j := b' in
      i ← scan_up (S j - i) false true a j i l;
      j ← scan_down false false a i j l;
      if decide (j < i)%nat then
        l ← Swap l j a; Some (l, j, true)
      else
        l ← Swap l i j;
        match j with
        | O => None
        | S j' =>
            '(l, i, j) ← partition_for false a (S i) j' l;
            l ← Swap l j a; Some (l, j, false)
        end
  end.

(** [partitionEqual_func] *)
Definition partitionEqual (a b pivot : nat) (l : list A)
  : option (list A * nat) :=
  match b with
  | O => None
  | S b' =>
      l ← Swap l a pivot;
      '(l, i, j) ← partition_for true a (a + 1)%nat b' l;
      Some (l, i)
  end.

(** The two shifting loops of [partialInsertionSort_func]. *)
Fixpoint shift_left (j : nat) (l : list A) : option (list A) :=
  match j with
  | O => Some l
  | S j' =>
      c ← Less l j j';
      if c : bool then l' ← Swap l j j'; shift_left j' l' else Some l
  end.

Fixpoint shift_right (fuel : nat) (b j : nat) (l : list A) : option (list A) :=
  match fuel with
  | O => Some l
  | S fuel' =>
      if decide (j < b)%nat then
        c ← Less l j (j - 1);
        if c : bool then l' ← Swap l j (j - 1); shift_right fuel' b (S j) l'
        else Some l
      else Some l
  end.

(** [for i < b && !data.Less(i, i-1) { i++ }] *)
Fixpoint scan_sorted (fuel : nat) (b i : nat) (l : list A) : option nat :=
  match fuel with
  | O => Some i
  | S fuel' =>
      if decide (i < b)%nat then
        c ← Less l i (i - 1);
        if c : bool then Some i else scan_sorted fuel' b (S i) l
      else Some i
  end.

Definition maxSteps : nat := 5.
Definition shortestShifting : nat := 50.

Fixpoint partialInsertionSort_steps (steps : nat) (a b i : nat) (l : list A)
  : option (list A * bool) :=
  match steps with
  | O => Some (l, false)
  | S steps' =>
      i ← scan_sorted (b - i) b i l;
      if decide (i = b) then Some (l, true)
      else if decide (b - a < shortestShifting)%nat then Some (l, false)
      else
        l ← Swap l i (i - 1);
        l ← (if decide (2 <= i - a)%nat then shift_left (i - 1) l else Some l);
        l ← (if decide (2 <= b - i)%nat then shift_right (b - (i + 1)) b (i + 1) l
             else Some l);
        partialInsertionSort_steps steps' a b i l
  end.

Definition partialInsertionSort (a b : nat) (l : list A)
  : option (list A * bool) :=
  partialInsertionSort_steps maxSteps a b (a + 1) l.

(** [breakPatterns_func] *)
Fixpoint breakPatterns_loop (n : nat) (a idx : nat) (length modulus : Z)
  (random : Z) (i : nat) (l : list A) : option (list A) :=
  match n with
  | O => Some l
  | S n' =>
      let random := xorshift_Next random in
      let other := Z.land random (modulus - 1) in
      let other := if length <=? other then other - length else other in
      l' ← Swap l (idx - 1 + i) (a + Z.to_nat other);
      breakPatterns_loop n' a idx length modulus random (S i) l'
  end.

Definition breakPatterns (a b : nat) (l : list A) : option (list A) :=
  let length := (b - a)%nat in
  if decide (8 <= length)%nat then
    let random := Z.of_nat length in
    let modulus := nextPowerOfTwo (Z.of_nat length) in
    let idx := (a + (length / 4) * 2 - 1)%nat in
    breakPatterns_loop 3 a idx (Z.of_nat length) modulus random O l
  else Some l.

(** [order2_func]; the counter [swaps] is threaded. *)
Definition order2 (l : list A) (a b swaps : nat) : option (nat * nat * nat) :=
  c ← Less l b a;
  if c : bool then Some (b, a, S swaps) else Some (a, b, swaps).

Definition median (l : list A) (a b c swaps : nat) : option (nat * nat) :=
  '(a, b, swaps) ← order2 l a b swaps;
  '(b, c, swaps) ← order2 l b c swaps;
  '(a, b, swaps) ← order2 l a b swaps;
  Some (b, swaps).

(** [medianAdjacent_func]: index [a - 1] is read, a panic when [a = 0]. *)
Definition medianAdjacent (l : list A) (a swaps : nat) : option (nat * nat) :=
  match a with
  | O => None
  | S a' => median l a' a (a + 1) swaps
  end.

Definition shortestNinther : nat := 50.
Definition maxSwaps : nat := 4 * 3.

Definition choosePivot (a b : nat) (l : list A) : option (nat * sortedHint) :=
  let len := (b - a)%nat in
  let swaps := O in
  let i := (a + len / 4 * 1)%nat in
  let j := (a + len / 4 * 2)%nat in
  let k := (a + len / 4 * 3)%nat in
  '(j, swaps) ←
    (if decide (8 <= len)%nat then
       '(i, j, k, swaps) ←
         (if decide (shortestNinther <= len)%nat then
            '(i, swaps) ← medianAdjacent l i swaps;
            '(j, swaps) ← medianAdjacent l j swaps;
            '(k, swaps) ← medianAdjacent l k swaps;
            Some (i, j, k, swaps)
          else Some (i, j, k, swaps));
       median l i j k swaps
     else Some (j, swaps));
  Some (j, if decide (swaps = O) then increasingHint
           else if decide (swaps = maxSwaps) then decreasingHint
           else unknownHint).

(** [reverseRange_func] *)
Fixpoint reverseRange_loop (fuel : nat) (i j : nat) (l : list A)
  : option (list A) :=
  match fuel with
  | O => Some l
  | S fuel' =>
      if decide (i < j)%nat then
        l' ← Swap l i j; reverseRange_loop fuel' (S i) (j - 1) l'
      else Some l
  end.

Definition reverseRange (a b : nat) (l : list A) : option (list A) :=
  reverseRange_loop (b - a) a (b - 1) l.

Definition maxInsertion : nat := 12.

Definition is_increasing (h : sortedHint) : bool :=
  match h with increasingHint => true | _ => false end.

Definition is_decreasing (h : sortedHint) : bool :=
  match h with decreasingHint => true | _ => false end.

(** [pdqsort_func]: one unit of [fuel] per round of the [for] loop and per
    recursive call; every round works on a strictly shorter range. *)
Fixpoint pdqsort (fuel : nat) (a b limit : nat)
  (wasBalanced wasPartitioned : bool) (l : list A) : option (list A) :=
  match fuel with
  | O => None
  | S fuel' =>
      let length := (b - a)%nat in
      if decide (length <= maxInsertion)%nat then insertionSort a b l
      else if decide (limit = O) then heapSort a b l
      else
        '(l, limit) ←
          (if negb wasBalanced
           then l' ← breakPatterns a b l; Some (l', (limit - 1)%nat)
           else Some (l, limit));
        '(pivot, hint) ← choosePivot a b l;
        '(l, pivot, hint) ←
          (if is_decreasing hint
           then l' ← reverseRange a b l;
                Some (l', ((b - 1) - (pivot - a))%nat, increasingHint)
           else Some (l, pivot, hint));
        '(l, sorted) ←
          (if wasBalanced && wasPartitioned && is_increasing hint
           then partialInsertionSort a b l
           else Some (l, false));
        if sorted : bool then Some l
        else
          dup ← (if decide (0 < a)%nat
                 then c ← Less l (a - 1) pivot; Some (negb c)
                 else Some false);
          if dup : bool then
            '(l, mid) ← partitionEqual a b pivot l;
            pdqsort fuel' mid b limit wasBalanced wasPartitioned l
          else
            '(l, mid, alreadyPartitioned) ← partition a b pivot l;
            let wasPartitioned := alreadyPartitioned in
            let leftLen := (mid - a)%nat in
            let rightLen := (b - mid)%nat in
            let balanceThreshold := (length / 8)%nat in
            if decide (leftLen < rightLen)%nat then
              let wasBalanced := bool_decide (balanceThreshold <= leftLen)%nat in
              l ← pdqsort fuel' a mid limit true true l;
              pdqsort fuel' (mid + 1) b limit wasBalanced wasPartitioned l
            else
              let wasBalanced := bool_decide (balanceThreshold <= rightLen)%nat in
              l ← pdqsort fuel' (mid + 1) b limit true true l;
              pdqsort fuel' a mid limit wasBalanced wasPartitioned l
  end.

(** [sort.Slice(x, less)] *)
Definition Slice (l : list A) : option (list A) :=
  let length := List.length l in
  let limit := Z.to_nat (bits_Len (Z.of_nat length)) in
  pdqsort (S length) O length limit true true l.

End Slice.
End sort.

(* ===================================================================== *)
(** * The Go standard library, as far as the package calls it             *)
(* ===================================================================== *)

Module strconv.
(** The [Err] field of a [*strconv.NumError]. *)
Inductive NumError : Type := ErrSyntax | ErrRange.
End strconv.

(** The functions of the standard library whose tables and codecs are not
    part of the repository: [strconv.ParseFloat(s, 64)] with its documented
    result on a string that is not well-formed (value 0, [ErrSyntax]),
    [strings.ToLower], [url.QueryEscape], [fmt.Sprintf("%d", n)], and the
    [encoding/json] codecs at the types the package uses them at. *)
Class GoLib : Type := {
  ParseFloat : string -> float * option strconv.NumError;
  ParseFloat_syntax :
    forall s, snd (ParseFloat s) = Some strconv.ErrSyntax ->
              fst (ParseFloat s) = 0%float;
  ToLower : string -> string;
  QueryEscape : string -> string;
  Sprintf_d : Z -> string;
}.

(* ===================================================================== *)
(** * products.go: search preferences and the ranking engine              *)
(* ===================================================================== *)

Record Product : Type := {
  Code : string;
  Name : string;
  PriceValue : float;
  Price : string;
  ComparePrice : string;
  ComparePriceUnit : string;
  DisplayVolume : string;
  Manufacturer : string;
  Labels : list string;
  Online : bool;
  OutOfStock : bool;
  SavingsAmount : option float;
  ImageURL : string;
}.

Record SearchPreferences : Type := {
  PriceSensitivity : string;
  MaxPricePerUnit : float;
  RequiredLabels : list string;
  PreferredLabels : list string;
  SortBy : string;
}.

Section Ranking.
Context `{GoLib}.

Definition parseComparePriceToFloat (priceStr : string) : float :=
  let priceStr := strings.TrimSuffix priceStr " kr" in
  let priceStr := strings.ReplaceAll priceStr "," "." in
  fst (ParseFloat priceStr).

(** The search for one required label among the product's labels. *)
Fixpoint found_label (reqLabel : string) (productLabelsLower : list string) : bool :=
  match productLabelsLower with
  | [] => false
  | label :: rest =>
      if strings.Contains label reqLabel then true
      else found_label reqLabel rest
  end.

Fixpoint hasAllRequired (lowercaseRequired productLabelsLower : list string) : bool :=
  match lowercaseRequired with
  | [] => true
  | reqLabel :: rest =>
      if negb (found_label reqLabel productLabelsLower) then false
      else hasAllRequired rest productLabelsLower
  end.

(** The body of the loop of [filterProducts]: [true] when [p] is appended,
    [false] on either [continue]. *)
Definition keepProduct (prefs : SearchPreferences) (lowercaseRequired : list string)
  (p : Product) : bool :=
  if PrimFloat.ltb 0 (MaxPricePerUnit prefs)
     && PrimFloat.ltb (MaxPricePerUnit prefs)
          (parseComparePriceToFloat (ComparePrice p))
  then false
  else if (0 <? List.length lowercaseRequired)%nat
          && negb (hasAllRequired lowercaseRequired (map ToLower (Labels p)))
  then false
  else true.

Fixpoint filterProducts_loop (prefs : SearchPreferences)
  (lowercaseRequired : list string) (products filtered : list Product)
  : list Product :=
  match products with
  | [] => filtered
  | p :: rest =>
      if keepProduct prefs lowercaseRequired p
      then filterProducts_loop prefs lowercaseRequired rest (filtered ++ [p])
      else filterProducts_loop prefs lowercaseRequired rest filtered
  end.

Definition filterProducts (products : list Product) (prefs : SearchPreferences)
  : list Product :=
  let lowercaseRequired := map ToLower (RequiredLabels prefs) in
  filterProducts_loop prefs lowercaseRequired products [].

Definition qualityLabels : list string :=
  ["krav"; "ekologisk"; "nyckelhÃ¥l"; "svensk"].

(** The inner loop of [calculateValueScore], left at the first match. *)
Fixpoint quality_loop (labelLower : string) (qualities : list string)
  (score : float) : float :=
  match qualities with
  | [] => score
  | quality :: rest =>
      if strings.Contains labelLower quality then (score + 10)%float
      else quality_loop labelLower rest score
  end.

Fixpoint labels_loop (labels : list string) (score : float) : float :=
  match labels with
  | [] => score
  | label :: rest =>
      labels_loop rest (quality_loop (ToLower label) qualityLabels score)
  end.

Definition calculateValueScore (p : Product) : float :=
  let score := 0%float in
  let comparePrice := parseComparePriceToFloat (ComparePrice p) in
  let score :=
    if PrimFloat.ltb 0 comparePrice then (score + 100 / comparePrice)%float
    else score in
  let score := labels_loop (Labels p) score in
  match SavingsAmount p with
  | Some savings =>
      if PrimFloat.ltb 0 savings then (score + savings * 0.5)%float else score
  | None => score
  end.

(** The closure given to [sort.Slice], on the two elements it reads. *)
Definition lessProducts (prefs : SearchPreferences) (pi pj : Product) : bool :=
  if String.eqb (SortBy prefs) "cheapest" then
    PrimFloat.ltb (parseComparePriceToFloat (ComparePrice pi))
                  (parseComparePriceToFloat (ComparePrice pj))
  else if String.eqb (SortBy prefs) "best_value" then
    PrimFloat.ltb (calculateValueScore pj) (calculateValueScore pi)
  else if String.eqb (SortBy prefs) "highest_quality" then
    let iLabels := List.length (Labels pi) in
    let jLabels := List.length (Labels pj) in
    if negb (Nat.eqb iLabels jLabels) then (jLabels <? iLabels)%nat
    else PrimFloat.ltb (parseComparePriceToFloat (ComparePrice pi))
                       (parseComparePriceToFloat (ComparePrice pj))
  else false.

(** [sortProducts]; [None] is a panic of [sort.Slice]. *)
Definition sortProducts (products : list Product) (prefs : SearchPreferences)
  : option (list Product) :=
  sort.Slice (lessProducts prefs) products.

(** The ranking stage of [SearchProducts]. *)
Definition rankProducts (products : list Product) (prefs : option SearchPreferences)
  : option (list Product) :=
  match prefs with
  | Some prefs => sortProducts (filterProducts products prefs) prefs
  | None => Some products
  end.

End Ranking.

(* ===================================================================== *)
(** * cart.go: price coercion                                             *)
(* ===================================================================== *)

(** The values [json.Unmarshal] stores in an [any]. *)
Inductive any : Type :=
| Nil
| Bool (b : bool)
| Float64 (f : float)
| Str (s : string)
| Slice (l : list any)
| Map (m : list (string * any)).

(** [val[key]] on a [map[string]any]. *)
Fixpoint map_lookup (key : string) (m : list (string * any)) : option any :=
  match m with
  | [] => None
  | (k, v) :: m' => if String.eqb k key then Some v else map_lookup key m'
  end.

Section Cart.
Context `{GoLib}.

Fixpoint parsePrice (v : any) : float :=
  match v with
  | Float64 val => val
  | Str val =>
      if String.eqb val "" then 0%float
      else
        match ParseFloat val with
        | (price, None) => price
        | (_, Some _) => 0%float
        end
  | Map val =>
      (fix lookup_value (m : list (string * any)) : float :=
         match m with
         | [] => 0%float
         | (k, valueField) :: m' =>
             if String.eqb k "value" then parsePrice valueField
             else lookup_value m'
         end) val
  | _ => 0%float
  end.

(** [FlexiblePrice]: the decoded JSON value of a price field; the zero
    value (a missing field) holds [nil]. *)
Record FlexiblePrice : Type := { value : any }.

Definition FlexiblePrice_zero : FlexiblePrice := {| value := Nil |}.

(** [UnmarshalJSON]: [v] is the result of [json.Unmarshal(data, &v)]. *)
Definition FlexiblePrice_UnmarshalJSON (decoded : option any) (fp : FlexiblePrice)
  : FlexiblePrice * option Error :=
  match decoded with
  | None => (fp, Some (Errorf "json" None))
  | Some v => ({| value := v |}, None)
  end.

End Cart.

(* ===================================================================== *)
(** * client.go, auth.go: the session transport                           *)
(* ===================================================================== *)

Definition EndpointLogin : string := "/login".
Definition EndpointCSRFToken : string := "/axfood/rest/csrf-token".
Definition EndpointSearch : string := "/search".
Definition EndpointSlotHomeDelivery : string := "/axfood/rest/slot/homeDelivery".
Definition EndpointSlotInCart : string := "/axfood/rest/slot/slotInCart".

Definition StatusOK : Z := 200.
Definition StatusCreated : Z := 201.
Definition StatusNoContent : Z := 204.
Definition StatusUnauthorized : Z := 401.
Definition StatusForbidden : Z := 403.

Definition MaxAuthRetryAttempts : Z := 2.

(** An [*http.Request] as the transport sees it. *)
Record Request : Type := {
  Method : string;
  URL : string;
  Header : list (string * string);
  RequestBody : string;
}.

(** An [*http.Response]; [Body = None] when reading the body fails. *)
Record Response : Type := {
  StatusCode : Z;
  Body : option string;
}.

(** [Header.Set(key, value)] *)
Definition Header_Set (key val : string) (h : list (string * string))
  : list (string * string) :=
  List.filter (fun kv => negb (String.eqb (fst kv) key)) h ++ [(key, val)].

Definition Header_Get (key : string) (h : list (string * string)) : option string :=
  match List.filter (fun kv => String.eqb (fst kv) key) h with
  | kv :: _ => Some (snd kv)
  | [] => None
  end.

(** The fields of [Client] besides the HTTP client; [authAttempts] is an
    [atomic.Int32], and its only addition is guarded by
    [attempts < MaxAuthRetryAttempts], so it does not wrap around. *)
Record Client : Type := {
  baseURL : string;
  csrfToken : string;
  username : string;
  password : string;
  authAttempts : Z;
}.

Definition set_csrfToken (token : string) (c : Client) : Client :=
  {| baseURL := baseURL c; csrfToken := token; username := username c;
     password := password c; authAttempts := authAttempts c |}.

Definition set_credentials (u p : string) (c : Client) : Client :=
  {| baseURL := baseURL c; csrfToken := csrfToken c; username := u;
     password := p; authAttempts := authAttempts c |}.

Definition set_authAttempts (n : Z) (c : Client) : Client :=
  {| baseURL := baseURL c; csrfToken := csrfToken c; username := username c;
     password := password c; authAttempts := n |}.

(** The response of the slots-listing endpoint, decoded. *)
Record TmsDeliveryWindowReference : Type := {
  tmsEarliestDateTime : Z;
  tmsLatestDateTime : Z;
  tmsRouteID : Z;
  tmsResourceKey : string;
  tmsScheduleKey : string;
  tmsPrecedingStopId : Z;
  tmsStopNumber : Z;
  tmsProfitability : float;
}.

Record RawSlot : Type := {
  rawCode : string;
  rawStartTime : Z;
  rawEndTime : Z;
  rawFormattedTime : string;
  rawDeliveryCostValue : float;
  rawAvailable : bool;
  rawTmsDeliveryWindowReference : TmsDeliveryWindowReference;
}.

Record TimeSlot : Type := {
  SlotID : string;
  Date : string;
  StartTime : string;
  EndTime : string;
  Fee : float;
  Available : bool;
  EarliestDateTime : Z;
  LatestDateTime : Z;
  RouteID : Z;
  ResourceKey : string;
  ScheduleKey : string;
  PrecedingStopId : Z;
  StopNumber : Z;
  Profitability : float;
}.

(** The environment of a client: the remote service behind the HTTP client
    (with its cookie jar and the clock), the well-formedness test of
    [http.NewRequest], the [encoding/json] codecs at the types of the package
    and [time.Unix(sec, 0).Format(layout)] for the two layouts in use.
    [http_Do] is [c.httpClient.Do(req)]. *)
Class Network (World : Type) : Type := {
  http_Do : Request -> World -> (Error + Response) * World;
  NewRequest_ok : string -> string -> bool;
  Unmarshal_string : string -> option string;
  Unmarshal_token : string -> option string;
  Marshal_LoginRequest : string -> string -> string;
  Unmarshal_searchResponse : string -> option (list Product);
  Decode_slots : string -> option (list RawSlot);
  Marshal_slotRequest : TmsDeliveryWindowReference -> option string;
  Format_date : Z -> string;
  Format_clock : Z -> string;
}.

(** What a call leaves behind for an observer: the requests handed to the
    HTTP client and the calls of [Login], oldest first. *)
Inductive Event : Type :=
| EvSend (req : Request)
| EvLogin.

Inductive outcome (A : Type) : Type :=
| Ok (a : A)
| Fail (e : Error)
| Panic.
Arguments Ok {A} a.
Arguments Fail {A} e.
Arguments Panic {A}.

Section Transport.
Context {World : Type} `{GoLib} `{Network World}.

(** The state a method of [*Client] runs in. *)
Record Sys : Type := {
  client : Client;
  world : World;
  log : list Event;
}.

(** State and error monad of the methods. *)
Definition M (A : Type) : Type := Sys -> outcome A * Sys.

Definition ret {A} (a : A) : M A := fun s => (Ok a, s).
Definition fail {A} (e : Error) : M A := fun s => (Fail e, s).
Definition panic {A} : M A := fun s => (Panic, s).

Definition bind {A B} (m : M A) (k : A -> M B) : M B :=
  fun s =>
    match m s with
    | (Ok a, s') => k a s'
    | (Fail e, s') => (Fail e, s')
    | (Panic, s') => (Panic, s')
    end.

Notation "x <- m ;; k" := (bind m (fun x => k))
  (at level 100, m at next level, right associativity).
Notation "m ;;; k" := (bind m (fun _ => k))
  (at level 100, right associativity).

Definition getClient : M Client := fun s => (Ok (client s), s).

Definition modifyClient (f : Client -> Client) : M unit :=
  fun s => (Ok tt, {| client := f (client s); world := world s; log := log s |}).

Definition emit (e : Event) : M unit :=
  fun s => (Ok tt, {| client := client s; world := world s; log := log s ++ [e] |}).

(** [c.httpClient.Do(req)] *)
Definition httpClient_Do (req : Request) : M (Error + Response) :=
  fun s =>
    let '(r, w) := http_Do req (world s) in
    (Ok r, {| client := client s; world := w; log := log s ++ [EvSend req] |}).

(** [c.httpClient.Get(url)] *)
Definition httpClient_Get (url : string) : M (Error + Response) :=
  if NewRequest_ok "GET" url
  then httpClient_Do {| Method := "GET"; URL := url; Header := [];
                        RequestBody := "" |}
  else ret (inl (TransportErr "net/http: invalid request")).

(** A [context.Context]: whether [ctx.Done()] is closed, in a given world. *)
Definition Context : Type := World -> bool.

Definition ctx_check (ctx : option Context) : M unit :=
  fun s =>
    match ctx with
    | Some done => if done (world s) then (Fail ContextErr, s) else (Ok tt, s)
    | None => (Ok tt, s)
    end.

Definition fetchCSRFTokenLocked : M string :=
  c <- getClient ;;
  r <- httpClient_Get (baseURL c ++ EndpointCSRFToken) ;;
  match r with
  | inl err => fail (Errorf "failed to fetch CSRF token: %w" (Some err))
  | inr resp =>
      if negb (StatusCode resp =? StatusOK) then
        fail (Errorf "CSRF token request failed with status %d" None)
      else
        match Body resp with
        | None => fail (Errorf "failed to read CSRF token response: %w" None)
        | Some body =>
            let parsed :=
              match Unmarshal_string body with
              | Some token => Some token
              | None => Unmarshal_token body
              end in
            match parsed with
            | None => fail (Errorf "failed to parse CSRF token: %w" None)
            | Some token =>
                if String.eqb token "" then fail (Errorf "empty CSRF token" None)
                else modifyClient (set_csrfToken token) ;;; ret token
            end
        end
  end.

Definition GetCSRFToken : M string :=
  c <- getClient ;;
  if negb (String.eqb (csrfToken c) "") then ret (csrfToken c)
  else
    c <- getClient ;;
    if negb (String.eqb (csrfToken c) "") then ret (csrfToken c)
    else fetchCSRFTokenLocked.

Definition FetchCSRFToken : M string := fetchCSRFTokenLocked.

Definition fixedHeaders (base : string) : list (string * string) :=
  Header_Set "Sec-Fetch-Site" "same-origin"
    (Header_Set "Sec-Fetch-Mode" "cors"
       (Header_Set "Sec-Fetch-Dest" "empty"
          (Header_Set "Connection" "keep-alive"
             (Header_Set "Referer" (base ++ "/")
                (Header_Set "Origin" base
                   (Header_Set "User-Agent"
                      "Mozilla/5.0 (Macintosh; Intel Mac OS X 10_15_7) AppleWebKit/537.36 (KHTML, like Gecko) Chrome/120.0.0.0 Safari/537.36"
                      (Header_Set "Accept-Language" "sv-SE,sv;q=0.9,en;q=0.8"
                         (Header_Set "Accept" "application/json, text/plain, */*"
                            (Header_Set "Content-Type" "application/json"
                               []))))))))).

Definition createRequest (method path bodyBytes : string) : M Request :=
  c <- getClient ;;
  let reqURL := baseURL c ++ path in
  if NewRequest_ok method reqURL then
    ret {| Method := method; URL := reqURL; Header := fixedHeaders (baseURL c);
           RequestBody := bodyBytes |}
  else
    fail (Errorf "failed to create request: %w"
            (Some (TransportErr "net/http: invalid request"))).

Definition with_csrf (token : string) (req : Request) : Request :=
  {| Method := Method req; URL := URL req;
     Header := Header_Set "X-CSRF-TOKEN" token (Header req);
     RequestBody := RequestBody req |}.

(** [if err != nil { return nil, f(err) }] after a call. *)
Definition catch {A} (f : Error -> Error) (m : M A) : M A :=
  fun s =>
    match m s with
    | (Fail e, s') => (Fail (f e), s')
    | r => r
    end.

(** [fmt.Errorf(format, err)] *)
Definition wrap {A} (format : string) (m : M A) : M A :=
  catch (fun err => Errorf format (Some err)) m.

Definition do_or (format : string) (req : Request) : M Response :=
  r <- httpClient_Do req ;;
  match r with
  | inl err => fail (Errorf format (Some err))
  | inr resp => ret resp
  end.

(** [DoRequest], open in the [Login] it calls to re-authenticate. *)
Definition DoRequest_body (Login : option Context -> string -> string -> M unit)
  (ctx : option Context) (method path : string) (body : option string)
  (needsCSRF : bool) : M Response :=
  ctx_check ctx ;;;
  let bodyBytes := match body with Some b => b | None => "" end in
  req <- createRequest method path bodyBytes ;;
  req <- (if needsCSRF then
            token <- wrap "failed to get CSRF token: %w" GetCSRFToken ;;
            ret (with_csrf token req)
          else ret req) ;;
  resp <- do_or "request failed: %w" req ;;
  if (StatusCode resp =? StatusUnauthorized) && needsCSRF then
    wrap "failed to refresh CSRF token: %w" FetchCSRFToken ;;;
    req <- createRequest method path bodyBytes ;;
    token <- wrap "failed to get updated CSRF token: %w" GetCSRFToken ;;
    let req := with_csrf token req in
    resp <- do_or "retry request failed: %w" req ;;
    c <- getClient ;;
    let attempts := authAttempts c in
    let username := username c in
    let password := password c in
    if (StatusCode resp =? StatusUnauthorized)
       && negb (String.eqb username "") && negb (String.eqb password "")
       && (attempts <? MaxAuthRetryAttempts)
    then
      modifyClient (fun c => set_authAttempts (authAttempts c + 1) c) ;;;
      catch (fun err => NewAuthenticationError "failed to re-authenticate" (Some err))
        (Login ctx username password) ;;;
      req <- createRequest method path bodyBytes ;;
      token <- wrap "failed to get CSRF token after re-auth: %w" GetCSRFToken ;;
      let req := with_csrf token req in
      do_or "final retry request failed: %w" req
    else if (StatusCode resp =? StatusUnauthorized)
            && (MaxAuthRetryAttempts <=? attempts)
    then
      fail (NewAuthenticationError "maximum authentication retry attempts exceeded" None)
    else ret resp
  else ret resp.

Definition InitializeSession : M unit :=
  c <- getClient ;;
  r <- httpClient_Get (baseURL c) ;;
  match r with
  | inl err => fail (Errorf "failed to initialize session: %w" (Some err))
  | inr resp =>
      if negb (StatusCode resp =? StatusOK)
      then fail (Errorf "unexpected status code %d" None)
      else ret tt
  end.

(** [Login], open in the [DoRequest] it posts the credentials with. *)
Definition Login_body
  (DoRequest : option Context -> string -> string -> option string -> bool -> M Response)
  (ctx : option Context) (username password : string) : M unit :=
  emit EvLogin ;;;
  if String.eqb username "" then
    fail (NewValidationError "username" "username cannot be empty")
  else if String.eqb password "" then
    fail (NewValidationError "password" "password cannot be empty")
  else if (String.length password <? 6)%nat then
    fail (NewValidationError "password" "password must be at least 6 characters")
  else
    catch (fun err => NewAuthenticationError "failed to initialize session" (Some err))
        (InitializeSession) ;;;
    let jsonData := Marshal_LoginRequest username password in
    resp <- catch (fun err => NewAuthenticationError "login request failed" (Some err))
        (DoRequest ctx "POST" EndpointLogin (Some jsonData) false) ;;
    if (StatusCode resp =? StatusUnauthorized) || (StatusCode resp =? StatusForbidden)
    then fail (NewAuthenticationError "invalid username or password" None)
    else if negb (StatusCode resp =? StatusOK) && negb (StatusCode resp =? StatusCreated)
    then
      let errorDetail :=
        match Body resp with
        | Some b => if String.eqb b "" then "no additional details provided" else b
        | None => "no additional details provided"
        end in
      fail (NewAPIError (StatusCode resp) EndpointLogin
              ("login failed - " ++ errorDetail) None)
    else
      modifyClient (set_credentials username password) ;;;
      modifyClient (set_authAttempts 0) ;;;
      catch (fun err => NewAuthenticationError "failed to fetch CSRF token after login" (Some err))
        FetchCSRFToken ;;;
      ret tt.

(** The calls are not circular: [Login] posts with [needsCSRF = false], and
    [DoRequest] re-authenticates only when [needsCSRF] is set. *)
Definition DoRequest_plain :=
  DoRequest_body (fun _ _ _ => panic).

Definition Login := Login_body DoRequest_plain.

Definition DoRequest := DoRequest_body Login.

(** products.go: [SearchProducts] *)
Definition SearchProducts (ctx : option Context) (query : string) (page size : Z)
  (prefs : option SearchPreferences) : M (list Product) :=
  if String.eqb query "" then
    fail (NewValidationError "query" "search query cannot be empty")
  else if page <? 0 then
    fail (NewValidationError "page" "page number cannot be negative")
  else if (size <=? 0) || (100 <? size) then
    fail (NewValidationError "size" "page size must be between 1 and 100")
  else
    let params :=
      "page=" ++ QueryEscape (Sprintf_d page)
      ++ "&q=" ++ QueryEscape query
      ++ "&size=" ++ QueryEscape (Sprintf_d size) in
    let searchPath := EndpointSearch ++ "?" ++ params in
    resp <- catch (fun err => NewAPIError 0 searchPath "search request failed" (Some err))
        (DoRequest ctx "GET" searchPath None false) ;;
    if negb (StatusCode resp =? StatusOK) then
      fail (NewAPIError (StatusCode resp) searchPath "search failed" None)
    else
      match Body resp with
      | None =>
          fail (NewAPIError (StatusCode resp) searchPath
                  "failed to read search response" None)
      | Some body =>
          match Unmarshal_searchResponse body with
          | None =>
              fail (NewAPIError (StatusCode resp) searchPath
                      "failed to parse search results" None)
          | Some products =>
              match rankProducts products prefs with
              | Some products => ret products
              | None => panic
              end
          end
      end.

(** delivery.go: the conversion loop of [GetAvailableTimeSlots] *)
Definition slotOfRaw (s : RawSlot) : TimeSlot :=
  let startTimeObj := Z.quot (rawStartTime s) 1000 in
  let endTimeObj := Z.quot (rawEndTime s) 1000 in
  let ref := rawTmsDeliveryWindowReference s in
  {| SlotID := rawCode s;
     Date := Format_date startTimeObj;
     StartTime := Format_clock startTimeObj;
     EndTime := Format_clock endTimeObj;
     Fee := rawDeliveryCostValue s;
     Available := rawAvailable s;
     EarliestDateTime := tmsEarliestDateTime ref;
     LatestDateTime := tmsLatestDateTime ref;
     RouteID := tmsRouteID ref;
     ResourceKey := tmsResourceKey ref;
     ScheduleKey := tmsScheduleKey ref;
     PrecedingStopId := tmsPrecedingStopId ref;
     StopNumber := tmsStopNumber ref;
     Profitability := tmsProfitability ref |}.



(** The anonymous struct [reqData] of [SelectTimeSlot]; it has the fields
    of the reference the slots listing carries. *)
Definition reqData (slot : TimeSlot) : TmsDeliveryWindowReference :=
  {| tmsEarliestDateTime := EarliestDateTime slot;
     tmsLatestDateTime := LatestDateTime slot;
     tmsRouteID := RouteID slot;
     tmsResourceKey := ResourceKey slot;
     tmsScheduleKey := ScheduleKey slot;
     tmsPrecedingStopId := PrecedingStopId slot;
     tmsStopNumber := StopNumber slot;
     tmsProfitability := Profitability slot |}.

Definition SelectTimeSlot_path (slot : TimeSlot) : string :=
  EndpointSlotInCart ++ "/" ++ QueryEscape (SlotID slot) ++ "?isTmsSlot=true".

Definition SelectTimeSlot (ctx : option Context) (slot : TimeSlot) : M unit :=
  match Marshal_slotRequest (reqData slot) with
  | None =>
      fail (NewAPIError 0 EndpointSlotInCart "failed to marshal time slot request" None)
  | Some jsonData =>
      let path := SelectTimeSlot_path slot in
      resp <- catch (fun err => NewAPIError 0 path "select time slot request failed" (Some err))
        (DoRequest ctx "POST" path (Some jsonData) true) ;;
      if negb (StatusCode resp =? StatusOK) && negb (StatusCode resp =? StatusNoContent)
      then fail (NewAPIError (StatusCode resp) path "select time slot failed" None)
      else ret tt
  end.

End Transport.

Arguments Sys World : clear implicits.
Arguments M World A : clear implicits.
Arguments Context World : clear implicits.

(* ===================================================================== *)
(** * A reference environment, to run the package on concrete inputs      *)
(* ===================================================================== *)

Module reference.

(** Decimal numerals: the digits of [s], their value added to [acc] and
    their number to [n]. *)
Fixpoint digits (acc : Z) (n : nat) (s : string) : Z * nat * string :=
  match s with
  | String c s' =>
      if time.isDigit c then digits (acc * 10 + time.digitVal c) (S n) s'
      else (acc, n, s)
  | EmptyString => (acc, n, s)
  end.

(** The digits of an exponent; as in [readFloat], the value stops growing
    at 10000. *)
Fixpoint exp_digits (acc : Z) (n : nat) (s : string) : Z * nat * string :=
  match s with
  | String c s' =>
      if time.isDigit c
      then exp_digits (if acc <? 10000 then acc * 10 + time.digitVal c else acc)
             (S n) s'
      else (acc, n, s)
  | EmptyString => (acc, n, s)
  end.

Definition sign (s : string) : bool * string :=
  match s with
  | String "+" r => (false, r)
  | String "-" r => (true, r)
  | _ => (false, s)
  end.

(** [sign digits [. digits] [(e|E) sign digits]]: sign, mantissa and
    decimal exponent. *)
Definition readFloat (s : string) : option (bool * Z * Z) :=
  let '(neg, s) := sign s in
  let '(ip, n1, s) := digits 0 O s in
  let '(m, n2, s) :=
    match s with
    | String "." r => digits ip O r
    | _ => (ip, O, s)
    end in
  if (n1 + n2 =? 0)%nat then None
  else
    match s with
    | EmptyString => Some (neg, m, - Z.of_nat n2)
    | String c r =>
        if Ascii.eqb (strings.lower_byte c) "e" then
          let '(eneg, r) := sign r in
          let '(e, n3, r) := exp_digits 0 O r in
          if (n3 =? 0)%nat then None
          else
            match r with
            | EmptyString => Some (neg, m, (if eneg then - e else e) - Z.of_nat n2)
            | _ => None
            end
        else None
    end.

(** The binary64 number nearest to [n / d], ties to even, as mantissa and
    binary exponent; [n] and [d] are positive. *)
Definition round_ratio (n d : Z) : Z * Z :=
  let k := Z.log2 n - Z.log2 d in
  let scale (ee : Z) : Z * Z :=
    if 0 <=? ee then (n, d * 2 ^ ee) else (n * 2 ^ (- ee), d) in
  let ee0 := Z.max (k - 53) (-1074) in
  let '(n0, d0) := scale ee0 in
  let ee := if 2 ^ 53 <=? n0 / d0 then ee0 + 1 else ee0 in
  let '(n1, d1) := scale ee in
  let q := n1 / d1 in
  let r := n1 mod d1 in
  let q := if (d1 <? 2 * r) || ((d1 =? 2 * r) && Z.odd q) then q + 1 else q in
  (q, ee).

Definition float_of_decimal (neg : bool) (m e10 : Z) : float :=
  let f :=
    if m =? 0 then 0%float
    else
      let '(q, ee) :=
        if 0 <=? e10 then round_ratio (m * 10 ^ e10) 1
        else round_ratio m (10 ^ (- e10)) in
      Z.ldexp (PrimFloat.of_uint63 (Uint63.of_Z q)) ee in
  if neg then (- f)%float else f.

Definition special (s : string) : option float :=
  let '(neg, r) := sign s in
  let r := strings.ToLowerASCII r in
  if String.eqb r "inf" || String.eqb r "infinity"
  then Some (if neg then neg_infinity else infinity)
  else if String.eqb (strings.ToLowerASCII s) "nan" then Some nan
  else None.

(** [strconv.ParseFloat(s, 64)] on the decimal numerals without digit
    separators and on the special values; every other string is reported
    as not well-formed. *)
Definition ParseFloat (s : string) : float * option strconv.NumError :=
  match special s with
  | Some f => (f, None)
  | None =>
      match readFloat s with
      | None => (0%float, Some strconv.ErrSyntax)
      | Some (neg, m, e10) =>
          let f := float_of_decimal neg m e10 in
          if PrimFloat.is_infinity f then (f, Some strconv.ErrRange) else (f, None)
      end
  end.

Definition hex_digit (n : nat) : ascii :=
  ascii_of_nat (if (n <? 10)%nat then 48 + n else 55 + n).

(** [url.QueryEscape] *)
Definition unreserved (c : ascii) : bool :=
  let n := nat_of_ascii c in
  ((48 <=? n) && (n <=? 57) || (65 <=? n) && (n <=? 90)
   || (97 <=? n) && (n <=? 122)
   || (n =? 45) || (n =? 95) || (n =? 46) || (n =? 126))%nat.

Fixpoint QueryEscape (s : string) : string :=
  match s with
  | EmptyString => EmptyString
  | String c s' =>
      if unreserved c then String c (QueryEscape s')
      else if Ascii.eqb c " " then String "+" (QueryEscape s')
      else String "%" (String (hex_digit (nat_of_ascii c / 16))
                         (String (hex_digit (nat_of_ascii c mod 16))
                            (QueryEscape s')))
  end.

Definition Sprintf_d (n : Z) : string := DecimalString.NilZero.string_of_int (Z.to_int n).

Lemma ParseFloat_syntax (s : string) :
  snd (ParseFloat s) = Some strconv.ErrSyntax -> fst (ParseFloat s) = 0%float.
Proof.
  unfold ParseFloat.
  destruct (special s) as [f|]; [discriminate|].
  destruct (readFloat s) as [[[neg m] e10]|]; [|reflexivity].
  destruct (PrimFloat.is_infinity _); discriminate.
Qed.

Definition golib : GoLib :=
  Build_GoLib ParseFloat ParseFloat_syntax strings.ToLowerASCII QueryEscape Sprintf_d.

End reference.


Module scripted.

Definition quote : string := String (ascii_of_nat 34) EmptyString.

(** [json.Unmarshal] of a JSON string without escapes. *)
Definition unquote (s : string) : option string :=
  if strings.HasPrefix s quote && strings.HasSuffix s quote
     && (2 <=? String.length s)%nat
  then Some (strings.take (String.length s - 2) (strings.drop 1 s))
  else None.

(** A service whose answer depends on the request and on the number of
    requests it has served. *)
Definition network (handler : Request -> nat -> Error + Response)
  (catalogue : string -> option (list Product))
  (slots : string -> option (list RawSlot)) : Network nat :=
  Build_Network nat
    (fun req n => (handler req n, S n))
    (fun _ _ => true)
    unquote
    (fun _ => None)
    (fun u p => u ++ ":" ++ p)
    catalogue
    slots
    (fun r => Some (tmsResourceKey r))
    (fun _ => "2006-01-02")
    (fun _ => "15:04").

End scripted.

(* ===================================================================== *)
(** * The vocabulary of the specification                                 *)
(* ===================================================================== *)

Module float64_order.

(** The rank of a number that is not NaN in the order of [SFcompare]:
    class, then exponent, then mantissa, the last two negated for the
    negative numbers. *)
Definition rank (f : spec_float) : Z * Z * Z :=
  match f with
  | S754_nan => (0, 0, 0)
  | S754_infinity true => (-2, 0, 0)
  | S754_infinity false => (2, 0, 0)
  | S754_zero _ => (0, 0, 0)
  | S754_finite true m e => (-1, - e, - Zpos m)
  | S754_finite false m e => (1, e, Zpos m)
  end.

Definition lex_lt (a b : Z * Z * Z) : Prop :=
  let '(a1, a2, a3) := a in
  let '(b1, b2, b3) := b in
  a1 < b1 \/ (a1 = b1 /\ (a2 < b2 \/ (a2 = b2 /\ a3 < b3))).

End float64_order.

Section Vocabulary.
Context `{GoLib}.

(** Every required label is, case-insensitively, a substring of one of the
    labels of the product. *)
Definition satisfiesRequired (prefs : SearchPreferences) (p : Product) : bool :=
  forallb
    (fun req =>
       existsb (fun label => strings.Contains (ToLower label) (ToLower req))
         (Labels p))
    (RequiredLabels prefs).

(** The parsed compare price does not exceed the ceiling. *)
Definition withinCeiling (prefs : SearchPreferences) (p : Product) : bool :=
  negb (PrimFloat.ltb (MaxPricePerUnit prefs)
          (parseComparePriceToFloat (ComparePrice p))).

(** The string handed to [strconv.ParseFloat] for a compare price. *)
Definition normalizedPrice (priceStr : string) : string :=
  strings.ReplaceAll (strings.TrimSuffix priceStr " kr") "," ".".

(** The label matches one of the recognized quality labels. *)
Definition isQualityLabel (label : string) : bool :=
  existsb (strings.Contains (ToLower label)) qualityLabels.

Definition pricePart (p : Product) : float :=
  let comparePrice := parseComparePriceToFloat (ComparePrice p) in
  if PrimFloat.ltb 0 comparePrice then (0 + 100 / comparePrice)%float else 0%float.

Definition addSavings (p : Product) (score : float) : float :=
  match SavingsAmount p with
  | Some savings =>
      if PrimFloat.ltb 0 savings then (score + savings * 0.5)%float else score
  | None => score
  end.

(** The score as the specification words it: the bonus of 10 at most once
    for a product. *)
Definition score_bonus_once (p : Product) : float :=
  addSavings p
    (if existsb isQualityLabel (Labels p) then (pricePart p + 10)%float
     else pricePart p).

(** The score with the bonus of 10 once for each label that matches. *)
Definition score_bonus_per_label (p : Product) : float :=
  addSavings p
    (Nat.iter (List.length (List.filter isQualityLabel (Labels p)))
       (fun score => (score + 10)%float) (pricePart p)).

End Vocabulary.

(* ===================================================================== *)
(** * The vocabulary of the transport statements                          *)
(* ===================================================================== *)

Fixpoint nsends (evs : list Event) : nat :=
  match evs with
  | [] => O
  | EvSend _ :: rest => S (nsends rest)
  | EvLogin :: rest => nsends rest
  end.

Fixpoint nlogins (evs : list Event) : nat :=
  match evs with
  | [] => O
  | EvSend _ :: rest => nlogins rest
  | EvLogin :: rest => S (nlogins rest)
  end.

Definition same_identity (c c' : Client) : Prop :=
  baseURL c' = baseURL c /\ username c' = username c
  /\ password c' = password c /\ authAttempts c' = authAttempts c.

Section TransportVocabulary.
Context {World : Type} `{GoLib} `{Network World}.

Definition get_request (url : string) : Request :=
  {| Method := "GET"; URL := url; Header := []; RequestBody := "" |}.

(** The requests a call makes on its own account: the token fetch, the
    session initialization and the login post. *)
Definition auxiliary (base : string) (req : Request) : Prop :=
  req = get_request (base ++ EndpointCSRFToken)
  \/ req = get_request base
  \/ (Method req = "POST" /\ URL req = base ++ EndpointLogin
      /\ exists u p, RequestBody req = Marshal_LoginRequest u p).

(** The request of the caller: method, path and body as given. *)
Definition carries (base method path body : string) (req : Request) : Prop :=
  Method req = method /\ URL req = base ++ path /\ RequestBody req = body.

Definition event_ok (base method path body : string) (ev : Event) : Prop :=
  match ev with
  | EvSend req => auxiliary base req \/ carries base method path body req
  | EvLogin => True
  end.

(** [grows base method path body n l s s']: the call appended at most [n]
    requests and exactly [l] calls of [Login] to the log, each request
    auxiliary or the caller's own. *)
Definition grows (base method path body : string) (n l : nat) (s s' : Sys World) : Prop :=
  exists evs,
    log s' = (log s ++ evs)%list
    /\ (nsends evs <= n)%nat /\ nlogins evs = l
    /\ Forall (event_ok base method path body) evs.

Definition bytes_of (body : option string) : string :=
  match body with Some b => b | None => "" end.

(** The server's answer to one sending of the caller's request. *)
Definition answer_to (base method path body : string) (resp : Response) : Prop :=
  exists req w, carries base method path body req
                /\ fst (http_Do req w) = inr resp.

(** The ways a call of [DoRequest] with [needsCSRF] set ends: the number
    [l] of re-logins, the outcome [o], and the counter before and after. *)
Inductive protected_path (base method path body : string) (c c' : Client)
  : nat -> outcome Response -> Prop :=
| path_error e :
    IsAuthenticationError e = false -> same_identity c c' ->
    protected_path base method path body c c' 0 (Fail e)
| path_first resp :
    answer_to base method path body resp ->
    StatusCode resp <> StatusUnauthorized -> same_identity c c' ->
    protected_path base method path body c c' 0 (Ok resp)
| path_second resp :
    answer_to base method path body resp ->
    (StatusCode resp <> StatusUnauthorized
     \/ ((username c = "" \/ password c = "")
         /\ authAttempts c < MaxAuthRetryAttempts)) ->
    same_identity c c' ->
    protected_path base method path body c c' 0 (Ok resp)
| path_exhausted resp :
    answer_to base method path body resp ->
    StatusCode resp = StatusUnauthorized ->
    MaxAuthRetryAttempts <= authAttempts c -> same_identity c c' ->
    protected_path base method path body c c' 0
      (Fail (AuthenticationError "maximum authentication retry attempts exceeded" None))
| path_relogin_failed e :
    authAttempts c < MaxAuthRetryAttempts ->
    username c <> "" -> password c <> "" ->
    authAttempts c' = authAttempts c + 1
    \/ (authAttempts c' = 0
        /\ exists e',
            e = AuthenticationError "failed to fetch CSRF token after login"
                  (Some e')) ->
    protected_path base method path body c c' 1
      (Fail (AuthenticationError "failed to re-authenticate" (Some e)))
| path_third resp :
    answer_to base method path body resp ->
    authAttempts c < MaxAuthRetryAttempts ->
    username c <> "" -> password c <> "" ->
    authAttempts c' = 0 ->
    protected_path base method path body c c' 1 (Ok resp)
| path_third_error err :
    (exists req w, carries base method path body req
                   /\ fst (http_Do req w) = inl err) ->
    authAttempts c < MaxAuthRetryAttempts ->
    authAttempts c' = 0 ->
    protected_path base method path body c c' 1
      (Fail (Errorf "final retry request failed: %w" (Some err))).



End TransportVocabulary.

(* ===================================================================== *)
(** * Sample data                                                         *)
(* ===================================================================== *)

Module sample.

Definition product (code comparePrice : string) (labels : list string)
  (savings : option float) : Product :=
  {| Code := code; Name := code; PriceValue := 0%float; Price := "";
     ComparePrice := comparePrice; ComparePriceUnit := "kr/kg";
     DisplayVolume := ""; Manufacturer := ""; Labels := labels;
     Online := true; OutOfStock := false; SavingsAmount := savings;
     ImageURL := "" |}.

Definition prefs (ceiling : float) (required : list string) (sortBy : string)
  : SearchPreferences :=
  {| PriceSensitivity := ""; MaxPricePerUnit := ceiling;
     RequiredLabels := required; PreferredLabels := []; SortBy := sortBy |}.

Definition milk30 : Product := product "101_ST" "30,00 kr" ["Svensk"] None.
Definition milk10 : Product := product "102_ST" "10,00 kr" [] None.
Definition milk20 : Product := product "103_ST" "20,00 kr" ["KRAV"; "Svenskt ursprung"] None.
Definition milk51 : Product := product "104_ST" "51,00 kr" [] None.
Definition unpriced : Product := product "105_ST" "pris saknas" [] None.
Definition milkNaN : Product := product "106_ST" "NaN kr" [] None.

Definition catalogue : list Product := [milk30; milk10; milk20].

Definition slot : RawSlot :=
  {| rawCode := "slot-1"; rawStartTime := 1767258000000;
     rawEndTime := 1767265200000; rawFormattedTime := "";
     rawDeliveryCostValue := 99%float; rawAvailable := true;
     rawTmsDeliveryWindowReference :=
       {| tmsEarliestDateTime := 1767258000000;
          tmsLatestDateTime := 1767265200000;
          tmsRouteID := 42; tmsResourceKey := "R-7"; tmsScheduleKey := "S-3";
          tmsPrecedingStopId := 11; tmsStopNumber := 5;
          tmsProfitability := 0.5%float |} |}.

Definition base : string := "https://www.willys.se".

Definition account (token : string) (attempts : Z) : Client :=
  {| baseURL := base; csrfToken := token; username := "199001011234";
     password := "hunter22"; authAttempts := attempts |}.

Definition answer (status : Z) (body : string) : Error + Response :=
  inr {| StatusCode := status; Body := Some body |}.

(** A service that answers the session, login and token requests with the
    given statuses, serves the search and the slots listing, and rejects
    everything else as unauthorized. *)
Definition service (loginStatus tokenStatus : Z) (req : Request) (n : nat)
  : Error + Response :=
  if String.eqb (URL req) (base ++ EndpointCSRFToken)
  then answer tokenStatus (scripted.quote ++ "tok" ++ scripted.quote)
  else if String.eqb (URL req) base then answer 200 ""
  else if String.eqb (URL req) (base ++ EndpointLogin) then answer loginStatus ""
  else if strings.HasPrefix (URL req) (base ++ EndpointSearch)
  then answer 200 "catalogue"
  else if strings.HasPrefix (URL req) (base ++ EndpointSlotHomeDelivery)
  then answer 200 "slots"
  else answer 401 "".

Definition network (loginStatus tokenStatus : Z) : Network nat :=
  scripted.network (service loginStatus tokenStatus)
    (fun body => if String.eqb body "catalogue" then Some catalogue else None)
    (fun body => if String.eqb body "slots" then Some [slot] else None).

Definition start (c : Client) : Sys nat :=
  {| client := c; world := O; log := [] |}.

Definition cart : string := "/axfood/rest/cart".

End sample.


(* ===================================================================== *)
(** * Exact traces of the transport                                       *)
(* ===================================================================== *)

Section TraceVocabulary.
Context {World : Type} `{GoLib} `{Network World}.

(** What one call of the HTTP client leaves behind. *)
Definition sent (req : Request) (s : Sys World) : Sys World :=
  {| client := client s; world := snd (http_Do req (world s));
     log := log s ++ [EvSend req] |}.

(** The request [createRequest] builds, before any token is attached. *)
Definition plain_request (base method path body : string) : Request :=
  {| Method := method; URL := base ++ path; Header := fixedHeaders base;
     RequestBody := body |}.

(** The caller's request with a token attached. *)
Definition tokened (base method path body : string) (req : Request) : Prop :=
  exists token, token <> ""
                /\ req = with_csrf token (plain_request base method path body).

(** The requests a protected call may send: the token GET, the session
    GET, the POST of the credentials [u], [p] to the login endpoint, and the
    caller's request with a token. *)
Definition protected_event (base method path body u p : string) (ev : Event)
  : Prop :=
  match ev with
  | EvSend req =>
      req = get_request (base ++ EndpointCSRFToken)
      \/ req = get_request base
      \/ req = plain_request base "POST" EndpointLogin (Marshal_LoginRequest u p)
      \/ tokened base method path body req
  | EvLogin => True
  end.

(** [extends P l s s']: the log of [s'] is the log of [s] and then events
    that all satisfy [P], [l] of them calls of [Login]. *)
Definition extends (P : Event -> Prop) (l : nat) (s s' : Sys World) : Prop :=
  exists evs, log s' = (log s ++ evs)%list /\ nlogins evs = l /\ Forall P evs.

(** Whether [ctx.Done()] is closed when a call starts; a nil context
    never is. *)
Definition done_in (ctx : option (Context World)) (s : Sys World) : bool :=
  match ctx with Some done => done (world s) | None => false end.

End TraceVocabulary.

(* ===================================================================== *)
(** * More sample data                                                    *)
(* ===================================================================== *)

Module fixtures.

(** A client without stored credentials. *)
Definition anonymous (token : string) (attempts : Z) : Client :=
  {| baseURL := sample.base; csrfToken := token; username := "";
     password := ""; authAttempts := attempts |}.

(** A context that is already done. *)
Definition cancelled : Context nat := fun _ => true.

End fixtures.

(* ===================================================================== *)
(** * Clock times as the layout ["15:04"] writes them                     *)
(* ===================================================================== *)

Module clock.

(** [\s] of RE2 as a test on a byte. *)
Definition perl_space (c : ascii) : bool :=
  existsb (Ascii.eqb c)
    [strings.byte 9; strings.byte 10; strings.byte 12; strings.byte 13; " "%char].

Definition digit_byte (n : Z) : ascii := ascii_of_nat (48 + Z.to_nat n).

(** [%02d] for a number below 100. *)
Definition two_digits (n : Z) : string :=
  String (digit_byte (n / 10)) (String (digit_byte (n mod 10)) EmptyString).

(** A clock time as the layout ["15:04"] writes it. *)
Definition format (h m : Z) : string := two_digits h ++ ":" ++ two_digits m.

(** The facts about the 1440 clock times are checked one by one. *)
Definition all_clock (P : Z -> Z -> bool) : bool :=
  forallb (fun h => forallb (fun m => P (Z.of_nat h) (Z.of_nat m)) (seq 0 60))
    (seq 0 24).

Definition option_Z_eqb (a b : option Z) : bool :=
  match a, b with
  | Some x, Some y => x =? y
  | None, None => true
  | _, _ => false
  end.

End clock.

(* ===================================================================== *)
(** * The vocabulary of the sort statements                               *)
(* ===================================================================== *)

Module sort_spec.
Local Open Scope nat_scope.

(** [within a b l l']: [l'] is [l] with the elements at the indices from
    [a] to [b - 1] rearranged. *)
Definition within {A : Type} (a b : nat) (l l' : list A) : Prop :=
  length l' = length l /\ l' ≡ₚ l
  /\ forall k, k < a \/ b <= k -> l' !! k = l !! k.

End sort_spec.

(* ===================================================================== *)
(** * validation.go: product codes, quantities, addresses                 *)
(* ===================================================================== *)

Module regexp_plus.

(** [r+], one or more times [r], greedily; every round of [r] that
    matters consumes a byte, so [fuel] above the length of the text is
    enough. *)
Fixpoint matches_plus (fuel : nat) (r : regexp.re) (s : string)
  (k : string -> bool) : bool :=
  match fuel with
  | O => false
  | S fuel' =>
      regexp.matches r s (fun rest => matches_plus fuel' r rest k || k rest)
  end.

End regexp_plus.

(** [productCodeRegex = ^\d+_(ST|KG)$] *)
Definition productCodeRegex_MatchString (s : string) : bool :=
  regexp_plus.matches_plus (S (String.length s)) regexp.digit s
    (regexp.MatchString
       (regexp.Cat (regexp.Lit "_")
          (regexp.Alt (regexp.Cat (regexp.Lit "S") (regexp.Lit "T"))
                      (regexp.Cat (regexp.Lit "K") (regexp.Lit "G"))))).

Definition ValidateProductCode (code : string) : option Error :=
  if String.eqb code "" then
    Some (NewValidationError "product_code" "cannot be empty")
  else if negb (productCodeRegex_MatchString code) then
    Some (NewValidationError "product_code"
            "invalid format (expected: 123456_ST or 123456_KG)")
  else None.

Definition ValidateQuantity (quantity : Z) : option Error :=
  if quantity <? 1 then Some (NewValidationError "quantity" "must be at least 1")
  else if 999 <? quantity then Some (NewValidationError "quantity" "max 999")
  else None.

Definition maxAddressLength : nat := 100.
Definition maxNameLength : nat := 50.
Definition maxCityLength : nat := 50.
Definition maxDoorCodeLength : nat := 20.
Definition maxMessageLength : nat := 500.

Record DeliveryAddress : Type := {
  FirstName : string;
  LastName : string;
  Address : string;
  PostalCode : string;
  City : string;
  DoorCode : string;
  MessageToDriver : string;
}.

Section Validation.
Context `{GoLib}.

(** [fmt.Sprintf("max %d characters", n)] *)
Definition max_characters (n : nat) : string :=
  "max " ++ Sprintf_d (Z.of_nat n) ++ " characters".

Definition ValidateDeliveryAddress (address : DeliveryAddress) : option Error :=
  if String.eqb (FirstName address) "" then
    Some (NewValidationError "first_name" "required")
  else if (maxNameLength <? String.length (FirstName address))%nat then
    Some (NewValidationError "first_name" (max_characters maxNameLength))
  else if String.eqb (LastName address) "" then
    Some (NewValidationError "last_name" "required")
  else if (maxNameLength <? String.length (LastName address))%nat then
    Some (NewValidationError "last_name" (max_characters maxNameLength))
  else if String.eqb (Address address) "" then
    Some (NewValidationError "address" "required")
  else if (maxAddressLength <? String.length (Address address))%nat then
    Some (NewValidationError "address" (max_characters maxAddressLength))
  else if String.eqb (City address) "" then
    Some (NewValidationError "city" "required")
  else if (maxCityLength <? String.length (City address))%nat then
    Some (NewValidationError "city" (max_characters maxCityLength))
  else if (maxDoorCodeLength <? String.length (DoorCode address))%nat then
    Some (NewValidationError "door_code" (max_characters maxDoorCodeLength))
  else if (maxMessageLength <? String.length (MessageToDriver address))%nat then
    Some (NewValidationError "message_to_driver" (max_characters maxMessageLength))
  else
    match ValidatePostalCode (PostalCode address) with
    | Some err => Some err
    | None => None
    end.

End Validation.

(* ===================================================================== *)
(** * Package [net/url]: [url.Values] with [Set] and [Encode]             *)
(* ===================================================================== *)

Module url.

(** A [url.Values] on which only [Set] is used: one value for a key. *)
Definition Values : Type := list (string * string).

Definition Set_ (key val : string) (v : Values) : Values :=
  (List.filter (fun kv => negb (String.eqb (fst kv) key)) v ++ [(key, val)])%list.

(** The order of Go strings: bytes compared as numbers. *)
Fixpoint string_ltb (a b : string) : bool :=
  match a, b with
  | _, EmptyString => false
  | EmptyString, String _ _ => true
  | String x a', String y b' =>
      (nat_of_ascii x <? nat_of_ascii y)%nat
      || (Ascii.eqb x y && string_ltb a' b')
  end.

Fixpoint insert_sorted (kv : string * string) (v : Values) : Values :=
  match v with
  | [] => [kv]
  | kv' :: rest =>
      if string_ltb (fst kv) (fst kv') then kv :: v
      else kv' :: insert_sorted kv rest
  end.

Definition sort_keys (v : Values) : Values := fold_right insert_sorted [] v.

Section Encode.
Context `{GoLib}.

Fixpoint join (v : Values) : string :=
  match v with
  | [] => ""
  | [(k, x)] => QueryEscape k ++ "=" ++ QueryEscape x
  | (k, x) :: rest => QueryEscape k ++ "=" ++ QueryEscape x ++ "&" ++ join rest
  end.

(** [v.Encode()]: ["k=v"] pairs, escaped, in the order of the keys. *)
Definition Encode (v : Values) : string := join (sort_keys v).

End Encode.

End url.

(* ===================================================================== *)
(** * cart.go and delivery.go: the cart and the delivery set-up           *)
(* ===================================================================== *)

Definition EndpointCustomer : string := "/axfood/rest/customer".
Definition EndpointCart : string := "/axfood/rest/cart".
Definition EndpointCartAddProducts : string := "/axfood/rest/cart/addProducts".
Definition EndpointCartDeliveryMode : string :=
  "/axfood/rest/cart/delivery-mode/homeDelivery".
Definition EndpointCartDeliveryAddress : string := "/axfood/rest/cart/delivery-address".
Definition EndpointCartPostalCode : string := "/axfood/rest/cart/postal-code".
Definition EndpointShippingDelivery : string := "/axfood/rest/shipping/delivery".
Definition EndpointCheckout : string := "/kassa".

Definition StatusNotFound : Z := 404.

Definition DefaultPickingFee : float := 59%float.

(** Go's [int] on the 64-bit targets: arithmetic wraps around. *)
Definition wrap_int (z : Z) : Z := (z + 2 ^ 63) mod 2 ^ 64 - 2 ^ 63.

(** [float64(n)] for an [int]: the nearest [float64], ties to even. *)
Definition float64_of_int (n : Z) : float :=
  if n =? - 2 ^ 63 then (- 9223372036854775808)%float
  else if n <? 0 then (- PrimFloat.of_uint63 (Uint63.of_Z (- n)))%float
  else PrimFloat.of_uint63 (Uint63.of_Z n).

Module CartItem.
Record t : Type := {
  ProductCode : string;
  Name : string;
  Quantity : Z;
  Price : float;
  TotalPrice : float;
  ImageURL : string;
}.
End CartItem.

Module CartSummary.
Record t : Type := {
  Items : list CartItem.t;
  TotalPrice : float;
  ItemCount : Z;
  DeliveryFee : float;
  PickingFee : float;
  FinalTotal : float;
}.
End CartSummary.

Module AddToCartRequestProduct.
Record t : Type := {
  ProductCodePost : string;
  Qty : Z;
  PickUnit : string;
  HideDiscountToolTip : bool;
  NoReplacementFlag : bool;
}.
End AddToCartRequestProduct.

Module AddToCartRequest.
Record t : Type := { Products : list AddToCartRequestProduct.t }.
End AddToCartRequest.

Module CartProductData.
Record t : Type := {
  Code : string;
  Name : string;
  Quantity : Z;
  Price : FlexiblePrice;
  ImageURL : string;
}.
End CartProductData.

Module CartResponseData.
Record t : Type := {
  Products : list CartProductData.t;
  TotalPrice : FlexiblePrice;
  DeliveryFee : FlexiblePrice;
  PickingFee : FlexiblePrice;
}.
End CartResponseData.

Module CustomerInfo.
Record t : Type := {
  CustomerID : string;
  Email : string;
  FirstName : string;
  LastName : string;
  PhoneNumber : string;
  PlusCustomer : bool;
}.
End CustomerInfo.

Module DeliveryInfo.
Record t : Type := {
  Address : DeliveryAddress;
  TimeSlot : TimeSlot;
  PickingFee : float;
  DeliveryFee : float;
  TotalFee : float;
}.
End DeliveryInfo.

(** The [encoding/json] codecs at the types of cart.go, delivery.go and
    auth.go; an error of a codec is [None]. *)
Class Codec : Type := {
  Marshal_AddToCartRequest : AddToCartRequest.t -> option string;
  Unmarshal_CartResponseData : string -> option CartResponseData.t;
  Decode_deliverable : string -> option bool;
  Decode_CustomerInfo : string -> option CustomerInfo.t;
}.

(** The error a codec returns. *)
Definition json_error : Error := Errorf "json" None.

Section CartDelivery.
Context {World : Type} `{GoLib} `{Network World} `{Codec}.

Local Notation "x <- m ;; k" := (bind m (fun x => k))
  (at level 100, m at next level, right associativity).
Local Notation "m ;;; k" := (bind m (fun _ => k))
  (at level 100, right associativity).

(** auth.go: [GetCustomerInfo] *)
Definition GetCustomerInfo (ctx : option (Context World)) : M World CustomerInfo.t :=
  resp <- catch (fun err => NewAPIError 0 EndpointCustomer "failed to get customer info"
                              (Some err))
      (DoRequest ctx "GET" EndpointCustomer None false) ;;
  if StatusCode resp =? StatusUnauthorized then
    fail (NewAuthenticationError "not authenticated" None)
  else if negb (StatusCode resp =? StatusOK) then
    fail (NewAPIError (StatusCode resp) EndpointCustomer "get customer info failed" None)
  else
    match Body resp with
    | None =>
        fail (NewAPIError (StatusCode resp) EndpointCustomer
                "failed to decode customer info" (Some json_error))
    | Some body =>
        match Decode_CustomerInfo body with
        | None =>
            fail (NewAPIError (StatusCode resp) EndpointCustomer
                    "failed to decode customer info" (Some json_error))
        | Some customerInfo => ret customerInfo
        end
    end.

(** The loop of [GetCart] over the products of the response. *)
Fixpoint cart_loop (products : list CartProductData.t) (items : list CartItem.t)
  (itemCount : Z) : list CartItem.t * Z :=
  match products with
  | [] => (items, itemCount)
  | product :: rest =>
      let itemPrice := parsePrice (value (CartProductData.Price product)) in
      let cartItem :=
        {| CartItem.ProductCode := CartProductData.Code product;
           CartItem.Name := CartProductData.Name product;
           CartItem.Quantity := CartProductData.Quantity product;
           CartItem.Price := itemPrice;
           CartItem.TotalPrice :=
             (itemPrice * float64_of_int (CartProductData.Quantity product))%float;
           CartItem.ImageURL := CartProductData.ImageURL product |} in
      cart_loop rest (items ++ [cartItem])%list
        (wrap_int (itemCount + CartProductData.Quantity product))
  end.

(** The part of [GetCart] after the response is decoded. *)
Definition summarize (cartData : CartResponseData.t) : CartSummary.t :=
  let totalPrice := parsePrice (value (CartResponseData.TotalPrice cartData)) in
  let deliveryFee := parsePrice (value (CartResponseData.DeliveryFee cartData)) in
  let pickingFee := parsePrice (value (CartResponseData.PickingFee cartData)) in
  let '(items, itemCount) := cart_loop (CartResponseData.Products cartData) [] 0 in
  let finalTotal := (totalPrice + deliveryFee + pickingFee)%float in
  {| CartSummary.Items := items;
     CartSummary.TotalPrice := totalPrice;
     CartSummary.ItemCount := itemCount;
     CartSummary.DeliveryFee := deliveryFee;
     CartSummary.PickingFee := pickingFee;
     CartSummary.FinalTotal := finalTotal |}.

Definition GetCart (ctx : option (Context World)) : M World CartSummary.t :=
  resp <- catch (fun err => NewAPIError 0 EndpointCart "get cart request failed" (Some err))
      (DoRequest ctx "GET" EndpointCart None false) ;;
  if negb (StatusCode resp =? StatusOK) then
    fail (NewAPIError (StatusCode resp) EndpointCart "get cart failed" None)
  else
    match Body resp with
    | None =>
        fail (NewAPIError (StatusCode resp) EndpointCart
                "failed to read cart response" (Some json_error))
    | Some body =>
        match Unmarshal_CartResponseData body with
        | None =>
            fail (NewAPIError (StatusCode resp) EndpointCart
                    "failed to parse cart response" (Some json_error))
        | Some cartData => ret (summarize cartData)
        end
    end.

(** The request body of [AddToCart] and [RemoveFromCart]. *)
Definition cart_request (productCode : string) (qty : Z) : AddToCartRequest.t :=
  {| AddToCartRequest.Products :=
       [ {| AddToCartRequestProduct.ProductCodePost := productCode;
            AddToCartRequestProduct.Qty := qty;
            AddToCartRequestProduct.PickUnit := "pieces";
            AddToCartRequestProduct.HideDiscountToolTip := false;
            AddToCartRequestProduct.NoReplacementFlag := false |} ] |}.

Definition AddToCart (ctx : option (Context World)) (productCode : string)
  (quantity : Z) : M World CartSummary.t :=
  match ValidateProductCode productCode with
  | Some err => fail err
  | None =>
      match ValidateQuantity quantity with
      | Some err => fail err
      | None =>
          match Marshal_AddToCartRequest (cart_request productCode quantity) with
          | None =>
              fail (NewAPIError 0 EndpointCartAddProducts
                      "failed to marshal add to cart request" (Some json_error))
          | Some jsonData =>
              resp <- catch (fun err => NewAPIError 0 EndpointCartAddProducts
                                          "add to cart request failed" (Some err))
                  (DoRequest ctx "POST" EndpointCartAddProducts (Some jsonData) true) ;;
              if StatusCode resp =? StatusNotFound then
                fail (NewNotFoundError "product" productCode)
              else if negb (StatusCode resp =? StatusOK)
                      && negb (StatusCode resp =? StatusCreated) then
                fail (NewAPIError (StatusCode resp) EndpointCartAddProducts
                        "add to cart failed" None)
              else GetCart ctx
          end
      end
  end.

(** The search of [RemoveFromCart] for the product: the quantity of the
    first item with the code. *)
Fixpoint find_quantity (productCode : string) (items : list CartItem.t)
  : option Z :=
  match items with
  | [] => None
  | item :: rest =>
      if String.eqb (CartItem.ProductCode item) productCode
      then Some (CartItem.Quantity item)
      else find_quantity productCode rest
  end.

(** The second half of [RemoveFromCart]: post the new quantity and read
    the cart. *)
Definition post_quantity (ctx : option (Context World)) (productCode : string)
  (newQty : Z) : M World CartSummary.t :=
  match Marshal_AddToCartRequest (cart_request productCode newQty) with
  | None =>
      fail (NewAPIError 0 EndpointCartAddProducts
              "failed to marshal remove from cart request" (Some json_error))
  | Some jsonData =>
      resp <- catch (fun err => NewAPIError 0 EndpointCartAddProducts
                                  "remove from cart request failed" (Some err))
          (DoRequest ctx "POST" EndpointCartAddProducts (Some jsonData) true) ;;
      if negb (StatusCode resp =? StatusOK) && negb (StatusCode resp =? StatusCreated)
      then fail (NewAPIError (StatusCode resp) EndpointCartAddProducts
                   "remove from cart failed" None)
      else GetCart ctx
  end.

Definition RemoveFromCart (ctx : option (Context World)) (productCode : string)
  (quantity : Z) : M World CartSummary.t :=
  if quantity <=? 0 then post_quantity ctx productCode 0
  else
    currentCart <- GetCart ctx ;;
    match find_quantity productCode (CartSummary.Items currentCart) with
    | None => ret currentCart
    | Some currentQty =>
        post_quantity ctx productCode (Z.max (wrap_int (currentQty - quantity)) 0)
    end.

Definition ClearCart (ctx : option (Context World)) : M World unit :=
  resp <- catch (fun err => NewAPIError 0 EndpointCart "clear cart request failed" (Some err))
      (DoRequest ctx "DELETE" EndpointCart None true) ;;
  if negb (StatusCode resp =? StatusOK) && negb (StatusCode resp =? StatusNoContent)
  then fail (NewAPIError (StatusCode resp) EndpointCart "clear cart failed" None)
  else ret tt.

Definition CheckDeliverability_path (postalCode : string) : string :=
  EndpointShippingDelivery ++ "/" ++ postalCode ++ "/deliverability?b2b=false".

Definition CheckDeliverability (ctx : option (Context World)) (postalCode : string)
  : M World bool :=
  match ValidatePostalCode postalCode with
  | Some err => fail err
  | None =>
      let path := CheckDeliverability_path postalCode in
      resp <- catch (fun err => NewAPIError 0 path "check deliverability request failed"
                                  (Some err))
          (DoRequest ctx "GET" path None false) ;;
      if negb (StatusCode resp =? StatusOK) then ret false
      else
        match Body resp with
        | None =>
            fail (NewAPIError (StatusCode resp) path
                    "failed to parse deliverability response" (Some json_error))
        | Some body =>
            match Decode_deliverable body with
            | None =>
                fail (NewAPIError (StatusCode resp) path
                        "failed to parse deliverability response" (Some json_error))
            | Some deliverable => ret deliverable
            end
        end
  end.

Definition SetDeliveryMode_path : string :=
  EndpointCartDeliveryMode ++ "?newSuggestedStoreId=".

Definition SetDeliveryMode (ctx : option (Context World)) : M World unit :=
  let path := SetDeliveryMode_path in
  resp <- catch (fun err => NewAPIError 0 path "set delivery mode request failed" (Some err))
      (DoRequest ctx "POST" path None true) ;;
  if negb (StatusCode resp =? StatusOK) && negb (StatusCode resp =? StatusNoContent)
  then fail (NewAPIError (StatusCode resp) path "set delivery mode failed" None)
  else ret tt.

(** The query parameters of [SetDeliveryAddress]. *)
Definition address_params (address : DeliveryAddress) : url.Values :=
  let params := [] in
  let params := url.Set_ "firstName" (FirstName address) params in
  let params := url.Set_ "lastName" (LastName address) params in
  let params := url.Set_ "addressLine1" (Address address) params in
  let params := url.Set_ "addressLine2" "" params in
  let params := url.Set_ "postalCode" (PostalCode address) params in
  let params := url.Set_ "town" (City address) params in
  let params := url.Set_ "cellphone" "" params in
  let params := url.Set_ "longitude" "" params in
  let params := url.Set_ "latitude" "" params in
  let params :=
    if negb (String.eqb (DoorCode address) "")
    then url.Set_ "doorCode" (DoorCode address) params else params in
  if negb (String.eqb (MessageToDriver address) "")
  then url.Set_ "messageToDriver" (MessageToDriver address) params else params.

Definition SetDeliveryAddress_path (address : DeliveryAddress) : string :=
  EndpointCartDeliveryAddress ++ "?" ++ url.Encode (address_params address).

Definition postalPath (address : DeliveryAddress) : string :=
  EndpointCartPostalCode ++ "?postalCode=" ++ PostalCode address.

Definition SetDeliveryAddress (ctx : option (Context World))
  (address : DeliveryAddress) : M World unit :=
  match ValidateDeliveryAddress address with
  | Some err => fail err
  | None =>
      let path := SetDeliveryAddress_path address in
      resp <- catch (fun err => NewAPIError 0 path "set delivery address request failed"
                                  (Some err))
          (DoRequest ctx "POST" path None true) ;;
      if negb (StatusCode resp =? StatusOK) && negb (StatusCode resp =? StatusNoContent)
      then fail (NewAPIError (StatusCode resp) path "set delivery address failed" None)
      else
        let postalPath := postalPath address in
        postalResp <- catch (fun err => NewAPIError 0 postalPath
                                          "set postal code request failed" (Some err))
            (DoRequest ctx "POST" postalPath None true) ;;
        if negb (StatusCode postalResp =? StatusOK)
           && negb (StatusCode postalResp =? StatusNoContent)
        then fail (NewAPIError (StatusCode postalResp) postalPath
                     "set postal code failed" None)
        else ret tt
  end.

Definition GetCheckoutURL : M World string :=
  c <- getClient ;; ret (baseURL c ++ EndpointCheckout).

Definition SetupDelivery (ctx : option (Context World)) (address : DeliveryAddress)
  (slot : TimeSlot) : M World DeliveryInfo.t :=
  available <- CheckDeliverability ctx (PostalCode address) ;;
  if negb available then
    fail (NewValidationError "postal_code"
            ("delivery not available for postal code " ++ PostalCode address))
  else
    SetDeliveryMode ctx ;;;
    SetDeliveryAddress ctx address ;;;
    SelectTimeSlot ctx slot ;;;
    ret {| DeliveryInfo.Address := address;
           DeliveryInfo.TimeSlot := slot;
           DeliveryInfo.PickingFee := DefaultPickingFee;
           DeliveryInfo.DeliveryFee := Fee slot;
           DeliveryInfo.TotalFee := (DefaultPickingFee + Fee slot)%float |}.

End CartDelivery.

(* ===================================================================== *)
(** * tools.go: the choice of the slot in [SelectDeliveryTime]            *)
(* ===================================================================== *)

(** [getStringField(m, key)] *)
Definition getStringField (m : list (string * any)) (key : string) : string :=
  match map_lookup key m with
  | Some (Str val) => val
  | _ => ""
  end.

(** The loop that sets [matchedSlot]: the first slot of the date with the
    start and end times that is available. *)
Fixpoint matchedSlot (availableSlots : list TimeSlot)
  (deliveryDate startTime endTime : string) : option TimeSlot :=
  match availableSlots with
  | [] => None
  | slot :: rest =>
      if String.eqb (Date slot) deliveryDate && String.eqb (StartTime slot) startTime
         && String.eqb (EndTime slot) endTime && Available slot
      then Some slot
      else matchedSlot rest deliveryDate startTime endTime
  end.

(* ===================================================================== *)
(** * The vocabulary of the cart statements                               *)
(* ===================================================================== *)

Definition all_digits (s : string) : bool :=
  forallb time.isDigit (list_ascii_of_string s).

Section CartVocabulary.
Context {World : Type} `{GoLib} `{Network World} `{Codec}.



(** A request to the add-products endpoint is a POST whose body is the
    marshalled request for [code] with a quantity that satisfies [ok]. *)
Definition posts_quantity (base code : string) (ok : Z -> Prop) (ev : Event)
  : Prop :=
  match ev with
  | EvSend req =>
      URL req = base ++ EndpointCartAddProducts ->
      Method req = "POST"
      /\ exists n, ok n
                   /\ Marshal_AddToCartRequest (cart_request code n)
                      = Some (RequestBody req)
  | EvLogin => True
  end.

End CartVocabulary.

(** A slot is the one asked for: date, start, end, and available. *)
Definition slot_matches (deliveryDate startTime endTime : string) (slot : TimeSlot)
  : Prop :=
  Date slot = deliveryDate /\ StartTime slot = startTime
  /\ EndTime slot = endTime /\ Available slot = true.

(* ===================================================================== *)
(** * A sample shop                                                       *)
(* ===================================================================== *)

Module shop.

Definition cartData : CartResponseData.t :=
  {| CartResponseData.Products :=
       [ {| CartProductData.Code := "101_ST"; CartProductData.Name := "Mjolk";
            CartProductData.Quantity := 2;
            CartProductData.Price := {| value := Str "12.50" |};
            CartProductData.ImageURL := "" |} ];
     CartResponseData.TotalPrice := {| value := Float64 25 |};
     CartResponseData.DeliveryFee := {| value := Map [("value", Float64 99)] |};
     CartResponseData.PickingFee := {| value := Nil |} |}.

Definition codec : Codec :=
  {| Marshal_AddToCartRequest := fun r =>
       match AddToCartRequest.Products r with
       | [p] => Some (AddToCartRequestProduct.ProductCodePost p ++ "x"
                      ++ (if AddToCartRequestProduct.Qty p =? 0 then "0" else "n"))
       | _ => None
       end;
     Unmarshal_CartResponseData := fun body =>
       if String.eqb body "cart" then Some cartData else None;
     Decode_deliverable := fun body =>
       if String.eqb body "yes" then Some true
       else if String.eqb body "no" then Some false else None;
     Decode_CustomerInfo := fun _ => None |}.

(** A service that answers every endpoint of the cart and of the delivery
    set-up with 200, and the deliverability check with the status given. *)
Definition service (deliverability : Z) (req : Request) (n : nat)
  : Error + Response :=
  if String.eqb (URL req) (sample.base ++ EndpointCSRFToken)
  then sample.answer 200 (scripted.quote ++ "tok" ++ scripted.quote)
  else if String.eqb (URL req) (sample.base ++ EndpointCart)
  then sample.answer 200 "cart"
  else if strings.HasPrefix (URL req) (sample.base ++ EndpointShippingDelivery)
  then sample.answer deliverability "yes"
  else if strings.HasPrefix (URL req) (sample.base ++ "/axfood/rest/")
  then sample.answer 200 ""
  else sample.answer 404 "".

Definition network (deliverability : Z) : Network nat :=
  scripted.network (service deliverability) (fun _ => None) (fun _ => None).

Definition address : DeliveryAddress :=
  {| FirstName := "Anna"; LastName := "Berg"; Address := "Storgatan 1";
     PostalCode := "111 51"; City := "Stockholm"; DoorCode := "";
     MessageToDriver := "" |}.

End shop.

(* ===================================================================== *)
(** * The vocabulary of the order of a sorted slice                       *)
(* ===================================================================== *)

Module sort_order.
Local Open Scope nat_scope.

Section Order.
Context {A : Type} (less : A -> A -> bool).

(** Every element at an index from [a] to [b - 1] satisfies [P]. *)
Definition all_range (a b : nat) (P : A -> Prop) (l : list A) : Prop :=
  forall k x, a <= k < b -> l !! k = Some x -> P x.

(** No element at an index from [a] to [b - 1] is less than one before
    it in that range. *)
Definition sorted_range (a b : nat) (l : list A) : Prop :=
  forall i j x y, a <= i -> i < j -> j < b ->
                  l !! i = Some x -> l !! j = Some y -> less y x = false.

(** The element before the range, if there is one, is not greater than
    any element of the range. *)
Definition lower_bound (a b : nat) (l : list A) : Prop :=
  forall v, 0 < a -> l !! (a - 1) = Some v ->
            all_range a b (fun x => less x v = false) l.

Definition sorted (l : list A) : Prop := sorted_range 0 (length l) l.

(** Where [data.Swap(i, j)] takes the element at index [k] from. *)
Definition swap_idx (i j k : nat) : nat :=
  if decide (k = i) then j else if decide (k = j) then i else k.

(** The invariant of the inner loop of the insertion sort: the element at
    [j] is on its way down; every other pair up to [m] is in order. *)
Definition inserting (a j m : nat) (l : list A) : Prop :=
  forall p q x y, a <= p -> p < q -> q <= m -> q <> j ->
                  l !! p = Some x -> l !! q = Some y -> less y x = false.

(** The side of the pivot value [v] an element is on, as the scans of
    the partitions test it. *)
Definition side (flip : bool) (v x : A) : bool :=
  if flip then less v x else less x v.

(** The heap of [heapSort]: the node [c] is a child of the node [p];
    nodes are counted from [first]. *)
Definition child (p c : nat) : Prop := c = 2 * p + 1 \/ c = 2 * p + 2.

Definition dominated (first p c : nat) (l : list A) : Prop :=
  forall x y, l !! (first + p) = Some x -> l !! (first + c) = Some y ->
              less x y = false.

(** No node from [lo] on is less than a child of it below [hi]. *)
Definition heap_from (first lo hi : nat) (l : list A) : Prop :=
  forall p c, lo <= p -> c < hi -> child p c -> dominated first p c l.

(** The same, but for the node [r], which is being sifted down: the
    parent of [r] is not less than the children of [r]. *)
Definition heap_except (first lo hi r : nat) (l : list A) : Prop :=
  (forall p c, lo <= p -> c < hi -> child p c -> p <> r -> dominated first p c l)
  /\ (forall p c, lo <= p -> c < hi -> child p r -> child r c ->
                  dominated first p c l).

End Order.
End sort_order.

(* ===================================================================== *)
(** * products.go: the keys of the sort stage                             *)
(* ===================================================================== *)

Section Keys.
Context `{GoLib}.
(** The key the comparison of [sortProducts] reads is a number: the
    compare price for [cheapest] and [highest_quality], the value score
    for [best_value]; no key is read for any other [SortBy]. *)
Definition sort_key_defined (prefs : SearchPreferences) (p : Product) : Prop :=
  if String.eqb (SortBy prefs) "cheapest" then
    PrimFloat.is_nan (parseComparePriceToFloat (ComparePrice p)) = false
  else if String.eqb (SortBy prefs) "best_value" then
    PrimFloat.is_nan (calculateValueScore p) = false
  else if String.eqb (SortBy prefs) "highest_quality" then
    PrimFloat.is_nan (parseComparePriceToFloat (ComparePrice p)) = false
  else True.
End Keys.

(* ===================================================================== *)
(** * The sign of a [float64]                                             *)
(* ===================================================================== *)

Module float64_sign.

(** A number that is not NaN and not below zero. *)
Definition nonneg (f : spec_float) : Prop :=
  match f with
  | S754_zero _ => True
  | S754_infinity s => s = false
  | S754_finite s _ _ => s = false
  | S754_nan => False
  end.

(** The result of a rounding has the sign given, and is not NaN. *)
Definition signed (sx : bool) (f : spec_float) : Prop :=
  match f with
  | S754_zero s | S754_infinity s | S754_finite s _ _ => s = sx
  | S754_nan => False
  end.

End float64_sign.

(* ===================================================================== *)
(** * The order of [float64]                                             *)
(* ===================================================================== *)

Module float64.

Lemma SFltb_rank (x y : spec_float) :
  x <> S754_nan -> y <> S754_nan ->
  (SFltb x y = true <-> float64_order.lex_lt (float64_order.rank x) (float64_order.rank y)).
Proof.
  intros Hx Hy. unfold SFltb, SFcompare, float64_order.lex_lt.
  destruct x as [sx|sx| |sx mx ex], y as [sy|sy| |sy my ey]; try congruence;
    try destruct sx; try destruct sy; cbn [float64_order.rank];
    try (split; [intros; try discriminate; lia | intros; try reflexivity; lia]).
  - destruct (Z.compare_spec ex ey).
    + subst. unfold Pos.compare_cont. fold (Pos.compare_cont Eq mx my).
      change (Pos.compare_cont Eq mx my) with (Pos.compare mx my).
      destruct (Pos.compare_spec mx my); cbn; split; intros; try discriminate; try reflexivity; lia.
    + split; intros; try discriminate; lia.
    + split; intros; try discriminate; try reflexivity; lia.
  - destruct (Z.compare_spec ex ey).
    + subst. change (Pos.compare_cont Eq mx my) with (Pos.compare mx my).
      destruct (Pos.compare_spec mx my); cbn; split; intros; try discriminate; try reflexivity; lia.
    + split; intros; try discriminate; try reflexivity; lia.
    + split; intros; try discriminate; lia.
Qed.

Lemma nan_dec (f : spec_float) : {f = S754_nan} + {f <> S754_nan}.
Proof. destruct f; (left; reflexivity) || (right; discriminate). Qed.

Lemma is_nan_false (x : float) :
  PrimFloat.is_nan x = false <-> Prim2SF x <> S754_nan.
Proof.
  unfold PrimFloat.is_nan. rewrite FloatAxioms.eqb_spec. unfold SFeqb, SFcompare.
  destruct (Prim2SF x) as [s|s| |s m e]; try destruct s; cbn;
    try (split; [intros _; discriminate | reflexivity]).
  - split; [discriminate | congruence].
  - rewrite Z.compare_refl. change (Pos.compare_cont Eq m m) with (Pos.compare m m).
    rewrite Pos.compare_refl. cbn. split; [intros _; discriminate | reflexivity].
  - rewrite Z.compare_refl. change (Pos.compare_cont Eq m m) with (Pos.compare m m).
    rewrite Pos.compare_refl. cbn. split; [intros _; discriminate | reflexivity].
Qed.

Lemma ltb_nan_l (x y : float) : Prim2SF x = S754_nan -> PrimFloat.ltb x y = false.
Proof. intros E. rewrite FloatAxioms.ltb_spec, E. reflexivity. Qed.

Lemma ltb_nan_r (x y : float) : Prim2SF y = S754_nan -> PrimFloat.ltb x y = false.
Proof.
  intros E. rewrite FloatAxioms.ltb_spec, E. unfold SFltb, SFcompare.
  destruct (Prim2SF x); reflexivity.
Qed.

(** [<] is asymmetric. *)
Lemma ltb_asym (x y : float) :
  PrimFloat.ltb x y = true -> PrimFloat.ltb y x = false.
Proof.
  intros Hxy.
  destruct (nan_dec (Prim2SF x)) as [E|Hx];
    [rewrite (ltb_nan_l x y E) in Hxy; discriminate|].
  destruct (nan_dec (Prim2SF y)) as [E|Hy];
    [rewrite (ltb_nan_r x y E) in Hxy; discriminate|].
  rewrite FloatAxioms.ltb_spec in *.
  apply (SFltb_rank _ _ Hx Hy) in Hxy.
  destruct (SFltb (Prim2SF y) (Prim2SF x)) eqn:E; [|reflexivity].
  apply (SFltb_rank _ _ Hy Hx) in E.
  unfold float64_order.lex_lt in *.
  destruct (float64_order.rank (Prim2SF x)) as [[? ?] ?], (float64_order.rank (Prim2SF y)) as [[? ?] ?]. lia.
Qed.

(** "Not less than" is transitive through a number that is not NaN. *)
Lemma ltb_negtrans (x y z : float) :
  PrimFloat.is_nan y = false ->
  PrimFloat.ltb x y = false -> PrimFloat.ltb y z = false ->
  PrimFloat.ltb x z = false.
Proof.
  intros Hy%is_nan_false Hxy Hyz.
  destruct (nan_dec (Prim2SF x)) as [E|Hx]; [exact (ltb_nan_l x z E)|].
  destruct (nan_dec (Prim2SF z)) as [E|Hz]; [exact (ltb_nan_r x z E)|].
  rewrite FloatAxioms.ltb_spec in *.
  destruct (SFltb (Prim2SF x) (Prim2SF z)) eqn:E; [|reflexivity].
  apply (SFltb_rank _ _ Hx Hz) in E.
  assert (~ float64_order.lex_lt (float64_order.rank (Prim2SF x)) (float64_order.rank (Prim2SF y))) as N1
    by (rewrite <- (SFltb_rank _ _ Hx Hy), Hxy; discriminate).
  assert (~ float64_order.lex_lt (float64_order.rank (Prim2SF y)) (float64_order.rank (Prim2SF z))) as N2
    by (rewrite <- (SFltb_rank _ _ Hy Hz), Hyz; discriminate).
  unfold float64_order.lex_lt in *.
  destruct (float64_order.rank (Prim2SF x)) as [[? ?] ?], (float64_order.rank (Prim2SF y)) as [[? ?] ?],
    (float64_order.rank (Prim2SF z)) as [[? ?] ?]. lia.
Qed.

End float64.

(* ===================================================================== *)
(** * Validators                                                          *)
(* ===================================================================== *)

(** C9: [ValidateTimeSlot("15:00-17:00")] returns ("15:00", "17:00") and no
    error; ["17:00-15:00"] is a [ValidationError] because the end time, though
    well-formed, is not after the start time; ["9:00-10:00"] is a
    [ValidationError] because the regular expression rejects the hour that is
    not zero-padded. *)
Theorem ValidateTimeSlot_examples :
  ValidateTimeSlot "15:00-17:00" = ("15:00", "17:00", None)
  /\ (ValidateTimeSlot "17:00-15:00"
      = ("", "", Some (ValidationError "time_slot" "end time must be after start time"))
      /\ regexp.MatchString timeFormatRegex "17:00" = true
      /\ regexp.MatchString timeFormatRegex "15:00" = true
      /\ time.After (time.Parse_15_04_value "15:00") (time.Parse_15_04_value "17:00")
         = false)
  /\ (ValidateTimeSlot "9:00-10:00"
      = ("", "", Some (ValidationError "time_slot" "invalid start time: 9:00"))
      /\ regexp.MatchString timeFormatRegex "9:00" = false
      /\ IsValidationError (ValidationError "time_slot" "invalid start time: 9:00") = true).
Proof. repeat split; vm_compute; reflexivity. Qed.

(* ===================================================================== *)
(** * Price coercion                                                      *)
(* ===================================================================== *)

Section CartFacts.
Context `{GoLib}.

Lemma parsePrice_Map (m : list (string * any)) :
  parsePrice (Map m)
  = match map_lookup "value" m with
    | Some valueField => parsePrice valueField
    | None => 0%float
    end.
Proof.
  induction m as [|[k v] m IH]; [reflexivity|].
  cbn [map_lookup]. cbn [parsePrice].
  destruct (String.eqb k "value"); [reflexivity|].
  exact IH.
Qed.

(** C7: [parsePrice] returns a bare number as it is, a bare string as
    [strconv.ParseFloat] reads it, and an object with a [value] field as the
    coercion of that field; a missing value ([nil]), an empty string, a
    string [ParseFloat] reports an error for, an object without [value], a
    boolean and an array give 0. *)
Theorem parsePrice_coercion :
  (forall f, parsePrice (Float64 f) = f)
  /\ (forall s,
        parsePrice (Str s)
        = if String.eqb s "" then 0%float
          else match snd (ParseFloat s) with
               | None => fst (ParseFloat s)
               | Some _ => 0%float
               end)
  /\ (forall m,
        parsePrice (Map m)
        = match map_lookup "value" m with
          | Some valueField => parsePrice valueField
          | None => 0%float
          end)
  /\ parsePrice Nil = 0%float
  /\ (forall b, parsePrice (Bool b) = 0%float)
  /\ (forall l, parsePrice (Slice l) = 0%float)
  /\ parsePrice (value FlexiblePrice_zero) = 0%float.
Proof.
  repeat split; try reflexivity.
  - intros s. cbn [parsePrice]. destruct (String.eqb s ""); [reflexivity|].
    destruct (ParseFloat s) as [price [e|]]; reflexivity.
  - apply parsePrice_Map.
Qed.

End CartFacts.

(* ===================================================================== *)
(** * The ranking engine: filter stage and value score                    *)
(* ===================================================================== *)

Section RankingFacts.
Context `{GoLib}.

Lemma found_label_existsb (req : string) (labels : list string) :
  found_label req labels = existsb (fun label => strings.Contains label req) labels.
Proof.
  induction labels as [|l labels IH]; [reflexivity|].
  cbn. destruct (strings.Contains l req); [reflexivity|exact IH].
Qed.

Lemma hasAllRequired_forallb (required labels : list string) :
  hasAllRequired required labels
  = forallb (fun req => existsb (fun label => strings.Contains label req) labels)
      required.
Proof.
  induction required as [|r required IH]; [reflexivity|].
  cbn. rewrite found_label_existsb.
  destruct (existsb _ labels); [exact IH|reflexivity].
Qed.

Lemma existsb_map_in {A B} (f : A -> B) (q : B -> bool) (l : list A) :
  existsb q (map f l) = existsb (fun x => q (f x)) l.
Proof. induction l as [|x l IH]; [reflexivity|]. cbn. rewrite IH. reflexivity. Qed.

Lemma forallb_map_in {A B} (f : A -> B) (q : B -> bool) (l : list A) :
  forallb q (map f l) = forallb (fun x => q (f x)) l.
Proof. induction l as [|x l IH]; [reflexivity|]. cbn. rewrite IH. reflexivity. Qed.

Lemma hasAllRequired_satisfies (prefs : SearchPreferences) (p : Product) :
  hasAllRequired (map ToLower (RequiredLabels prefs)) (map ToLower (Labels p))
  = satisfiesRequired prefs p.
Proof.
  rewrite hasAllRequired_forallb, forallb_map_in. unfold satisfiesRequired.
  induction (RequiredLabels prefs) as [|req required IH]; [reflexivity|].
  cbn [forallb]. rewrite IH, existsb_map_in. reflexivity.
Qed.

Lemma keepProduct_ceiling (prefs : SearchPreferences) (p : Product) :
  PrimFloat.ltb 0 (MaxPricePerUnit prefs) = true ->
  keepProduct prefs (map ToLower (RequiredLabels prefs)) p
  = withinCeiling prefs p && satisfiesRequired prefs p.
Proof.
  intros Hmax. unfold keepProduct, withinCeiling. rewrite Hmax. cbn [andb].
  destruct (PrimFloat.ltb (MaxPricePerUnit prefs) _); [reflexivity|].
  cbn [negb andb]. rewrite hasAllRequired_satisfies.
  destruct (satisfiesRequired prefs p) eqn:E.
  - rewrite andb_false_r. reflexivity.
  - unfold satisfiesRequired in E.
    destruct (RequiredLabels prefs); [discriminate|reflexivity].
Qed.

Lemma filterProducts_loop_filter (prefs : SearchPreferences)
  (required : list string) (products filtered : list Product) :
  filterProducts_loop prefs required products filtered
  = (filtered ++ List.filter (keepProduct prefs required) products)%list.
Proof.
  revert filtered.
  induction products as [|p products IH]; intros filtered; cbn.
  - rewrite app_nil_r. reflexivity.
  - destruct (keepProduct prefs required p); rewrite IH; [|reflexivity].
    rewrite <- app_assoc. reflexivity.
Qed.

Lemma filterProducts_filter (products : list Product) (prefs : SearchPreferences) :
  filterProducts products prefs
  = List.filter (keepProduct prefs (map ToLower (RequiredLabels prefs))) products.
Proof. unfold filterProducts. apply filterProducts_loop_filter. Qed.

(** C3, as amended: with [MaxPricePerUnit > 0] the filter stage keeps, in
    their order, exactly the products whose compare price - [" kr"]
    trimmed, commas turned into points, parsed - is not strictly greater
    than the ceiling and which carry every required label; with no required
    label it drops exactly the products above the ceiling.  A compare price
    that is not well-formed counts as 0 and passes the price test, so such a
    product is kept whenever it carries the required labels. *)
Theorem filterProducts_price_ceiling (products : list Product)
  (prefs : SearchPreferences) :
  PrimFloat.ltb 0 (MaxPricePerUnit prefs) = true ->
  filterProducts products prefs
  = List.filter (fun p => withinCeiling prefs p && satisfiesRequired prefs p) products
  /\ (RequiredLabels prefs = [] ->
      filterProducts products prefs = List.filter (withinCeiling prefs) products)
  /\ (forall p,
        snd (ParseFloat (normalizedPrice (ComparePrice p))) = Some strconv.ErrSyntax ->
        parseComparePriceToFloat (ComparePrice p) = 0%float
        /\ withinCeiling prefs p = true
        /\ (In p products -> satisfiesRequired prefs p = true ->
            In p (filterProducts products prefs))).
Proof.
  intros Hmax.
  assert (filterProducts products prefs
          = List.filter (fun p => withinCeiling prefs p && satisfiesRequired prefs p)
              products) as Hfilter.
  { rewrite filterProducts_filter. apply List.filter_ext.
    intros p. apply keepProduct_ceiling, Hmax. }
  split; [exact Hfilter|]. split.
  - intros Hnone. rewrite Hfilter. apply List.filter_ext.
    intros p. unfold satisfiesRequired. rewrite Hnone. apply andb_true_r.
  - intros p Hsyntax.
    assert (parseComparePriceToFloat (ComparePrice p) = 0%float) as Hzero
      by (apply ParseFloat_syntax, Hsyntax).
    assert (withinCeiling prefs p = true) as Hwithin.
    { unfold withinCeiling. rewrite Hzero.
      rewrite (float64.ltb_asym _ _ Hmax). reflexivity. }
    repeat split; [exact Hzero|exact Hwithin|].
    intros Hin Hreq. rewrite Hfilter. apply List.filter_In.
    rewrite Hwithin, Hreq. auto.
Qed.

Lemma quality_loop_spec (label : string) (score : float) :
  quality_loop (ToLower label) qualityLabels score
  = if isQualityLabel label then (score + 10)%float else score.
Proof.
  unfold isQualityLabel.
  induction qualityLabels as [|q qs IH]; [reflexivity|].
  cbn. destruct (strings.Contains (ToLower label) q); [reflexivity|exact IH].
Qed.

Lemma labels_loop_spec (labels : list string) (score : float) :
  labels_loop labels score
  = Nat.iter (List.length (List.filter isQualityLabel labels))
      (fun score => (score + 10)%float) score.
Proof.
  revert score.
  induction labels as [|l labels IH]; intros score; [reflexivity|].
  cbn [labels_loop List.filter]. rewrite IH, quality_loop_spec.
  destruct (isQualityLabel l); [|reflexivity].
  cbn [List.length]. rewrite Nat.iter_succ_r. reflexivity.
Qed.

Lemma calculateValueScore_spec (p : Product) :
  calculateValueScore p = score_bonus_per_label p.
Proof.
  unfold calculateValueScore, score_bonus_per_label, addSavings, pricePart.
  rewrite labels_loop_spec. reflexivity.
Qed.

End RankingFacts.

(* ===================================================================== *)
(** * [sort.Slice]                                                        *)
(* ===================================================================== *)

Module sort_facts.
Local Open Scope nat_scope.
Section Constant.
Context {A : Type} (less : A -> A -> bool).
Hypothesis less_false : forall x y, less x y = false.

Lemma Less_false (l : list A) (i j : nat) :
i < length l -> j < length l -> sort.Less less l i j = Some false.
Proof.
intros Hi Hj. unfold sort.Less.
destruct (lookup_lt_is_Some_2 l i Hi) as [x ->].
destruct (lookup_lt_is_Some_2 l j Hj) as [y ->].
cbn. rewrite less_false. reflexivity.
Qed.

Lemma insertionSort_inner_false (a j : nat) (l : list A) :
j < length l -> sort.insertionSort_inner less a j l = Some l.
Proof.
intros Hj. destruct j as [|j']; [reflexivity|]. cbn.
destruct (decide (a < S j')); [|reflexivity].
rewrite Less_false by lia. reflexivity.
Qed.

Lemma for_each_fixed (idxs : list nat) (body : nat -> list A -> option (list A))
(l : list A) :
(forall i, In i idxs -> body i l = Some l) ->
sort.for_each idxs body l = Some l.
Proof.
induction idxs as [|i idxs IH]; intros Hbody; [reflexivity|].
cbn. rewrite (Hbody i) by (left; reflexivity). cbn.
apply IH. intros k Hk. apply Hbody. right. exact Hk.
Qed.

Lemma insertionSort_false (a b : nat) (l : list A) :
b <= length l -> sort.insertionSort less a b l = Some l.
Proof.
intros Hb. unfold sort.insertionSort. apply for_each_fixed.
intros i Hi%in_seq. apply insertionSort_inner_false. lia.
Qed.

Lemma order2_false (l : list A) (a b swaps : nat) :
a < length l -> b < length l ->
sort.order2 less l a b swaps = Some (a, b, swaps).
Proof. intros Ha Hb. unfold sort.order2. rewrite Less_false by lia. reflexivity. Qed.

Lemma median_false (l : list A) (a b c swaps : nat) :
a < length l -> b < length l -> c < length l ->
sort.median less l a b c swaps = Some (b, swaps).
Proof.
intros Ha Hb Hc. unfold sort.median.
rewrite order2_false by lia. cbn.
rewrite order2_false by lia. cbn.
rewrite order2_false by lia. reflexivity.
Qed.

Lemma medianAdjacent_false (l : list A) (a swaps : nat) :
0 < a -> a + 1 < length l ->
sort.medianAdjacent less l a swaps = Some (a, swaps).
Proof.
intros Ha Hb. unfold sort.medianAdjacent. destruct a as [|a']; [lia|].
apply median_false; lia.
Qed.

Lemma choosePivot_false (a b : nat) (l : list A) :
12 < b - a -> b <= length l ->
exists pivot, sort.choosePivot less a b l = Some (pivot, sort.increasingHint).
Proof.
intros Hlen Hb. unfold sort.choosePivot, sort.shortestNinther.
destruct (decide (8 <= b - a)); [|lia].
pose proof (Nat.div_mod_eq (b - a) 4) as Hdiv.
pose proof (Nat.mod_upper_bound (b - a) 4 ltac:(lia)) as Hmod.
destruct (decide (50 <= b - a)).
- do 3 (rewrite medianAdjacent_false by lia;
        cbn -[sort.median sort.medianAdjacent Nat.div Nat.mul]).
  rewrite median_false by lia. cbn. eauto.
- cbn -[sort.median Nat.div Nat.mul]. rewrite median_false by lia. cbn. eauto.
Qed.

Lemma scan_sorted_false (fuel b i : nat) (l : list A) :
0 < i -> i <= b -> b <= length l -> b - i <= fuel ->
sort.scan_sorted less fuel b i l = Some b.
Proof.
revert i. induction fuel as [|fuel IH]; intros i Hi Hib Hb Hfuel; cbn.
- f_equal. lia.
- destruct (decide (i < b)); [|f_equal; lia].
  rewrite Less_false by lia. cbn. apply IH; lia.
Qed.

Lemma partialInsertionSort_false (a b : nat) (l : list A) :
a < b -> b <= length l ->
sort.partialInsertionSort less a b l = Some (l, true).
Proof.
intros Hab Hb. unfold sort.partialInsertionSort, sort.maxSteps. cbn.
rewrite scan_sorted_false by lia. cbn.
destruct (decide (b = b)); [reflexivity|congruence].
Qed.

Lemma bits_Len_pos (n : Z) : (0 < n)%Z -> (0 < sort.bits_Len n)%Z.
Proof.
intros Hn. unfold sort.bits_Len.
destruct (Z.leb_spec n 0); [lia|]. pose proof (Z.log2_nonneg n). lia.
Qed.

(** With a comparison that never says "less", [sort.Slice] returns the
  slice as it is. *)
Lemma Slice_false (l : list A) : sort.Slice less l = Some l.
Proof.
unfold sort.Slice. cbn [sort.pdqsort].
rewrite Nat.sub_0_r. unfold sort.maxInsertion.
destruct (decide (length l <= 12)); [apply insertionSort_false; lia|].
destruct (decide (Z.to_nat (sort.bits_Len (Z.of_nat (length l))) = 0)) as [E|_].
{ pose proof (bits_Len_pos (Z.of_nat (length l))). lia. }
cbn -[sort.choosePivot sort.partialInsertionSort].
destruct (choosePivot_false 0 (length l) l) as [pivot ->]; [lia|lia|].
cbn -[sort.partialInsertionSort].
rewrite partialInsertionSort_false by lia. reflexivity.
Qed.
End Constant.
End sort_facts.

(* ===================================================================== *)
(** * The session transport: retry budget, counter, slot selection        *)
(* ===================================================================== *)

Section TransportFacts.
Context {World : Type} `{GoLib} `{Network World}.

Lemma nsends_app (e1 e2 : list Event) : nsends (e1 ++ e2) = (nsends e1 + nsends e2)%nat.
Proof. induction e1 as [|[r|] e1 IH]; cbn; lia. Qed.

Lemma nlogins_app (e1 e2 : list Event) : nlogins (e1 ++ e2) = (nlogins e1 + nlogins e2)%nat.
Proof. induction e1 as [|[r|] e1 IH]; cbn; lia. Qed.

Lemma same_identity_refl c : same_identity c c.
Proof. repeat split. Qed.

Lemma same_identity_trans c1 c2 c3 :
  same_identity c1 c2 -> same_identity c2 c3 -> same_identity c1 c3.
Proof. unfold same_identity. intuition congruence. Qed.

Ltac run_step H :=
  match type of H with
  | context [match ?x with _ => _ end] =>
      lazymatch x with
      | context [match _ with _ => _ end] => fail
      | _ => destruct x eqn:?; cbn in H
      end
  end.

Ltac run_cases H := repeat run_step H.


Lemma grows_refl base method path body n s : grows base method path body n 0 s s.
Proof. exists []. rewrite app_nil_r. repeat split; auto. cbn. lia. Qed.

Lemma grows_same base method path body n s s' :
  log s' = log s -> grows base method path body n 0 s s'.
Proof. intros E. exists []. rewrite app_nil_r. repeat split; auto. cbn. lia. Qed.

Lemma grows_trans base method path body n1 l1 n2 l2 s s1 s2 :
  grows base method path body n1 l1 s s1 ->
  grows base method path body n2 l2 s1 s2 ->
  grows base method path body (n1 + n2) (l1 + l2) s s2.
Proof.
  intros (e1 & E1 & S1 & L1 & F1) (e2 & E2 & S2 & L2 & F2).
  exists (e1 ++ e2)%list. rewrite E2, E1, <- app_assoc, nsends_app, nlogins_app.
  repeat split; try lia. apply Forall_app; auto.
Qed.

Lemma grows_weaken base method path body n n' l s s' :
  (n <= n')%nat -> grows base method path body n l s s' ->
  grows base method path body n' l s s'.
Proof. intros Hn (e & E & S & L & F). exists e. repeat split; auto; lia. Qed.

Lemma grows_send base method path body s s' req :
  log s' = (log s ++ [EvSend req])%list ->
  auxiliary base req \/ carries base method path body req ->
  grows base method path body 1 0 s s'.
Proof.
  intros E Hreq. exists [EvSend req]. repeat split; auto.
Qed.

Lemma fetchCSRFTokenLocked_run base method path body (s s' : Sys World) (o : outcome string) :
  fetchCSRFTokenLocked s = (o, s') ->
  base = baseURL (client s) ->
  grows base method path body 1 0 s s'
  /\ same_identity (client s) (client s')
  /\ match o with
     | Ok token => token <> "" /\ csrfToken (client s') = token
     | Fail _ => client s' = client s
     | Panic => False
     end.
Proof.
  intros Hrun ->.
  unfold fetchCSRFTokenLocked, bind, getClient, httpClient_Get, httpClient_Do,
    ret, fail, modifyClient in Hrun.
  cbn in Hrun.
  run_cases Hrun; simplify_eq; cbn.
  all: split;
    [ first [ apply grows_same; reflexivity
            | eapply grows_send; [reflexivity | left; left; reflexivity] ]
    | split; [repeat split | auto] ].
  all: split; [apply String.eqb_neq; assumption | reflexivity].
Qed.

Lemma GetCSRFToken_run base method path body (s s' : Sys World) (o : outcome string) :
  GetCSRFToken s = (o, s') ->
  base = baseURL (client s) ->
  grows base method path body 1 0 s s'
  /\ same_identity (client s) (client s')
  /\ match o with
     | Ok token => token <> "" /\ csrfToken (client s') = token
     | Fail _ => client s' = client s
     | Panic => False
     end
  /\ (csrfToken (client s) <> "" -> s' = s /\ o = Ok (csrfToken (client s))).
Proof.
  intros Hrun Hbase.
  unfold GetCSRFToken, bind, getClient, ret in Hrun. cbn in Hrun.
  destruct (String.eqb (csrfToken (client s)) "") eqn:E; cbn in Hrun;
    rewrite ?E in Hrun; cbn in Hrun.
  - apply String.eqb_eq in E.
    destruct (fetchCSRFTokenLocked_run base method path body _ _ _ Hrun Hbase)
      as (? & ? & ?).
    split; [assumption|]. split; [assumption|]. split; [assumption|].
    intros Hne. contradiction.
  - apply String.eqb_neq in E. unfold ret in Hrun. simplify_eq.
    split; [apply grows_refl|]. split; [apply same_identity_refl|]. auto.
Qed.

Lemma createRequest_run (method path body : string) (s s' : Sys World) (o : outcome Request) :
  createRequest method path body s = (o, s') ->
  s' = s
  /\ match o with
     | Ok req =>
         carries (baseURL (client s)) method path body req
         /\ NewRequest_ok method (baseURL (client s) ++ path) = true
     | Fail e => NewRequest_ok method (baseURL (client s) ++ path) = false
                 /\ IsAuthenticationError e = false
     | Panic => False
     end.
Proof.
  intros Hrun. unfold createRequest, bind, getClient, ret, fail in Hrun. cbn in Hrun.
  destruct (NewRequest_ok method _) eqn:E; simplify_eq; repeat split; auto.
Qed.

Lemma carries_with_csrf base method path body token req :
  carries base method path body req ->
  carries base method path body (with_csrf token req).
Proof. intros (? & ? & ?). repeat split; assumption. Qed.

Lemma do_or_run (format : string) (req : Request) (s s' : Sys World) (o : outcome Response) :
  do_or format req s = (o, s') ->
  client s' = client s
  /\ log s' = (log s ++ [EvSend req])%list
  /\ match o with
     | Ok resp => fst (http_Do req (world s)) = inr resp
     | Fail e => exists err, e = Errorf format (Some err)
                             /\ fst (http_Do req (world s)) = inl err
     | Panic => False
     end.
Proof.
  intros Hrun. unfold do_or, bind, httpClient_Do, ret, fail in Hrun. cbn in Hrun.
  destruct (http_Do req (world s)) as [[err|resp] w]; cbn in Hrun; simplify_eq;
    cbn; repeat split; eauto.
Qed.

Lemma ctx_check_run (ctx : option (Context World)) (s s' : Sys World) (o : outcome unit) :
  ctx_check ctx s = (o, s') ->
  s' = s /\ (o = Ok tt \/ o = Fail ContextErr).
Proof.
  unfold ctx_check. intros Hrun.
  destruct ctx as [done|]; [destruct (done (world s))|]; simplify_eq; auto.
Qed.

Lemma catch_run {A} (f : Error -> Error) (m : M World A) (s s' : Sys World) (o : outcome A) :
  catch f m s = (o, s') ->
  exists o0, m s = (o0, s')
             /\ o = match o0 with Fail e => Fail (f e) | _ => o0 end.
Proof.
  unfold catch. intros Hrun.
  destruct (m s) as [[a|e|] s1]; simplify_eq; eexists; split; reflexivity.
Qed.

Lemma InitializeSession_run base method path body (s s' : Sys World) (o : outcome unit) :
  InitializeSession s = (o, s') ->
  base = baseURL (client s) ->
  grows base method path body 1 0 s s'
  /\ client s' = client s
  /\ o <> Panic.
Proof.
  intros Hrun ->.
  unfold InitializeSession, bind, getClient, httpClient_Get, httpClient_Do,
    ret, fail in Hrun.
  cbn in Hrun.
  run_cases Hrun; simplify_eq; cbn.
  all: split;
    [ first [ apply grows_same; reflexivity
            | eapply grows_send; [reflexivity | left; right; left; reflexivity] ]
    | split; [reflexivity | discriminate] ].
Qed.


Ltac simp_run H :=
  unfold ret, fail, panic in H; cbv beta iota in H; cbn [client world log] in H;
  simplify_eq.

Lemma grows_login base method path body u p n l s s' :
  grows base "POST" EndpointLogin (Marshal_LoginRequest u p) n l s s' ->
  grows base method path body n l s s'.
Proof.
  intros (evs & E & S & L & F). exists evs. repeat split; auto.
  eapply Forall_impl; [exact F|].
  intros [req|]; cbn; [|auto].
  intros [Ha|(Hm & Hu & Hb)]; left; [exact Ha|].
  right. right. repeat split; eauto.
Qed.

(** Without CSRF protection [DoRequest] sends the request once and hands
    the answer over; it does not touch the client. *)
Lemma DoRequest_body_plain_run L (ctx : option (Context World))
  (method path : string) (body : option string) (s s' : Sys World)
  (o : outcome Response) :
  DoRequest_body L ctx method path body false s = (o, s') ->
  client s' = client s
  /\ grows (baseURL (client s)) method path (bytes_of body) 1 0 s s'
  /\ match o with
     | Ok resp => True
     | Fail e => IsAuthenticationError e = false
     | Panic => False
     end.
Proof.
  intros Hrun. unfold DoRequest_body, bind in Hrun.
  destruct (ctx_check ctx s) as [[[]|e|] s1] eqn:E1;
    apply ctx_check_run in E1 as [-> E1]; destruct E1; simplify_eq;
    try (split; [reflexivity|]; split; [apply grows_refl|reflexivity]).
  destruct (createRequest _ _ _ s) as [[req|e|] s1] eqn:E2;
    apply createRequest_run in E2 as [-> E2]; simp_run Hrun;
    try (split; [reflexivity|]; split; [apply grows_refl|tauto]).
  destruct E2 as [Hreq _].
  destruct (do_or _ req s) as [[resp|e|] s1] eqn:E3;
    apply do_or_run in E3 as (Hc & Hl & E3).
  - rewrite andb_false_r in Hrun. simp_run Hrun.
    split; [assumption|]. split; [|exact I].
    eapply grows_send; [eassumption|]. right. exact Hreq.
  - simp_run Hrun. split; [assumption|]. split.
    + eapply grows_send; [eassumption|]. right. exact Hreq.
    + destruct E3 as (err & -> & _). reflexivity.
  - contradiction.
Qed.

(** [Login]: at most three requests, all auxiliary; it never panics; on
    success a token is cached and the counter is zero; on failure the
    counter is as before, except when the credentials were accepted and
    the token fetch failed afterwards. *)
Lemma Login_run base method path body (ctx : option (Context World))
  (u p : string) (s s' : Sys World) (o : outcome unit) :
  Login ctx u p s = (o, s') ->
  base = baseURL (client s) ->
  grows base method path body 3 1 s s'
  /\ baseURL (client s') = baseURL (client s)
  /\ match o with
     | Ok _ => csrfToken (client s') <> "" /\ authAttempts (client s') = 0
               /\ username (client s') = u /\ password (client s') = p
     | Fail e =>
         (authAttempts (client s') = authAttempts (client s)
          /\ username (client s') = username (client s)
          /\ password (client s') = password (client s))
         \/ (authAttempts (client s') = 0
             /\ exists e',
                 e = AuthenticationError "failed to fetch CSRF token after login"
                       (Some e'))
     | Panic => False
     end.
Proof.
  intros Hrun ->. unfold Login, Login_body, bind in Hrun.
  unfold emit in Hrun at 1. cbv beta iota in Hrun.
  set (s0 := {| client := client s; world := world s;
                log := (log s ++ [EvLogin])%list |}) in *.
  assert (grows (baseURL (client s)) method path body 0 1 s s0) as G0.
  { exists [EvLogin]. repeat split; auto. repeat constructor. }
  assert (forall n s1, grows (baseURL (client s)) method path body n 0 s0 s1 ->
                       (n <= 3)%nat ->
                       grows (baseURL (client s)) method path body 3 1 s s1) as Gfin.
  { intros n s1 G Hn. eapply grows_weaken; [|exact (grows_trans _ _ _ _ _ _ _ _ _ _ _ G0 G)].
    lia. }
  destruct (String.eqb u ""); [simp_run Hrun;
    split; [apply (Gfin 0%nat); [apply grows_refl|lia]|]; split; [reflexivity|]; left; auto|].
  destruct (String.eqb p ""); [simp_run Hrun;
    split; [apply (Gfin 0%nat); [apply grows_refl|lia]|]; split; [reflexivity|]; left; auto|].
  destruct (String.length p <? 6)%nat; [simp_run Hrun;
    split; [apply (Gfin 0%nat); [apply grows_refl|lia]|]; split; [reflexivity|]; left; auto|].
  destruct (catch _ InitializeSession s0) as [o1' s1] eqn:E1.
  apply catch_run in E1 as (o1 & E1 & ->).
  eapply (InitializeSession_run (baseURL (client s)) method path body) in E1
    as (G1 & C1 & P1); [|reflexivity].
  destruct o1 as [[]|e|]; simp_run Hrun; try contradiction.
  2:{ split; [apply (Gfin 1%nat); [exact G1|lia]|]. rewrite C1. cbn.
      split; [reflexivity|]. left; auto. }
  destruct (catch _ (DoRequest_plain _ _ _ _ _) s1) as [o2' s2] eqn:E2.
  apply catch_run in E2 as (o2 & E2 & ->).
  apply DoRequest_body_plain_run in E2 as (C2 & G2 & P2).
  rewrite C1 in G2. cbn in G2. apply (grows_login _ method path body) in G2.
  assert (G12 := grows_trans _ _ _ _ _ _ _ _ _ _ _ G1 G2). clear G1 G2.
  destruct o2 as [resp|e|]; simp_run Hrun; try contradiction.
  2:{ split; [apply (Gfin 2%nat); [exact G12|lia]|].
      rewrite C2, C1. cbn. split; [reflexivity|]. left; auto. }
  destruct ((StatusCode resp =? StatusUnauthorized) || (StatusCode resp =? StatusForbidden));
    [simp_run Hrun; split; [apply (Gfin 2%nat); [exact G12|lia]|];
     rewrite C2, C1; cbn; split; [reflexivity|]; left; auto|].
  destruct (negb (StatusCode resp =? StatusOK) && negb (StatusCode resp =? StatusCreated));
    [simp_run Hrun; split; [apply (Gfin 2%nat); [exact G12|lia]|];
     rewrite C2, C1; cbn; split; [reflexivity|]; left; auto|].
  unfold modifyClient in Hrun. cbv beta iota in Hrun. cbn [client world log] in Hrun.
  match type of Hrun with context [catch ?f FetchCSRFToken ?st] =>
    destruct (catch f FetchCSRFToken st) as [o3' s3] eqn:E3;
    apply catch_run in E3 as (o3 & E3 & ->);
    eapply (fetchCSRFTokenLocked_run (baseURL (client s)) method path body) in E3
      as (G3 & I3 & P3); [|cbn; rewrite C2, C1; reflexivity]
  end.
  assert (grows (baseURL (client s)) method path body 3 1 s s3) as G.
  { apply (Gfin 3%nat); [|lia].
    apply (grows_trans _ _ _ _ _ _ _ _ _ _ _ G12).
    destruct G3 as (evs & E & S & L & F). exists evs. repeat split; auto. }
  destruct I3 as (Ib & Iu & Ip & Ia). cbn in Ib, Iu, Ip, Ia.
  destruct o3 as [token|e|]; simp_run Hrun; try contradiction.
  - split; [exact G|]. split; [rewrite Ib, C2, C1; reflexivity|].
    destruct P3 as [Hne Htok]. rewrite Htok. auto.
  - split; [exact G|]. split; [rewrite Ib, C2, C1; reflexivity|].
    right. split; [exact Ia|]. eauto.
Qed.


Lemma same_identity_client c c1 c2 :
  same_identity c c1 -> c2 = c1 -> same_identity c c2.
Proof. intros ? ->. assumption. Qed.

Lemma DoRequest_protected_run (ctx : option (Context World))
  (method path : string) (body : option string) (s s' : Sys World)
  (o : outcome Response) :
  DoRequest ctx method path body true s = (o, s') ->
  exists l,
    grows (baseURL (client s)) method path (bytes_of body) 8 l s s'
    /\ baseURL (client s') = baseURL (client s)
    /\ protected_path (baseURL (client s)) method path (bytes_of body)
         (client s) (client s') l o.
Proof.
  intros Hrun. unfold DoRequest, DoRequest_body, bind in Hrun.
  fold (bytes_of body) in Hrun.
  (* context check *)
  destruct (ctx_check ctx s) as [o0 s0] eqn:E0.
  apply ctx_check_run in E0 as [-> E0].
  destruct E0 as [-> | ->]; simp_run Hrun.
  2:{ exists 0%nat. split; [apply grows_refl|]. split; [reflexivity|].
      apply path_error; [reflexivity|apply same_identity_refl]. }
  (* first request *)
  destruct (createRequest method path (bytes_of body) s) as [oreq s0] eqn:E1.
  apply createRequest_run in E1 as [-> E1].
  destruct oreq as [req|e|]; simp_run Hrun; try contradiction.
  2:{ exists 0%nat. split; [apply grows_refl|]. split; [reflexivity|].
      apply path_error; [tauto|apply same_identity_refl]. }
  destruct E1 as [Hreq Hnew].
  destruct (wrap "failed to get CSRF token: %w" GetCSRFToken s) as [ot' s1] eqn:E2.
  apply catch_run in E2 as (ot & E2 & ->).
  eapply (GetCSRFToken_run (baseURL (client s)) method path (bytes_of body)) in E2 as (G & I1 & P1 & _);
    [|reflexivity].
  destruct ot as [token|e|]; simp_run Hrun; try contradiction.
  2:{ exists 0%nat. split; [eapply grows_weaken; [|exact G]; lia|].
      split; [apply I1|]. apply path_error; [reflexivity|exact I1]. }
  assert (Hb1 : baseURL (client s1) = (baseURL (client s))) by apply I1.
  destruct (do_or "request failed: %w" (with_csrf token req) s1) as [or1 s2] eqn:E3.
  apply do_or_run in E3 as (C2 & L2 & P2).
  assert (G2 : grows (baseURL (client s)) method path (bytes_of body) 2 0 s s2).
  { apply (grows_trans _ _ _ _ 1 0 1 0 _ _ _ G).
    eapply grows_send; [exact L2|]. right. apply carries_with_csrf, Hreq. }
  clear G L2.
  assert (I2 : same_identity (client s) (client s2))
    by (eapply same_identity_client; eassumption).
  destruct or1 as [resp1|e|]; simp_run Hrun; try contradiction.
  2:{ exists 0%nat. split; [eapply grows_weaken; [|exact G2]; lia|].
      split; [apply I2|]. destruct P2 as (err & -> & _).
      apply path_error; [reflexivity|exact I2]. }
  rewrite andb_true_r in Hrun.
  destruct (StatusCode resp1 =? StatusUnauthorized) eqn:U1; simp_run Hrun.
  2:{ exists 0%nat. split; [eapply grows_weaken; [|exact G2]; lia|].
      split; [apply I2|].
      apply path_first; [|apply Z.eqb_neq, U1|exact I2].
      exists (with_csrf token req), (world s1).
      split; [apply carries_with_csrf, Hreq|exact P2]. }
  (* token refresh and second request *)
  destruct (wrap "failed to refresh CSRF token: %w" FetchCSRFToken s2) as [ofetch' s3] eqn:E4.
  apply catch_run in E4 as (ofetch & E4 & ->).
  eapply (fetchCSRFTokenLocked_run (baseURL (client s)) method path (bytes_of body)) in E4 as (G3 & I3 & P3);
    [|symmetry; apply I2].
  assert (G3' := grows_trans _ _ _ _ _ _ _ _ _ _ _ G2 G3). clear G2 G3. cbn in G3'.
  assert (I3' := same_identity_trans _ _ _ I2 I3). clear I2 I3.
  destruct ofetch as [token2|e|]; simp_run Hrun; try contradiction.
  2:{ exists 0%nat. split; [eapply grows_weaken; [|exact G3']; lia|].
      split; [apply I3'|]. apply path_error; [reflexivity|exact I3']. }
  destruct (createRequest method path (bytes_of body) s3) as [oreq s0] eqn:E5.
  apply createRequest_run in E5 as [-> E5].
  destruct oreq as [req2|e|]; simp_run Hrun; try contradiction.
  2:{ exists 0%nat. split; [eapply grows_weaken; [|exact G3']; lia|].
      split; [apply I3'|]. apply path_error; [tauto|exact I3']. }
  destruct E5 as [Hreq2 _].
  replace (baseURL (client s3)) with (baseURL (client s)) in Hreq2 by (symmetry; apply I3').
  destruct (wrap "failed to get updated CSRF token: %w" GetCSRFToken s3) as [ot' s4] eqn:E6.
  apply catch_run in E6 as (ot & E6 & ->).
  eapply (GetCSRFToken_run (baseURL (client s)) method path (bytes_of body)) in E6 as (_ & _ & P4 & S4);
    [|symmetry; apply I3'].
  destruct S4 as [-> ->]; [destruct P3 as [? ->]; assumption|].
  clear P4. set (token3 := csrfToken (client s3)) in *. cbv beta iota in Hrun.
  destruct (do_or "retry request failed: %w" (with_csrf token3 req2) s3) as [or2 s5] eqn:E7.
  apply do_or_run in E7 as (C5 & L5 & P5).
  assert (G5 : grows (baseURL (client s)) method path (bytes_of body) 4 0 s s5).
  { apply (grows_trans _ _ _ _ 3 0 1 0 _ _ _ G3').
    eapply grows_send; [exact L5|]. right. apply carries_with_csrf, Hreq2. }
  clear G3' L5.
  assert (I5 : same_identity (client s) (client s5))
    by (eapply same_identity_client; eassumption).
  destruct or2 as [resp2|e|]; simp_run Hrun; try contradiction.
  2:{ exists 0%nat. split; [eapply grows_weaken; [|exact G5]; lia|].
      split; [apply I5|]. destruct P5 as (err & -> & _).
      apply path_error; [reflexivity|exact I5]. }
  assert (A2 : answer_to (baseURL (client s)) method path (bytes_of body) resp2).
  { exists (with_csrf token3 req2), (world s3).
    split; [apply carries_with_csrf, Hreq2|exact P5]. }
  unfold getClient in Hrun. cbv beta iota in Hrun.
  destruct I5 as (Ib & Iu & Ip & Ia).
  rewrite Iu, Ip, Ia in Hrun.
  destruct (StatusCode resp2 =? StatusUnauthorized) eqn:U2; cbn [andb] in Hrun.
  2:{ simp_run Hrun.
      exists 0%nat. split; [eapply grows_weaken; [|exact G5]; lia|].
      split; [exact Ib|].
      apply path_second; [exact A2|left; apply Z.eqb_neq, U2|repeat split; assumption]. }
  apply Z.eqb_eq in U2.
  destruct (String.eqb (username (client s)) "") eqn:Eu; cbn [negb andb] in Hrun.
  { apply String.eqb_eq in Eu.
    destruct (MaxAuthRetryAttempts <=? authAttempts (client s)) eqn:Em; simp_run Hrun;
      exists 0%nat; (split; [eapply grows_weaken; [|exact G5]; lia|]); (split; [exact Ib|]).
    - apply (path_exhausted _ _ _ _ _ _ resp2);
        [exact A2|exact U2|apply Z.leb_le, Em|repeat split; assumption].
    - apply path_second; [exact A2| |repeat split; assumption].
      right. split; [left; exact Eu|]. apply Z.leb_gt, Em. }
  apply String.eqb_neq in Eu.
  destruct (String.eqb (password (client s)) "") eqn:Ep; cbn [negb andb] in Hrun.
  { apply String.eqb_eq in Ep.
    destruct (MaxAuthRetryAttempts <=? authAttempts (client s)) eqn:Em; simp_run Hrun;
      exists 0%nat; (split; [eapply grows_weaken; [|exact G5]; lia|]); (split; [exact Ib|]).
    - apply (path_exhausted _ _ _ _ _ _ resp2);
        [exact A2|exact U2|apply Z.leb_le, Em|repeat split; assumption].
    - apply path_second; [exact A2| |repeat split; assumption].
      right. split; [right; exact Ep|]. apply Z.leb_gt, Em. }
  apply String.eqb_neq in Ep.
  destruct (authAttempts (client s) <? MaxAuthRetryAttempts) eqn:Ea.
  2:{ apply Z.ltb_ge in Ea.
      destruct (MaxAuthRetryAttempts <=? authAttempts (client s)) eqn:Em;
        [|apply Z.leb_gt in Em; lia].
      simp_run Hrun.
      exists 0%nat. split; [eapply grows_weaken; [|exact G5]; lia|].
      split; [exact Ib|].
      apply (path_exhausted _ _ _ _ _ _ resp2);
        [exact A2|exact U2|exact Ea|repeat split; assumption]. }
  apply Z.ltb_lt in Ea.
  (* re-login and third request *)
  unfold modifyClient in Hrun. cbv beta iota in Hrun. cbn [client world log] in Hrun.
  match type of Hrun with context [catch ?f (Login ctx ?u ?p) ?st] =>
    destruct (catch f (Login ctx u p) st) as [ol' s6] eqn:E8;
    apply catch_run in E8 as (ol & E8 & ->);
    eapply (Login_run (baseURL (client s)) method path (bytes_of body)) in E8 as (G6 & B6 & P6);
      [|cbn; symmetry; exact Ib]
  end.
  cbn [client world log baseURL set_authAttempts] in B6, P6.
  assert (G6' : grows (baseURL (client s)) method path (bytes_of body) 7 1 s s6).
  { apply (grows_trans _ _ _ _ 4 0 3 1 _ _ _ G5).
    destruct G6 as (evs & E & S & L & F). exists evs. repeat split; auto. }
  clear G5 G6.
  destruct ol as [[]|e|]; simp_run Hrun; try contradiction.
  2:{ exists 1%nat. split; [eapply grows_weaken; [|exact G6']; lia|].
      split; [congruence|].
      apply path_relogin_failed; try assumption.
      destruct P6 as [(Pa & _)|Pa]; [left|right; exact Pa].
      rewrite Pa. cbn. rewrite Ia. reflexivity. }
  destruct P6 as (Tok & Att & _).
  destruct (createRequest method path (bytes_of body) s6) as [oreq s0] eqn:E9.
  apply createRequest_run in E9 as [-> E9].
  rewrite B6, Ib in E9.
  destruct oreq as [req3|e|]; simp_run Hrun; try contradiction.
  2:{ destruct E9 as [E9 _]. congruence. }
  destruct E9 as [Hreq3 _].
  destruct (wrap "failed to get CSRF token after re-auth: %w" GetCSRFToken s6)
    as [ot' s7] eqn:E10.
  apply catch_run in E10 as (ot & E10 & ->).
  eapply (GetCSRFToken_run (baseURL (client s)) method path (bytes_of body)) in E10 as (_ & _ & P7 & S7);
    [|congruence].
  destruct (S7 Tok) as [-> ->]. clear P7 S7.
  set (token4 := csrfToken (client s6)) in *. cbv beta iota in Hrun.
  { (* the cached token is returned *)
    destruct (do_or "final retry request failed: %w" (with_csrf token4 req3) s6)
      as [or3 s8] eqn:E11.
    simplify_eq.
    apply do_or_run in E11 as (C8 & L8 & P8).
    exists 1%nat. split.
    - apply (grows_trans _ _ _ _ 7 1 1 0 _ _ _ G6').
      eapply grows_send; [exact L8|]. right. apply carries_with_csrf, Hreq3.
    - split; [congruence|].
      destruct o as [resp3|e|]; try contradiction.
      + apply path_third; try assumption; [|congruence].
        exists (with_csrf token4 req3), (world s6).
        split; [apply carries_with_csrf, Hreq3|exact P8].
      + destruct P8 as (err & -> & P8).
        apply path_third_error; try assumption; [|congruence].
        exists (with_csrf token4 req3), (world s6).
        split; [apply carries_with_csrf, Hreq3|exact P8]. }
Qed.





Lemma DoRequest_plain_eq (ctx : option (Context World)) (method path : string)
  (body : option string) (s : Sys World) :
  DoRequest ctx method path body false s = DoRequest_plain ctx method path body false s.
Proof.
  unfold DoRequest, DoRequest_plain, DoRequest_body, bind.
  destruct (ctx_check ctx s) as [[[]|e|] s0]; try reflexivity.
  destruct (createRequest _ _ _ s0) as [[req|e|] s1]; try reflexivity.
  change (ret req s1) with (Ok req, s1). cbv beta iota.
  destruct (do_or _ req s1) as [[resp|e|] s2]; try reflexivity.
  rewrite andb_false_r. reflexivity.
Qed.



(** C10: with an empty query, a negative page or a page size outside
    [1, 100], [SearchProducts] returns a [ValidationError] whose field names
    an offending argument, and the state - so the log of requests - is as
    before: nothing is sent. *)
Theorem SearchProducts_validation (ctx : option (Context World)) (query : string)
  (page size : Z) (prefs : option SearchPreferences) (s : Sys World) :
  query = "" \/ page < 0 \/ size < 1 \/ 100 < size ->
  exists field message,
    SearchProducts ctx query page size prefs s
    = (Fail (ValidationError field message), s)
    /\ (field = "query" /\ query = ""
        \/ field = "page" /\ page < 0
        \/ field = "size" /\ (size < 1 \/ 100 < size)).
Proof.
  intros Hbad. unfold SearchProducts.
  destruct (String.eqb query "") eqn:Eq.
  { apply String.eqb_eq in Eq. eexists _, _. split; [reflexivity|]. auto. }
  apply String.eqb_neq in Eq.
  destruct (page <? 0) eqn:Ep.
  { apply Z.ltb_lt in Ep. eexists _, _. split; [reflexivity|]. auto. }
  apply Z.ltb_ge in Ep.
  destruct ((size <=? 0) || (100 <? size)) eqn:Es.
  { eexists _, _. split; [reflexivity|]. right. right. split; [reflexivity|].
    apply orb_true_iff in Es as [Es|Es]; [apply Z.leb_le in Es|apply Z.ltb_lt in Es]; lia. }
  apply orb_false_iff in Es as [Es1 Es2].
  apply Z.leb_gt in Es1. apply Z.ltb_ge in Es2.
  destruct Hbad as [Hbad|Hbad]; [contradiction|lia].
Qed.

(** The first half of C4: when the search request is answered 200 with a
    body that decodes to [results], [SearchProducts] without preferences
    returns [results] itself. *)
Lemma SearchProducts_no_preferences (ctx : option (Context World)) (query : string)
  (page size : Z) (s s' : Sys World) (resp : Response) (body : string)
  (results : list Product) :
  query <> "" -> 0 <= page -> 1 <= size /\ size <= 100 ->
  DoRequest ctx "GET"
    (EndpointSearch ++ "?" ++ "page=" ++ QueryEscape (Sprintf_d page)
     ++ "&q=" ++ QueryEscape query ++ "&size=" ++ QueryEscape (Sprintf_d size))
    None false s = (Ok resp, s') ->
  StatusCode resp = StatusOK -> Body resp = Some body ->
  Unmarshal_searchResponse body = Some results ->
  SearchProducts ctx query page size None s = (Ok results, s').
Proof.
  intros Hq Hp Hs Hrun Hst Hbody Hdec. unfold SearchProducts.
  apply String.eqb_neq in Hq. rewrite Hq.
  assert ((page <? 0) = false) as -> by lia.
  assert (((size <=? 0) || (100 <? size)) = false) as ->
    by (apply orb_false_iff; lia).
  unfold bind, catch. rewrite Hrun, Hst, Hbody, Hdec. reflexivity.
Qed.

End TransportFacts.

(* ===================================================================== *)
(** * client.go, auth.go: what a call sends and what it stores            *)
(* ===================================================================== *)

Section TransportMore.
Context {World : Type} `{GoLib} `{Network World}.

Ltac simp_run H :=
  unfold ret, fail, panic in H; cbv beta iota in H; cbn [client world log] in H;
  simplify_eq.

Lemma DoRequest_body_plain_once L (ctx : option (Context World))
  (method path : string) (body : option string) (s s' : Sys World)
  (o : outcome Response) :
  DoRequest_body L ctx method path body false s = (o, s') ->
  (s' = s /\ exists e, o = Fail e)
  \/ let req := plain_request (baseURL (client s)) method path (bytes_of body) in
     s' = sent req s
     /\ o = match fst (http_Do req (world s)) with
            | inr resp => Ok resp
            | inl err => Fail (Errorf "request failed: %w" (Some err))
            end.
Proof.
  intros Hrun.
  unfold DoRequest_body, bind in Hrun.
  destruct (ctx_check ctx s) as [o0 s0] eqn:E0.
  apply ctx_check_run in E0 as [-> E0].
  destruct E0 as [-> | ->]; simp_run Hrun; [|left; eauto].
  unfold createRequest, bind, getClient in Hrun. cbv beta iota in Hrun.
  destruct (NewRequest_ok method (baseURL (client s) ++ path));
    simp_run Hrun; [|left; eauto].
  unfold do_or, bind, httpClient_Do in Hrun. cbv beta iota in Hrun.
  fold (bytes_of body) in Hrun.
  fold (plain_request (baseURL (client s)) method path (bytes_of body)) in Hrun.
  right. cbv zeta. unfold sent.
  destruct (http_Do _ (world s)) as [[err|resp] w] eqn:E; simp_run Hrun.
  - split; reflexivity.
  - rewrite andb_false_r in Hrun. simp_run Hrun. split; reflexivity.
Qed.

Lemma InitializeSession_once (s s' : Sys World) (o : outcome unit) :
  InitializeSession s = (o, s') ->
  (s' = s /\ exists e, o = Fail e)
  \/ (s' = sent (get_request (baseURL (client s))) s
      /\ (o = Ok tt \/ exists e, o = Fail e)).
Proof.
  intros Hrun.
  unfold InitializeSession, bind, getClient, httpClient_Get, httpClient_Do in Hrun.
  cbv beta iota in Hrun.
  destruct (NewRequest_ok "GET" _); simp_run Hrun; [|left; eauto].
  fold (get_request (baseURL (client s))) in Hrun. right. unfold sent.
  destruct (http_Do _ (world s)) as [[err|resp] w]; simp_run Hrun.
  - split; [reflexivity|right; eauto].
  - destruct (negb _); simp_run Hrun; (split; [reflexivity|]); eauto.
Qed.

Lemma fetchCSRFTokenLocked_once (s s' : Sys World) (o : outcome string) :
  fetchCSRFTokenLocked s = (o, s') ->
  let req := get_request (baseURL (client s) ++ EndpointCSRFToken) in
  match o with
  | Ok token =>
      token <> ""
      /\ s' = {| client := set_csrfToken token (client s);
                 world := snd (http_Do req (world s));
                 log := log s ++ [EvSend req] |}
  | Fail _ => s' = s \/ s' = sent req s
  | Panic => False
  end.
Proof.
  intros Hrun. cbv zeta.
  unfold fetchCSRFTokenLocked, bind, getClient, httpClient_Get,
    httpClient_Do, modifyClient in Hrun.
  cbv beta iota in Hrun.
  destruct (NewRequest_ok "GET" _); simp_run Hrun; [|left; reflexivity].
  fold (get_request (baseURL (client s) ++ EndpointCSRFToken)) in Hrun.
  unfold sent.
  destruct (http_Do _ (world s)) as [[err|resp] w]; simp_run Hrun.
  { right; reflexivity. }
  destruct (negb (StatusCode resp =? StatusOK)); simp_run Hrun; [right; reflexivity|].
  destruct (Body resp) as [b|]; simp_run Hrun; [|right; reflexivity].
  destruct (Unmarshal_string b) as [t|].
  - destruct (String.eqb t "") eqn:Et; simp_run Hrun; [right; reflexivity|].
    apply String.eqb_neq in Et. split; [exact Et|reflexivity].
  - destruct (Unmarshal_token b) as [t|]; simp_run Hrun; [|right; reflexivity].
    destruct (String.eqb t "") eqn:Et; simp_run Hrun; [right; reflexivity|].
    apply String.eqb_neq in Et. split; [exact Et|reflexivity].
Qed.

Lemma extends_refl P (s : Sys World) : extends P 0 s s.
Proof. exists []. rewrite app_nil_r. repeat split; constructor. Qed.

Lemma extends_trans P l1 l2 (s s1 s2 : Sys World) :
  extends P l1 s s1 -> extends P l2 s1 s2 -> extends P (l1 + l2) s s2.
Proof.
  intros (e1 & E1 & L1 & F1) (e2 & E2 & L2 & F2). exists (e1 ++ e2)%list.
  split; [rewrite E2, E1, app_assoc; reflexivity|].
  split; [rewrite nlogins_app; congruence|]. apply Forall_app; auto.
Qed.

Lemma extends_sent (P : Event -> Prop) req (s : Sys World) :
  P (EvSend req) -> extends P 0 s (sent req s).
Proof. intros HP. exists [EvSend req]. repeat split. repeat constructor. exact HP. Qed.

Lemma extends_step P l (s s1 : Sys World) req :
  extends P l s s1 -> P (EvSend req) -> extends P l s (sent req s1).
Proof.
  intros E HP. replace l with (l + 0)%nat by lia.
  eapply extends_trans; [exact E|apply extends_sent, HP].
Qed.

Lemma GetCSRFToken_once (s s' : Sys World) (o : outcome string) :
  GetCSRFToken s = (o, s') ->
  (csrfToken (client s) <> "" /\ s' = s /\ o = Ok (csrfToken (client s)))
  \/ (csrfToken (client s) = "" /\ fetchCSRFTokenLocked s = (o, s')).
Proof.
  unfold GetCSRFToken, bind, getClient. cbv beta iota.
  destruct (String.eqb (csrfToken (client s)) "") eqn:E; cbn [negb]; cbv iota.
  - apply String.eqb_eq in E. rewrite (proj2 (String.eqb_eq _ _) E).
    cbn [negb]. cbv iota. intros Hrun. right. split; assumption.
  - apply String.eqb_neq in E. intros Hrun. simp_run Hrun. left. auto.
Qed.

Local Abbreviation PE := protected_event.

Lemma fetch_extends base method path body u p (s s' : Sys World) (o : outcome string) :
  fetchCSRFTokenLocked s = (o, s') -> baseURL (client s) = base ->
  extends (PE base method path body u p) 0 s s' /\ same_identity (client s) (client s')
  /\ match o with
     | Ok token => token <> "" /\ csrfToken (client s') = token
     | Fail _ => client s' = client s
     | Panic => False
     end.
Proof.
  intros Hrun <-. apply fetchCSRFTokenLocked_once in Hrun. cbv zeta in Hrun.
  destruct o as [token|e|]; [|destruct Hrun as [->| ->]|contradiction].
  - destruct Hrun as [Hne ->]. split; [|repeat split; assumption].
    apply (extends_sent _ (get_request (baseURL (client s) ++ EndpointCSRFToken)) s).
    left. reflexivity.
  - split; [apply extends_refl|]. split; [apply same_identity_refl|reflexivity].
  - split; [|split; [apply same_identity_refl|reflexivity]].
    apply extends_sent. left. reflexivity.
Qed.

Lemma token_extends base method path body u p (s s' : Sys World) (o : outcome string) :
  GetCSRFToken s = (o, s') -> baseURL (client s) = base ->
  extends (PE base method path body u p) 0 s s' /\ same_identity (client s) (client s')
  /\ match o with
     | Ok token => token <> "" /\ csrfToken (client s') = token
     | Fail _ => client s' = client s
     | Panic => False
     end.
Proof.
  intros Hrun Hb. apply GetCSRFToken_once in Hrun.
  destruct Hrun as [(Hne & -> & ->)|[_ Hrun]]; [|eapply fetch_extends; eassumption].
  split; [apply extends_refl|]. split; [apply same_identity_refl|]. auto.
Qed.

Lemma Login_extends base method path body u p (ctx : option (Context World)) (s s' : Sys World)
  (o : outcome unit) :
  Login ctx u p s = (o, s') -> baseURL (client s) = base ->
  extends (PE base method path body u p) 1 s s' /\ baseURL (client s') = baseURL (client s)
  /\ match o with
     | Ok _ => csrfToken (client s') <> ""
     | Fail _ => True
     | Panic => False
     end.
Proof.
  intros Hrun <-.
  assert (E0 : extends (PE (baseURL (client s)) method path body u p) 1 s {| client := client s; world := world s;
                                log := log s ++ [EvLogin] |}).
  { exists [EvLogin]. repeat split. repeat constructor. }
  unfold Login, Login_body, bind, emit in Hrun. cbv beta iota in Hrun.
  destruct (String.eqb u ""); [simp_run Hrun; auto|].
  destruct (String.eqb p ""); [simp_run Hrun; auto|].
  destruct (String.length p <? 6)%nat; [simp_run Hrun; auto|].
  match type of Hrun with context [catch ?f InitializeSession ?s0] =>
    destruct (catch f InitializeSession s0) as [o1 s1] eqn:E1 end.
  apply catch_run in E1 as (o1' & E1 & ->).
  apply InitializeSession_once in E1. cbn [client] in E1. 
  assert (E1' : extends (PE (baseURL (client s)) method path body u p) 1 s s1
                /\ client s1 = client s).
  { destruct E1 as [[-> _]|[-> _]]; [auto|]. split; [|reflexivity].
    apply extends_step; [exact E0|]. right. left. reflexivity. }
  destruct E1' as [X1 C1].
  assert (O1 : o1' = Ok tt \/ exists e, o1' = Fail e) by (destruct E1 as [[_ ?]|[_ ?]]; auto).
  clear E1 E0.
  destruct O1 as [->|[e ->]]; simp_run Hrun; [|rewrite C1; auto].
  match type of Hrun with context [catch ?f ?m s1] =>
    destruct (catch f m s1) as [o2 s2] eqn:E2 end.
  apply catch_run in E2 as (o2' & E2 & ->).
  apply DoRequest_body_plain_once in E2. cbn [bytes_of] in E2. rewrite C1 in E2.
  destruct E2 as [[-> [e ->]]|E2]; [simp_run Hrun; rewrite C1; auto|].
  cbv zeta in E2. destruct E2 as [-> ->].
  match type of Hrun with context [sent ?r s1] => 
    assert (X2 : extends (PE (baseURL (client s)) method path body u p) 1 s (sent r s1))
      by (apply extends_step; [exact X1|right; right; left; reflexivity]) end.
  clear X1.
  destruct (fst (http_Do _ _)) as [err|resp]; [simp_run Hrun; cbn; rewrite C1; auto|].
  cbv beta iota in Hrun.
  destruct (_ || _); [simp_run Hrun; cbn; rewrite C1; auto|].
  destruct (_ && _); [simp_run Hrun; cbn; rewrite C1; auto|].
  unfold modifyClient in Hrun. cbv beta iota in Hrun.
  match type of Hrun with context [catch ?f ?m ?s0] =>
    destruct (catch f m s0) as [o3 s3] eqn:E3 end.
  apply catch_run in E3 as (o3' & E3 & ->).
  apply (fetch_extends (baseURL (client s)) method path body u p) in E3;
    [|cbn; rewrite C1; reflexivity].
  destruct E3 as (X3 & I3 & P3).
  assert (X : extends (PE (baseURL (client s)) method path body u p) 1 s s3).
  { replace 1%nat with (1 + 0)%nat by lia. eapply extends_trans; [exact X2|].
    destruct X3 as (evs & E & L & F). exists evs. repeat split; assumption. }
  destruct I3 as [I3 _]. cbn in I3. rewrite C1 in I3.
  destruct o3' as [token|e|]; simp_run Hrun; [|auto|contradiction].
  destruct P3 as [Hne Htok]. rewrite Htok. auto.
Qed.


Lemma DoRequest_protected_events (ctx : option (Context World))
  (method path : string) (body : option string) (s s' : Sys World)
  (o : outcome Response) :
  DoRequest ctx method path body true s = (o, s') ->
  exists l,
    extends (PE (baseURL (client s)) method path (bytes_of body)
               (username (client s)) (password (client s))) l s s'
    /\ (l = 0%nat
        \/ (l = 1%nat /\ username (client s) <> "" /\ password (client s) <> ""
            /\ authAttempts (client s) < MaxAuthRetryAttempts))
    /\ (l = 0%nat ->
        same_identity (client s) (client s')
        /\ match o with
           | Ok resp =>
               StatusCode resp = StatusUnauthorized ->
               (username (client s) = "" \/ password (client s) = "")
               /\ authAttempts (client s) < MaxAuthRetryAttempts
           | Fail e =>
               IsAuthenticationError e = true ->
               MaxAuthRetryAttempts <= authAttempts (client s)
           | Panic => False
           end).
Proof.
  intros Hrun. unfold DoRequest, DoRequest_body, bind in Hrun.
  fold (bytes_of body) in Hrun.
  set (Q := PE (baseURL (client s)) method path (bytes_of body)
              (username (client s)) (password (client s))).
  assert (Hown : forall token, token <> "" ->
            Q (EvSend (with_csrf token
                         (plain_request (baseURL (client s)) method path
                            (bytes_of body))))).
  { intros token Hne. right. right. right. exists token. auto. }
  set (Post := fun (s2 : Sys World) (o : outcome Response) =>
    exists l,
      extends Q l s s2
      /\ (l = 0%nat
          \/ (l = 1%nat /\ username (client s) <> "" /\ password (client s) <> ""
              /\ authAttempts (client s) < MaxAuthRetryAttempts))
      /\ (l = 0%nat ->
          same_identity (client s) (client s2)
          /\ match o with
             | Ok resp =>
                 StatusCode resp = StatusUnauthorized ->
                 (username (client s) = "" \/ password (client s) = "")
                 /\ authAttempts (client s) < MaxAuthRetryAttempts
             | Fail e =>
                 IsAuthenticationError e = true ->
                 MaxAuthRetryAttempts <= authAttempts (client s)
             | Panic => False
             end)).
  change (Post s' o).
  assert (L : forall s2 e, extends Q 0 s s2 -> same_identity (client s) (client s2) ->
            IsAuthenticationError e = false -> Post s2 (Fail e)).
  { intros s2 e X I He. exists 0%nat. split; [exact X|]. split; [left; reflexivity|].
    intros _. split; [exact I|]. rewrite He. discriminate. }
  assert (L0 : forall e, IsAuthenticationError e = false -> Post s (Fail e)).
  { intros e He. apply L; [apply extends_refl|apply same_identity_refl|exact He]. }
  destruct (ctx_check ctx s) as [o0 s0] eqn:E0.
  apply ctx_check_run in E0 as [-> E0].
  destruct E0 as [-> | ->]; simp_run Hrun; [|apply L0; reflexivity].
  unfold createRequest at 1, bind, getClient in Hrun. cbv beta iota in Hrun.
  destruct (NewRequest_ok method (baseURL (client s) ++ path)) eqn:Enew;
    simp_run Hrun; [|apply L0; reflexivity].
  clear L0.
  fold (plain_request (baseURL (client s)) method path (bytes_of body)) in Hrun.
  set (req := plain_request (baseURL (client s)) method path (bytes_of body)) in *.
  destruct (wrap "failed to get CSRF token: %w" GetCSRFToken s) as [ot' s1] eqn:E2.
  apply catch_run in E2 as (ot & E2 & ->).
  apply (token_extends (baseURL (client s)) method path (bytes_of body)
           (username (client s)) (password (client s))) in E2; [|reflexivity].
  fold Q in E2. destruct E2 as (X1 & I1 & P1).
  destruct ot as [token|e|]; simp_run Hrun; try contradiction;
    [|apply L; auto].
  destruct P1 as [Hne1 _].
  unfold do_or at 1, bind, httpClient_Do in Hrun. cbv beta iota in Hrun.
  assert (X2 : extends Q 0 s (sent (with_csrf token req) s1))
    by (apply extends_step; [exact X1|apply Hown, Hne1]).
  assert (I2 : same_identity (client s) (client (sent (with_csrf token req) s1)))
    by exact I1.
  unfold sent in X2, I2. clear X1 I1.
  destruct (http_Do (with_csrf token req) (world s1)) as [[err|resp1] w1];
    cbn [snd] in X2, I2; simp_run Hrun; [apply L; auto|].
  rewrite andb_true_r in Hrun.
  destruct (StatusCode resp1 =? StatusUnauthorized) eqn:U1; simp_run Hrun.
  2:{ exists 0%nat. split; [exact X2|]. split; [left; reflexivity|].
      intros _. split; [exact I2|]. intros U. apply Z.eqb_neq in U1. contradiction. }
  (* token refresh and second request *)
  match type of Hrun with context [wrap ?f FetchCSRFToken ?s0] =>
    destruct (wrap f FetchCSRFToken s0) as [ofetch' s3] eqn:E4 end.
  apply catch_run in E4 as (ofetch & E4 & ->).
  apply (fetch_extends (baseURL (client s)) method path (bytes_of body)
           (username (client s)) (password (client s))) in E4; [|apply I2].
  fold Q in E4. destruct E4 as (X3 & I3 & P3).
  assert (X3' := extends_trans _ _ _ _ _ _ X2 X3). clear X2 X3. cbn [Nat.add] in X3'.
  assert (I3' := same_identity_trans _ _ _ I2 I3). clear I2 I3.
  destruct ofetch as [token2|e|]; simp_run Hrun; try contradiction; [|apply L; auto].
  unfold createRequest at 1, bind, getClient in Hrun. cbv beta iota in Hrun.
  replace (baseURL (client s3)) with (baseURL (client s)) in Hrun
    by (symmetry; apply I3').
  rewrite Enew in Hrun. simp_run Hrun.
  fold (plain_request (baseURL (client s)) method path (bytes_of body)) in Hrun.
  fold req in Hrun.
  destruct (wrap "failed to get updated CSRF token: %w" GetCSRFToken s3) as [ot' s4] eqn:E6.
  apply catch_run in E6 as (ot & E6 & ->).
  apply GetCSRFToken_once in E6.
  destruct P3 as [Hne2 Htok2].
  destruct E6 as [(_ & -> & ->)|[E6 _]]; [|congruence].
  rewrite Htok2 in Hrun. cbv beta iota in Hrun.
  unfold do_or at 1, bind, httpClient_Do in Hrun. cbv beta iota in Hrun.
  assert (X5 : extends Q 0 s (sent (with_csrf token2 req) s3))
    by (apply extends_step; [exact X3'|apply Hown, Hne2]).
  assert (I5 : same_identity (client s) (client (sent (with_csrf token2 req) s3)))
    by exact I3'.
  unfold sent in X5, I5. clear X3' I3'.
  destruct (http_Do (with_csrf token2 req) (world s3)) as [[err|resp2] w2];
    cbn [snd] in X5, I5; simp_run Hrun; [apply L; auto|].
  clear L.
  unfold getClient in Hrun. cbv beta iota in Hrun. cbn [client] in Hrun.
  cbn [client] in I5.
  destruct I5 as (Ib & Iu & Ip & Ia).
  rewrite Iu, Ip, Ia in Hrun.
  destruct (StatusCode resp2 =? StatusUnauthorized) eqn:U2; cbn [andb] in Hrun.
  2:{ simp_run Hrun. exists 0%nat. split; [exact X5|]. split; [left; reflexivity|].
      intros _. split; [repeat split; assumption|].
      intros U. apply Z.eqb_neq in U2. contradiction. }
  destruct (String.eqb (username (client s)) "") eqn:Eu; cbn [negb andb] in Hrun.
  { apply String.eqb_eq in Eu.
    destruct (MaxAuthRetryAttempts <=? authAttempts (client s)) eqn:Em; simp_run Hrun;
      exists 0%nat; (split; [exact X5|]); (split; [left; reflexivity|]);
      intros _; (split; [repeat split; assumption|]).
    - intros _. apply Z.leb_le, Em.
    - intros _. split; [left; exact Eu|apply Z.leb_gt, Em]. }
  apply String.eqb_neq in Eu.
  destruct (String.eqb (password (client s)) "") eqn:Ep; cbn [negb andb] in Hrun.
  { apply String.eqb_eq in Ep.
    destruct (MaxAuthRetryAttempts <=? authAttempts (client s)) eqn:Em; simp_run Hrun;
      exists 0%nat; (split; [exact X5|]); (split; [left; reflexivity|]);
      intros _; (split; [repeat split; assumption|]).
    - intros _. apply Z.leb_le, Em.
    - intros _. split; [right; exact Ep|apply Z.leb_gt, Em]. }
  apply String.eqb_neq in Ep.
  destruct (authAttempts (client s) <? MaxAuthRetryAttempts) eqn:Ea.
  2:{ apply Z.ltb_ge in Ea.
      destruct (MaxAuthRetryAttempts <=? authAttempts (client s)) eqn:Em;
        [|apply Z.leb_gt in Em; lia].
      simp_run Hrun.
      exists 0%nat. split; [exact X5|]. split; [left; reflexivity|].
      intros _. split; [repeat split; assumption|]. intros _. exact Ea. }
  apply Z.ltb_lt in Ea.
  (* re-login and third request *)
  exists 1%nat. split; [|split; [right; auto|discriminate]].
  unfold modifyClient in Hrun. cbv beta iota in Hrun. cbn [client world log] in Hrun.
  match type of Hrun with context [catch ?f (Login ctx ?u ?p) ?st] =>
    destruct (catch f (Login ctx u p) st) as [ol' s6] eqn:E8;
    apply catch_run in E8 as (ol & E8 & ->);
    apply (Login_extends (baseURL (client s)) method path (bytes_of body)) in E8;
      [|exact Ib]
  end.
  fold Q in E8. destruct E8 as (X6 & B6 & P6).
  cbn [client world log baseURL set_authAttempts] in B6.
  assert (X6' : extends Q 1 s s6).
  { apply (extends_trans _ 0 1 _ _ _ X5).
    destruct X6 as (evs & E & Ll & F). exists evs. repeat split; assumption. }
  clear X5 X6.
  destruct ol as [[]|e|]; simp_run Hrun; try contradiction; [|exact X6'].
  unfold createRequest at 1, bind, getClient in Hrun. cbv beta iota in Hrun.
  rewrite B6, Ib, Enew in Hrun. simp_run Hrun.
  fold (plain_request (baseURL (client s)) method path (bytes_of body)) in Hrun.
  fold req in Hrun.
  destruct (wrap "failed to get CSRF token after re-auth: %w" GetCSRFToken s6)
    as [ot' s7] eqn:E10.
  apply catch_run in E10 as (ot & E10 & ->).
  apply GetCSRFToken_once in E10.
  destruct E10 as [(_ & -> & ->)|[E10 _]]; [|congruence].
  cbv beta iota in Hrun.
  unfold do_or, bind, httpClient_Do in Hrun. cbv beta iota in Hrun.
  assert (X7 : extends Q 1 s (sent (with_csrf (csrfToken (client s6)) req) s6))
    by (apply extends_step; [exact X6'|apply Hown, P6]).
  unfold sent in X7.
  destruct (http_Do (with_csrf (csrfToken (client s6)) req) (world s6))
    as [[err|resp3] w3]; cbn [snd] in X7; simp_run Hrun; exact X7.
Qed.

(** [Login] checks its arguments before it does anything else: with an
    empty user name, an empty password or a password of fewer than six
    bytes it returns a validation error and sends nothing. *)
Theorem Login_validates_first (ctx : option (Context World)) (u p : string)
  (s : Sys World) :
  u = "" \/ (String.length p < 6)%nat ->
  exists message,
    Login ctx u p s
    = (Fail (ValidationError (if String.eqb u "" then "username" else "password")
               message),
       {| client := client s; world := world s; log := log s ++ [EvLogin] |}).
Proof.
  intros Hbad. unfold Login, Login_body, bind, emit. cbv beta iota.
  destruct (String.eqb u "") eqn:Eu; [eexists; reflexivity|].
  destruct (String.eqb p "") eqn:Ep; [eexists; reflexivity|].
  destruct Hbad as [->|Hlen]; [discriminate|].
  apply Nat.ltb_lt in Hlen. rewrite Hlen. eexists; reflexivity.
Qed.

(** A successful [Login] has made exactly three requests, in this order:
    the session GET of the base URL, the POST of the marshalled
    credentials to the login endpoint (without a token header), and the GET
    of a fresh token; it has stored the credentials and the token and put
    the attempts counter back to zero. *)
Theorem Login_success (ctx : option (Context World)) (u p : string)
  (s s' : Sys World) :
  Login ctx u p s = (Ok tt, s') ->
  let base := baseURL (client s) in
  let post := plain_request base "POST" EndpointLogin (Marshal_LoginRequest u p) in
  u <> "" /\ (6 <= String.length p)%nat
  /\ log s' = (log s ++ [EvLogin; EvSend (get_request base); EvSend post;
                         EvSend (get_request (base ++ EndpointCSRFToken))])%list
  /\ exists token,
       token <> ""
       /\ client s' = {| baseURL := base; csrfToken := token; username := u;
                         password := p; authAttempts := 0 |}.
Proof.
  intros Hrun. cbv zeta.
  unfold Login, Login_body, bind, emit in Hrun. cbv beta iota in Hrun.
  destruct (String.eqb u "") eqn:Eu; [simp_run Hrun|].
  destruct (String.eqb p "") eqn:Ep; [simp_run Hrun|].
  destruct (String.length p <? 6)%nat eqn:El; [simp_run Hrun|].
  apply String.eqb_neq in Eu. apply Nat.ltb_ge in El.
  split; [exact Eu|]. split; [exact El|].
  match type of Hrun with context [catch ?f InitializeSession ?s0] =>
    destruct (catch f InitializeSession s0) as [o1 s1] eqn:E1 end.
  apply catch_run in E1 as (o1' & E1 & ->).
  apply InitializeSession_once in E1.
  destruct E1 as [[-> [e ->]]|[-> [->|[e ->]]]]; simp_run Hrun.
  match type of Hrun with context [catch ?f ?m ?s0] =>
    destruct (catch f m s0) as [o2 s2] eqn:E2 end.
  apply catch_run in E2 as (o2' & E2 & ->).
  apply DoRequest_body_plain_once in E2.
  cbn [client world log sent bytes_of] in E2.
  destruct E2 as [[-> [e ->]]|E2]; [simp_run Hrun|].
  cbv zeta in E2. destruct E2 as [-> ->].
  destruct (fst (http_Do _ _)) as [err|resp]; [simp_run Hrun|].
  cbv beta iota in Hrun.
  destruct (_ || _); [simp_run Hrun|].
  destruct (_ && _); [simp_run Hrun|].
  unfold modifyClient in Hrun. cbv beta iota in Hrun.
  match type of Hrun with context [catch ?f ?m ?s0] =>
    destruct (catch f m s0) as [o3 s3] eqn:E3 end.
  apply catch_run in E3 as (o3' & E3 & ->).
  apply fetchCSRFTokenLocked_once in E3. cbv zeta in E3.
  destruct o3' as [token|e|]; [|simp_run Hrun|contradiction].
  destruct E3 as [Hne ->]. simp_run Hrun.
  cbn [client world log sent]. split.
  - rewrite <- !app_assoc. reflexivity.
  - exists token. split; [exact Hne|reflexivity].
Qed.


Lemma ctx_check_done (ctx : option (Context World)) (s : Sys World) :
  ctx_check ctx s = if done_in ctx s then (Fail ContextErr, s) else (Ok tt, s).
Proof. unfold ctx_check, done_in. destruct ctx; reflexivity. Qed.

Lemma DoRequest_body_plain_exact L (ctx : option (Context World))
  (method path : string) (body : option string) (s : Sys World) :
  DoRequest_body L ctx method path body false s
  = let req := plain_request (baseURL (client s)) method path (bytes_of body) in
    if done_in ctx s then (Fail ContextErr, s)
    else if NewRequest_ok method (baseURL (client s) ++ path) then
      (match fst (http_Do req (world s)) with
       | inr resp => Ok resp
       | inl err => Fail (Errorf "request failed: %w" (Some err))
       end, sent req s)
    else (Fail (Errorf "failed to create request: %w"
                  (Some (TransportErr "net/http: invalid request"))), s).
Proof.
  unfold DoRequest_body, bind. rewrite ctx_check_done. cbv zeta.
  destruct (done_in ctx s); [reflexivity|].
  unfold createRequest, bind, getClient. cbv beta iota.
  destruct (NewRequest_ok method (baseURL (client s) ++ path)); [|reflexivity].
  unfold ret. cbv beta iota. unfold do_or, bind, httpClient_Do.
  fold (bytes_of body).
  fold (plain_request (baseURL (client s)) method path (bytes_of body)).
  unfold sent.
  destruct (http_Do _ (world s)) as [[err|resp] w]; cbn [fst snd]; unfold fail, ret;
    cbv beta iota; [reflexivity|].
  rewrite andb_false_r. reflexivity.
Qed.

(** An unprotected request is handed to the HTTP client at most once, and
    the answer is the result whatever its status: no token, no retry, no
    re-login, and the client is left as it was. Nothing is sent exactly
    when the context is done or the request cannot be built; the body is
    nil or bytes already in memory. *)
Theorem DoRequest_unprotected_once (ctx : option (Context World))
  (method path : string) (body : option string) (s : Sys World) :
  DoRequest ctx method path body false s
  = let req := plain_request (baseURL (client s)) method path (bytes_of body) in
    if done_in ctx s then (Fail ContextErr, s)
    else if NewRequest_ok method (baseURL (client s) ++ path) then
      (match fst (http_Do req (world s)) with
       | inr resp => Ok resp
       | inl err => Fail (Errorf "request failed: %w" (Some err))
       end, sent req s)
    else (Fail (Errorf "failed to create request: %w"
                  (Some (TransportErr "net/http: invalid request"))), s).
Proof. rewrite DoRequest_plain_eq. apply DoRequest_body_plain_exact. Qed.

(** Cancellation is checked before anything else: with a context that is
    already done nothing is sent, not even a token request. *)
Theorem DoRequest_cancelled (done : Context World) (method path : string)
  (body : option string) (needsCSRF : bool) (s : Sys World) :
  done (world s) = true ->
  DoRequest (Some done) method path body needsCSRF s = (Fail ContextErr, s).
Proof.
  intros Hdone. unfold DoRequest, DoRequest_body, bind, ctx_check.
  rewrite Hdone. reflexivity.
Qed.

(** [GetCSRFToken] caches: a token it returns is not empty and is stored,
    so that the next call returns it again without a request; and a token
    already stored is returned without touching the network. *)
Theorem GetCSRFToken_cached (s s' : Sys World) (token : string) :
  GetCSRFToken s = (Ok token, s') ->
  token <> "" /\ csrfToken (client s') = token
  /\ GetCSRFToken s' = (Ok token, s')
  /\ (csrfToken (client s) <> "" -> s' = s /\ token = csrfToken (client s)).
Proof.
  intros Hrun.
  destruct (GetCSRFToken_run (baseURL (client s)) "" "" "" _ _ _ Hrun eq_refl)
    as (_ & _ & [Hne Htok] & Hcached).
  split; [exact Hne|]. split; [exact Htok|]. split.
  - destruct (GetCSRFToken s') as [o2 s2] eqn:E2.
    destruct (GetCSRFToken_run (baseURL (client s')) "" "" "" _ _ _ E2 eq_refl)
      as (_ & _ & _ & Hc2).
    destruct Hc2 as [-> ->]; [congruence|]. rewrite Htok. reflexivity.
  - intros Hold. destruct (Hcached Hold) as [-> Ho]. split; [reflexivity|].
    congruence.
Qed.

(** [FetchCSRFToken] always asks the service, whatever token is stored:
    whenever the request can be built, exactly one GET of the token
    endpoint is made, on success and on failure; otherwise nothing is sent
    and the error says so. It succeeds only on a 200 answer whose body
    decodes to a token that is not empty, which it stores; on every failure
    the client keeps the token it had. *)
Theorem FetchCSRFToken_refresh (s s' : Sys World) (o : outcome string) :
  FetchCSRFToken s = (o, s') ->
  let url := baseURL (client s) ++ EndpointCSRFToken in
  let req := get_request url in
  if NewRequest_ok "GET" url then
    match o with
    | Ok token =>
        token <> ""
        /\ s' = {| client := set_csrfToken token (client s);
                   world := snd (http_Do req (world s));
                   log := log s ++ [EvSend req] |}
        /\ exists resp body,
             fst (http_Do req (world s)) = inr resp
             /\ StatusCode resp = StatusOK /\ Body resp = Some body
             /\ (Unmarshal_string body = Some token
                 \/ (Unmarshal_string body = None
                     /\ Unmarshal_token body = Some token))
    | Fail _ => s' = sent req s
    | Panic => False
    end
  else
    s' = s
    /\ o = Fail (Errorf "failed to fetch CSRF token: %w"
                   (Some (TransportErr "net/http: invalid request"))).
Proof.
  intros Hrun url req.
  unfold FetchCSRFToken, fetchCSRFTokenLocked, bind, getClient, httpClient_Get,
    httpClient_Do, modifyClient in Hrun.
  cbv beta iota in Hrun. fold url in Hrun.
  destruct (NewRequest_ok "GET" url); simp_run Hrun; [|auto].
  fold (get_request url) in Hrun. fold req in Hrun. unfold sent.
  destruct (http_Do req (world s)) as [[err|resp] w] eqn:E; simp_run Hrun;
    [reflexivity|].
  destruct (negb (StatusCode resp =? StatusOK)) eqn:Est; simp_run Hrun; [reflexivity|].
  apply negb_false_iff, Z.eqb_eq in Est.
  destruct (Body resp) as [b|] eqn:Eb; simp_run Hrun; [|reflexivity].
  destruct (Unmarshal_string b) as [t|] eqn:Eu.
  - destruct (String.eqb t "") eqn:Et; simp_run Hrun; [reflexivity|].
    apply String.eqb_neq in Et. split; [exact Et|]. split; [reflexivity|].
    exists resp, b. cbn [fst]. auto 6.
  - destruct (Unmarshal_token b) as [t|] eqn:Ek; simp_run Hrun; [|reflexivity].
    destruct (String.eqb t "") eqn:Et; simp_run Hrun; [reflexivity|].
    apply String.eqb_neq in Et. split; [exact Et|]. split; [reflexivity|].
    exists resp, b. cbn [fst]. auto 6.
Qed.
Lemma Header_Get_Set (key val : string) (h : list (string * string)) :
  Header_Get key (Header_Set key val h) = Some val.
Proof.
  unfold Header_Get, Header_Set. rewrite List.filter_app.
  assert (E : List.filter (fun kv : string * string => String.eqb (fst kv) key)
                (List.filter (fun kv => negb (String.eqb (fst kv) key)) h) = []).
  { induction h as [|kv h IH]; [reflexivity|]. cbn.
    destruct (String.eqb (fst kv) key) eqn:E; cbn; [exact IH|].
    rewrite E. exact IH. }
  rewrite E. cbn. rewrite String.eqb_refl. reflexivity.
Qed.

(** Everything a protected call sends is one of four requests: the GET of
    the token, the session GET of the base URL, the POST of the stored
    credentials to the login endpoint, or the caller's own request - and
    that one always carries a token that is not empty. It calls [Login] at
    most once. *)
Theorem DoRequest_protected_requests (ctx : option (Context World))
  (method path : string) (body : option string) (s s' : Sys World)
  (o : outcome Response) :
  DoRequest ctx method path body true s = (o, s') ->
  let base := baseURL (client s) in
  exists evs,
    log s' = (log s ++ evs)%list /\ (nlogins evs <= 1)%nat
    /\ forall req, In (EvSend req) evs ->
         req = get_request (base ++ EndpointCSRFToken)
         \/ req = get_request base
         \/ req = plain_request base "POST" EndpointLogin
                    (Marshal_LoginRequest (username (client s)) (password (client s)))
         \/ (Method req = method /\ URL req = base ++ path
             /\ RequestBody req = bytes_of body
             /\ exists token, token <> ""
                  /\ Header_Get "X-CSRF-TOKEN" (Header req) = Some token).
Proof.
  intros Hrun base.
  destruct (DoRequest_protected_events _ _ _ _ _ _ _ Hrun)
    as (l & (evs & Hlog & Hl & Hall) & Hcount & _).
  exists evs. split; [exact Hlog|]. split; [destruct Hcount as [->|[-> _]]; lia|].
  intros req Hin. rewrite List.Forall_forall in Hall. specialize (Hall _ Hin).
  destruct Hall as [E|[E|[E|(token & Hne & E)]]]; auto.
  right. right. right. subst req. repeat split. exists token.
  split; [exact Hne|]. apply Header_Get_Set.
Qed.



(** [SearchProducts] makes at most one request - an unprotected GET of the
    search endpoint with the page, the query and the size as parameters -
    and none when an argument is rejected; it never logs in and leaves the
    client as it was. Its errors are validation errors or API errors. *)
Theorem SearchProducts_single_request (ctx : option (Context World))
  (query : string) (page size : Z) (prefs : option SearchPreferences)
  (s s' : Sys World) (o : outcome (list Product)) :
  SearchProducts ctx query page size prefs s = (o, s') ->
  let searchPath :=
    EndpointSearch ++ "?" ++ "page=" ++ QueryEscape (Sprintf_d page)
    ++ "&q=" ++ QueryEscape query ++ "&size=" ++ QueryEscape (Sprintf_d size) in
  (s' = s \/ s' = sent (plain_request (baseURL (client s)) "GET" searchPath "") s)
  /\ forall e, o = Fail e -> IsValidationError e || IsAPIError e = true.
Proof.
  intros Hrun searchPath. unfold SearchProducts in Hrun.
  destruct (String.eqb query ""); [simp_run Hrun; split; [left; reflexivity|intros ? [= <-]; reflexivity]|].
  destruct (page <? 0); [simp_run Hrun; split; [left; reflexivity|intros ? [= <-]; reflexivity]|].
  destruct (_ || _); [simp_run Hrun; split; [left; reflexivity|intros ? [= <-]; reflexivity]|].
  cbv zeta in Hrun. fold searchPath in Hrun. unfold bind in Hrun.
  match type of Hrun with context [catch ?f ?m s] =>
    destruct (catch f m s) as [o1 s1] eqn:E1 end.
  apply catch_run in E1 as (o1' & E1 & ->).
  apply DoRequest_body_plain_once in E1. cbn [bytes_of] in E1.
  assert (S1 : s1 = s \/ s1 = sent (plain_request (baseURL (client s)) "GET" searchPath "") s)
    by (destruct E1 as [[-> _]|[-> _]]; auto).
  assert (O1 : (exists e, o1' = Fail e) \/ exists resp, o1' = Ok resp).
  { destruct E1 as [[_ ?]|[_ ->]]; [auto|].
    cbv zeta. destruct (fst _); eauto. }
  clear E1.
  destruct O1 as [[e ->]|[resp ->]]; simp_run Hrun;
    [split; [exact S1|intros ? [= <-]; reflexivity]|].
  destruct (negb _); [simp_run Hrun; split; [exact S1|intros ? [= <-]; reflexivity]|].
  destruct (Body resp) as [b|]; [|simp_run Hrun; split; [exact S1|intros ? [= <-]; reflexivity]].
  destruct (Unmarshal_searchResponse b) as [products|];
    [|simp_run Hrun; split; [exact S1|intros ? [= <-]; reflexivity]].
  destruct (rankProducts products prefs); simp_run Hrun; split; auto; discriminate.
Qed.





End TransportMore.

(* ===================================================================== *)
(** * products.go: the filter and the score                               *)
(* ===================================================================== *)

Section RankingMore.
Context `{GoLib}.

Lemma keepProduct_without_ceiling (prefs : SearchPreferences) (p : Product) :
  PrimFloat.ltb 0 (MaxPricePerUnit prefs) = false ->
  keepProduct prefs (map ToLower (RequiredLabels prefs)) p
  = satisfiesRequired prefs p.
Proof.
  intros Hoff. unfold keepProduct. rewrite Hoff. cbn [andb].
  rewrite hasAllRequired_satisfies, length_map.
  destruct (RequiredLabels prefs) eqn:E; [unfold satisfiesRequired; rewrite E; reflexivity|].
  cbn [List.length Nat.ltb Nat.leb andb]. destruct (satisfiesRequired prefs p); reflexivity.
Qed.

(** When [MaxPricePerUnit] is not greater than zero - zero, negative or
    NaN - the price plays no part: the filter keeps exactly the products
    that carry every required label, whatever their compare price, and with
    no required label it keeps everything. *)
Theorem filterProducts_without_ceiling (products : list Product)
  (prefs : SearchPreferences) :
  PrimFloat.ltb 0 (MaxPricePerUnit prefs) = false ->
  filterProducts products prefs = List.filter (satisfiesRequired prefs) products
  /\ (RequiredLabels prefs = [] -> filterProducts products prefs = products).
Proof.
  intros Hoff. rewrite filterProducts_filter.
  assert (E : List.filter (keepProduct prefs (map ToLower (RequiredLabels prefs))) products
              = List.filter (satisfiesRequired prefs) products).
  { apply List.filter_ext. intros p. apply keepProduct_without_ceiling, Hoff. }
  split; [exact E|]. intros Hnone. rewrite E.
  unfold satisfiesRequired. rewrite Hnone. cbn [forallb].
  clear E. induction products as [|p products IH]; [reflexivity|].
  cbn [List.filter]. f_equal. exact IH.
Qed.

Lemma filter_sublist {A} (f : A -> bool) (l : list A) : sublist (List.filter f l) l.
Proof.
  induction l as [|a l IH]; [constructor|]. cbn.
  destruct (f a); [apply sublist_skip|apply sublist_cons]; exact IH.
Qed.

Lemma filter_filter_same {A} (f : A -> bool) (l : list A) :
  List.filter f (List.filter f l) = List.filter f l.
Proof.
  induction l as [|a l IH]; [reflexivity|]. cbn.
  destruct (f a) eqn:E; [cbn; rewrite E, IH; reflexivity|exact IH].
Qed.

(** The filter judges each product on its own and keeps the order: the
    result is a subsequence of the input, filtering a concatenation is
    filtering the parts, and filtering again changes nothing. *)
Theorem filterProducts_selects (products more : list Product)
  (prefs : SearchPreferences) :
  sublist (filterProducts products prefs) products
  /\ filterProducts (products ++ more) prefs
     = (filterProducts products prefs ++ filterProducts more prefs)%list
  /\ filterProducts (filterProducts products prefs) prefs
     = filterProducts products prefs.
Proof.
  rewrite !filterProducts_filter. split; [apply filter_sublist|].
  split; [apply List.filter_app|apply filter_filter_same].
Qed.

(** The value score is the price part (100 over the compare price, when
    that is positive), plus 10 for every label of the product that contains
    a quality label - once per label, however many quality labels it
    contains, and again for each further label - plus half the savings
    when they are positive. *)
Theorem calculateValueScore_bonus_per_label (p : Product) :
  calculateValueScore p
  = addSavings p
      (Nat.iter (List.length (List.filter isQualityLabel (Labels p)))
         (fun score => (score + 10)%float) (pricePart p)).
Proof.
  unfold calculateValueScore, addSavings, pricePart.
  rewrite labels_loop_spec. reflexivity.
Qed.

End RankingMore.

(* ===================================================================== *)
(** * validation.go: postal codes and time slots                          *)
(* ===================================================================== *)

Section ValidationMore.

Lemma isDigit_digit_byte (c : ascii) :
  time.isDigit c = true ->
  exists d, 0 <= d < 10 /\ c = clock.digit_byte d /\ time.digitVal c = d.
Proof.
  unfold time.isDigit, time.digitVal. intros Hd.
  apply andb_prop in Hd as [Hlo Hhi].
  apply Nat.leb_le in Hlo, Hhi.
  exists (Z.of_nat (nat_of_ascii c) - 48). split; [lia|]. split; [|reflexivity].
  unfold clock.digit_byte.
  replace (48 + Z.to_nat (Z.of_nat (nat_of_ascii c) - 48))%nat with (nat_of_ascii c) by lia.
  symmetry. apply ascii_nat_embedding.
Qed.

Lemma digit_byte_isDigit (d : Z) :
  0 <= d < 10 ->
  time.isDigit (clock.digit_byte d) = true /\ time.digitVal (clock.digit_byte d) = d.
Proof.
  intros Hd. unfold time.isDigit, time.digitVal, clock.digit_byte.
  rewrite nat_ascii_embedding by lia.
  split; [|lia]. apply andb_true_intro. split; apply Nat.leb_le; lia.
Qed.

Lemma matches_digit (s : string) (k : string -> bool) :
  regexp.matches regexp.digit s k
  = match s with
    | String d s' => time.isDigit d && k s'
    | EmptyString => false
    end.
Proof. destruct s; reflexivity. Qed.

Lemma matches_space (s : string) (k : string -> bool) :
  regexp.matches regexp.space s k
  = match s with
    | String d s' => clock.perl_space d && k s'
    | EmptyString => false
    end.
Proof.
  destruct s as [|d s']; [reflexivity|].
  cbn [regexp.matches regexp.space].
  destruct (k s'); [|rewrite !andb_false_r; reflexivity].
  rewrite !andb_true_r.
  destruct d as [[] [] [] [] [] [] [] []]; reflexivity.
Qed.


Ltac regex_in H :=
  repeat (cbn [regexp.matches regexp.Rep regexp.Opt] in H;
          rewrite ?matches_digit, ?matches_space in H;
          cbv beta iota in H);
  rewrite ?andb_false_r, ?orb_false_r in H.

Ltac regex_goal :=
  repeat (cbn [regexp.matches regexp.Rep regexp.Opt];
          rewrite ?matches_digit, ?matches_space;
          cbv beta iota).

Ltac bool_cases :=
  repeat match goal with
         | H : _ && _ = true |- _ => apply andb_prop in H as [? ?]
         | H : _ || _ = true |- _ => apply orb_prop in H as [?|?]
         | H : false = true |- _ => discriminate H
         | H : true = true |- _ => clear H
         end.

Ltac use_digits :=
  cbn [forallb];
  repeat match goal with
         | H : time.isDigit ?c = true |- _ => rewrite H; clear H
         end;
  reflexivity.

Lemma postalCodeRegex_shape (s : string) :
  regexp.MatchString postalCodeRegex s = true <->
  exists d1 d2 d3 d4 d5 : ascii,
    forallb time.isDigit [d1; d2; d3; d4; d5] = true
    /\ (s = string_of_list_ascii [d1; d2; d3; d4; d5]
        \/ exists w, clock.perl_space w = true
                     /\ s = string_of_list_ascii [d1; d2; d3; w; d4; d5]).
Proof.
  unfold regexp.MatchString, postalCodeRegex. split.
  - intros Hm.
    destruct s as [|c1 [|c2 [|c3 [|c4 [|c5 [|c6 [|c7 s]]]]]]];
      regex_in Hm; try discriminate; bool_cases.
    + exists c1, c2, c3, c4, c5. split; [use_digits|left; reflexivity].
    + exists c1, c2, c3, c4, c5. split; [use_digits|left; reflexivity].
    + exists c1, c2, c3, c5, c6. split; [use_digits|].
      right. exists c4. split; [assumption|reflexivity].
  - intros (d1 & d2 & d3 & d4 & d5 & Hd & [->|(w & Hw & ->)]);
      cbn [forallb] in Hd; bool_cases; cbn [string_of_list_ascii]; regex_goal.
    + repeat match goal with
             | H : time.isDigit ?c = true |- _ => rewrite H; clear H
             end. reflexivity.
    + rewrite Hw.
      repeat match goal with
             | H : time.isDigit ?c = true |- _ => rewrite H; clear H
             end.
      cbn [andb orb]. rewrite ?andb_false_r, ?orb_true_r. reflexivity.
Qed.

(** A postal code is accepted exactly when it is five ASCII digits, or
    three digits, one white-space byte of the class [\s] (tab, newline,
    form feed, carriage return, space) and two digits. *)
Theorem ValidatePostalCode_accepts (postalCode : string) :
  ValidatePostalCode postalCode = None <->
  exists d1 d2 d3 d4 d5 : ascii,
    forallb time.isDigit [d1; d2; d3; d4; d5] = true
    /\ (postalCode = string_of_list_ascii [d1; d2; d3; d4; d5]
        \/ exists w, clock.perl_space w = true
                     /\ postalCode = string_of_list_ascii [d1; d2; d3; w; d4; d5]).
Proof.
  rewrite <- postalCodeRegex_shape. unfold ValidatePostalCode.
  destruct (String.eqb postalCode "") eqn:E.
  - apply String.eqb_eq in E. subst. split; discriminate.
  - destruct (regexp.MatchString postalCodeRegex postalCode); cbn [negb];
      split; intros; congruence.
Qed.


Lemma all_clock_spec (P : Z -> Z -> bool) :
  clock.all_clock P = true ->
  forall h m, 0 <= h < 24 -> 0 <= m < 60 -> P h m = true.
Proof.
  unfold clock.all_clock. intros Hall h m Hh Hm.
  rewrite forallb_forall in Hall.
  specialize (Hall (Z.to_nat h)). rewrite forallb_forall in Hall.
  specialize (Hall ltac:(apply in_seq; lia) (Z.to_nat m) ltac:(apply in_seq; lia)).
  rewrite !Z2Nat.id in Hall by lia. exact Hall.
Qed.

Lemma format_facts (h m : Z) :
  0 <= h < 24 -> 0 <= m < 60 ->
  regexp.MatchString timeFormatRegex (clock.format h m) = true
  /\ time.Parse_15_04 (clock.format h m) = Some (h * 3600 + m * 60)
  /\ strings.TrimSpace (clock.format h m) = clock.format h m
  /\ strings.Contains (clock.format h m) "-" = false.
Proof.
  intros Hh Hm.
  assert (H1 := all_clock_spec
    (fun h m => regexp.MatchString timeFormatRegex (clock.format h m))
    ltac:(vm_compute; reflexivity) h m Hh Hm).
  assert (H2 := all_clock_spec
    (fun h m => clock.option_Z_eqb (time.Parse_15_04 (clock.format h m))
                  (Some (h * 3600 + m * 60)))
    ltac:(vm_compute; reflexivity) h m Hh Hm).
  assert (H3 := all_clock_spec
    (fun h m => String.eqb (strings.TrimSpace (clock.format h m)) (clock.format h m))
    ltac:(vm_compute; reflexivity) h m Hh Hm).
  assert (H4 := all_clock_spec
    (fun h m => negb (strings.Contains (clock.format h m) "-"))
    ltac:(vm_compute; reflexivity) h m Hh Hm).
  cbv beta in *. split; [exact H1|]. split.
  - destruct (time.Parse_15_04 (clock.format h m)) as [t|]; [|discriminate].
    unfold clock.option_Z_eqb in H2. apply Z.eqb_eq in H2. rewrite H2. reflexivity.
  - split; [apply String.eqb_eq, H3|]. apply negb_true_iff, H4.
Qed.

Lemma range_digit (lo hi : ascii) (x y : Z) (c : ascii) :
  (nat_of_ascii lo <=? nat_of_ascii c)%nat && (nat_of_ascii c <=? nat_of_ascii hi)%nat = true ->
  Z.of_nat (nat_of_ascii lo) = 48 + x -> Z.of_nat (nat_of_ascii hi) = 48 + y ->
  0 <= x ->
  exists d, x <= d <= y /\ c = clock.digit_byte d.
Proof.
  intros Hr Hlo Hhi Hx. apply andb_prop in Hr as [H1 H2].
  apply Nat.leb_le in H1, H2.
  exists (Z.of_nat (nat_of_ascii c) - 48). split; [lia|].
  unfold clock.digit_byte.
  replace (48 + Z.to_nat (Z.of_nat (nat_of_ascii c) - 48))%nat with (nat_of_ascii c) by lia.
  symmetry. apply ascii_nat_embedding.
Qed.

Lemma format_digits (a b c d : Z) :
  0 <= a -> 0 <= b < 10 -> 0 <= c -> 0 <= d < 10 ->
  String (clock.digit_byte a)
    (String (clock.digit_byte b)
       (String ":" (String (clock.digit_byte c) (String (clock.digit_byte d) ""))))
  = clock.format (a * 10 + b) (c * 10 + d).
Proof.
  intros Ha Hb Hc Hd. unfold clock.format, clock.two_digits.
  replace ((a * 10 + b) / 10) with a by (apply (Z.div_unique _ _ _ b); lia).
  replace ((a * 10 + b) mod 10) with b by (apply (Z.mod_unique _ _ a); lia).
  replace ((c * 10 + d) / 10) with c by (apply (Z.div_unique _ _ _ d); lia).
  replace ((c * 10 + d) mod 10) with d by (apply (Z.mod_unique _ _ c); lia).
  reflexivity.
Qed.

Lemma timeFormatRegex_shape (s : string) :
  regexp.MatchString timeFormatRegex s = true <->
  exists h m, 0 <= h < 24 /\ 0 <= m < 60 /\ s = clock.format h m.
Proof.
  split.
  - unfold regexp.MatchString, timeFormatRegex. intros Hm.
    destruct s as [|c1 [|c2 [|c3 [|c4 [|c5 [|c6 s]]]]]];
      regex_in Hm; try discriminate; bool_cases.
    + (* [01]\d *)
      match goal with H : Ascii.eqb _ c3 = true |- _ => apply Ascii.eqb_eq in H; subst c3 end.
      destruct (range_digit "0" "1" 0 1 c1) as (a & Ha & ->);
        [apply andb_true_intro; split; assumption|reflexivity|reflexivity|lia|].
      destruct (isDigit_digit_byte c2) as (b & Hb & -> & _); [assumption|].
      destruct (range_digit "0" "5" 0 5 c4) as (c & Hc & ->);
        [apply andb_true_intro; split; assumption|reflexivity|reflexivity|lia|].
      destruct (isDigit_digit_byte c5) as (d & Hd & -> & _); [assumption|].
      exists (a * 10 + b), (c * 10 + d). split; [lia|]. split; [lia|].
      apply format_digits; lia.
    + (* 2[0-3] *)
      match goal with H : Ascii.eqb _ c3 = true |- _ => apply Ascii.eqb_eq in H; subst c3 end.
      match goal with H : Ascii.eqb _ c1 = true |- _ => apply Ascii.eqb_eq in H; subst c1 end.
      destruct (range_digit "0" "3" 0 3 c2) as (b & Hb & ->);
        [apply andb_true_intro; split; assumption|reflexivity|reflexivity|lia|].
      destruct (range_digit "0" "5" 0 5 c4) as (c & Hc & ->);
        [apply andb_true_intro; split; assumption|reflexivity|reflexivity|lia|].
      destruct (isDigit_digit_byte c5) as (d & Hd & -> & _); [assumption|].
      exists (2 * 10 + b), (c * 10 + d). split; [lia|]. split; [lia|].
      apply (format_digits 2 b c d); lia.
  - intros (h & m & Hh & Hm & ->). apply format_facts; assumption.
Qed.


Lemma rev_string_rev_string (a acc acc' : string) :
  strings.rev_string acc (strings.rev_string acc' a)
  = strings.rev_string (a ++ acc) acc'.
Proof.
  revert acc'. induction a as [|c a IH]; intros acc'; [reflexivity|].
  cbn [strings.rev_string]. rewrite IH. reflexivity.
Qed.

Lemma string_app_nil (a : string) : a ++ "" = a.
Proof. induction a as [|c a IH]; [reflexivity|]. cbn. rewrite IH. reflexivity. Qed.

Lemma Contains_cons_dash (c : ascii) (a : string) :
  strings.Contains (String c a) "-" = false ->
  Ascii.eqb c "-" = false /\ strings.Contains a "-" = false.
Proof.
  cbn [strings.Contains strings.HasPrefix]. intros Hc.
  apply orb_false_elim in Hc as [H1 H2].
  replace (strings.HasPrefix a "") with true in H1 by (destruct a; reflexivity).
  rewrite andb_true_r in H1. auto.
Qed.

Lemma split_from_no_dash (a cur : string) :
  strings.Contains a "-" = false ->
  strings.split_from "-" 0 cur a = [strings.rev_string "" (strings.rev_string cur a)].
Proof.
  revert cur. induction a as [|c a IH]; intros cur Hc; [reflexivity|].
  apply Contains_cons_dash in Hc as [Hc Ha].
  cbn [strings.split_from strings.HasPrefix strings.rev_string].
  rewrite Hc. cbn [andb]. apply IH, Ha.
Qed.

Lemma split_from_dash (a b cur : string) :
  strings.Contains a "-" = false ->
  strings.split_from "-" 0 cur (a ++ String "-" b)
  = strings.rev_string "" (strings.rev_string cur a) :: strings.split_from "-" 0 "" b.
Proof.
  revert cur. induction a as [|c a IH]; intros cur Hc.
  - cbn [String.append strings.split_from strings.HasPrefix strings.rev_string].
    replace (strings.HasPrefix b "") with true by (destruct b; reflexivity).
    reflexivity.
  - apply Contains_cons_dash in Hc as [Hc Ha].
    cbn [String.append strings.split_from strings.HasPrefix strings.rev_string].
    rewrite Hc. cbn [andb]. apply IH, Ha.
Qed.

Lemma Split_two (a b : string) :
  strings.Contains a "-" = false -> strings.Contains b "-" = false ->
  strings.Split (a ++ "-" ++ b) "-" = [a; b].
Proof.
  intros Ha Hb. unfold strings.Split.
  change ("-" ++ b) with (String "-" b).
  rewrite split_from_dash by exact Ha. rewrite split_from_no_dash by exact Hb.
  rewrite !rev_string_rev_string. cbn [strings.rev_string].
  rewrite !string_app_nil. reflexivity.
Qed.

(** What [ValidateTimeSlot] returns is a pair of well-formed clock times,
    the first strictly before the second, read from the two parts around
    the single ["-"] with the white space around them removed - or two empty
    strings and a validation error on [time_slot]. Where the code drops the
    error of [time.Parse], the parse cannot fail. *)
Theorem ValidateTimeSlot_sound (timeSlot startTime endTime : string)
  (err : option Error) :
  ValidateTimeSlot timeSlot = (startTime, endTime, err) ->
  match err with
  | None =>
      exists part0 part1 h1 m1 h2 m2,
        strings.Split timeSlot "-" = [part0; part1]
        /\ startTime = strings.TrimSpace part0 /\ endTime = strings.TrimSpace part1
        /\ 0 <= h1 < 24 /\ 0 <= m1 < 60 /\ 0 <= h2 < 24 /\ 0 <= m2 < 60
        /\ startTime = clock.format h1 m1 /\ endTime = clock.format h2 m2
        /\ time.Parse_15_04 startTime = Some (h1 * 3600 + m1 * 60)
        /\ time.Parse_15_04 endTime = Some (h2 * 3600 + m2 * 60)
        /\ h1 * 60 + m1 < h2 * 60 + m2
  | Some e =>
      startTime = "" /\ endTime = ""
      /\ exists message, e = ValidationError "time_slot" message
  end.
Proof.
  unfold ValidateTimeSlot. intros Hv.
  destruct (String.eqb timeSlot ""); [simplify_eq; eauto|].
  destruct (strings.Split timeSlot "-") as [|part0 [|part1 [|part2 parts]]] eqn:Es;
    try (simplify_eq; eauto; fail).
  cbv zeta in Hv.
  destruct (regexp.MatchString timeFormatRegex (strings.TrimSpace part0)) eqn:E0;
    cbn [negb] in Hv; [|simplify_eq; eauto].
  destruct (regexp.MatchString timeFormatRegex (strings.TrimSpace part1)) eqn:E1;
    cbn [negb] in Hv; [|simplify_eq; eauto].
  apply timeFormatRegex_shape in E0 as (h1 & m1 & Hh1 & Hm1 & E0).
  apply timeFormatRegex_shape in E1 as (h2 & m2 & Hh2 & Hm2 & E1).
  destruct (format_facts h1 m1 Hh1 Hm1) as (_ & P1 & _).
  destruct (format_facts h2 m2 Hh2 Hm2) as (_ & P2 & _).
  unfold time.Parse_15_04_value, time.After in Hv. rewrite E0, E1, P1, P2 in Hv.
  destruct (h1 * 3600 + m1 * 60 <? h2 * 3600 + m2 * 60) eqn:Elt;
    cbn [negb] in Hv; [|simplify_eq; eauto].
  apply Z.ltb_lt in Elt. simplify_eq.
  exists part0, part1, h1, m1, h2, m2. rewrite E0, E1.
  repeat split; try assumption; try reflexivity; lia.
Qed.

(** Round trip with the way the slots are shown: a slot written as its
    start and end clock times joined by ["-"] is accepted, and split back
    into those two times, exactly when the start is before the end. *)
Theorem ValidateTimeSlot_round_trip (h1 m1 h2 m2 : Z) :
  0 <= h1 < 24 -> 0 <= m1 < 60 -> 0 <= h2 < 24 -> 0 <= m2 < 60 ->
  ValidateTimeSlot (clock.format h1 m1 ++ "-" ++ clock.format h2 m2)
  = if h1 * 60 + m1 <? h2 * 60 + m2
    then (clock.format h1 m1, clock.format h2 m2, None)
    else ("", "", Some (ValidationError "time_slot"
                          "end time must be after start time")).
Proof.
  intros Hh1 Hm1 Hh2 Hm2.
  destruct (format_facts h1 m1 Hh1 Hm1) as (R1 & P1 & T1 & C1).
  destruct (format_facts h2 m2 Hh2 Hm2) as (R2 & P2 & T2 & C2).
  unfold ValidateTimeSlot.
  rewrite Split_two by assumption.
  replace (String.eqb (clock.format h1 m1 ++ "-" ++ clock.format h2 m2) "")
    with false by reflexivity.
  cbv zeta. rewrite T1, T2, R1, R2. cbn [negb].
  unfold time.Parse_15_04_value, time.After. rewrite P1, P2.
  destruct (h1 * 60 + m1 <? h2 * 60 + m2) eqn:E.
  - apply Z.ltb_lt in E.
    replace (h1 * 3600 + m1 * 60 <? h2 * 3600 + m2 * 60) with true
      by (symmetry; apply Z.ltb_lt; lia).
    reflexivity.
  - apply Z.ltb_ge in E.
    replace (h1 * 3600 + m1 * 60 <? h2 * 3600 + m2 * 60) with false
      by (symmetry; apply Z.ltb_ge; lia).
    reflexivity.
Qed.

End ValidationMore.

(* ===================================================================== *)
(** * validation.go: product codes and quantities                         *)
(* ===================================================================== *)

Section ProductCode.

Lemma matches_plus_digits_elim (fuel : nat) (s : string) (k : string -> bool) :
  regexp_plus.matches_plus fuel regexp.digit s k = true ->
  exists ds rest, ds <> "" /\ all_digits ds = true /\ s = ds ++ rest /\ k rest = true.
Proof.
  revert s. induction fuel as [|fuel IH]; intros s Hm; [discriminate|].
  cbn [regexp_plus.matches_plus] in Hm. rewrite matches_digit in Hm.
  destruct s as [|d s']; [discriminate|].
  apply andb_prop in Hm as [Hd Hm]. apply orb_prop in Hm as [Hm|Hm].
  - destruct (IH _ Hm) as (ds & rest & _ & Hds & -> & Hk).
    exists (String d ds), rest. split; [discriminate|].
    split; [unfold all_digits; cbn; rewrite Hd; exact Hds|]. split; [reflexivity|exact Hk].
  - exists (String d ""), s'. split; [discriminate|].
    split; [unfold all_digits; cbn; rewrite Hd; reflexivity|]. split; [reflexivity|exact Hm].
Qed.

Lemma matches_plus_digits_intro (fuel : nat) (ds rest : string) (k : string -> bool) :
  ds <> "" -> all_digits ds = true -> k rest = true ->
  (String.length ds <= fuel)%nat ->
  regexp_plus.matches_plus fuel regexp.digit (ds ++ rest) k = true.
Proof.
  revert ds. induction fuel as [|fuel IH]; intros ds Hne Hds Hk Hlen.
  - destruct ds; [contradiction|cbn in Hlen; lia].
  - destruct ds as [|d ds]; [contradiction|].
    unfold all_digits in Hds. cbn in Hds. apply andb_prop in Hds as [Hd Hds].
    cbn [regexp_plus.matches_plus String.append]. rewrite matches_digit, Hd.
    cbn [andb]. destruct ds as [|d' ds].
    + cbn [String.append]. rewrite Hk. apply orb_true_r.
    + rewrite IH; [reflexivity|discriminate|exact Hds|exact Hk|cbn in Hlen |- *; lia].
Qed.

Lemma unit_suffix_shape (rest : string) :
  regexp.MatchString
    (regexp.Cat (regexp.Lit "_")
       (regexp.Alt (regexp.Cat (regexp.Lit "S") (regexp.Lit "T"))
                   (regexp.Cat (regexp.Lit "K") (regexp.Lit "G")))) rest = true
  <-> rest = "_ST" \/ rest = "_KG".
Proof.
  unfold regexp.MatchString. split.
  - intros Hm.
    destruct rest as [|c1 [|c2 [|c3 [|c4 rest]]]];
      cbn [regexp.matches] in Hm; rewrite ?andb_false_r, ?orb_false_r in Hm;
      try discriminate.
    apply andb_prop in Hm as [H1 Hm]. apply Ascii.eqb_eq in H1. subst c1.
    apply orb_prop in Hm as [Hm|Hm]; apply andb_prop in Hm as [H2 Hm];
      apply andb_prop in Hm as [H3 _];
      apply Ascii.eqb_eq in H2, H3; subst; auto.
  - intros [-> | ->]; reflexivity.
Qed.

Lemma length_append (a b : string) :
  String.length (a ++ b) = (String.length a + String.length b)%nat.
Proof. induction a as [|c a IH]; [reflexivity|]. cbn. rewrite IH. reflexivity. Qed.

(** A product code is accepted exactly when it is one or more ASCII
    digits followed by [_ST] or [_KG]. *)
Theorem ValidateProductCode_accepts (code : string) :
  ValidateProductCode code = None <->
  exists ds unit_,
    ds <> "" /\ all_digits ds = true /\ (unit_ = "ST" \/ unit_ = "KG")
    /\ code = ds ++ "_" ++ unit_.
Proof.
  unfold ValidateProductCode, productCodeRegex_MatchString. split.
  - destruct (String.eqb code ""); [discriminate|].
    destruct (regexp_plus.matches_plus _ _ _ _) eqn:E; [|discriminate].
    intros _. apply matches_plus_digits_elim in E as (ds & rest & Hne & Hds & -> & Hk).
    apply unit_suffix_shape in Hk.
    destruct Hk as [-> | ->]; [exists ds, "ST"|exists ds, "KG"]; auto.
  - intros (ds & unit_ & Hne & Hds & Hu & ->).
    replace (String.eqb (ds ++ "_" ++ unit_) "") with false
      by (destruct ds; [contradiction|reflexivity]).
    rewrite matches_plus_digits_intro; [reflexivity|exact Hne|exact Hds| |].
    + apply unit_suffix_shape. destruct Hu as [-> | ->]; auto.
    + rewrite length_append. lia.
Qed.

(** A quantity is accepted exactly from 1 to 999. *)
Lemma ValidateQuantity_accepts (quantity : Z) :
  ValidateQuantity quantity = None <-> 1 <= quantity <= 999.
Proof.
  unfold ValidateQuantity.
  destruct (quantity <? 1) eqn:E1; [apply Z.ltb_lt in E1; split; [discriminate|lia]|].
  destruct (999 <? quantity) eqn:E2; [apply Z.ltb_lt in E2; split; [discriminate|lia]|].
  apply Z.ltb_ge in E1, E2. split; [lia|reflexivity].
Qed.

End ProductCode.

(* ===================================================================== *)
(** * cart.go: the cart                                                   *)
(* ===================================================================== *)

Section CartFactsMore.
Context {World : Type} `{GoLib} `{Network World} `{Codec}.

Ltac simp_run H :=
  unfold ret, fail, panic in H; cbv beta iota in H; cbn [client world log] in H;
  simplify_eq.





Lemma GetCart_once (ctx : option (Context World)) (s s' : Sys World)
  (o : outcome CartSummary.t) :
  GetCart ctx s = (o, s') ->
  let req := plain_request (baseURL (client s)) "GET" EndpointCart "" in
  (s' = s \/ s' = sent req s)
  /\ match o with
     | Ok summary =>
         exists resp body cartData,
           s' = sent req s
           /\ fst (http_Do req (world s)) = inr resp
           /\ StatusCode resp = StatusOK /\ Body resp = Some body
           /\ Unmarshal_CartResponseData body = Some cartData
           /\ summary = summarize cartData
     | Fail e => IsAPIError e = true
     | Panic => False
     end.
Proof.
  intros Hrun req. unfold GetCart, bind in Hrun.
  match type of Hrun with context [catch ?f ?m s] =>
    destruct (catch f m s) as [o1 s1] eqn:E1 end.
  apply catch_run in E1 as (o1' & E1 & ->).
  rewrite DoRequest_plain_eq in E1.
  apply DoRequest_body_plain_once in E1. cbn [bytes_of] in E1. fold req in E1.
  destruct E1 as [[-> [e ->]]|E1]; [simp_run Hrun; split; [left|]; reflexivity|].
  cbv zeta in E1. destruct E1 as [-> ->].
  destruct (fst (http_Do req (world s))) as [err|resp] eqn:Eresp;
    [simp_run Hrun; split; [right|]; reflexivity|].
  cbv beta iota in Hrun.
  destruct (StatusCode resp =? StatusOK) eqn:Est; cbn [negb] in Hrun;
    [|simp_run Hrun; split; [right|]; reflexivity].
  apply Z.eqb_eq in Est.
  destruct (Body resp) as [body|] eqn:Eb; [|simp_run Hrun; split; [right|]; reflexivity].
  destruct (Unmarshal_CartResponseData body) as [cartData|] eqn:Ed;
    simp_run Hrun; (split; [right; reflexivity|]); [|reflexivity].
  exists resp, body, cartData. auto 10.
Qed.

Lemma GetCart_sends (ctx : option (Context World)) (s s' : Sys World)
  (o : outcome CartSummary.t) :
  GetCart ctx s = (o, s') ->
  let req := plain_request (baseURL (client s)) "GET" EndpointCart "" in
  done_in ctx s = false ->
  NewRequest_ok "GET" (baseURL (client s) ++ EndpointCart) = true ->
  s' = sent req s
  /\ forall resp body cartData,
       fst (http_Do req (world s)) = inr resp -> StatusCode resp = StatusOK ->
       Body resp = Some body -> Unmarshal_CartResponseData body = Some cartData ->
       o = Ok (summarize cartData).
Proof.
  intros Hrun req Hctx Hnew. unfold GetCart, bind, catch in Hrun.
  rewrite DoRequest_plain_eq in Hrun. unfold DoRequest_plain in Hrun.
  rewrite DoRequest_body_plain_exact in Hrun. cbv zeta in Hrun.
  rewrite Hctx, Hnew in Hrun. cbn [bytes_of] in Hrun. fold req in Hrun.
  destruct (fst (http_Do req (world s))) as [err|resp] eqn:Eresp.
  { simp_run Hrun. split; [reflexivity|]. intros ? ? ? [=]. }
  cbv beta iota in Hrun.
  destruct (StatusCode resp =? StatusOK) eqn:Est; cbn [negb] in Hrun.
  2:{ simp_run Hrun. split; [reflexivity|]. intros ? ? ? [= <-] Hst.
      apply Z.eqb_neq in Est. contradiction. }
  destruct (Body resp) as [body|] eqn:Eb.
  2:{ simp_run Hrun. split; [reflexivity|]. intros ? ? ? [= <-] _ Hb. congruence. }
  destruct (Unmarshal_CartResponseData body) as [cartData|] eqn:Ed; simp_run Hrun;
    (split; [reflexivity|]); intros ? ? ? [= <-] _ Hb Hd; congruence.
Qed.

(** [GetCart] makes at most one request, an unprotected GET of the cart
    endpoint - so no token, no retry and no re-login even on a 401 - and
    leaves the client as it was. The request is made whenever the context
    is not done and the request can be built, and [GetCart] succeeds exactly
    when the answer to it is a 200 whose body decodes, with the summary of
    the decoded cart; every error it returns is an API error. *)
Theorem GetCart_single_request (ctx : option (Context World)) (s s' : Sys World)
  (o : outcome CartSummary.t) :
  GetCart ctx s = (o, s') ->
  let req := plain_request (baseURL (client s)) "GET" EndpointCart "" in
  (s' = s \/ s' = sent req s)
  /\ match o with
     | Ok summary =>
         exists resp body cartData,
           s' = sent req s
           /\ fst (http_Do req (world s)) = inr resp
           /\ StatusCode resp = StatusOK /\ Body resp = Some body
           /\ Unmarshal_CartResponseData body = Some cartData
           /\ summary = summarize cartData
     | Fail e => IsAPIError e = true
     | Panic => False
     end
  /\ (done_in ctx s = false ->
      NewRequest_ok "GET" (baseURL (client s) ++ EndpointCart) = true ->
      s' = sent req s
      /\ forall resp body cartData,
           fst (http_Do req (world s)) = inr resp -> StatusCode resp = StatusOK ->
           Body resp = Some body ->
           Unmarshal_CartResponseData body = Some cartData ->
           o = Ok (summarize cartData)).
Proof.
  intros Hrun req.
  destruct (GetCart_once ctx s s' o Hrun) as [Hsent Hout].
  split; [exact Hsent|]. split; [exact Hout|]. exact (GetCart_sends ctx s s' o Hrun).
Qed.


Lemma append_inv_head (base a b : string) : base ++ a = base ++ b -> a = b.
Proof. induction base as [|c base IH]; cbn; [auto|]. intros [= E]. auto. Qed.

Lemma append_not_self (base : string) (c : ascii) (a : string) :
  base <> base ++ String c a.
Proof.
  intros E. apply (f_equal String.length) in E. rewrite length_append in E.
  cbn in E. lia.
Qed.

Lemma extends_impl (P Q : Event -> Prop) l (s s' : Sys World) :
  (forall ev, P ev -> Q ev) -> extends P l s s' -> extends Q l s s'.
Proof.
  intros HPQ (evs & E & L & F). exists evs. repeat split; try assumption.
  eapply Forall_impl; eassumption.
Qed.

Lemma extends_any P l (s s' : Sys World) :
  extends P l s s' -> exists evs, log s' = (log s ++ evs)%list /\ Forall P evs.
Proof. intros (evs & E & _ & F). eauto. Qed.

Lemma any_trans P (s s1 s2 : Sys World) :
  (exists evs, log s1 = (log s ++ evs)%list /\ Forall P evs) ->
  (exists evs, log s2 = (log s1 ++ evs)%list /\ Forall P evs) ->
  exists evs, log s2 = (log s ++ evs)%list /\ Forall P evs.
Proof.
  intros (e1 & E1 & F1) (e2 & E2 & F2). exists (e1 ++ e2)%list.
  split; [rewrite E2, E1, app_assoc; reflexivity|apply Forall_app; auto].
Qed.

Lemma protected_posts (base code jsonData u p : string) (ok : Z -> Prop) (n : Z)
  (ev : Event) :
  ok n -> Marshal_AddToCartRequest (cart_request code n) = Some jsonData ->
  protected_event base "POST" EndpointCartAddProducts jsonData u p ev ->
  posts_quantity base code ok ev.
Proof.
  intros Hok Hm Hev. destruct ev as [req|]; [|exact I].
  unfold posts_quantity, protected_event, tokened in *. intros Hurl.
  destruct Hev as [->|[->|[->|(token & _ & ->)]]];
    cbn [URL get_request plain_request with_csrf] in Hurl.
  - apply append_inv_head in Hurl. discriminate.
  - exfalso. exact (append_not_self _ _ _ Hurl).
  - apply append_inv_head in Hurl. discriminate.
  - split; [reflexivity|]. exists n. split; [exact Hok|]. cbn. exact Hm.
Qed.

Lemma GetCart_posts (ctx : option (Context World)) (base code : string)
  (ok : Z -> Prop) (s s' : Sys World) (o : outcome CartSummary.t) :
  GetCart ctx s = (o, s') -> baseURL (client s) = base ->
  (exists evs, log s' = (log s ++ evs)%list
               /\ Forall (posts_quantity base code ok) evs)
  /\ client s' = client s /\ o <> Panic.
Proof.
  intros Hrun <-. apply GetCart_once in Hrun. cbv zeta in Hrun.
  destruct Hrun as [[->| ->] Ho].
  - split; [exists []; rewrite app_nil_r; split; [reflexivity|constructor]|].
    split; [reflexivity|]. intros ->. exact Ho.
  - split; [|split; [reflexivity|intros ->; exact Ho]].
    eexists. split; [reflexivity|]. constructor; [|constructor].
    unfold posts_quantity. cbn [URL plain_request]. intros Hurl.
    apply append_inv_head in Hurl. discriminate.
Qed.

Lemma post_quantity_posts (ctx : option (Context World)) (code : string)
  (ok : Z -> Prop) (n : Z) (s s' : Sys World) (o : outcome CartSummary.t) :
  post_quantity ctx code n s = (o, s') -> ok n ->
  (exists evs, log s' = (log s ++ evs)%list
               /\ Forall (posts_quantity (baseURL (client s)) code ok) evs)
  /\ baseURL (client s') = baseURL (client s) /\ o <> Panic.
Proof.
  intros Hrun Hok. unfold post_quantity in Hrun.
  destruct (Marshal_AddToCartRequest (cart_request code n)) as [jsonData|] eqn:Em.
  2:{ simp_run Hrun. split; [|split; [reflexivity|discriminate]].
      exists []. rewrite app_nil_r. split; [reflexivity|constructor]. }
  unfold bind in Hrun.
  match type of Hrun with context [catch ?f ?m s] =>
    destruct (catch f m s) as [o1 s1] eqn:E1 end.
  apply catch_run in E1 as (o1' & E1 & ->).
  pose proof (DoRequest_protected_run _ _ _ _ _ _ _ E1) as (l' & _ & Hb & Hpath).
  pose proof (DoRequest_protected_events _ _ _ _ _ _ _ E1) as (l & Hext & _).
  cbn [bytes_of] in Hext.
  apply (extends_impl _ (posts_quantity (baseURL (client s)) code ok)) in Hext;
    [|intros ev; apply (protected_posts _ _ _ _ _ _ n); assumption].
  apply extends_any in Hext.
  assert (Hnp : o1' <> Panic) by (intros ->; inversion Hpath).
  destruct o1' as [resp|e|]; [|simp_run Hrun; split; [exact Hext|split; [exact Hb|discriminate]]|contradiction].
  cbv beta iota in Hrun.
  destruct (_ && _); [simp_run Hrun; split; [exact Hext|split; [exact Hb|discriminate]]|].
  apply (GetCart_posts _ (baseURL (client s)) code ok) in Hrun; [|exact Hb].
  destruct Hrun as (Hget & Hc & Hno).
  split; [eapply any_trans; eassumption|]. split; [rewrite Hc; exact Hb|exact Hno].
Qed.

(** [RemoveFromCart] never posts a negative quantity: every request it
    sends to the add-products endpoint is a POST of the marshalled request
    for the product with a quantity that is at least zero, and zero when the
    quantity to remove is not positive. When the quantity is positive and
    the cart read first does not hold the product, that cart is the result
    and nothing is posted. *)
Theorem RemoveFromCart_posts (ctx : option (Context World)) (productCode : string)
  (quantity : Z) (s s' : Sys World) (o : outcome CartSummary.t) :
  RemoveFromCart ctx productCode quantity s = (o, s') ->
  (exists evs,
      log s' = (log s ++ evs)%list
      /\ Forall (posts_quantity (baseURL (client s)) productCode
                   (fun n => 0 <= n /\ (quantity <= 0 -> n = 0))) evs)
  /\ (0 < quantity ->
      forall currentCart s1,
        GetCart ctx s = (Ok currentCart, s1) ->
        find_quantity productCode (CartSummary.Items currentCart) = None ->
        o = Ok currentCart /\ s' = s1).
Proof.
  intros Hrun. unfold RemoveFromCart in Hrun.
  destruct (quantity <=? 0) eqn:Eq.
  - apply Z.leb_le in Eq. split; [|lia].
    apply post_quantity_posts with (ok := fun n => 0 <= n /\ (quantity <= 0 -> n = 0)) in Hrun;
      [apply Hrun|split; [lia|reflexivity]].
  - apply Z.leb_gt in Eq. unfold bind in Hrun.
    destruct (GetCart ctx s) as [o1 s1] eqn:E1.
    pose proof (GetCart_posts _ (baseURL (client s)) productCode
                  (fun n => 0 <= n /\ (quantity <= 0 -> n = 0)) _ _ _ E1 eq_refl)
      as (Hget & Hc & Hno).
    destruct o1 as [currentCart|e|]; [|simp_run Hrun; split; [exact Hget|intros _ ? ? [=]]|contradiction].
    destruct (find_quantity productCode (CartSummary.Items currentCart)) as [currentQty|] eqn:Ef.
    + split; [|intros _ ? ? [= <- <-] Hn; congruence].
      apply post_quantity_posts with (ok := fun n => 0 <= n /\ (quantity <= 0 -> n = 0)) in Hrun;
        [|split; lia].
      destruct Hrun as (Hpost & _). rewrite Hc in Hpost.
      eapply any_trans; eassumption.
    + simp_run Hrun. split; [exact Hget|].
      intros _ ? ? [= <- <-] _. split; reflexivity.
Qed.

(** [AddToCart] validates before it sends: with a product code that is
    not digits followed by [_ST] or [_KG], or a quantity outside 1..999, it
    returns a validation error and sends nothing. Every request it sends to
    the add-products endpoint is a POST of the marshalled request for
    exactly the product code and the quantity given. *)
Theorem AddToCart_posts (ctx : option (Context World)) (productCode : string)
  (quantity : Z) (s s' : Sys World) (o : outcome CartSummary.t) :
  AddToCart ctx productCode quantity s = (o, s') ->
  (exists evs,
      log s' = (log s ++ evs)%list
      /\ Forall (posts_quantity (baseURL (client s)) productCode
                   (fun n => n = quantity)) evs)
  /\ (ValidateProductCode productCode <> None \/ quantity < 1 \/ 999 < quantity ->
      s' = s /\ exists field message, o = Fail (ValidationError field message)).
Proof.
  intros Hrun. unfold AddToCart in Hrun.
  assert (Hnil : exists evs : list Event,
             log s = (log s ++ evs)%list
             /\ Forall (posts_quantity (baseURL (client s)) productCode
                          (fun n => n = quantity)) evs).
  { exists []. rewrite app_nil_r. split; [reflexivity|constructor]. }
  destruct (ValidateProductCode productCode) as [err|] eqn:Ec.
  { simp_run Hrun. split; [exact Hnil|]. intros _. split; [reflexivity|].
    unfold ValidateProductCode in Ec.
    destruct (String.eqb productCode ""); [simplify_eq; eauto|].
    destruct (negb _); simplify_eq; eauto. }
  destruct (ValidateQuantity quantity) as [err|] eqn:Eq.
  { simp_run Hrun. split; [exact Hnil|]. intros _. split; [reflexivity|].
    unfold ValidateQuantity in Eq.
    destruct (quantity <? 1); [simplify_eq; eauto|].
    destruct (999 <? quantity); simplify_eq; eauto. }
  apply ValidateQuantity_accepts in Eq.
  split; [|intros [Hbad|Hbad]; [congruence|lia]].
  destruct (Marshal_AddToCartRequest (cart_request productCode quantity))
    as [jsonData|] eqn:Em; [|simp_run Hrun; exact Hnil].
  unfold bind in Hrun.
  match type of Hrun with context [catch ?f ?m s] =>
    destruct (catch f m s) as [o1 s1] eqn:E1 end.
  apply catch_run in E1 as (o1' & E1 & ->).
  pose proof (DoRequest_protected_run _ _ _ _ _ _ _ E1) as (l' & _ & Hb & Hpath).
  pose proof (DoRequest_protected_events _ _ _ _ _ _ _ E1) as (l & Hext & _).
  cbn [bytes_of] in Hext.
  apply (extends_impl _ (posts_quantity (baseURL (client s)) productCode
                           (fun n => n = quantity))) in Hext;
    [|intros ev; apply (protected_posts _ _ _ _ _ _ quantity); [reflexivity|assumption]].
  apply extends_any in Hext.
  assert (Hnp : o1' <> Panic) by (intros ->; inversion Hpath).
  destruct o1' as [resp|e|]; [|simp_run Hrun; exact Hext|contradiction].
  cbv beta iota in Hrun.
  destruct (StatusCode resp =? StatusNotFound); [simp_run Hrun; exact Hext|].
  destruct (_ && _); [simp_run Hrun; exact Hext|].
  apply (GetCart_posts _ (baseURL (client s)) productCode (fun n => n = quantity)) in Hrun;
    [|exact Hb].
  destruct Hrun as (Hget & _). eapply any_trans; eassumption.
Qed.

End CartFactsMore.

(* ===================================================================== *)
(** * delivery.go: the delivery set-up                                    *)
(* ===================================================================== *)

Section DeliveryFactsMore.
Context {World : Type} `{GoLib} `{Network World} `{Codec}.

Ltac simp_run H :=
  unfold ret, fail, panic in H; cbv beta iota in H; cbn [client world log] in H;
  simplify_eq.

Lemma ValidatePostalCode_error (postalCode : string) (err : Error) :
  ValidatePostalCode postalCode = Some err ->
  exists message, err = ValidationError "postal_code" message.
Proof.
  unfold ValidatePostalCode. destruct (String.eqb postalCode ""); [intros [= <-]; eauto|].
  destruct (negb _); [intros [= <-]; eauto|discriminate].
Qed.

Lemma CheckDeliverability_once (ctx : option (Context World)) (postalCode : string)
  (s s' : Sys World) (o : outcome bool) :
  CheckDeliverability ctx postalCode s = (o, s') ->
  let req := plain_request (baseURL (client s)) "GET"
               (CheckDeliverability_path postalCode) "" in
  (forall err, ValidatePostalCode postalCode = Some err -> s' = s /\ o = Fail err)
  /\ (s' = s \/ s' = sent req s)
  /\ (forall deliverable, o = Ok deliverable ->
      ValidatePostalCode postalCode = None /\ s' = sent req s
      /\ exists resp, fst (http_Do req (world s)) = inr resp
           /\ (deliverable = true ->
               StatusCode resp = StatusOK
               /\ exists body, Body resp = Some body
                               /\ Decode_deliverable body = Some true))
  /\ (forall resp, s' = sent req s -> fst (http_Do req (world s)) = inr resp ->
      StatusCode resp <> StatusOK -> o = Ok false)
  /\ o <> Panic.
Proof.
  intros Hrun req. unfold CheckDeliverability in Hrun.
  destruct (ValidatePostalCode postalCode) as [err|] eqn:Ev.
  { simp_run Hrun. split; [intros ? [= <-]; auto|]. split; [left; reflexivity|].
    split; [discriminate|]. split; [|discriminate].
    intros resp Hs. exfalso. apply (f_equal log) in Hs. cbn in Hs.
    apply (f_equal (@List.length _)) in Hs. rewrite length_app in Hs. cbn in Hs. lia. }
  split; [discriminate|].
  cbv zeta in Hrun. unfold bind in Hrun.
  match type of Hrun with context [catch ?f ?m s] =>
    destruct (catch f m s) as [o1 s1] eqn:E1 end.
  apply catch_run in E1 as (o1' & E1 & ->).
  rewrite DoRequest_plain_eq in E1.
  apply DoRequest_body_plain_once in E1. cbn [bytes_of] in E1. fold req in E1.
  destruct E1 as [[-> [e ->]]|E1].
  { simp_run Hrun. split; [left; reflexivity|]. split; [discriminate|].
    split; [|discriminate].
    intros resp Hs. exfalso. apply (f_equal log) in Hs. cbn in Hs.
    apply (f_equal (@List.length _)) in Hs. rewrite length_app in Hs. cbn in Hs. lia. }
  cbv zeta in E1. destruct E1 as [-> ->].
  destruct (fst (http_Do req (world s))) as [err|resp] eqn:Eresp.
  { simp_run Hrun. split; [right; reflexivity|].
    split; [discriminate|]. split; [intros ? _ [=]|discriminate]. }
  cbv beta iota in Hrun.
  destruct (StatusCode resp =? StatusOK) eqn:Est; cbn [negb] in Hrun.
  2:{ simp_run Hrun. split; [right; reflexivity|].
      split; [|split; [reflexivity|discriminate]].
      intros d [= <-]. split; [reflexivity|]. split; [reflexivity|].
      exists resp. split; [reflexivity|discriminate]. }
  apply Z.eqb_eq in Est.
  destruct (Body resp) as [body|] eqn:Eb.
  2:{ simp_run Hrun. split; [right; reflexivity|]. split; [discriminate|].
      split; [intros ? _ [= <-] ?; contradiction|discriminate]. }
  destruct (Decode_deliverable body) as [deliverable|] eqn:Ed; simp_run Hrun;
    (split; [right; reflexivity|]).
  - split; [|split; [intros ? _ [= <-] ?; contradiction|discriminate]].
    intros d [= <-]. split; [reflexivity|]. split; [reflexivity|].
    exists resp. split; [reflexivity|]. intros ->. split; [exact Est|].
    exists body. auto.
  - split; [discriminate|].
    split; [intros ? _ [= <-] ?; contradiction|discriminate].
Qed.

(** [CheckDeliverability] rejects a malformed postal code without a
    request; otherwise it makes one unprotected GET, and every answer whose
    status is not 200 - a 401 or a 500 as much as a 404 - means "not
    deliverable", not an error. It answers [true] only on a 200 whose body
    decodes to [deliverable: true]. *)
Theorem CheckDeliverability_answers (ctx : option (Context World))
  (postalCode : string) (s s' : Sys World) (o : outcome bool) :
  CheckDeliverability ctx postalCode s = (o, s') ->
  let req := plain_request (baseURL (client s)) "GET"
               (CheckDeliverability_path postalCode) "" in
  (forall err, ValidatePostalCode postalCode = Some err -> s' = s /\ o = Fail err)
  /\ (s' = s \/ s' = sent req s)
  /\ (forall deliverable, o = Ok deliverable ->
      ValidatePostalCode postalCode = None /\ s' = sent req s
      /\ exists resp, fst (http_Do req (world s)) = inr resp
           /\ (deliverable = true ->
               StatusCode resp = StatusOK
               /\ exists body, Body resp = Some body
                               /\ Decode_deliverable body = Some true))
  /\ (forall resp, s' = sent req s -> fst (http_Do req (world s)) = inr resp ->
      StatusCode resp <> StatusOK -> o = Ok false)
  /\ o <> Panic.
Proof. exact (CheckDeliverability_once ctx postalCode s s' o). Qed.

Lemma protected_no_panic (ctx : option (Context World)) (method path : string)
  (body : option string) (s s' : Sys World) :
  DoRequest ctx method path body true s <> (Panic, s').
Proof.
  intros Hrun.
  destruct (DoRequest_protected_run _ _ _ _ _ _ _ Hrun) as (l & _ & _ & Hpath).
  inversion Hpath.
Qed.

Lemma SetDeliveryMode_no_panic (ctx : option (Context World)) (s s' : Sys World) :
  SetDeliveryMode ctx s <> (Panic, s').
Proof.
  unfold SetDeliveryMode, bind. cbv zeta. intros Hrun.
  match type of Hrun with context [catch ?f ?m s] =>
    destruct (catch f m s) as [o1 s1] eqn:E1 end.
  apply catch_run in E1 as (o1' & E1 & ->).
  destruct o1' as [resp|e|]; [|discriminate|exact (protected_no_panic _ _ _ _ _ _ E1)].
  cbv beta iota in Hrun. destruct (_ && _); discriminate.
Qed.

Lemma SelectTimeSlot_no_panic (ctx : option (Context World)) (slot : TimeSlot)
  (s s' : Sys World) :
  SelectTimeSlot ctx slot s <> (Panic, s').
Proof.
  unfold SelectTimeSlot, bind. intros Hrun.
  destruct (Marshal_slotRequest (reqData slot)); [|discriminate].
  cbv zeta in Hrun.
  match type of Hrun with context [catch ?f ?m s] =>
    destruct (catch f m s) as [o1 s1] eqn:E1 end.
  apply catch_run in E1 as (o1' & E1 & ->).
  destruct o1' as [resp|e|]; [|discriminate|exact (protected_no_panic _ _ _ _ _ _ E1)].
  cbv beta iota in Hrun. destruct (_ && _); discriminate.
Qed.

Lemma SetDeliveryAddress_run (ctx : option (Context World))
  (address : DeliveryAddress) (s s' : Sys World) (o : outcome unit) :
  SetDeliveryAddress ctx address s = (o, s') ->
  (forall err, ValidateDeliveryAddress address = Some err -> s' = s /\ o = Fail err)
  /\ (o = Ok tt -> ValidateDeliveryAddress address = None)
  /\ o <> Panic.
Proof.
  unfold SetDeliveryAddress. intros Hrun.
  destruct (ValidateDeliveryAddress address) as [err|] eqn:Ev.
  { simp_run Hrun. split; [intros ? [= <-]; auto|]. split; discriminate. }
  split; [discriminate|]. split; [reflexivity|].
  cbv zeta in Hrun. unfold bind in Hrun.
  match type of Hrun with context [catch ?f ?m s] =>
    destruct (catch f m s) as [o1 s1] eqn:E1 end.
  apply catch_run in E1 as (o1' & E1 & ->).
  destruct o1' as [resp|e|];
    [|simp_run Hrun; discriminate|exfalso; exact (protected_no_panic _ _ _ _ _ _ E1)].
  cbv beta iota in Hrun. destruct (_ && _); [simp_run Hrun; discriminate|].
  match type of Hrun with context [catch ?f ?m s1] =>
    destruct (catch f m s1) as [o2 s2] eqn:E2 end.
  apply catch_run in E2 as (o2' & E2 & ->).
  destruct o2' as [resp2|e|];
    [|simp_run Hrun; discriminate|exfalso; exact (protected_no_panic _ _ _ _ _ _ E2)].
  cbv beta iota in Hrun. destruct (_ && _); simp_run Hrun; discriminate.
Qed.

(** [SetupDelivery] is the four steps in order, each only after the one
    before succeeded: deliverability of the postal code, delivery mode,
    address, slot. With a malformed postal code nothing is sent. A success
    means that all four succeeded and that the whole address passed
    validation; the result repeats the address and the slot given, with
    the picking fee 59, the fee of the slot as delivery fee, and their sum
    as total. A failure is the failure of one step after the steps before
    it succeeded - or the answer "not deliverable" - and the state is the
    one that step left: no later step was started. *)
Theorem SetupDelivery_steps (ctx : option (Context World))
  (address : DeliveryAddress) (slot : TimeSlot) (s s' : Sys World)
  (o : outcome DeliveryInfo.t) :
  SetupDelivery ctx address slot s = (o, s') ->
  (forall err, ValidatePostalCode (PostalCode address) = Some err ->
               s' = s /\ o = Fail err)
  /\ match o with
     | Ok info =>
         info = {| DeliveryInfo.Address := address;
                   DeliveryInfo.TimeSlot := slot;
                   DeliveryInfo.PickingFee := 59%float;
                   DeliveryInfo.DeliveryFee := Fee slot;
                   DeliveryInfo.TotalFee := (59 + Fee slot)%float |}
         /\ ValidateDeliveryAddress address = None
         /\ exists s1 s2 s3,
              CheckDeliverability ctx (PostalCode address) s = (Ok true, s1)
              /\ SetDeliveryMode ctx s1 = (Ok tt, s2)
              /\ SetDeliveryAddress ctx address s2 = (Ok tt, s3)
              /\ SelectTimeSlot ctx slot s3 = (Ok tt, s')
     | Fail e =>
         CheckDeliverability ctx (PostalCode address) s = (Fail e, s')
         \/ (CheckDeliverability ctx (PostalCode address) s = (Ok false, s')
             /\ e = ValidationError "postal_code"
                      ("delivery not available for postal code "
                       ++ PostalCode address))
         \/ exists s1,
              CheckDeliverability ctx (PostalCode address) s = (Ok true, s1)
              /\ (SetDeliveryMode ctx s1 = (Fail e, s')
                  \/ exists s2,
                       SetDeliveryMode ctx s1 = (Ok tt, s2)
                       /\ (SetDeliveryAddress ctx address s2 = (Fail e, s')
                           \/ exists s3,
                                SetDeliveryAddress ctx address s2 = (Ok tt, s3)
                                /\ SelectTimeSlot ctx slot s3 = (Fail e, s')))
     | Panic => False
     end.
Proof.
  unfold SetupDelivery, bind. intros Hrun.
  destruct (CheckDeliverability ctx (PostalCode address) s) as [o1 s1] eqn:E1.
  pose proof (CheckDeliverability_once _ _ _ _ _ E1) as (Hbad & _ & _ & _ & Hno1).
  split.
  { intros err Hv. destruct (Hbad err Hv) as [-> ->]. simp_run Hrun. auto. }
  destruct o1 as [available|e|]; [|simp_run Hrun; left; reflexivity|contradiction].
  destruct available; cbn [negb] in Hrun; [|simp_run Hrun; right; left; auto].
  destruct (SetDeliveryMode ctx s1) as [o2 s2] eqn:E2.
  destruct o2 as [[]|e|];
    [|simp_run Hrun; right; right; exists s1; split; [reflexivity|]; left; exact E2
     |exfalso; exact (SetDeliveryMode_no_panic _ _ _ E2)].
  destruct (SetDeliveryAddress ctx address s2) as [o3 s3] eqn:E3.
  pose proof (SetDeliveryAddress_run _ _ _ _ _ E3) as (_ & Hvalid & Hno3).
  destruct o3 as [[]|e|];
    [|simp_run Hrun; right; right; exists s1; split; [reflexivity|];
      right; exists s2; split; [exact E2|]; left; exact E3|contradiction].
  destruct (SelectTimeSlot ctx slot s3) as [o4 s4] eqn:E4.
  destruct o4 as [[]|e|];
    [|simp_run Hrun; right; right; exists s1; split; [reflexivity|];
      right; exists s2; split; [exact E2|]; right; exists s3; split; [exact E3|exact E4]
     |exfalso; exact (SelectTimeSlot_no_panic _ _ _ _ E4)].
  simp_run Hrun. split; [reflexivity|]. split; [apply Hvalid; reflexivity|].
  exists s1, s2, s3. auto.
Qed.
(** When the deliverability endpoint answers with any status other than
    200, [SetupDelivery] reports a validation error on the postal code -
    "delivery not available" - and has sent nothing but that one GET: the
    cart is not touched. *)
Theorem SetupDelivery_not_deliverable (ctx : option (Context World))
  (address : DeliveryAddress) (slot : TimeSlot) (s : Sys World) (resp : Response) :
  let req := plain_request (baseURL (client s)) "GET"
               (CheckDeliverability_path (PostalCode address)) "" in
  ValidatePostalCode (PostalCode address) = None ->
  (forall done, ctx = Some done -> done (world s) = false) ->
  NewRequest_ok "GET" (URL req) = true ->
  fst (http_Do req (world s)) = inr resp ->
  StatusCode resp <> StatusOK ->
  SetupDelivery ctx address slot s
  = (Fail (ValidationError "postal_code"
             ("delivery not available for postal code " ++ PostalCode address)),
     sent req s).
Proof.
  intros req Hv Hctx Hnew Hresp Hst.
  unfold SetupDelivery, CheckDeliverability, bind. rewrite Hv. cbv zeta.
  unfold catch. rewrite DoRequest_plain_eq.
  unfold DoRequest_plain, DoRequest_body, bind.
  assert (Ec : ctx_check ctx s = (Ok tt, s)).
  { unfold ctx_check. destruct ctx as [done|]; [|reflexivity].
    rewrite (Hctx done eq_refl). reflexivity. }
  rewrite Ec. unfold createRequest, bind, getClient. cbv beta iota.
  cbn [URL plain_request req] in Hnew. rewrite Hnew.
  unfold ret. cbv beta iota.
  unfold do_or, bind, httpClient_Do. cbn [bytes_of].
  fold (plain_request (baseURL (client s)) "GET"
          (CheckDeliverability_path (PostalCode address)) ""). fold req.
  unfold sent.
  destruct (http_Do req (world s)) as [r w]. cbn [fst snd] in *. subst r.
  unfold ret. cbv beta iota. rewrite andb_false_r. cbv beta iota.
  apply Z.eqb_neq in Hst. rewrite Hst. cbn [negb]. reflexivity.
Qed.

End DeliveryFactsMore.

(* ===================================================================== *)
(** * tools.go and the query of the address                               *)
(* ===================================================================== *)

Section ToolsFacts.
Context `{GoLib}.

(** The query string of [SetDeliveryAddress]: the keys in byte order, the
    street under [addressLine1] and the city under [town], the four unused
    keys present and empty, and the door code and the message to the driver
    only when they are not empty. *)
Theorem SetDeliveryAddress_path_encoding (address : DeliveryAddress) :
  SetDeliveryAddress_path address
  = EndpointCartDeliveryAddress ++ "?"
    ++ url.join
         ([("addressLine1", Address address); ("addressLine2", "");
           ("cellphone", "")]
          ++ (if String.eqb (DoorCode address) "" then []
              else [("doorCode", DoorCode address)])
          ++ [("firstName", FirstName address); ("lastName", LastName address);
              ("latitude", ""); ("longitude", "")]
          ++ (if String.eqb (MessageToDriver address) "" then []
              else [("messageToDriver", MessageToDriver address)])
          ++ [("postalCode", PostalCode address); ("town", City address)])%list.
Proof.
  unfold SetDeliveryAddress_path, url.Encode, address_params.
  destruct (String.eqb (DoorCode address) ""), (String.eqb (MessageToDriver address) "");
    reflexivity.
Qed.

(** The slot [SelectDeliveryTime] hands to [SetupDelivery] is the first
    slot of the listing that has the date, the start and the end time asked
    for and is available - never an unavailable one; there is none exactly
    when no slot of the listing is such. *)
Theorem matchedSlot_first (availableSlots : list TimeSlot)
  (deliveryDate startTime endTime : string) :
  match matchedSlot availableSlots deliveryDate startTime endTime with
  | Some slot =>
      exists before after,
        availableSlots = (before ++ slot :: after)%list
        /\ slot_matches deliveryDate startTime endTime slot
        /\ Forall (fun other => ~ slot_matches deliveryDate startTime endTime other)
             before
  | None =>
      Forall (fun other => ~ slot_matches deliveryDate startTime endTime other)
        availableSlots
  end.
Proof.
  induction availableSlots as [|slot rest IH]; [constructor|].
  cbn [matchedSlot].
  destruct (String.eqb (Date slot) deliveryDate) eqn:Ed; cbn [andb].
  2:{ apply String.eqb_neq in Ed.
      assert (Hn : ~ slot_matches deliveryDate startTime endTime slot)
        by (intros (? & _); contradiction).
      destruct (matchedSlot rest deliveryDate startTime endTime) as [found|].
      - destruct IH as (before & after & -> & Hm & Hb).
        exists (slot :: before), after. repeat split; try apply Hm.
        constructor; assumption.
      - constructor; assumption. }
  destruct (String.eqb (StartTime slot) startTime) eqn:Es; cbn [andb].
  2:{ apply String.eqb_neq in Es.
      assert (Hn : ~ slot_matches deliveryDate startTime endTime slot)
        by (intros (_ & ? & _); contradiction).
      destruct (matchedSlot rest deliveryDate startTime endTime) as [found|].
      - destruct IH as (before & after & -> & Hm & Hb).
        exists (slot :: before), after. repeat split; try apply Hm.
        constructor; assumption.
      - constructor; assumption. }
  destruct (String.eqb (EndTime slot) endTime) eqn:Ee; cbn [andb].
  2:{ apply String.eqb_neq in Ee.
      assert (Hn : ~ slot_matches deliveryDate startTime endTime slot)
        by (intros (_ & _ & ? & _); contradiction).
      destruct (matchedSlot rest deliveryDate startTime endTime) as [found|].
      - destruct IH as (before & after & -> & Hm & Hb).
        exists (slot :: before), after. repeat split; try apply Hm.
        constructor; assumption.
      - constructor; assumption. }
  destruct (Available slot) eqn:Ea.
  2:{ assert (Hn : ~ slot_matches deliveryDate startTime endTime slot)
        by (intros (_ & _ & _ & ?); congruence).
      destruct (matchedSlot rest deliveryDate startTime endTime) as [found|].
      - destruct IH as (before & after & -> & Hm & Hb).
        exists (slot :: before), after. repeat split; try apply Hm.
        constructor; assumption.
      - constructor; assumption. }
  apply String.eqb_eq in Ed, Es, Ee.
  exists [], rest. repeat split; try assumption. constructor.
Qed.

End ToolsFacts.

(* ===================================================================== *)
(** * Search without a sort directive                                     *)
(* ===================================================================== *)

Section SearchFacts.
Context {World : Type} `{GoLib} `{Network World}.

Lemma lessProducts_unrecognized (prefs : SearchPreferences) (pi pj : Product) :
  SortBy prefs <> "cheapest" -> SortBy prefs <> "best_value" ->
  SortBy prefs <> "highest_quality" ->
  lessProducts prefs pi pj = false.
Proof.
  intros H1%String.eqb_neq H2%String.eqb_neq H3%String.eqb_neq.
  unfold lessProducts. rewrite H1, H2, H3. reflexivity.
Qed.

(** C4: without preferences [SearchProducts] returns the decoded results
    as they are - the ranking stage is the identity, and a search whose
    request is answered 200 with a body decoding to [results] returns
    [results] -; and with preferences whose sort mode is none of the three
    recognized ones (the empty string included) the sort stage returns
    its input, in its order. *)
Theorem pass_through_without_sort_directive :
  (forall products : list Product, rankProducts products None = Some products)
  /\ (forall (ctx : option (Context World)) (query : string) (page size : Z)
             (s s' : Sys World) (resp : Response) (body : string)
             (results : list Product),
        query <> "" -> 0 <= page -> 1 <= size /\ size <= 100 ->
        DoRequest ctx "GET"
          (EndpointSearch ++ "?" ++ "page=" ++ QueryEscape (Sprintf_d page)
           ++ "&q=" ++ QueryEscape query ++ "&size=" ++ QueryEscape (Sprintf_d size))
          None false s = (Ok resp, s') ->
        StatusCode resp = StatusOK -> Body resp = Some body ->
        Unmarshal_searchResponse body = Some results ->
        SearchProducts ctx query page size None s = (Ok results, s'))
  /\ (forall (products : list Product) (prefs : SearchPreferences),
        SortBy prefs <> "cheapest" -> SortBy prefs <> "best_value" ->
        SortBy prefs <> "highest_quality" ->
        sortProducts products prefs = Some products).
Proof.
  split; [reflexivity|]. split.
  - intros. eapply SearchProducts_no_preferences; eauto.
  - intros products prefs H1 H2 H3. unfold sortProducts.
    apply sort_facts.Slice_false.
    intros x y. apply lessProducts_unrecognized; assumption.
Qed.

End SearchFacts.

(* ===================================================================== *)
(** * Package [sort]: [sort.Slice] stays within the slice                 *)
(* ===================================================================== *)

Module sort_safe.
Local Open Scope nat_scope.
Import sort_spec.

Section Safe.
Context {A : Type} (less : A -> A -> bool).

Lemma within_refl (a b : nat) (l : list A) : within a b l l.
Proof. repeat split; auto. Qed.

Lemma within_trans (a b : nat) (l1 l2 l3 : list A) :
within a b l1 l2 -> within a b l2 l3 -> within a b l1 l3.
Proof.
intros (L1 & P1 & O1) (L2 & P2 & O2). split; [congruence|].
split; [etransitivity; eassumption|].
intros k Hk. rewrite O2, O1 by exact Hk. reflexivity.
Qed.

Lemma within_weaken (a b a' b' : nat) (l l' : list A) :
a' <= a -> b <= b' -> within a b l l' -> within a' b' l l'.
Proof.
intros Ha Hb (L & P & O). split; [exact L|]. split; [exact P|].
intros k Hk. apply O. lia.
Qed.

Lemma within_length (a b : nat) (l l' : list A) :
within a b l l' -> length l' = length l.
Proof. intros (L & _). exact L. Qed.

Lemma Less_Some (l : list A) (i j : nat) :
i < length l -> j < length l -> exists c, sort.Less less l i j = Some c.
Proof.
intros Hi Hj. unfold sort.Less.
destruct (lookup_lt_is_Some_2 l i Hi) as [x ->].
destruct (lookup_lt_is_Some_2 l j Hj) as [y ->].
cbn. eauto.
Qed.

Lemma insert_head_perm (t : list A) (j : nat) (y h : A) :
t !! j = Some y -> y :: <[j:=h]> t ≡ₚ h :: t.
Proof.
revert j. induction t as [|z t IH]; intros j Hj; [discriminate|].
destruct j as [|j]; cbn in *.
- simplify_eq. apply perm_swap.
- rewrite (perm_swap z y). rewrite (IH _ Hj). apply perm_swap.
Qed.

Lemma swap_perm (l : list A) (i j : nat) (x y : A) :
l !! i = Some x -> l !! j = Some y -> <[j:=x]> (<[i:=y]> l) ≡ₚ l.
Proof.
revert i j. induction l as [|h t IH]; intros i j Hi Hj; [discriminate|].
destruct i as [|i], j as [|j]; cbn in *; simplify_eq.
- reflexivity.
- apply insert_head_perm, Hj.
- symmetry. rewrite <- (insert_head_perm t i x y Hi) at 1. reflexivity.
- constructor. apply IH; assumption.
Qed.

Lemma Swap_within (a b : nat) (l : list A) (i j : nat) :
a <= i < b -> a <= j < b -> b <= length l ->
exists l', sort.Swap l i j = Some l' /\ within a b l l'.
Proof.
intros Hi Hj Hb. unfold sort.Swap.
destruct (lookup_lt_is_Some_2 l i ltac:(lia)) as [x Hx].
destruct (lookup_lt_is_Some_2 l j ltac:(lia)) as [y Hy].
rewrite Hx, Hy. cbn. eexists. split; [reflexivity|].
split; [rewrite !length_insert; reflexivity|].
split; [apply swap_perm; assumption|].
intros k Hk. rewrite !list_lookup_insert_ne by lia. reflexivity.
Qed.

Lemma insertionSort_inner_safe (a b j : nat) (l : list A) :
a <= j < b -> b <= length l ->
exists l', sort.insertionSort_inner less a j l = Some l' /\ within a b l l'.
Proof.
revert l. induction j as [|j IH]; intros l Hj Hb.
- exists l. split; [reflexivity|apply within_refl].
- cbn [sort.insertionSort_inner].
destruct (decide (a < S j)); [|exists l; split; [reflexivity|apply within_refl]].
destruct (Less_Some l (S j) j) as [c ->]; [lia|lia|]. cbn.
destruct c; [|exists l; split; [reflexivity|apply within_refl]].
destruct (Swap_within a b l (S j) j) as (l1 & -> & W1); [lia|lia|lia|]. cbn.
destruct (IH l1) as (l2 & -> & W2); [lia|rewrite (within_length _ _ _ _ W1); lia|].
exists l2. split; [reflexivity|eapply within_trans; eassumption].
Qed.

Lemma for_each_safe (a b : nat) (idxs : list nat)
(body : nat -> list A -> option (list A)) (l : list A) :
(forall i l, In i idxs -> b <= length l ->
           exists l', body i l = Some l' /\ within a b l l') ->
b <= length l ->
exists l', sort.for_each idxs body l = Some l' /\ within a b l l'.
Proof.
revert l. induction idxs as [|i idxs IH]; intros l Hbody Hb.
- exists l. split; [reflexivity|apply within_refl].
- cbn [sort.for_each].
destruct (Hbody i l) as (l1 & -> & W1); [left; reflexivity|exact Hb|]. cbn.
destruct (IH l1) as (l2 & -> & W2).
+ intros k l0 Hk. apply Hbody. right. exact Hk.
+ rewrite (within_length _ _ _ _ W1). exact Hb.
+ exists l2. split; [reflexivity|eapply within_trans; eassumption].
Qed.

Lemma insertionSort_safe (a b : nat) (l : list A) :
b <= length l ->
exists l', sort.insertionSort less a b l = Some l' /\ within a b l l'.
Proof.
intros Hb. unfold sort.insertionSort. apply for_each_safe; [|exact Hb].
intros i l0 Hi%in_seq Hl. apply insertionSort_inner_safe; lia.
Qed.

Lemma siftDown_loop_safe (fuel hi first root : nat) (l : list A) :
hi - root < fuel -> first + hi <= length l ->
exists l', sort.siftDown_loop less fuel hi first root l = Some l'
         /\ within first (first + hi) l l'.
Proof.
revert root l. induction fuel as [|fuel IH]; intros root l Hf Hb; [lia|].
cbn [sort.siftDown_loop]. cbv zeta.
destruct (decide (hi <= 2 * root + 1)); [exists l; split; [reflexivity|apply within_refl]|].
assert (exists c1, (if decide (2 * root + 1 + 1 < hi)
                  then sort.Less less l (first + (2 * root + 1)) (first + (2 * root + 1) + 1)
                  else Some false) = Some c1
                 /\ (c1 = true -> 2 * root + 1 + 1 < hi)) as (c1 & -> & Hc1).
{ destruct (decide _) as [Hlt|Hge].
- destruct (Less_Some l (first + (2 * root + 1)) (first + (2 * root + 1) + 1))
    as [c Hc]; [lia|lia|]. exists c. auto.
- exists false. split; [reflexivity|discriminate]. }
cbn [mbind option_bind].
set (child := if c1 then 2 * root + 1 + 1 else 2 * root + 1).
assert (Hc : root < child < hi).
{ subst child. destruct c1; [specialize (Hc1 eq_refl)|]; lia. }
destruct (Less_Some l (first + root) (first + child)) as [c2 ->]; [lia|lia|]. cbn [mbind option_bind].
destruct c2; cbn [negb]; [|exists l; split; [reflexivity|apply within_refl]].
destruct (Swap_within first (first + hi) l (first + root) (first + child))
as (l1 & -> & W1); [lia|lia|lia|]. cbn [mbind option_bind].
destruct (IH child l1) as (l2 & -> & W2);
[lia|rewrite (within_length _ _ _ _ W1); lia|].
exists l2. split; [reflexivity|eapply within_trans; eassumption].
Qed.

Ltac obind := cbn [mbind option_bind].

Ltac stay l := exists l; split; [reflexivity|apply within_refl].

Lemma siftDown_safe (lo hi first : nat) (l : list A) :
first + hi <= length l ->
exists l', sort.siftDown less lo hi first l = Some l'
         /\ within first (first + hi) l l'.
Proof. intros Hb. unfold sort.siftDown. apply siftDown_loop_safe; [lia|exact Hb]. Qed.

Lemma heapSort_safe (a b : nat) (l : list A) :
a <= b -> b <= length l ->
exists l', sort.heapSort less a b l = Some l' /\ within a b l l'.
Proof.
intros Hab Hb. unfold sort.heapSort. cbv zeta.
destruct (for_each_safe a b (rev (seq 0 ((b - a - 1) / 2 + 1)))
          (fun i l => sort.siftDown less i (b - a) a l) l) as (l1 & -> & W1).
{ intros i l0 _ Hl.
destruct (siftDown_safe i (b - a) a l0) as (l' & -> & W); [lia|].
exists l'. split; [reflexivity|]. eapply within_weaken; [| |exact W]; lia. }
{ exact Hb. }
obind.
destruct (for_each_safe a b (rev (seq 0 (b - a)))
          (fun i l => l' ← sort.Swap l a (a + i); sort.siftDown less 0 i a l') l1)
as (l2 & -> & W2).
{ intros i l0 Hi%in_rev%in_seq Hl.
destruct (Swap_within a b l0 a (a + i)) as (l3 & -> & W3); [lia|lia|lia|]. obind.
destruct (siftDown_safe 0 i a l3) as (l4 & -> & W4).
{ rewrite (within_length _ _ _ _ W3). lia. }
exists l4. split; [reflexivity|]. eapply within_trans; [exact W3|].
eapply within_weaken; [| |exact W4]; lia. }
{ rewrite (within_length _ _ _ _ W1). exact Hb. }
exists l2. split; [reflexivity|eapply within_trans; eassumption].
Qed.

Lemma test_Some (flip : bool) (l : list A) (k p : nat) :
k < length l -> p < length l -> exists c, sort.test less flip l k p = Some c.
Proof. intros Hk Hp. unfold sort.test. destruct flip; apply Less_Some; assumption. Qed.

Lemma scan_up_safe (fuel : nat) (flip want : bool) (p j i : nat) (l : list A) :
j < length l -> p < length l ->
exists i', sort.scan_up less fuel flip want p j i l = Some i'
         /\ i <= i' /\ (i' <= j + 1 \/ i' = i).
Proof.
intros Hj Hp. revert i. induction fuel as [|fuel IH]; intros i.
- exists i. split; [reflexivity|lia].
- cbn [sort.scan_up]. destruct (decide (i <= j)); [|exists i; split; [reflexivity|lia]].
destruct (test_Some flip l i p) as [c ->]; [lia|lia|]. obind.
destruct (Bool.eqb c want); [|exists i; split; [reflexivity|lia]].
destruct (IH (S i)) as (i' & -> & Hi'). exists i'. split; [reflexivity|lia].
Qed.

Lemma scan_down_safe (flip want : bool) (p i j : nat) (l : list A) :
j < length l -> p < length l -> 1 <= i ->
exists j', sort.scan_down less flip want p i j l = Some j'
         /\ j' <= j /\ (i <= j' + 1 \/ j' = j).
Proof.
intros Hj Hp Hi. induction j as [|j IH].
- cbn [sort.scan_down]. destruct (decide (i <= 0)); [lia|].
exists 0. split; [reflexivity|lia].
- cbn [sort.scan_down]. destruct (decide (i <= S j)); [|exists (S j); split; [reflexivity|lia]].
destruct (test_Some flip l (S j) p) as [c ->]; [lia|lia|]. obind.
destruct (Bool.eqb c want); [|exists (S j); split; [reflexivity|lia]].
destruct IH as (j' & -> & Hj'); [lia|]. exists j'. split; [reflexivity|lia].
Qed.

Lemma partition_loop_safe (fuel : nat) (flip : bool) (a b i j : nat) (l : list A) :
S j - i < fuel -> a + 1 <= i <= b -> a <= j < b -> b <= length l ->
exists l' i' j',
sort.partition_loop less fuel flip a i j l = Some (l', i', j')
/\ within (a + 1) b l l' /\ a + 1 <= i' <= b /\ a <= j' < b.
Proof.
revert i j l. induction fuel as [|fuel IH]; intros i j l Hf Hi Hj Hb; [lia|].
cbn [sort.partition_loop].
destruct (scan_up_safe (S j - i) flip (negb flip) a j i l) as (i1 & -> & Hi1); [lia|lia|].
obind.
destruct (scan_down_safe flip flip a i1 j l) as (j1 & -> & Hj1); [lia|lia|lia|].
obind.
destruct (decide (j1 < i1)).
- exists l, i1, j1. split; [reflexivity|]. split; [apply within_refl|]. lia.
- destruct (Swap_within (a + 1) b l i1 j1) as (l1 & -> & W1); [lia|lia|lia|]. obind.
destruct j1 as [|j1']; [lia|].
destruct (IH (S i1) j1' l1) as (l2 & i2 & j2 & -> & W2 & Hi2 & Hj2);
  [lia|lia|lia|rewrite (within_length _ _ _ _ W1); lia|].
exists l2, i2, j2. split; [reflexivity|].
split; [eapply within_trans; eassumption|]. lia.
Qed.

Lemma partition_safe (a b pivot : nat) (l : list A) :
a <= pivot < b -> b <= length l ->
exists l' mid already,
sort.partition less a b pivot l = Some (l', mid, already)
/\ within a b l l' /\ a <= mid < b.
Proof.
intros Hp Hb. unfold sort.partition. destruct b as [|b']; [lia|].
destruct (Swap_within a (S b') l a pivot) as (l1 & -> & W1); [lia|lia|lia|]. obind.
assert (L1 := within_length _ _ _ _ W1).
destruct (scan_up_safe (S b' - (a + 1)) false true a b' (a + 1) l1)
as (i1 & -> & Hi1); [lia|lia|]. obind.
destruct (scan_down_safe false false a i1 b' l1) as (j1 & -> & Hj1); [lia|lia|lia|].
obind.
destruct (decide (j1 < i1)).
- destruct (Swap_within a (S b') l1 j1 a) as (l2 & -> & W2); [lia|lia|lia|]. obind.
exists l2, j1, true. split; [reflexivity|].
split; [eapply within_trans; eassumption|lia].
- destruct (Swap_within a (S b') l1 i1 j1) as (l2 & -> & W2); [lia|lia|lia|]. obind.
assert (L2 := within_length _ _ _ _ W2).
destruct j1 as [|j1']; [lia|].
unfold sort.partition_for.
destruct (partition_loop_safe (S (S j1' - S i1)) false a (S b') (S i1) j1' l2)
  as (l3 & i3 & j3 & -> & W3 & Hi3 & Hj3); [lia|lia|lia|lia|]. obind.
assert (L3 := within_length _ _ _ _ W3).
destruct (Swap_within a (S b') l3 j3 a) as (l4 & -> & W4); [lia|lia|lia|]. obind.
exists l4, j3, false. split; [reflexivity|]. split; [|lia].
eapply within_trans; [exact W1|]. eapply within_trans; [exact W2|].
eapply within_trans; [|exact W4]. eapply within_weaken; [| |exact W3]; lia.
Qed.

Lemma partitionEqual_safe (a b pivot : nat) (l : list A) :
a <= pivot < b -> b <= length l ->
exists l' mid,
sort.partitionEqual less a b pivot l = Some (l', mid)
/\ within a b l l' /\ a + 1 <= mid <= b.
Proof.
intros Hp Hb. unfold sort.partitionEqual. destruct b as [|b']; [lia|].
destruct (Swap_within a (S b') l a pivot) as (l1 & -> & W1); [lia|lia|lia|]. obind.
assert (L1 := within_length _ _ _ _ W1).
unfold sort.partition_for.
destruct (partition_loop_safe (S (S b' - (a + 1))) true a (S b') (a + 1) b' l1)
as (l3 & i3 & j3 & -> & W3 & Hi3 & Hj3); [lia|lia|lia|lia|]. obind.
exists l3, i3. split; [reflexivity|]. split; [|lia].
eapply within_trans; [exact W1|]. eapply within_weaken; [| |exact W3]; lia.
Qed.

Lemma shift_left_safe (b j : nat) (l : list A) :
j < b -> b <= length l ->
exists l', sort.shift_left less j l = Some l' /\ within 0 b l l'.
Proof.
revert l. induction j as [|j IH]; intros l Hj Hb; [stay l|].
cbn [sort.shift_left].
destruct (Less_Some l (S j) j) as [c ->]; [lia|lia|]. obind.
destruct c; [|stay l].
destruct (Swap_within 0 b l (S j) j) as (l1 & -> & W1); [lia|lia|lia|]. obind.
destruct (IH l1) as (l2 & -> & W2); [lia|rewrite (within_length _ _ _ _ W1); lia|].
exists l2. split; [reflexivity|eapply within_trans; eassumption].
Qed.

Lemma shift_right_safe (fuel b j : nat) (l : list A) :
1 <= j -> b <= length l ->
exists l', sort.shift_right less fuel b j l = Some l' /\ within 0 b l l'.
Proof.
revert j l. induction fuel as [|fuel IH]; intros j l Hj Hb; [stay l|].
cbn [sort.shift_right]. destruct (decide (j < b)); [|stay l].
destruct (Less_Some l j (j - 1)) as [c ->]; [lia|lia|]. obind.
destruct c; [|stay l].
destruct (Swap_within 0 b l j (j - 1)) as (l1 & -> & W1); [lia|lia|lia|]. obind.
destruct (IH (S j) l1) as (l2 & -> & W2); [lia|rewrite (within_length _ _ _ _ W1); lia|].
exists l2. split; [reflexivity|eapply within_trans; eassumption].
Qed.

Lemma scan_sorted_safe (fuel b i : nat) (l : list A) :
1 <= i <= b -> b <= length l ->
exists i', sort.scan_sorted less fuel b i l = Some i' /\ i <= i' <= b.
Proof.
revert i. induction fuel as [|fuel IH]; intros i Hi Hb.
- exists i. split; [reflexivity|lia].
- cbn [sort.scan_sorted]. destruct (decide (i < b)); [|exists i; split; [reflexivity|lia]].
destruct (Less_Some l i (i - 1)) as [c ->]; [lia|lia|]. obind.
destruct c; [exists i; split; [reflexivity|lia]|].
destruct (IH (S i)) as (i' & -> & Hi'); [lia|lia|].
exists i'. split; [reflexivity|lia].
Qed.

Lemma partialInsertionSort_steps_safe (steps a b i : nat) (l : list A) :
1 <= i <= b -> b <= length l ->
exists l' sorted,
sort.partialInsertionSort_steps less steps a b i l = Some (l', sorted)
/\ within 0 b l l'.
Proof.
revert i l. induction steps as [|steps IH]; intros i l Hi Hb.
- exists l, false. split; [reflexivity|apply within_refl].
- cbn [sort.partialInsertionSort_steps].
destruct (scan_sorted_safe (b - i) b i l) as (i1 & -> & Hi1); [lia|lia|]. obind.
destruct (decide (i1 = b)); [exists l, true; split; [reflexivity|apply within_refl]|].
destruct (decide (b - a < sort.shortestShifting));
  [exists l, false; split; [reflexivity|apply within_refl]|].
destruct (Swap_within 0 b l i1 (i1 - 1)) as (l1 & -> & W1); [lia|lia|lia|]. obind.
assert (L1 := within_length _ _ _ _ W1).
assert (exists l2, (if decide (2 <= i1 - a) then sort.shift_left less (i1 - 1) l1
                    else Some l1) = Some l2 /\ within 0 b l1 l2) as (l2 & -> & W2).
{ destruct (decide _); [apply shift_left_safe; lia|stay l1]. }
obind. assert (L2 := within_length _ _ _ _ W2).
assert (exists l3, (if decide (2 <= b - i1)
                    then sort.shift_right less (b - (i1 + 1)) b (i1 + 1) l2
                    else Some l2) = Some l3 /\ within 0 b l2 l3) as (l3 & -> & W3).
{ destruct (decide _); [apply shift_right_safe; lia|stay l2]. }
obind. assert (L3 := within_length _ _ _ _ W3).
destruct (IH i1 l3) as (l4 & sorted & -> & W4); [lia|lia|].
exists l4, sorted. split; [reflexivity|].
eapply within_trans; [exact W1|]. eapply within_trans; [exact W2|].
eapply within_trans; eassumption.
Qed.

Lemma partialInsertionSort_safe (a b : nat) (l : list A) :
a < b -> b <= length l ->
exists l' sorted,
sort.partialInsertionSort less a b l = Some (l', sorted) /\ within 0 b l l'.
Proof.
intros Hab Hb. unfold sort.partialInsertionSort.
apply partialInsertionSort_steps_safe; lia.
Qed.

Lemma bits_Len_bounds (n : Z) :
(0 < n)%Z -> (n < 2 ^ sort.bits_Len n <= 2 * n)%Z /\ (0 < sort.bits_Len n)%Z.
Proof.
intros Hn. unfold sort.bits_Len.
destruct (n <=? 0)%Z eqn:E; [apply Z.leb_le in E; lia|].
pose proof (Z.log2_spec n Hn) as [Hlo Hhi].
pose proof (Z.log2_nonneg n).
rewrite Z.pow_add_r by lia. change (2 ^ 1)%Z with 2%Z.
replace (Z.succ (Z.log2 n)) with (Z.log2 n + 1)%Z in Hhi by lia.
rewrite Z.pow_add_r in Hhi by lia. change (2 ^ 1)%Z with 2%Z in Hhi. lia.
Qed.

Lemma breakPatterns_loop_safe (n a b idx : nat) (length modulus random : Z) (i : nat)
(l : list A) :
length = Z.of_nat (b - a) -> (0 < length)%Z ->
modulus = (2 ^ sort.bits_Len length)%Z ->
a <= idx - 1 + i -> idx - 1 + i + n <= b -> b <= List.length l ->
exists l', sort.breakPatterns_loop n a idx length modulus random i l = Some l'
         /\ within a b l l'.
Proof.
revert random i l. induction n as [|n IH]; intros random i l Hlen Hpos Hmod Hlo Hhi Hb;
[stay l|].
cbn [sort.breakPatterns_loop]. cbv zeta.
set (r := sort.xorshift_Next random).
set (other := Z.land r (modulus - 1)).
assert (Ho : (0 <= other < modulus)%Z).
{ subst other modulus. destruct (bits_Len_bounds length Hpos) as [_ Hk].
replace (2 ^ sort.bits_Len length - 1)%Z with (Z.ones (sort.bits_Len length))
  by (rewrite Z.ones_equiv; lia).
rewrite Z.land_ones by lia. apply Z.mod_pos_bound. apply Z.pow_pos_nonneg; lia. }
destruct (bits_Len_bounds length Hpos) as [Hm _]. rewrite <- Hmod in Hm.
set (other' := if (length <=? other)%Z then (other - length)%Z else other).
assert (Ho' : (0 <= other' < length)%Z).
{ subst other'. destruct (length <=? other)%Z eqn:E;
  [apply Z.leb_le in E|apply Z.leb_gt in E]; lia. }
destruct (Swap_within a b l (idx - 1 + i) (a + Z.to_nat other'))
as (l1 & -> & W1); [lia|lia|lia|]. obind.
destruct (IH r (S i) l1) as (l2 & -> & W2);
[assumption|assumption|assumption|lia|lia
|rewrite (within_length _ _ _ _ W1); lia|].
exists l2. split; [reflexivity|eapply within_trans; eassumption].
Qed.

Lemma breakPatterns_safe (a b : nat) (l : list A) :
a <= b -> b <= length l ->
exists l', sort.breakPatterns a b l = Some l' /\ within a b l l'.
Proof.
intros Hab Hb. unfold sort.breakPatterns. cbv zeta.
destruct (decide (8 <= b - a)); [|stay l].
assert (2 <= (b - a) / 4) by (apply Nat.div_le_lower_bound; lia).
assert ((b - a) / 4 * 4 <= b - a) by (rewrite Nat.mul_comm; apply Nat.Div0.mul_div_le).
apply (breakPatterns_loop_safe 3 a b); unfold sort.nextPowerOfTwo; try lia.
rewrite Z.shiftl_1_l. reflexivity.
Qed.

Lemma order2_safe (l : list A) (a b swaps : nat) :
a < length l -> b < length l ->
exists a' b' swaps',
sort.order2 less l a b swaps = Some (a', b', swaps')
/\ ((a' = a /\ b' = b) \/ (a' = b /\ b' = a)).
Proof.
intros Ha Hb. unfold sort.order2.
destruct (Less_Some l b a) as [c ->]; [lia|lia|]. obind.
destruct c; eexists _, _, _; (split; [reflexivity|]); auto.
Qed.

Lemma median_safe (l : list A) (a b c swaps : nat) :
a < length l -> b < length l -> c < length l ->
exists m swaps',
sort.median less l a b c swaps = Some (m, swaps') /\ (m = a \/ m = b \/ m = c).
Proof.
intros Ha Hb Hc. unfold sort.median.
destruct (order2_safe l a b swaps) as (a1 & b1 & s1 & -> & H1); [lia|lia|]. obind.
destruct (order2_safe l b1 c s1) as (b2 & c2 & s2 & -> & H2); [lia|lia|]. obind.
destruct (order2_safe l a1 b2 s2) as (a3 & b3 & s3 & -> & H3); [lia|lia|]. obind.
exists b3, s3. split; [reflexivity|]. lia.
Qed.

Lemma medianAdjacent_safe (l : list A) (a swaps : nat) :
1 <= a -> a + 1 < length l ->
exists m swaps',
sort.medianAdjacent less l a swaps = Some (m, swaps') /\ a - 1 <= m <= a + 1.
Proof.
intros Ha Hb. unfold sort.medianAdjacent. destruct a as [|a']; [lia|].
destruct (median_safe l a' (S a') (S a' + 1) swaps) as (m & s' & -> & Hm); [lia|lia|lia|].
exists m, s'. split; [reflexivity|lia].
Qed.

Lemma choosePivot_safe (a b : nat) (l : list A) :
a < b -> b <= length l ->
exists pivot hint,
sort.choosePivot less a b l = Some (pivot, hint) /\ a <= pivot < b.
Proof.
intros Hab Hb. unfold sort.choosePivot. cbv zeta.
assert (Hq : (b - a) / 4 * 4 <= b - a)
by (rewrite Nat.mul_comm; apply Nat.Div0.mul_div_le).
set (q := (b - a) / 4) in *.
destruct (decide (8 <= b - a)) as [H8|H8].
2:{ obind. eexists _, _. split; [reflexivity|]. lia. }
assert (2 <= q) by (apply Nat.div_le_lower_bound; lia).
destruct (decide (sort.shortestNinther <= b - a)) as [H50|H50].
- unfold sort.shortestNinther in H50.
assert (12 <= q) by (apply Nat.div_le_lower_bound; lia).
destruct (medianAdjacent_safe l (a + q * 1) 0) as (i & s1 & -> & Hi); [lia|lia|]. obind.
destruct (medianAdjacent_safe l (a + q * 2) s1) as (j & s2 & -> & Hj); [lia|lia|]. obind.
destruct (medianAdjacent_safe l (a + q * 3) s2) as (k & s3 & -> & Hk); [lia|lia|]. obind.
destruct (median_safe l i j k s3) as (m & s4 & -> & Hm); [lia|lia|lia|]. obind.
eexists _, _. split; [reflexivity|]. lia.
- obind.
destruct (median_safe l (a + q * 1) (a + q * 2) (a + q * 3) 0)
  as (m & s4 & -> & Hm); [lia|lia|lia|]. obind.
eexists _, _. split; [reflexivity|]. lia.
Qed.

Lemma reverseRange_loop_safe (fuel a b i j : nat) (l : list A) :
a <= i -> j < b -> b <= length l ->
exists l', sort.reverseRange_loop fuel i j l = Some l' /\ within a b l l'.
Proof.
revert i j l. induction fuel as [|fuel IH]; intros i j l Hi Hj Hb; [stay l|].
cbn [sort.reverseRange_loop]. destruct (decide (i < j)); [|stay l].
destruct (Swap_within a b l i j) as (l1 & -> & W1); [lia|lia|lia|]. obind.
destruct (IH (S i) (j - 1) l1) as (l2 & -> & W2);
[lia|lia|rewrite (within_length _ _ _ _ W1); lia|].
exists l2. split; [reflexivity|eapply within_trans; eassumption].
Qed.

Lemma reverseRange_safe (a b : nat) (l : list A) :
a < b -> b <= length l ->
exists l', sort.reverseRange a b l = Some l' /\ within a b l l'.
Proof.
intros Hab Hb. unfold sort.reverseRange. apply reverseRange_loop_safe; lia.
Qed.

Lemma pdqsort_safe (fuel a b limit : nat) (wasBalanced wasPartitioned : bool)
(l : list A) :
b - a < fuel -> a <= b -> b <= length l ->
exists l', sort.pdqsort less fuel a b limit wasBalanced wasPartitioned l = Some l'
         /\ within 0 b l l'.
Proof.
revert a b limit wasBalanced wasPartitioned l.
induction fuel as [|fuel IH];
intros a b limit wasBalanced wasPartitioned l Hf Hab Hb; [lia|].
cbn [sort.pdqsort]. cbv zeta.
destruct (decide (b - a <= sort.maxInsertion)) as [Hsmall|Hbig].
{ destruct (insertionSort_safe a b l Hb) as (l' & -> & W).
exists l'. split; [reflexivity|]. eapply within_weaken; [| |exact W]; lia. }
unfold sort.maxInsertion in Hbig.
destruct (decide (limit = 0)).
{ destruct (heapSort_safe a b l Hab Hb) as (l' & -> & W).
exists l'. split; [reflexivity|]. eapply within_weaken; [| |exact W]; lia. }
(* breakPatterns *)
assert (exists l1 limit1,
         (if negb wasBalanced
          then l' ← sort.breakPatterns a b l; Some (l', limit - 1)
          else Some (l, limit)) = Some (l1, limit1)
         /\ within 0 b l l1) as (l1 & limit1 & -> & W1).
{ destruct (negb wasBalanced).
- destruct (breakPatterns_safe a b l Hab Hb) as (l' & -> & W). obind.
  eexists _, _. split; [reflexivity|]. eapply within_weaken; [| |exact W]; lia.
- eexists _, _. split; [reflexivity|apply within_refl]. }
obind. assert (L1 := within_length _ _ _ _ W1).
destruct (choosePivot_safe a b l1) as (pivot & hint & -> & Hp); [lia|lia|]. obind.
assert (exists l2 pivot2 hint2,
         (if sort.is_decreasing hint
          then l' ← sort.reverseRange a b l1;
               Some (l', b - 1 - (pivot - a), sort.increasingHint)
          else Some (l1, pivot, hint)) = Some (l2, pivot2, hint2)
         /\ within 0 b l1 l2 /\ a <= pivot2 < b)
as (l2 & pivot2 & hint2 & -> & W2 & Hp2).
{ destruct (sort.is_decreasing hint).
- destruct (reverseRange_safe a b l1) as (l' & -> & W); [lia|lia|]. obind.
  eexists _, _, _. split; [reflexivity|].
  split; [eapply within_weaken; [| |exact W]; lia|lia].
- eexists _, _, _. split; [reflexivity|]. split; [apply within_refl|lia]. }
obind. assert (L2 := within_length _ _ _ _ W2).
assert (exists l3 sorted,
         (if wasBalanced && wasPartitioned && sort.is_increasing hint2
          then sort.partialInsertionSort less a b l2
          else Some (l2, false)) = Some (l3, sorted)
         /\ within 0 b l2 l3) as (l3 & sorted & -> & W3).
{ destruct (_ && _).
- apply partialInsertionSort_safe; lia.
- eexists _, _. split; [reflexivity|apply within_refl]. }
obind. assert (L3 := within_length _ _ _ _ W3).
assert (W03 : within 0 b l l3).
{ eapply within_trans; [exact W1|]. eapply within_trans; eassumption. }
destruct sorted; [exists l3; split; [reflexivity|exact W03]|].
assert (exists dup,
         (if decide (0 < a)
          then c ← sort.Less less l3 (a - 1) pivot2; Some (negb c)
          else Some false) = Some dup) as [dup ->].
{ destruct (decide (0 < a)); [|eauto].
destruct (Less_Some l3 (a - 1) pivot2) as [c ->]; [lia|lia|]. obind. eauto. }
obind. destruct dup.
- destruct (partitionEqual_safe a b pivot2 l3) as (l4 & mid & -> & W4 & Hmid);
  [lia|lia|]. obind.
assert (L4 := within_length _ _ _ _ W4).
destruct (IH mid b limit1 wasBalanced wasPartitioned l4) as (l5 & -> & W5);
  [lia|lia|lia|].
exists l5. split; [reflexivity|]. eapply within_trans; [exact W03|].
eapply within_trans; [|exact W5]. eapply within_weaken; [| |exact W4]; lia.
- destruct (partition_safe a b pivot2 l3) as (l4 & mid & already & -> & W4 & Hmid);
  [lia|lia|]. obind.
assert (L4 := within_length _ _ _ _ W4).
assert (W04 : within 0 b l l4).
{ eapply within_trans; [exact W03|]. eapply within_weaken; [| |exact W4]; lia. }
destruct (decide (mid - a < b - mid)).
+ destruct (IH a mid limit1 true true l4) as (l5 & -> & W5); [lia|lia|lia|]. obind.
  assert (L5 := within_length _ _ _ _ W5).
  destruct (IH (mid + 1) b limit1 (bool_decide (((b - a) / 8) <= mid - a)) already l5)
    as (l6 & -> & W6); [lia|lia|lia|].
  exists l6. split; [reflexivity|]. eapply within_trans; [exact W04|].
  eapply within_trans; [|exact W6]. eapply within_weaken; [| |exact W5]; lia.
+ destruct (IH (mid + 1) b limit1 true true l4) as (l5 & -> & W5); [lia|lia|lia|].
  obind. assert (L5 := within_length _ _ _ _ W5).
  destruct (IH a mid limit1 (bool_decide (((b - a) / 8) <= b - mid)) already l5)
    as (l6 & -> & W6); [lia|lia|lia|].
  exists l6. split; [reflexivity|]. eapply within_trans; [exact W04|].
  eapply within_trans; [exact W5|]. eapply within_weaken; [| |exact W6]; lia.
Qed.

(** [sort.Slice] returns for every [less], consistent or not: it stays
within the slice, and what it leaves is a rearrangement of what it was
given. *)
Lemma Slice_safe (l : list A) :
exists l', sort.Slice less l = Some l' /\ l' ≡ₚ l /\ length l' = length l.
Proof.
unfold sort.Slice. cbv zeta.
destruct (pdqsort_safe (S (length l)) 0 (length l)
          (Z.to_nat (sort.bits_Len (Z.of_nat (length l)))) true true l)
as (l' & -> & L & P & _); [lia|lia|lia|].
exists l'. auto.
Qed.

End Safe.
End sort_safe.

(* ===================================================================== *)
(** * products.go: the sort stage only rearranges                         *)
(* ===================================================================== *)

Section SortProductsFacts.
Context {World : Type} `{GoLib} `{Network World}.

Lemma rankProducts_safe (products : list Product) (prefs : option SearchPreferences) :
  exists ranked,
    rankProducts products prefs = Some ranked
    /\ ranked ≡ₚ match prefs with
                 | Some prefs => filterProducts products prefs
                 | None => products
                 end.
Proof.
  unfold rankProducts, sortProducts. destruct prefs as [prefs|].
  - destruct (sort_safe.Slice_safe (lessProducts prefs) (filterProducts products prefs))
      as (ranked & -> & Hperm & _).
    exists ranked. auto.
  - exists products. auto.
Qed.

(** [sortProducts] always returns, whatever the compare prices are - NaN
    included, where the comparison is not an order - and whatever [SortBy]
    is: [sort.Slice] never indexes outside the slice, and the result holds
    the same products as the input, each as often. *)
Theorem sortProducts_permutation (products : list Product)
  (prefs : SearchPreferences) :
  exists sorted,
    sortProducts products prefs = Some sorted
    /\ sorted ≡ₚ products /\ length sorted = length products.
Proof. unfold sortProducts. apply sort_safe.Slice_safe. Qed.

(** [SearchProducts] never panics, and what it returns is, up to the order,
    the decoded results of the one search request - all of them without
    preferences, those the filter keeps with preferences: the ranking
    neither drops nor duplicates nor invents a product. *)
Theorem SearchProducts_returns_filtered (ctx : option (Context World))
  (query : string) (page size : Z) (prefs : option SearchPreferences)
  (s s' : Sys World) (o : outcome (list Product)) :
  SearchProducts ctx query page size prefs s = (o, s') ->
  let searchPath :=
    EndpointSearch ++ "?" ++ "page=" ++ QueryEscape (Sprintf_d page)
    ++ "&q=" ++ QueryEscape query ++ "&size=" ++ QueryEscape (Sprintf_d size) in
  let req := plain_request (baseURL (client s)) "GET" searchPath "" in
  o <> Panic
  /\ forall products, o = Ok products ->
       exists resp body results,
         s' = sent req s
         /\ fst (http_Do req (world s)) = inr resp
         /\ StatusCode resp = StatusOK /\ Body resp = Some body
         /\ Unmarshal_searchResponse body = Some results
         /\ products ≡ₚ match prefs with
                        | Some prefs => filterProducts results prefs
                        | None => results
                        end.
Proof.
  intros Hrun searchPath req. unfold SearchProducts in Hrun.
  destruct (String.eqb query ""); [unfold fail in Hrun; simplify_eq; split; [discriminate|intros ? [=]]|].
  destruct (page <? 0); [unfold fail in Hrun; simplify_eq; split; [discriminate|intros ? [=]]|].
  destruct (_ || _); [unfold fail in Hrun; simplify_eq; split; [discriminate|intros ? [=]]|].
  cbv zeta in Hrun. fold searchPath in Hrun. unfold bind in Hrun.
  match type of Hrun with context [catch ?f ?m s] =>
    destruct (catch f m s) as [o1 s1] eqn:E1 end.
  apply catch_run in E1 as (o1' & E1 & ->).
  rewrite DoRequest_plain_eq in E1.
  apply DoRequest_body_plain_once in E1. cbn [bytes_of] in E1. fold req in E1.
  destruct E1 as [[-> [e ->]]|E1];
    [unfold fail in Hrun; simplify_eq; split; [discriminate|intros ? [=]]|].
  cbv zeta in E1. destruct E1 as [-> ->].
  destruct (fst (http_Do req (world s))) as [err|resp] eqn:Eresp;
    [unfold fail in Hrun; simplify_eq; split; [discriminate|intros ? [=]]|].
  cbv beta iota in Hrun.
  destruct (StatusCode resp =? StatusOK) eqn:Est; cbn [negb] in Hrun;
    [|unfold fail in Hrun; simplify_eq; split; [discriminate|intros ? [=]]].
  apply Z.eqb_eq in Est.
  destruct (Body resp) as [body|] eqn:Eb;
    [|unfold fail in Hrun; simplify_eq; split; [discriminate|intros ? [=]]].
  destruct (Unmarshal_searchResponse body) as [results|] eqn:Ed;
    [|unfold fail in Hrun; simplify_eq; split; [discriminate|intros ? [=]]].
  destruct (rankProducts_safe results prefs) as (ranked & Er & Hperm).
  rewrite Er in Hrun. unfold ret in Hrun. simplify_eq.
  split; [discriminate|]. intros products [= <-].
  exists resp, body, results. auto 10.
Qed.

End SortProductsFacts.
(* ===================================================================== *)
(** * Package [sort]: [sort.Slice] sorts                                  *)
(* ===================================================================== *)

Module sort_correct.
Local Open Scope nat_scope.
Local Open Scope list_scope.
Import sort_spec sort_order sort_safe.

Section Correct.
Context {A : Type} (less : A -> A -> bool) (good : A -> Prop).
Hypothesis asym : forall x y, good x -> good y -> less x y = true -> less y x = false.
Hypothesis ntrans : forall x y z, good x -> good y -> good z ->
less x y = false -> less y z = false -> less x z = false.

Ltac obind := cbn [mbind option_bind].
Ltac obind_in H := cbn [mbind option_bind] in H.

Lemma irrefl (x : A) : good x -> less x x = false.
Proof.
intros Hx. destruct (less x x) eqn:E; [|reflexivity].
rewrite (asym x x Hx Hx E) in E. discriminate.
Qed.

Lemma good_lookup (l : list A) (k : nat) (x : A) :
Forall good l -> l !! k = Some x -> good x.
Proof. intros Hg Hk. rewrite Forall_lookup in Hg. eapply Hg, Hk. Qed.

Lemma within_good (a b : nat) (l l' : list A) :
within a b l l' -> Forall good l -> Forall good l'.
Proof. intros (_ & P & _) Hg. rewrite P. exact Hg. Qed.

Lemma Less_inv (l : list A) (i j : nat) (c : bool) :
sort.Less less l i j = Some c ->
exists x y, l !! i = Some x /\ l !! j = Some y /\ less x y = c.
Proof.
unfold sort.Less. destruct (l !! i) as [x|]; [|discriminate].
destruct (l !! j) as [y|]; [|discriminate]. cbn. intros [= <-]. eauto.
Qed.

Lemma Swap_lookup (l l' : list A) (i j : nat) :
sort.Swap l i j = Some l' ->
forall k, l' !! k = l !! swap_idx i j k.
Proof.
unfold sort.Swap. destruct (l !! i) as [x|] eqn:Ei; [|discriminate].
destruct (l !! j) as [y|] eqn:Ej; [|discriminate]. cbn. intros [= <-] k.
assert (Hi : i < length l) by (apply lookup_lt_is_Some; eauto).
assert (Hj : j < length l) by (apply lookup_lt_is_Some; eauto).
unfold swap_idx. destruct (decide (k = j)) as [->|Hkj].
- rewrite list_lookup_insert_eq by (rewrite length_insert; lia).
destruct (decide (j = i)) as [->|]; congruence.
- rewrite list_lookup_insert_ne by lia.
destruct (decide (k = i)) as [->|Hki].
+ rewrite list_lookup_insert_eq by lia. congruence.
+ rewrite list_lookup_insert_ne by lia. reflexivity.
Qed.

Lemma within_middle (a b : nat) (l l' : list A) :
within a b l l' -> a <= b -> b <= length l ->
take (b - a) (drop a l') ≡ₚ take (b - a) (drop a l).
Proof.
intros (L & P & O) Hab Hb.
assert (Hpre : take a l' = take a l).
{ apply list_eq. intros i. destruct (decide (i < a)).
- rewrite !lookup_take_lt by lia. apply O. lia.
- rewrite !lookup_take_ge by lia. reflexivity. }
assert (Hpost : drop b l' = drop b l).
{ apply list_eq. intros i. rewrite !lookup_drop. apply O. lia. }
assert (D : forall m : list A,
         m = take a m ++ take (b - a) (drop a m) ++ drop b m).
{ intros m. rewrite <- (take_drop a m) at 1. f_equal.
rewrite <- (take_drop (b - a) (drop a m)) at 1. f_equal.
rewrite drop_drop. f_equal. lia. }
rewrite (D l), (D l') in P. rewrite Hpre, Hpost in P.
apply Permutation_app_inv_l in P. apply Permutation_app_inv_r in P. exact P.
Qed.

Lemma within_range_elem (a b : nat) (l l' : list A) (k : nat) (x : A) :
within a b l l' -> b <= length l -> a <= k < b -> l' !! k = Some x ->
exists k', a <= k' < b /\ l !! k' = Some x.
Proof.
intros W Hb Hk Hx.
pose proof (within_middle a b l l' W ltac:(lia) Hb) as P.
assert (Hin : x ∈ take (b - a) (drop a l')).
{ apply list_elem_of_lookup. exists (k - a).
rewrite lookup_take_lt by lia. rewrite lookup_drop.
replace (a + (k - a)) with k by lia. exact Hx. }
rewrite P in Hin. apply list_elem_of_lookup in Hin as [i Hi].
assert (i < b - a).
{ destruct (decide (i < b - a)); [assumption|].
rewrite lookup_take_ge in Hi by lia. discriminate. }
rewrite lookup_take_lt in Hi by lia. rewrite lookup_drop in Hi.
exists (a + i). split; [lia|exact Hi].
Qed.

Lemma within_all_range (a b a' b' : nat) (P : A -> Prop) (l l' : list A) :
within a' b' l l' -> b' <= length l -> a <= a' -> b' <= b ->
all_range a b P l -> all_range a b P l'.
Proof.
intros W Hb Ha Hb' Hall k x Hk Hx.
destruct (decide (a' <= k < b')) as [Hin|Hout].
- destruct (within_range_elem _ _ _ _ _ _ W Hb Hin Hx) as (k' & Hk' & Hx').
apply (Hall k' x); [lia|exact Hx'].
- destruct W as (_ & _ & O). rewrite O in Hx by lia. apply (Hall k x Hk Hx).
Qed.

Lemma within_lower_bound (a b a' b' : nat) (l l' : list A) :
within a' b' l l' -> b' <= length l -> a <= a' -> b' <= b ->
lower_bound less a b l -> lower_bound less a b l'.
Proof.
intros W Hb Ha Hb' LB v Hpos Hv.
assert (Hv' : l !! (a - 1) = Some v).
{ destruct W as (_ & _ & O). rewrite <- O by lia. exact Hv. }
eapply within_all_range; [exact W|exact Hb|exact Ha|exact Hb'|].
apply LB; assumption.
Qed.

Lemma within_sorted_outside (a b a' b' : nat) (l l' : list A) :
within a' b' l l' -> (b <= a' \/ b' <= a) ->
sorted_range less a b l -> sorted_range less a b l'.
Proof.
intros (_ & _ & O) Hd Hs i j x y Hi Hij Hj Hx Hy.
rewrite O in Hx, Hy by lia. eapply Hs; eassumption.
Qed.

Lemma insertionSort_inner_sorted (a m j : nat) (l l' : list A) :
a <= j <= m -> m < length l -> Forall good l -> inserting less a j m l ->
sort.insertionSort_inner less a j l = Some l' ->
sorted_range less a (S m) l'.
Proof.
revert l. induction j as [|j IH]; intros l Hj Hm Hg Hinv Hrun.
- cbn in Hrun. injection Hrun as <-.
intros p q x y Hp Hpq Hq. apply Hinv; lia.
- cbn [sort.insertionSort_inner] in Hrun.
destruct (decide (a < S j)) as [Haj|Haj].
2:{ injection Hrun as <-. intros p q x y Hp Hpq Hq. apply Hinv; lia. }
destruct (sort.Less less l (S j) j) as [c|] eqn:Ec; [|discriminate].
apply Less_inv in Ec as (xj & xp & Exj & Exp & Ec).
obind_in Hrun. destruct c.
+ destruct (sort.Swap l (S j) j) as [l1|] eqn:Es; [|discriminate]. obind_in Hrun.
  pose proof (Swap_lookup _ _ _ _ Es) as Hl1.
  destruct (Swap_within 0 (length l) l (S j) j) as (l1' & Es' & W1); [lia|lia|lia|].
  rewrite Es in Es'. injection Es' as <-.
  apply (IH l1); [lia|rewrite (within_length _ _ _ _ W1); lia
                 |eapply within_good; eassumption| |exact Hrun].
  intros p q x y Hp Hpq Hq Hqj Hx Hy. rewrite Hl1 in Hx, Hy.
  unfold swap_idx in Hx, Hy.
  destruct (decide (q = S j)) as [->|Hq1];
    [|destruct (decide (q = j)) as [->|Hq2]; [lia|]];
    (destruct (decide (p = S j)) as [->|Hp1];
     [|destruct (decide (p = j)) as [->|Hp2]]); try lia.
  * simplify_eq. apply asym; [eapply good_lookup; eassumption..|exact Ec].
  * apply (Hinv p j); try lia; assumption.
  * apply (Hinv j q); try lia; assumption.
  * apply (Hinv (S j) q); try lia; assumption.
  * apply (Hinv p q); try lia; assumption.
+ injection Hrun as <-. intros p q x y Hp Hpq Hq Hx Hy.
  destruct (decide (q = S j)) as [->|Hq1]; [|apply (Hinv p q); try lia; assumption].
  assert (y = xj) by congruence. subst y.
  destruct (decide (p = j)) as [->|Hpj]; [assert (x = xp) by congruence; subst x; exact Ec|].
  assert (Hpx : less xp x = false) by (apply (Hinv p j); try lia; assumption).
  apply (ntrans xj xp x); try (eapply good_lookup; eassumption); assumption.
Qed.

Lemma for_each_inv (Inv : nat -> list A -> Prop) (start n : nat)
(body : nat -> list A -> option (list A)) (l l' : list A) :
(forall i l l1, start <= i < start + n -> Inv i l -> body i l = Some l1 ->
              Inv (S i) l1) ->
Inv start l -> sort.for_each (seq start n) body l = Some l' ->
Inv (start + n) l'.
Proof.
revert start l. induction n as [|n IH]; intros start l Hstep Hinv Hrun.
- cbn in Hrun. injection Hrun as <-. rewrite Nat.add_0_r. exact Hinv.
- cbn [seq sort.for_each] in Hrun.
destruct (body start l) as [l1|] eqn:E1; [|discriminate]. obind_in Hrun.
replace (start + S n) with (S start + n) by lia.
apply (IH (S start) l1); [|apply (Hstep start l); [lia|assumption..]|exact Hrun].
intros i l2 l3 Hi. apply Hstep. lia.
Qed.

(** The same loop, counting down. *)
Lemma for_each_rev_inv (Inv : nat -> list A -> Prop) (n : nat)
(body : nat -> list A -> option (list A)) (l l' : list A) :
(forall i l l1, i < n -> Inv (S i) l -> body i l = Some l1 -> Inv i l1) ->
Inv n l -> sort.for_each (rev (seq 0 n)) body l = Some l' ->
Inv 0 l'.
Proof.
revert l. induction n as [|n IH]; intros l Hstep Hinv Hrun.
- cbn in Hrun. injection Hrun as <-. exact Hinv.
- rewrite seq_S, rev_app_distr in Hrun. cbn [rev app sort.for_each Nat.add] in Hrun.
destruct (body n l) as [l1|] eqn:E1; [|discriminate]. obind_in Hrun.
apply (IH l1); [|apply (Hstep n l); [lia|assumption..]|exact Hrun].
intros i l2 l3 Hi. apply Hstep. lia.
Qed.

Lemma insertionSort_sorted (a b : nat) (l l' : list A) :
b <= length l -> Forall good l ->
sort.insertionSort less a b l = Some l' ->
within a b l l' /\ sorted_range less a b l'.
Proof.
intros Hb Hg Hrun.
destruct (insertionSort_safe less a b l Hb) as (l'' & Hrun' & W).
rewrite Hrun in Hrun'. injection Hrun' as <-. split; [exact W|].
unfold sort.insertionSort in Hrun.
destruct (decide (a + 1 <= b)) as [Hab|Hab].
2:{ intros i j x y Hi Hij Hj. lia. }
pose (Inv := fun (i : nat) (l1 : list A) =>
             length l1 = length l /\ Forall good l1 /\ sorted_range less a i l1).
assert (Hfin : Inv (a + 1 + (b - (a + 1))) l').
{ apply (for_each_inv Inv (a + 1) (b - (a + 1)) (sort.insertionSort_inner less a) l);
  [|split; [reflexivity|split; [exact Hg|intros i j x y Hi Hij Hj; lia]]|exact Hrun].
intros i l1 l2 Hi (L1 & G1 & S1) Hstep.
destruct (insertionSort_inner_safe less a b i l1) as (l2' & Hstep' & W2); [lia|lia|].
rewrite Hstep in Hstep'. injection Hstep' as <-.
split; [rewrite (within_length _ _ _ _ W2); exact L1|].
split; [eapply within_good; eassumption|].
apply (insertionSort_inner_sorted a i i l1); [lia|lia|exact G1| |exact Hstep].
intros p q x y Hp Hpq Hq Hqi. apply S1; lia. }
destruct Hfin as (_ & _ & Hs). replace (a + 1 + (b - (a + 1))) with b in Hs by lia.
exact Hs.
Qed.

Lemma test_side (flip : bool) (l : list A) (k p : nat) (c : bool) (v : A) :
l !! p = Some v ->
sort.test less flip l k p = Some c ->
exists x, l !! k = Some x /\ side less flip v x = c.
Proof.
intros Hv. unfold sort.test, side. destruct flip; intros Ht;
apply Less_inv in Ht as (x & y & Hx & Hy & Hc).
- assert (x = v) by congruence. subst x. eauto.
- assert (y = v) by congruence. subst y. eauto.
Qed.

Lemma scan_up_spec (fuel : nat) (flip want : bool) (p j i : nat) (l : list A)
(v : A) (i' : nat) :
l !! p = Some v -> S j - i <= fuel ->
sort.scan_up less fuel flip want p j i l = Some i' ->
i <= i' /\ (i <= j + 1 -> i' <= j + 1)
/\ all_range i i' (fun x => side less flip v x = want) l
/\ (i' <= j -> exists x, l !! i' = Some x /\ side less flip v x = negb want).
Proof.
intros Hv. revert i. induction fuel as [|fuel IH]; intros i Hf Hrun.
- cbn in Hrun. injection Hrun as <-.
split; [lia|]. split; [lia|]. split; [intros k x Hk; lia|]. lia.
- cbn [sort.scan_up] in Hrun. destruct (decide (i <= j)) as [Hij|Hij].
2:{ injection Hrun as <-. split; [lia|]. split; [lia|].
    split; [intros k x Hk; lia|]. lia. }
destruct (sort.test less flip l i p) as [c|] eqn:Et; [|discriminate].
obind_in Hrun. apply (test_side _ _ _ _ _ v Hv) in Et as (x & Hx & Hc).
destruct (Bool.eqb c want) eqn:Ec.
+ apply Bool.eqb_prop in Ec. subst c.
  apply IH in Hrun as (H1 & H2 & H3 & H4); [|lia].
  split; [lia|]. split; [lia|]. split; [|exact H4].
  intros k y Hk Hy. destruct (decide (k = i)) as [->|].
  * congruence.
  * apply (H3 k y); [lia|exact Hy].
+ injection Hrun as <-. split; [lia|]. split; [lia|].
  split; [intros k y Hk; lia|]. intros _. exists x. split; [exact Hx|].
  rewrite Hc. destruct c, want; try reflexivity; discriminate.
Qed.

Lemma scan_down_spec (flip want : bool) (p i j : nat) (l : list A) (v : A) (j' : nat) :
l !! p = Some v -> 1 <= i ->
sort.scan_down less flip want p i j l = Some j' ->
j' <= j /\ (i <= j + 1 -> i <= j' + 1)
/\ all_range (j' + 1) (j + 1) (fun x => side less flip v x = want) l
/\ (i <= j' -> exists x, l !! j' = Some x /\ side less flip v x = negb want).
Proof.
intros Hv Hi. induction j as [|j IH]; intros Hrun.
- cbn [sort.scan_down] in Hrun. destruct (decide (i <= 0)); [lia|].
injection Hrun as <-. split; [lia|]. split; [lia|].
split; [intros k x Hk; lia|lia].
- cbn [sort.scan_down] in Hrun. destruct (decide (i <= S j)) as [Hij|Hij].
2:{ injection Hrun as <-. split; [lia|]. split; [lia|].
    split; [intros k x Hk; lia|lia]. }
destruct (sort.test less flip l (S j) p) as [c|] eqn:Et; [|discriminate].
obind_in Hrun. apply (test_side _ _ _ _ _ v Hv) in Et as (x & Hx & Hc).
destruct (Bool.eqb c want) eqn:Ec.
+ apply Bool.eqb_prop in Ec. subst c.
  apply IH in Hrun as (H1 & H2 & H3 & H4).
  split; [lia|]. split; [lia|]. split; [|exact H4].
  intros k y Hk Hy. destruct (decide (k = S j)) as [->|].
  * congruence.
  * apply (H3 k y); [lia|exact Hy].
+ injection Hrun as <-. split; [lia|]. split; [lia|].
  split; [intros k y Hk; lia|]. intros _. exists x. split; [exact Hx|].
  rewrite Hc. destruct c, want; try reflexivity; discriminate.
Qed.

Lemma Swap_eq_within (a b : nat) (l l' : list A) (i j : nat) :
sort.Swap l i j = Some l' -> a <= i < b -> a <= j < b -> b <= length l ->
within a b l l'.
Proof.
intros Hs Hi Hj Hb.
destruct (Swap_within a b l i j Hi Hj Hb) as (l'' & Hs' & W).
rewrite Hs in Hs'. injection Hs' as <-. exact W.
Qed.

Lemma partition_loop_spec (fuel : nat) (flip : bool) (a b i j : nat) (l : list A)
(v : A) (l' : list A) (i' j' : nat) :
S j - i < fuel -> a + 1 <= i -> i <= j + 1 -> j < b -> b <= length l ->
l !! a = Some v ->
all_range (a + 1) i (fun x => side less flip v x = negb flip) l ->
all_range (j + 1) b (fun x => side less flip v x = flip) l ->
sort.partition_loop less fuel flip a i j l = Some (l', i', j') ->
within (a + 1) b l l' /\ a + 1 <= i' <= b /\ i' = j' + 1
/\ all_range (a + 1) i' (fun x => side less flip v x = negb flip) l'
/\ all_range i' b (fun x => side less flip v x = flip) l'.
Proof.
revert i j l. induction fuel as [|fuel IH];
intros i j l Hf Hi Hij Hj Hb Hv HL HR Hrun; [lia|].
cbn [sort.partition_loop] in Hrun.
destruct (sort.scan_up less (S j - i) flip (negb flip) a j i l) as [i1|] eqn:E1;
[|discriminate].
obind_in Hrun.
apply (scan_up_spec _ _ _ _ _ _ _ v) in E1 as (U1 & U2 & U3 & U4); [|exact Hv|lia].
destruct (sort.scan_down less flip flip a i1 j l) as [j1|] eqn:E2; [|discriminate].
obind_in Hrun.
apply (scan_down_spec _ _ _ _ _ _ v) in E2 as (D1 & D2 & D3 & D4); [|exact Hv|lia].
assert (HL1 : all_range (a + 1) i1 (fun x => side less flip v x = negb flip) l).
{ intros k x Hk Hx. destruct (decide (k < i)); [apply (HL k x); [lia|exact Hx]|].
apply (U3 k x); [lia|exact Hx]. }
assert (HR1 : all_range (j1 + 1) b (fun x => side less flip v x = flip) l).
{ intros k x Hk Hx. destruct (decide (j < k)); [apply (HR k x); [lia|exact Hx]|].
apply (D3 k x); [lia|exact Hx]. }
destruct (decide (j1 < i1)) as [Hdone|Hmore].
- injection Hrun as <- <- <-. split; [apply within_refl|].
split; [lia|]. split; [lia|]. split; [exact HL1|].
replace i1 with (j1 + 1) by lia. exact HR1.
- destruct (U4 ltac:(lia)) as (xi & Hxi & Sxi).
destruct (D4 ltac:(lia)) as (xj & Hxj & Sxj).
rewrite negb_involutive in Sxi.
assert (Hne : i1 <> j1).
{ intros ->. assert (xi = xj) by congruence. subst xj. rewrite Sxi in Sxj.
  destruct flip; discriminate. }
destruct (sort.Swap l i1 j1) as [l1|] eqn:Es; [|discriminate]. obind_in Hrun.
pose proof (Swap_lookup _ _ _ _ Es) as Hl1.
pose proof (Swap_eq_within (a + 1) b _ _ _ _ Es ltac:(lia) ltac:(lia) Hb) as W1.
destruct j1 as [|j1']; [lia|].
apply (IH (S i1) j1' l1) in Hrun as (W2 & R1 & R2 & R3 & R4);
  [|lia|lia|lia|lia|rewrite (within_length _ _ _ _ W1); lia| | |].
+ split; [eapply within_trans; eassumption|]. auto.
+ rewrite Hl1. unfold swap_idx.
  destruct (decide (a = i1)); [lia|]. destruct (decide (a = S j1')); [lia|]. exact Hv.
+ intros k x Hk Hx. rewrite Hl1 in Hx. unfold swap_idx in Hx.
  destruct (decide (k = i1)) as [->|].
  * assert (x = xj) by congruence. subst x. exact Sxj.
  * destruct (decide (k = S j1')); [lia|]. apply (HL1 k x); [lia|exact Hx].
+ intros k x Hk Hx. rewrite Hl1 in Hx. unfold swap_idx in Hx.
  destruct (decide (k = i1)); [lia|].
  destruct (decide (k = S j1')) as [->|].
  * assert (x = xi) by congruence. subst x. exact Sxi.
  * apply (HR1 k x); [lia|exact Hx].
Qed.

Lemma place_pivot (a b j : nat) (l l' : list A) (v : A) :
a <= j < b -> b <= length l -> l !! a = Some v ->
all_range (a + 1) (j + 1) (fun x => less x v = true) l ->
all_range (j + 1) b (fun x => less x v = false) l ->
sort.Swap l j a = Some l' ->
within a b l l' /\ l' !! j = Some v
/\ all_range a j (fun x => less x v = true) l'
/\ all_range (j + 1) b (fun x => less x v = false) l'.
Proof.
intros Hj Hb Hv HL HR Hs.
pose proof (Swap_lookup _ _ _ _ Hs) as Hl.
split; [apply (Swap_eq_within a b _ _ _ _ Hs); lia|].
split; [rewrite Hl; unfold swap_idx; rewrite decide_True by reflexivity; exact Hv|].
split.
- intros k x Hk Hx. rewrite Hl in Hx. unfold swap_idx in Hx.
destruct (decide (k = j)); [lia|]. destruct (decide (k = a)) as [->|].
+ apply (HL j x); [lia|exact Hx].
+ apply (HL k x); [lia|exact Hx].
- intros k x Hk Hx. rewrite Hl in Hx. unfold swap_idx in Hx.
destruct (decide (k = j)); [lia|]. destruct (decide (k = a)); [lia|].
apply (HR k x); [lia|exact Hx].
Qed.

Lemma partition_spec (a b pivot : nat) (l : list A) (v : A) (l' : list A)
(mid : nat) (already : bool) :
a <= pivot < b -> b <= length l -> l !! pivot = Some v ->
sort.partition less a b pivot l = Some (l', mid, already) ->
within a b l l' /\ a <= mid < b /\ l' !! mid = Some v
/\ all_range a mid (fun x => less x v = true) l'
/\ all_range (mid + 1) b (fun x => less x v = false) l'.
Proof.
intros Hp Hb Hv Hrun. unfold sort.partition in Hrun.
destruct b as [|b']; [lia|].
destruct (sort.Swap l a pivot) as [l1|] eqn:Es1; [|discriminate]. obind_in Hrun.
pose proof (Swap_lookup _ _ _ _ Es1) as Hl1.
pose proof (Swap_eq_within a (S b') _ _ _ _ Es1 ltac:(lia) ltac:(lia) Hb) as W1.
assert (L1 := within_length _ _ _ _ W1).
assert (Hv1 : l1 !! a = Some v).
{ rewrite Hl1. unfold swap_idx. rewrite decide_True by reflexivity. exact Hv. }
destruct (sort.scan_up less (S b' - (a + 1)) false true a b' (a + 1) l1) as [i1|] eqn:E1;
[|discriminate].
obind_in Hrun.
apply (scan_up_spec _ _ _ _ _ _ _ v) in E1 as (U1 & U2 & U3 & U4); [|exact Hv1|lia].
destruct (sort.scan_down less false false a i1 b' l1) as [j1|] eqn:E2; [|discriminate].
obind_in Hrun.
apply (scan_down_spec _ _ _ _ _ _ v) in E2 as (D1 & D2 & D3 & D4); [|exact Hv1|lia].
cbn [side negb] in U3, U4, D3, D4.
destruct (decide (j1 < i1)) as [Hdone|Hmore].
- destruct (sort.Swap l1 j1 a) as [l2|] eqn:Es2; [|discriminate]. obind_in Hrun.
injection Hrun as <- <- <-.
apply (place_pivot a (S b') j1 l1 l2 v) in Es2 as (W2 & P1 & P2 & P3);
  [|lia|lia|exact Hv1| |].
+ split; [eapply within_trans; eassumption|]. split; [lia|]. auto.
+ intros k x Hk Hx. apply (U3 k x); [lia|exact Hx].
+ intros k x Hk Hx. apply (D3 k x); [lia|exact Hx].
- destruct (U4 ltac:(lia)) as (xi & Hxi & Sxi).
destruct (D4 ltac:(lia)) as (xj & Hxj & Sxj).
assert (Hne : i1 <> j1).
{ intros ->. assert (xi = xj) by congruence. subst xj. congruence. }
destruct (sort.Swap l1 i1 j1) as [l2|] eqn:Es2; [|discriminate]. obind_in Hrun.
pose proof (Swap_lookup _ _ _ _ Es2) as Hl2.
pose proof (Swap_eq_within (a + 1) (S b') _ _ _ _ Es2 ltac:(lia) ltac:(lia) ltac:(lia))
  as W2.
assert (L2 := within_length _ _ _ _ W2).
destruct j1 as [|j1']; [lia|].
unfold sort.partition_for in Hrun.
destruct (sort.partition_loop less (S (S j1' - S i1)) false a (S i1) j1' l2)
  as [[[l3 i3] j3]|] eqn:E3; [|discriminate].
obind_in Hrun.
apply (partition_loop_spec _ _ a (S b') _ _ _ v) in E3 as (W3 & R1 & R2 & R3 & R4);
  [|lia|lia|lia|lia|lia| | |].
+ cbn [side negb] in R3, R4. assert (L3 := within_length _ _ _ _ W3).
  destruct (sort.Swap l3 j3 a) as [l4|] eqn:Es4; [|discriminate]. obind_in Hrun.
  injection Hrun as <- <- <-.
  assert (Hv3 : l3 !! a = Some v).
  { destruct W3 as (_ & _ & O3). rewrite O3 by lia.
    rewrite Hl2. unfold swap_idx.
    destruct (decide (a = i1)); [lia|]. destruct (decide (a = S j1')); [lia|].
    exact Hv1. }
  apply (place_pivot a (S b') j3 l3 l4 v) in Es4 as (W4 & P1 & P2 & P3);
    [|lia|lia|exact Hv3| |].
  * split; [|split; [lia|auto]].
    eapply within_trans; [exact W1|].
    eapply within_trans; [eapply within_weaken; [| |exact W2]; lia|].
    eapply within_trans; [eapply within_weaken; [| |exact W3]; lia|exact W4].
  * intros k x Hk Hx. apply (R3 k x); [lia|exact Hx].
  * intros k x Hk Hx. apply (R4 k x); [lia|exact Hx].
+ rewrite Hl2. unfold swap_idx.
  destruct (decide (a = i1)); [lia|]. destruct (decide (a = S j1')); [lia|]. exact Hv1.
+ cbn [side negb]. intros k x Hk Hx. rewrite Hl2 in Hx. unfold swap_idx in Hx.
  destruct (decide (k = i1)) as [->|].
  * assert (x = xj) by congruence. subst x. exact Sxj.
  * destruct (decide (k = S j1')); [lia|]. apply (U3 k x); [lia|exact Hx].
+ cbn [side negb]. intros k x Hk Hx. rewrite Hl2 in Hx. unfold swap_idx in Hx.
  destruct (decide (k = i1)); [lia|].
  destruct (decide (k = S j1')) as [->|].
  * assert (x = xi) by congruence. subst x. exact Sxi.
  * apply (D3 k x); [lia|exact Hx].
Qed.

Lemma partitionEqual_spec (a b pivot : nat) (l : list A) (v : A) (l' : list A)
(mid : nat) :
a <= pivot < b -> b <= length l -> l !! pivot = Some v ->
sort.partitionEqual less a b pivot l = Some (l', mid) ->
within a b l l' /\ a + 1 <= mid <= b /\ l' !! a = Some v
/\ all_range (a + 1) mid (fun x => less v x = false) l'
/\ all_range mid b (fun x => less v x = true) l'.
Proof.
intros Hp Hb Hv Hrun. unfold sort.partitionEqual in Hrun.
destruct b as [|b']; [lia|].
destruct (sort.Swap l a pivot) as [l1|] eqn:Es1; [|discriminate]. obind_in Hrun.
pose proof (Swap_lookup _ _ _ _ Es1) as Hl1.
pose proof (Swap_eq_within a (S b') _ _ _ _ Es1 ltac:(lia) ltac:(lia) Hb) as W1.
assert (L1 := within_length _ _ _ _ W1).
assert (Hv1 : l1 !! a = Some v).
{ rewrite Hl1. unfold swap_idx. rewrite decide_True by reflexivity. exact Hv. }
unfold sort.partition_for in Hrun.
destruct (sort.partition_loop less (S (S b' - (a + 1))) true a (a + 1) b' l1)
as [[[l3 i3] j3]|] eqn:E3; [|discriminate].
obind_in Hrun. injection Hrun as <- <-.
apply (partition_loop_spec _ _ a (S b') _ _ _ v) in E3 as (W3 & R1 & R2 & R3 & R4);
[|lia|lia|lia|lia|lia|exact Hv1| |].
- cbn [side negb] in R3, R4.
split; [eapply within_trans; [exact W1|eapply within_weaken; [| |exact W3]; lia]|].
split; [lia|]. split; [|auto].
destruct W3 as (_ & _ & O3). rewrite O3 by lia. exact Hv1.
- intros k x Hk. lia.
- intros k x Hk. lia.
Qed.

Lemma sorted_range_snoc (a k : nat) (l : list A) :
Forall good l -> a < k ->
sorted_range less a k l ->
(forall x y, l !! (k - 1) = Some x -> l !! k = Some y -> less y x = false) ->
sorted_range less a (S k) l.
Proof.
intros Hg Hak Hs Hlast i j x y Hi Hij Hj Hx Hy.
destruct (decide (j = k)) as [->|]; [|apply (Hs i j x y); try lia; assumption].
destruct (decide (i = k - 1)) as [->|]; [apply Hlast; assumption|].
destruct (lookup_lt_is_Some_2 l (k - 1)) as [z Hz].
{ pose proof (lookup_lt_Some _ _ _ Hy). lia. }
assert (less z x = false) by (apply (Hs i (k - 1) x z); try lia; assumption).
assert (less y z = false) by (apply Hlast; assumption).
apply (ntrans y z x); try (eapply good_lookup; eassumption); assumption.
Qed.

Lemma scan_sorted_spec (fuel a b i : nat) (l : list A) (i' : nat) :
Forall good l -> a < i -> b - i <= fuel ->
sorted_range less a i l ->
sort.scan_sorted less fuel b i l = Some i' ->
i <= i' /\ (i <= b -> i' <= b) /\ sorted_range less a i' l
/\ (i' < b -> exists x y, l !! i' = Some x /\ l !! (i' - 1) = Some y
                        /\ less x y = true).
Proof.
intros Hg. revert i. induction fuel as [|fuel IH]; intros i Hai Hf Hs Hrun.
- cbn in Hrun. injection Hrun as <-. split; [lia|]. split; [lia|].
split; [exact Hs|lia].
- cbn [sort.scan_sorted] in Hrun. destruct (decide (i < b)) as [Hib|Hib].
2:{ injection Hrun as <-. split; [lia|]. split; [lia|]. split; [exact Hs|lia]. }
destruct (sort.Less less l i (i - 1)) as [c|] eqn:Ec; [|discriminate].
obind_in Hrun. apply Less_inv in Ec as (x & y & Hx & Hy & Hc).
destruct c.
+ injection Hrun as <-. split; [lia|]. split; [lia|]. split; [exact Hs|].
  intros _. eauto.
+ apply IH in Hrun as (H1 & H2 & H3 & H4); [|lia|lia|].
  * split; [lia|]. split; [lia|]. auto.
  * apply sorted_range_snoc; [exact Hg|exact Hai|exact Hs|].
    intros x' y' Hx' Hy'. congruence.
Qed.

Lemma shift_left_inner (a b j : nat) (l : list A) :
a <= j < b -> b <= length l -> lower_bound less a b l ->
sort.shift_left less j l = sort.insertionSort_inner less a j l.
Proof.
revert l. induction j as [|j IH]; intros l Hj Hb LB; [reflexivity|].
cbn [sort.shift_left sort.insertionSort_inner].
destruct (decide (a < S j)) as [Haj|Haj].
- destruct (sort.Less less l (S j) j) as [c|] eqn:Ec; [|reflexivity]. obind.
destruct c; [|reflexivity].
destruct (sort.Swap l (S j) j) as [l1|] eqn:Es; [|reflexivity]. obind.
pose proof (Swap_eq_within a b _ _ _ _ Es ltac:(lia) ltac:(lia) Hb) as W1.
apply IH; [lia|rewrite (within_length _ _ _ _ W1); lia|].
eapply within_lower_bound; [exact W1|exact Hb|lia|lia|exact LB].
- assert (a = S j) by lia. subst a.
destruct (lookup_lt_is_Some_2 l j ltac:(lia)) as [v Hv].
destruct (lookup_lt_is_Some_2 l (S j) ltac:(lia)) as [x Hx].
unfold sort.Less. rewrite Hx, Hv. obind.
replace (S j - 1) with j in LB by lia.
rewrite (LB v ltac:(lia) ltac:(replace (S j - 1) with j by lia; exact Hv)
           (S j) x ltac:(lia) Hx).
reflexivity.
Qed.

Lemma shift_right_within (fuel b j : nat) (l : list A) :
1 <= j -> b <= length l ->
exists l', sort.shift_right less fuel b j l = Some l' /\ within (j - 1) b l l'.
Proof.
revert j l. induction fuel as [|fuel IH]; intros j l Hj Hb;
[exists l; split; [reflexivity|apply within_refl]|].
cbn [sort.shift_right]. destruct (decide (j < b));
[|exists l; split; [reflexivity|apply within_refl]].
destruct (Less_Some less l j (j - 1)) as [c ->]; [lia|lia|]. obind.
destruct c; [|exists l; split; [reflexivity|apply within_refl]].
destruct (Swap_within (j - 1) b l j (j - 1)) as (l1 & -> & W1); [lia|lia|lia|]. obind.
destruct (IH (S j) l1) as (l2 & -> & W2); [lia|rewrite (within_length _ _ _ _ W1); lia|].
exists l2. split; [reflexivity|]. eapply within_trans; [exact W1|].
eapply within_weaken; [| |exact W2]; lia.
Qed.

Lemma partialInsertionSort_steps_spec (steps a b i : nat) (l l' : list A)
(sorted : bool) :
a < i -> i <= b -> b <= length l -> Forall good l ->
lower_bound less a b l -> sorted_range less a i l ->
sort.partialInsertionSort_steps less steps a b i l = Some (l', sorted) ->
within a b l l' /\ (sorted = true -> sorted_range less a b l').
Proof.
revert i l. induction steps as [|steps IH]; intros i l Hai Hib Hb Hg LB Hs Hrun.
- cbn in Hrun. injection Hrun as <- <-. split; [apply within_refl|discriminate].
- cbn [sort.partialInsertionSort_steps] in Hrun.
destruct (sort.scan_sorted less (b - i) b i l) as [i1|] eqn:E1; [|discriminate].
obind_in Hrun.
apply (scan_sorted_spec _ a) in E1 as (S1 & S2 & S3 & S4); [|exact Hg|lia|lia|exact Hs].
destruct (decide (i1 = b)) as [->|Hne].
{ injection Hrun as <- <-. split; [apply within_refl|]. intros _. exact S3. }
destruct (decide (b - a < sort.shortestShifting)).
{ injection Hrun as <- <-. split; [apply within_refl|discriminate]. }
destruct (sort.Swap l i1 (i1 - 1)) as [l1|] eqn:Es; [|discriminate]. obind_in Hrun.
pose proof (Swap_lookup _ _ _ _ Es) as Hl1.
pose proof (Swap_eq_within a b _ _ _ _ Es ltac:(lia) ltac:(lia) Hb) as W1.
assert (L1 := within_length _ _ _ _ W1).
assert (G1 := within_good _ _ _ _ W1 Hg).
assert (LB1 : lower_bound less a b l1)
  by (eapply within_lower_bound; [exact W1|exact Hb|lia|lia|exact LB]).
assert (S1' : sorted_range less a (i1 - 1) l1).
{ intros p q x y Hp Hpq Hq Hx Hy. rewrite Hl1 in Hx, Hy. unfold swap_idx in Hx, Hy.
  destruct (decide (p = i1)); [lia|]. destruct (decide (p = i1 - 1)); [lia|].
  destruct (decide (q = i1)); [lia|]. destruct (decide (q = i1 - 1)); [lia|].
  apply (S3 p q x y); try lia; assumption. }
(* the smaller one goes left *)
destruct (if decide (2 <= i1 - a) then sort.shift_left less (i1 - 1) l1 else Some l1)
  as [l2|] eqn:E2; [|discriminate].
obind_in Hrun.
assert (H2 : within a i1 l1 l2 /\ sorted_range less a i1 l2).
{ destruct (decide (2 <= i1 - a)) as [Hfar|Hnear].
  - rewrite (shift_left_inner a b) in E2 by (try lia; assumption).
    destruct (insertionSort_inner_safe less a i1 (i1 - 1) l1) as (l2' & E2' & W2);
      [lia|lia|].
    rewrite E2 in E2'. injection E2' as <-. split; [exact W2|].
    replace i1 with (S (i1 - 1)) at 1 by lia.
    apply (insertionSort_inner_sorted a (i1 - 1) (i1 - 1) l1);
      [lia|lia|exact G1| |exact E2].
    intros p q x y Hp Hpq Hq Hqj. apply S1'; lia.
  - injection E2 as <-. split; [apply within_refl|].
    intros p q x y Hp Hpq Hq. lia. }
destruct H2 as [W2 S2'].
assert (L2 := within_length _ _ _ _ W2).
(* the greater one goes right *)
destruct (if decide (2 <= b - i1)
          then sort.shift_right less (b - (i1 + 1)) b (i1 + 1) l2 else Some l2)
  as [l3|] eqn:E3; [|discriminate].
obind_in Hrun.
assert (W3 : within i1 b l2 l3).
{ destruct (decide (2 <= b - i1)).
  - destruct (shift_right_within (b - (i1 + 1)) b (i1 + 1) l2) as (l3' & E3' & W3);
      [lia|lia|].
    rewrite E3 in E3'. injection E3' as <-.
    replace (i1 + 1 - 1) with i1 in W3 by lia. exact W3.
  - injection E3 as <-. apply within_refl. }
assert (L3 := within_length _ _ _ _ W3).
assert (W13 : within a b l1 l3).
{ eapply within_trans; eapply within_weaken; [| |exact W2| | |exact W3]; lia. }
apply (IH i1 l3) in Hrun as (W4 & S5);
  [|lia|lia|lia|eapply within_good; [exact W13|exact G1]
   |eapply within_lower_bound; [exact W13|lia|lia|lia|exact LB1]
   |eapply within_sorted_outside; [exact W3|lia|exact S2']].
split; [|exact S5].
eapply within_trans; [exact W1|]. eapply within_trans; eassumption.
Qed.

Lemma partialInsertionSort_spec (a b : nat) (l l' : list A) (sorted : bool) :
a < b -> b <= length l -> Forall good l -> lower_bound less a b l ->
sort.partialInsertionSort less a b l = Some (l', sorted) ->
within a b l l' /\ (sorted = true -> sorted_range less a b l').
Proof.
intros Hab Hb Hg LB Hrun. unfold sort.partialInsertionSort in Hrun.
apply (partialInsertionSort_steps_spec sort.maxSteps a b (a + 1) l) in Hrun;
try lia; try assumption.
intros p q x y Hp Hpq Hq. lia.
Qed.

Lemma siftDown_loop_heap (fuel hi first lo root : nat) (l l' : list A) :
lo <= root -> first + hi <= length l -> Forall good l ->
heap_except less first lo hi root l ->
sort.siftDown_loop less fuel hi first root l = Some l' ->
heap_from less first lo hi l'.
Proof.
revert root l. induction fuel as [|fuel IH]; intros root l Hlo Hb Hg [HE1 HE2] Hrun;
[discriminate|].
cbn [sort.siftDown_loop] in Hrun. cbv zeta in Hrun.
destruct (decide (hi <= 2 * root + 1)) as [Hleaf|Hchild].
{ injection Hrun as <-. intros p c Hp Hc Hch.
destruct (decide (p = root)) as [->|Hne]; [unfold child in Hch; lia|].
apply HE1; assumption. }
destruct (if decide (2 * root + 1 + 1 < hi)
        then sort.Less less l (first + (2 * root + 1)) (first + (2 * root + 1) + 1)
        else Some false) as [c1|] eqn:E1; [|discriminate].
obind_in Hrun.
set (cs := if c1 then 2 * root + 1 + 1 else 2 * root + 1) in *.
assert (Hcs : child root cs /\ cs < hi
            /\ forall c, child root c -> c < hi -> dominated less first cs c l).
{ destruct (decide (2 * root + 1 + 1 < hi)) as [Htwo|Hone].
- apply Less_inv in E1 as (x & y & Hx & Hy & Hc).
  destruct c1; subst cs; (split; [unfold child; lia|]); (split; [lia|]);
    intros c [->| ->] Hc' x' y' Hx' Hy'.
  + replace (first + (2 * root + 1 + 1)) with (first + (2 * root + 1) + 1) in Hx' by lia.
    assert (x' = y) by congruence. assert (y' = x) by congruence. subst x' y'.
    apply asym; [eapply good_lookup; eassumption..|exact Hc].
  + replace (2 * root + 2) with (2 * root + 1 + 1) in Hy' by lia.
    assert (x' = y') by congruence. subst y'.
    apply irrefl. eapply good_lookup; eassumption.
  + assert (x' = y') by congruence. subst y'.
    apply irrefl. eapply good_lookup; eassumption.
  + replace (first + (2 * root + 2)) with (first + (2 * root + 1) + 1) in Hy' by lia.
    assert (x' = x) by congruence. assert (y' = y) by congruence. subst x' y'.
    exact Hc.
- injection E1 as <-. subst cs. split; [unfold child; lia|]. split; [lia|].
  intros c [->| ->] Hc' x' y' Hx' Hy'; [|lia].
  assert (x' = y') by congruence. subst y'.
  apply irrefl. eapply good_lookup; eassumption. }
clearbody cs. clear E1. destruct Hcs as (Hch & Hcshi & Hdom).
destruct (sort.Less less l (first + root) (first + cs)) as [c2|] eqn:E2; [|discriminate].
obind_in Hrun. apply Less_inv in E2 as (x & y & Hx & Hy & Hc).
assert (Gx : good x) by (eapply good_lookup; eassumption).
assert (Gy : good y) by (eapply good_lookup; eassumption).
destruct c2; cbn [negb] in Hrun.
- destruct (sort.Swap l (first + root) (first + cs)) as [l1|] eqn:Es; [|discriminate].
obind_in Hrun.
pose proof (Swap_lookup _ _ _ _ Es) as Hl1.
pose proof (Swap_eq_within first (first + hi) _ _ _ _ Es) as W1.
assert (Hroot : root < cs) by (unfold child in Hch; lia).
specialize (W1 ltac:(lia) ltac:(lia) Hb).
apply (IH cs l1); [lia|rewrite (within_length _ _ _ _ W1); exact Hb
                  |eapply within_good; eassumption| |exact Hrun].
split.
+ intros p c Hp Hc' Hpc Hne x' y' Hx' Hy'. rewrite Hl1 in Hx', Hy'.
  unfold swap_idx in Hx', Hy'.
  destruct (decide (first + p = first + root)) as [Ep|Np].
  * assert (p = root) by lia. subst p. assert (x' = y) by congruence. subst x'.
    destruct (decide (first + c = first + root)) as [Ec|Nc];
      [unfold child in Hpc; lia|].
    destruct (decide (first + c = first + cs)) as [Ec|Nc'].
    -- assert (y' = x) by congruence. subst y'. apply asym; assumption.
    -- apply (Hdom c Hpc Hc' y y' Hy Hy').
  * destruct (decide (first + p = first + cs)); [lia|].
    destruct (decide (first + c = first + root)) as [Ec|Nc].
    -- assert (c = root) by lia. subst c. assert (y' = y) by congruence. subst y'.
       apply (HE2 p cs Hp Hcshi Hpc Hch x' y Hx' Hy).
    -- destruct (decide (first + c = first + cs)) as [Ec|Nc'].
       ++ assert (c = cs) by lia. subst c. unfold child in Hpc, Hch. lia.
       ++ apply (HE1 p c Hp Hc' Hpc ltac:(lia) x' y' Hx' Hy').
+ intros p c Hp Hc' Hpcs Hcsc x' y' Hx' Hy'. rewrite Hl1 in Hx', Hy'.
  unfold swap_idx in Hx', Hy'.
  assert (p = root) by (unfold child in Hpcs, Hch; lia). subst p.
  assert (cs < c) by (unfold child in Hcsc; lia).
  rewrite decide_True in Hx' by reflexivity.
  destruct (decide (first + c = first + root)); [lia|].
  destruct (decide (first + c = first + cs)); [lia|].
  assert (x' = y) by congruence. subst x'.
  apply (HE1 cs c ltac:(lia) Hc' Hcsc ltac:(lia) y y' Hy Hy').
- injection Hrun as <-. intros p c Hp Hc' Hpc.
destruct (decide (p = root)) as [->|Hne]; [|apply HE1; assumption].
intros x' y' Hx' Hy'. assert (x' = x) by congruence. subst x'.
apply (ntrans x y y'); try assumption; [eapply good_lookup; eassumption|].
apply (Hdom c Hpc Hc' y y' Hy Hy').
Qed.

Lemma heap_root_max (first hi : nat) (l : list A) :
Forall good l -> heap_from less first 0 hi l ->
forall k, k < hi -> dominated less first 0 k l.
Proof.
intros Hg Hh k. induction k as [k IH] using lt_wf_ind. intros Hk x y Hx Hy.
destruct k as [|k'].
- assert (x = y) by congruence. subst y. apply irrefl. eapply good_lookup; eassumption.
- set (p := k' / 2).
assert (Hp : k' = 2 * p \/ k' = 2 * p + 1).
{ pose proof (Nat.div_mod_eq k' 2) as Hd.
  pose proof (Nat.mod_upper_bound k' 2 ltac:(lia)). subst p. lia. }
destruct (lookup_lt_is_Some_2 l (first + p)) as [z Hz].
{ pose proof (lookup_lt_Some _ _ _ Hy). lia. }
apply (ntrans x z y); try (eapply good_lookup; eassumption).
+ apply (IH p ltac:(lia) ltac:(lia) x z Hx Hz).
+ apply (Hh p (S k') ltac:(lia) Hk ltac:(unfold child; lia) z y Hz Hy).
Qed.

Lemma all_range_outside (a b a' b' : nat) (P : A -> Prop) (l l' : list A) :
within a' b' l l' -> (b <= a' \/ b' <= a) ->
all_range a b P l -> all_range a b P l'.
Proof.
intros (_ & _ & O) Hd Hall k x Hk Hx. rewrite O in Hx by lia. apply (Hall k x Hk Hx).
Qed.

Lemma heapSort_sorted (a b : nat) (l l' : list A) :
a <= b -> b <= length l -> Forall good l ->
sort.heapSort less a b l = Some l' ->
within a b l l' /\ sorted_range less a b l'.
Proof.
intros Hab Hb Hg Hrun.
destruct (heapSort_safe less a b l Hab Hb) as (l'' & Hrun' & W).
rewrite Hrun in Hrun'. injection Hrun' as <-. split; [exact W|].
unfold sort.heapSort in Hrun. cbv zeta in Hrun.
set (hi := b - a) in *.
destruct (sort.for_each (rev (seq 0 ((hi - 1) / 2 + 1)))
          (fun i l => sort.siftDown less i hi a l) l) as [l1|] eqn:E1; [|discriminate].
obind_in Hrun.
(* the heap is built *)
pose (Inv1 := fun (i : nat) (m : list A) =>
              length m = length l /\ Forall good m /\ heap_from less a i hi m).
assert (H1 : Inv1 0 l1).
{ apply (for_each_rev_inv Inv1 ((hi - 1) / 2 + 1)
         (fun i l => sort.siftDown less i hi a l) l); [| |exact E1].
- intros i m m1 Hi (Lm & Gm & Hm) Hstep.
  destruct (siftDown_safe less i hi a m) as (m1' & Hstep' & Wm); [subst hi; lia|].
  rewrite Hstep in Hstep'. injection Hstep' as <-.
  split; [rewrite (within_length _ _ _ _ Wm); exact Lm|].
  split; [eapply within_good; eassumption|].
  apply (siftDown_loop_heap (S hi) hi a i i m); [lia|subst hi; lia|exact Gm| |exact Hstep].
  split.
  + intros p c Hp Hc Hpc Hne. apply Hm; [lia|assumption..].
  + intros p c Hp Hc Hpi Hic. unfold child in Hpi. lia.
- split; [reflexivity|]. split; [exact Hg|].
  intros p c Hp Hc Hpc. exfalso.
  pose proof (Nat.div_mod_eq (hi - 1) 2) as Hd.
  pose proof (Nat.mod_upper_bound (hi - 1) 2 ltac:(lia)).
  unfold child in Hpc. lia. }
destruct H1 as (L1 & G1 & Hh1).
(* the greatest element goes to the end, one after the other *)
pose (Inv2 := fun (i : nat) (m : list A) =>
              length m = length l /\ Forall good m /\ heap_from less a 0 i m
              /\ sorted_range less (a + i) (a + hi) m
              /\ forall q y, a + i <= q < a + hi -> m !! q = Some y ->
                             all_range a (a + i) (fun x => less y x = false) m).
assert (H2 : Inv2 0 l').
{ apply (for_each_rev_inv Inv2 hi
         (fun i l => l' ← sort.Swap l a (a + i); sort.siftDown less 0 i a l') l1);
  [| |exact Hrun].
- intros i m m2 Hi (Lm & Gm & Hm & Sm & Cm) Hstep.
  destruct (sort.Swap m a (a + i)) as [m1|] eqn:Es; [|discriminate]. obind_in Hstep.
  pose proof (Swap_lookup _ _ _ _ Es) as Hm1.
  pose proof (Swap_eq_within a (a + S i) _ _ _ _ Es ltac:(lia) ltac:(lia)
                ltac:(subst hi; lia)) as W1.
  assert (Lm1 := within_length _ _ _ _ W1).
  assert (Gm1 := within_good _ _ _ _ W1 Gm).
  destruct (siftDown_safe less 0 i a m1) as (m2' & Hstep' & W2); [subst hi; lia|].
  rewrite Hstep in Hstep'. injection Hstep' as <-.
  assert (Lm2 := within_length _ _ _ _ W2).
  split; [lia|]. split; [eapply within_good; eassumption|].
  split; [|split].
  + apply (siftDown_loop_heap (S i) i a 0 0 m1);
      [lia|subst hi; lia|exact Gm1| |exact Hstep].
    split.
    * intros p c Hp Hc Hpc Hne x y Hx Hy. rewrite Hm1 in Hx, Hy.
      unfold swap_idx in Hx, Hy. unfold child in Hpc.
      destruct (decide (a + p = a)); [lia|]. destruct (decide (a + p = a + i)); [lia|].
      destruct (decide (a + c = a)); [lia|]. destruct (decide (a + c = a + i)); [lia|].
      apply (Hm p c ltac:(lia) ltac:(lia) ltac:(unfold child; lia) x y Hx Hy).
    * intros p c Hp Hc Hp0. unfold child in Hp0. lia.
  + eapply within_sorted_outside; [exact W2|lia|].
    intros p q x y Hp Hpq Hq Hx Hy. rewrite Hm1 in Hx, Hy. unfold swap_idx in Hx, Hy.
    destruct (decide (q = a)); [lia|]. destruct (decide (q = a + i)); [lia|].
    destruct (decide (p = a)) as [->|Hpa].
    * assert (i = 0) by lia. subst i. rewrite Nat.add_0_r in Hx.
      apply (Cm q y ltac:(lia) Hy a x ltac:(lia) Hx).
    * destruct (decide (p = a + i)) as [->|Hpi].
      -- apply (Cm q y ltac:(lia) Hy a x ltac:(lia) Hx).
      -- apply (Sm p q x y); try lia; assumption.
  + intros q y Hq Hy.
    assert (Hy1 : m1 !! q = Some y).
    { destruct W2 as (_ & _ & O2). rewrite <- O2 by lia. exact Hy. }
    eapply within_all_range; [exact W2|subst hi; lia|lia|lia|].
    intros k x Hk Hx. rewrite Hm1 in Hx, Hy1. unfold swap_idx in Hx, Hy1.
    assert (exists k', k' <= i /\ m !! (a + k') = Some x) as (k' & Hk' & Hx').
    { destruct (decide (k = a)) as [->|].
      - exists i. split; [lia|exact Hx].
      - destruct (decide (k = a + i)); [lia|]. exists (k - a).
        split; [lia|]. replace (a + (k - a)) with k by lia. exact Hx. }
    destruct (decide (q = a)) as [->|]; [lia|].
    destruct (decide (q = a + i)) as [->|].
    * replace a with (a + 0) in Hy1 by lia.
      apply (heap_root_max a (S i) m Gm Hm k' ltac:(lia) y x Hy1 Hx').
    * apply (Cm q y ltac:(lia) Hy1 (a + k') x ltac:(lia) Hx').
- split; [exact L1|]. split; [exact G1|]. split; [exact Hh1|].
  split; [intros p q x y Hp Hpq Hq; lia|]. intros q y Hq. lia. }
destruct H2 as (_ & _ & _ & Hs & _).
replace (a + 0) with a in Hs by lia. replace (a + hi) with b in Hs by (subst hi; lia).
exact Hs.
Qed.

Lemma sorted_glue (a mid b : nat) (l : list A) (v : A) :
Forall good l -> l !! mid = Some v ->
sorted_range less a mid l -> sorted_range less (mid + 1) b l ->
all_range a mid (fun x => less x v = true) l ->
all_range (mid + 1) b (fun x => less x v = false) l ->
sorted_range less a b l.
Proof.
intros Hg Hv SL SR HL HR i j x y Hi Hij Hj Hx Hy.
assert (Gx : good x) by (eapply good_lookup; eassumption).
assert (Gy : good y) by (eapply good_lookup; eassumption).
assert (Gv : good v) by (eapply good_lookup; eassumption).
destruct (decide (j < mid)); [apply (SL i j x y); try lia; assumption|].
destruct (decide (mid < i)); [apply (SR i j x y); try lia; assumption|].
destruct (decide (j = mid)) as [->|].
{ assert (y = v) by congruence. subst y. apply asym; try assumption.
apply (HL i x); [lia|exact Hx]. }
assert (Hyv : less y v = false) by (apply (HR j y); [lia|exact Hy]).
destruct (decide (i = mid)) as [->|]; [assert (x = v) by congruence; subst x; exact Hyv|].
apply (ntrans y v x); try assumption.
apply asym; try assumption. apply (HL i x); [lia|exact Hx].
Qed.

Lemma sorted_equal_glue (a mid b : nat) (l : list A) (v : A) :
Forall good l -> good v ->
all_range a mid (fun x => less x v = false) l ->
all_range a mid (fun x => less v x = false) l ->
all_range mid b (fun x => less v x = true) l ->
sorted_range less mid b l ->
sorted_range less a b l.
Proof.
intros Hg Gv H1 H2 H3 SR i j x y Hi Hij Hj Hx Hy.
assert (Gx : good x) by (eapply good_lookup; eassumption).
assert (Gy : good y) by (eapply good_lookup; eassumption).
destruct (decide (mid <= i)); [apply (SR i j x y); try lia; assumption|].
assert (Hvx : less v x = false) by (apply (H2 i x); [lia|exact Hx]).
destruct (decide (j < mid)).
- apply (ntrans y v x); try assumption. apply (H1 j y); [lia|exact Hy].
- assert (Hvy : less v y = true) by (apply (H3 j y); [lia|exact Hy]).
destruct (less x y) eqn:Exy; [apply asym; assumption|].
rewrite (ntrans v x y Gv Gx Gy Hvx Exy) in Hvy. discriminate.
Qed.

Lemma lower_bound_equal (a mid b : nat) (l : list A) (v : A) :
Forall good l -> a + 1 <= mid -> mid <= length l -> l !! a = Some v ->
all_range (a + 1) mid (fun x => less v x = false) l ->
all_range mid b (fun x => less v x = true) l ->
lower_bound less mid b l.
Proof.
intros Hg Hmid Hlen Hv H2 H3 w _ Hw k x Hk Hx.
assert (Gx : good x) by (eapply good_lookup; eassumption).
assert (Gw : good w) by (eapply good_lookup; eassumption).
assert (Gv : good v) by (eapply good_lookup; eassumption).
assert (Hvw : less v w = false).
{ destruct (decide (mid - 1 = a)) as [E|].
- rewrite E in Hw. assert (w = v) by congruence. subst w. apply irrefl. exact Gv.
- apply (H2 (mid - 1) w); [lia|exact Hw]. }
assert (Hvx : less v x = true) by (apply (H3 k x); [lia|exact Hx]).
destruct (less w x) eqn:Ewx; [apply asym; assumption|].
rewrite (ntrans v w x Gv Gw Gx Hvw Ewx) in Hvx. discriminate.
Qed.

Lemma lower_bound_narrow (a b a' b' : nat) (l : list A) :
a' = a -> b' <= b -> lower_bound less a b l -> lower_bound less a' b' l.
Proof.
intros -> Hb LB v Hpos Hv k x Hk Hx. apply (LB v Hpos Hv k x); [lia|exact Hx].
Qed.

Lemma lower_bound_pivot (mid b : nat) (l : list A) (v : A) :
l !! mid = Some v ->
all_range (mid + 1) b (fun x => less x v = false) l ->
lower_bound less (mid + 1) b l.
Proof.
intros Hv HR w _ Hw. replace (mid + 1 - 1) with mid in Hw by lia.
assert (w = v) by congruence. subst w. exact HR.
Qed.

Ltac next_step H pat name :=
match type of H with
| mbind _ ?m = _ => destruct m as pat eqn:name; [|discriminate]; obind_in H
end.

Lemma lookup_outside (a b : nat) (l l' : list A) (k : nat) (x : A) :
within a b l l' -> (k < a \/ b <= k) -> l !! k = Some x -> l' !! k = Some x.
Proof. intros (_ & _ & O) Hk Hx. rewrite O by lia. exact Hx. Qed.

Lemma pdqsort_sorted (fuel a b limit : nat) (wasBalanced wasPartitioned : bool)
(l l' : list A) :
a <= b -> b <= length l -> Forall good l -> lower_bound less a b l ->
sort.pdqsort less fuel a b limit wasBalanced wasPartitioned l = Some l' ->
within a b l l' /\ sorted_range less a b l'.
Proof.
revert a b limit wasBalanced wasPartitioned l l'.
induction fuel as [|fuel IH];
intros a b limit wasBalanced wasPartitioned l l' Hab Hb Hg LB Hrun; [discriminate|].
cbn [sort.pdqsort] in Hrun. cbv zeta in Hrun.
destruct (decide (b - a <= sort.maxInsertion)) as [Hsmall|Hbig].
{ apply insertionSort_sorted; assumption. }
unfold sort.maxInsertion in Hbig.
destruct (decide (limit = 0)).
{ apply heapSort_sorted; assumption. }
(* breakPatterns *)
next_step Hrun ipattern:([[l1 limit1]|]) E1.
assert (W1 : within a b l l1).
{ destruct (negb wasBalanced).
- destruct (breakPatterns_safe a b l Hab Hb) as (l0 & E & W).
  rewrite E in E1. obind_in E1. injection E1 as <- <-. exact W.
- injection E1 as <- <-. apply within_refl. }
clear E1.
assert (L1 := within_length _ _ _ _ W1). assert (G1 := within_good _ _ _ _ W1 Hg).
(* choosePivot *)
destruct (choosePivot_safe less a b l1) as (pivot & hint & E & Hp); [lia|lia|].
rewrite E in Hrun. obind_in Hrun. clear E.
next_step Hrun ipattern:([[[l2 pivot2] hint2]|]) E2.
assert (W2 : within a b l1 l2 /\ a <= pivot2 < b).
{ destruct (sort.is_decreasing hint).
- destruct (reverseRange_safe a b l1) as (l0 & E & W); [lia|lia|].
  rewrite E in E2. obind_in E2. injection E2 as <- <- <-. split; [exact W|lia].
- injection E2 as <- <- <-. split; [apply within_refl|lia]. }
clear E2. destruct W2 as [W2 Hp2].
assert (W02 : within a b l l2) by (eapply within_trans; eassumption).
assert (L2 := within_length _ _ _ _ W02). assert (G2 := within_good _ _ _ _ W02 Hg).
assert (LB2 : lower_bound less a b l2)
by (eapply within_lower_bound; [exact W02|exact Hb|lia|lia|exact LB]).
(* partialInsertionSort *)
next_step Hrun ipattern:([[l3 sorted]|]) E3.
assert (W3 : within a b l2 l3 /\ (sorted = true -> sorted_range less a b l3)).
{ revert E3. destruct (_ && _); intros E3.
- apply partialInsertionSort_spec in E3; try assumption; lia.
- injection E3 as <- <-. split; [apply within_refl|discriminate]. }
clear E3. destruct W3 as [W3 S3].
assert (W03 : within a b l l3) by (eapply within_trans; eassumption).
assert (L3 := within_length _ _ _ _ W03). assert (G3 := within_good _ _ _ _ W03 Hg).
assert (LB3 : lower_bound less a b l3)
by (eapply within_lower_bound; [exact W03|exact Hb|lia|lia|exact LB]).
destruct sorted.
{ injection Hrun as <-. split; [exact W03|apply S3; reflexivity]. }
destruct (lookup_lt_is_Some_2 l3 pivot2 ltac:(lia)) as [v Hv].
assert (Gv : good v) by (eapply good_lookup; eassumption).
next_step Hrun ipattern:([dup|]) Ed.
destruct dup.
- (* the pivot equals the element before the range *)
assert (exists p, 0 < a /\ l3 !! (a - 1) = Some p /\ less p v = false)
  as (p & Hpos & Hpp & Hpv).
{ destruct (decide (0 < a)); [|discriminate].
  destruct (sort.Less less l3 (a - 1) pivot2) as [c|] eqn:EL; [|discriminate].
  obind_in Ed. apply Less_inv in EL as (p & v' & Hpp & Hv' & Hc).
  assert (v' = v) by congruence. subst v'. exists p.
  destruct c; [discriminate|]. auto. }
clear Ed.
next_step Hrun ipattern:([[l4 mid]|]) E4.
apply (partitionEqual_spec a b pivot2 l3 v) in E4 as (W4 & Hmid & Hv4 & R3 & R4);
  [|lia|lia|exact Hv].
assert (L4 := within_length _ _ _ _ W4). assert (G4 := within_good _ _ _ _ W4 G3).
assert (LB4 : lower_bound less a b l4)
  by (eapply within_lower_bound; [exact W4|lia|lia|lia|exact LB3]).
assert (Hpp4 : l4 !! (a - 1) = Some p)
  by (eapply lookup_outside; [exact W4|lia|exact Hpp]).
assert (Gp : good p) by (eapply good_lookup; eassumption).
apply IH in Hrun as (W5 & S5);
  [|lia|lia|exact G4|eapply (lower_bound_equal a); try eassumption; lia].
split.
{ eapply within_trans; [exact W03|]. eapply within_trans; [exact W4|].
  eapply within_weaken; [| |exact W5]; lia. }
apply (sorted_equal_glue a mid b l' v);
  [eapply within_good; eassumption|exact Gv| | | |exact S5].
+ eapply all_range_outside; [exact W5|lia|].
  intros k x Hk Hx.
  apply (ntrans x p v); try assumption; [eapply good_lookup; eassumption|].
  apply (LB4 p Hpos Hpp4 k x); [lia|exact Hx].
+ eapply all_range_outside; [exact W5|lia|].
  intros k x Hk Hx. destruct (decide (k = a)) as [->|].
  * assert (x = v) by congruence. subst x. apply irrefl. exact Gv.
  * apply (R3 k x); [lia|exact Hx].
+ eapply within_all_range; [exact W5|lia|lia|lia|exact R4].
- clear Ed.
next_step Hrun ipattern:([[[l4 mid] already]|]) E4.
apply (partition_spec a b pivot2 l3 v) in E4 as (W4 & Hmid & Hv4 & HL & HR);
  [|lia|lia|exact Hv].
assert (L4 := within_length _ _ _ _ W4). assert (G4 := within_good _ _ _ _ W4 G3).
assert (LB4 : lower_bound less a b l4)
  by (eapply within_lower_bound; [exact W4|lia|lia|lia|exact LB3]).
assert (W04 : within a b l l4) by (eapply within_trans; eassumption).
destruct (decide (mid - a < b - mid)).
+ next_step Hrun ipattern:([l5|]) E5.
  apply IH in E5 as (W5 & S5);
    [|lia|lia|exact G4|eapply lower_bound_narrow; [reflexivity| |exact LB4]; lia].
  assert (L5 := within_length _ _ _ _ W5). assert (G5 := within_good _ _ _ _ W5 G4).
  assert (Hv5 : l5 !! mid = Some v)
    by (eapply lookup_outside; [exact W5|lia|exact Hv4]).
  assert (HL5 : all_range a mid (fun x => less x v = true) l5)
    by (eapply within_all_range; [exact W5|lia|lia|lia|exact HL]).
  assert (HR5 : all_range (mid + 1) b (fun x => less x v = false) l5)
    by (eapply all_range_outside; [exact W5|lia|exact HR]).
  apply IH in Hrun as (W6 & S6);
    [|lia|lia|exact G5|eapply lower_bound_pivot; eassumption].
  split.
  { eapply within_trans; [exact W04|].
    eapply within_trans; eapply within_weaken; [| |exact W5| | |exact W6]; lia. }
  apply (sorted_glue a mid b l' v).
  * eapply within_good; eassumption.
  * eapply lookup_outside; [exact W6|lia|exact Hv5].
  * eapply within_sorted_outside; [exact W6|lia|exact S5].
  * exact S6.
  * eapply all_range_outside; [exact W6|lia|exact HL5].
  * eapply within_all_range; [exact W6|lia|lia|lia|exact HR5].
+ next_step Hrun ipattern:([l5|]) E5.
  apply IH in E5 as (W5 & S5);
    [|lia|lia|exact G4|eapply lower_bound_pivot; eassumption].
  assert (L5 := within_length _ _ _ _ W5). assert (G5 := within_good _ _ _ _ W5 G4).
  assert (Hv5 : l5 !! mid = Some v)
    by (eapply lookup_outside; [exact W5|lia|exact Hv4]).
  assert (HL5 : all_range a mid (fun x => less x v = true) l5)
    by (eapply all_range_outside; [exact W5|lia|exact HL]).
  assert (HR5 : all_range (mid + 1) b (fun x => less x v = false) l5)
    by (eapply within_all_range; [exact W5|lia|lia|lia|exact HR]).
  assert (LB5 : lower_bound less a mid l5).
  { eapply lower_bound_narrow; [reflexivity| |]; [|
      eapply within_lower_bound; [exact W5|lia| | |exact LB4]]; lia. }
  apply IH in Hrun as (W6 & S6); [|lia|lia|exact G5|exact LB5].
  split.
  { eapply within_trans; [exact W04|].
    eapply within_trans; eapply within_weaken; [| |exact W5| | |exact W6]; lia. }
  apply (sorted_glue a mid b l' v).
  * eapply within_good; eassumption.
  * eapply lookup_outside; [exact W6|lia|exact Hv5].
  * exact S6.
  * eapply within_sorted_outside; [exact W6|lia|exact S5].
  * eapply within_all_range; [exact W6|lia|lia|lia|exact HL5].
  * eapply all_range_outside; [exact W6|lia|exact HR5].
Qed.

Lemma Slice_sorted (l l' : list A) :
Forall good l -> sort.Slice less l = Some l' ->
l' ≡ₚ l /\ sorted less l'.
Proof.
intros Hg Hrun. unfold sort.Slice in Hrun. cbv zeta in Hrun.
apply pdqsort_sorted in Hrun as ((L & P & _) & S);
[|lia|lia|exact Hg|intros v Hpos; lia].
split; [exact P|]. unfold sorted. rewrite L. exact S.
Qed.

End Correct.
End sort_correct.

(* ===================================================================== *)
(** * products.go: the sort stage orders the products                     *)
(* ===================================================================== *)

Section SortProductsOrder.
Context `{GoLib}.
Local Open Scope nat_scope.

Lemma lessProducts_asym (prefs : SearchPreferences) (x y : Product) :
  lessProducts prefs x y = true -> lessProducts prefs y x = false.
Proof.
  unfold lessProducts.
  destruct (String.eqb (SortBy prefs) "cheapest"); [apply float64.ltb_asym|].
  destruct (String.eqb (SortBy prefs) "best_value"); [apply float64.ltb_asym|].
  destruct (String.eqb (SortBy prefs) "highest_quality"); [|discriminate].
  cbv zeta.
  destruct (Nat.eqb_spec (length (Labels x)) (length (Labels y))) as [E|N];
    cbn [negb].
  - rewrite <- E, Nat.eqb_refl. cbn [negb]. apply float64.ltb_asym.
  - intros Hlt%Nat.ltb_lt.
    destruct (Nat.eqb_spec (length (Labels y)) (length (Labels x))); [lia|].
    cbn [negb]. apply Nat.ltb_ge. lia.
Qed.

Lemma lessProducts_negtrans (prefs : SearchPreferences) (x y z : Product) :
  sort_key_defined prefs y ->
  lessProducts prefs x y = false -> lessProducts prefs y z = false ->
  lessProducts prefs x z = false.
Proof.
  unfold lessProducts, sort_key_defined.
  destruct (String.eqb (SortBy prefs) "cheapest"); [apply float64.ltb_negtrans|].
  destruct (String.eqb (SortBy prefs) "best_value").
  { intros Hy Hxy Hyz. exact (float64.ltb_negtrans _ _ _ Hy Hyz Hxy). }
  destruct (String.eqb (SortBy prefs) "highest_quality"); [|reflexivity].
  cbv zeta. intros Hy.
  destruct (Nat.eqb_spec (length (Labels x)) (length (Labels y))) as [E1|N1];
    destruct (Nat.eqb_spec (length (Labels y)) (length (Labels z))) as [E2|N2];
    destruct (Nat.eqb_spec (length (Labels x)) (length (Labels z))) as [E3|N3];
    cbn [negb]; try lia;
    rewrite ?Nat.ltb_ge; try lia.
  apply float64.ltb_negtrans. exact Hy.
Qed.

(** With compare prices (value scores for [best_value]) that are numbers,
    [sortProducts] returns the products in the order of its comparison: the
    same products, and no product is less than one before it. *)
Theorem sortProducts_sorted (products : list Product) (prefs : SearchPreferences) :
  Forall (sort_key_defined prefs) products ->
  exists sorted,
    sortProducts products prefs = Some sorted
    /\ sorted ≡ₚ products
    /\ forall i j x y, i < j -> sorted !! i = Some x -> sorted !! j = Some y ->
                       lessProducts prefs y x = false.
Proof.
  intros Hkeys.
  destruct (sort_safe.Slice_safe (lessProducts prefs) products) as (sorted & Hrun & _).
  exists sorted. split; [exact Hrun|].
  destruct (sort_correct.Slice_sorted (lessProducts prefs) (sort_key_defined prefs)
              (fun x y _ _ => lessProducts_asym prefs x y)
              (fun x y z _ Hy _ => lessProducts_negtrans prefs x y z Hy)
              products sorted Hkeys Hrun) as [Hperm Hsorted].
  split; [exact Hperm|].
  intros i j x y Hij Hx Hy.
  apply (Hsorted i j x y); try lia; try assumption.
  apply lookup_lt_Some in Hy. exact Hy.
Qed.
End SortProductsOrder.

(* ===================================================================== *)
(** * products.go: the value score is a number                            *)
(* ===================================================================== *)

Module float64_nonneg.
Import float64_sign.

Lemma shr_1_nonneg (mrs : shr_record) :
  0 <= shr_m mrs -> 0 <= shr_m (shr_1 mrs).
Proof. destruct mrs as [m r s]. destruct m as [|[p|p|]|p]; cbn; lia. Qed.

Lemma iter_shr_1_nonneg (p : positive) (mrs : shr_record) :
  0 <= shr_m mrs -> 0 <= shr_m (SpecFloat.iter_pos shr_1 p mrs).
Proof.
  revert mrs. induction p as [p IH|p IH|]; intros mrs Hm; cbn [SpecFloat.iter_pos].
  - apply IH, IH, shr_1_nonneg, Hm.
  - apply IH, IH, Hm.
  - apply shr_1_nonneg, Hm.
Qed.

Lemma shr_fexp_nonneg (prec emax m e : Z) (l : location) :
  0 <= m -> 0 <= shr_m (fst (shr_fexp prec emax m e l)).
Proof.
  intros Hm. unfold shr_fexp, shr.
  assert (H0 : 0 <= shr_m (shr_record_of_loc m l)) by (destruct l as [|[]]; exact Hm).
  destruct (fexp prec emax (Zdigits2 m + e) - e) as [|p|p]; cbn [fst];
    [exact H0|apply iter_shr_1_nonneg, H0|exact H0].
Qed.

Lemma round_nearest_even_nonneg (m : Z) (l : location) :
  0 <= m -> 0 <= round_nearest_even m l.
Proof.
  intros Hm. destruct l as [|[]]; cbn; try lia. destruct (Z.even m); lia.
Qed.

Lemma binary_round_aux_signed (prec emax : Z) (sx : bool) (mx ex : Z) (lx : location) :
  0 <= mx -> signed sx (binary_round_aux prec emax sx mx ex lx).
Proof.
  intros Hm. unfold binary_round_aux.
  pose proof (shr_fexp_nonneg prec emax mx ex lx Hm) as H1.
  destruct (shr_fexp prec emax mx ex lx) as [mrs1 e1]. cbn [fst] in H1.
  pose proof (shr_fexp_nonneg prec emax
                (round_nearest_even (shr_m mrs1) (loc_of_shr_record mrs1)) e1 loc_Exact
                (round_nearest_even_nonneg _ _ H1)) as H2.
  destruct (shr_fexp prec emax _ e1 loc_Exact) as [mrs2 e2]. cbn [fst] in H2.
  destruct (shr_m mrs2) as [|m|m]; [reflexivity| |lia].
  destruct (e2 <=? emax - prec); reflexivity.
Qed.

Lemma binary_round_signed (prec emax : Z) (sx : bool) (mx : positive) (ex : Z) :
  signed sx (binary_round prec emax sx mx ex).
Proof.
  unfold binary_round. destruct (shl_align mx ex _) as [mz ez].
  apply binary_round_aux_signed. lia.
Qed.

Lemma signed_nonneg (f : spec_float) : signed false f -> nonneg f.
Proof. destruct f; cbn; auto. Qed.

Lemma SFadd_nonneg (prec emax : Z) (x y : spec_float) :
  nonneg x -> nonneg y -> nonneg (SFadd prec emax x y).
Proof.
  destruct x as [sx|sx| |sx mx ex], y as [sy|sy| |sy my ey]; cbn [nonneg];
    intros Hx Hy; subst; try contradiction; try exact I; try reflexivity.
  - destruct sx, sy; exact I.
  - cbn [SFadd cond_Zopp]. apply signed_nonneg.
    unfold binary_normalize. cbn [Z.add]. apply binary_round_signed.
Qed.

(** Above zero: a positive number or the positive infinity. *)
Lemma SFltb_zero (x : spec_float) :
  SFltb (S754_zero false) x = true ->
  x = S754_infinity false \/ exists m e, x = S754_finite false m e.
Proof.
  destruct x as [s|[]| |[] m e]; cbn; try discriminate; eauto.
Qed.

Lemma SFmul_nonneg (prec emax : Z) (x : spec_float) (m : positive) (e : Z) :
  SFltb (S754_zero false) x = true ->
  nonneg (SFmul prec emax x (S754_finite false m e)).
Proof.
  intros [->|(mx & ex & ->)]%SFltb_zero; cbn [SFmul xorb]; [reflexivity|].
  apply signed_nonneg, binary_round_aux_signed. lia.
Qed.

Lemma SFdiv_nonneg (prec emax : Z) (m : positive) (e : Z) (y : spec_float) :
  SFltb (S754_zero false) y = true ->
  nonneg (SFdiv prec emax (S754_finite false m e) y).
Proof.
  intros [->|(my & ey & ->)]%SFltb_zero; cbn [SFdiv xorb]; [exact I|].
  unfold SFdiv_core_binary.
  set (s := e - ey - _).
  set (m' := match s with Z0 => Z.pos m | Z.pos _ => Z.shiftl (Z.pos m) s
                     | Z.neg _ => 0 end).
  assert (Hm' : 0 <= m').
  { subst m'. destruct s; [lia| |lia]. apply Z.shiftl_nonneg. lia. }
  pose proof (Z.div_pos m' (Z.pos my) Hm' ltac:(lia)) as Hq.
  unfold Z.div in Hq.
  destruct (Z.div_eucl m' (Z.pos my)) as [q r]. cbn [fst] in Hq.
  apply signed_nonneg, binary_round_aux_signed, Hq.
Qed.

Lemma nonneg_not_nan (x : float) :
  nonneg (Prim2SF x) -> PrimFloat.is_nan x = false.
Proof.
  intros Hx. apply float64.is_nan_false. intros E. rewrite E in Hx. exact Hx.
Qed.

Lemma add_nonneg (x y : float) :
  nonneg (Prim2SF x) -> nonneg (Prim2SF y) -> nonneg (Prim2SF (x + y)).
Proof. intros Hx Hy. rewrite FloatAxioms.add_spec. apply SFadd_nonneg; assumption. Qed.

End float64_nonneg.

Section ScoreIsNumber.
Context `{GoLib}.
Import float64_sign float64_nonneg.

Lemma quality_loop_nonneg (labelLower : string) (qualities : list string)
  (score : float) :
  nonneg (Prim2SF score) -> nonneg (Prim2SF (quality_loop labelLower qualities score)).
Proof.
  intros Hs. induction qualities as [|q rest IH]; cbn [quality_loop]; [exact Hs|].
  destruct (strings.Contains labelLower q); [|exact IH].
  apply add_nonneg; [exact Hs|]. reflexivity.
Qed.

Lemma labels_loop_nonneg (labels : list string) (score : float) :
  nonneg (Prim2SF score) -> nonneg (Prim2SF (labels_loop labels score)).
Proof.
  revert score. induction labels as [|l rest IH]; intros score Hs;
    cbn [labels_loop]; [exact Hs|].
  apply IH, quality_loop_nonneg, Hs.
Qed.

(** The value score is a number, never NaN, whatever the compare price
    and the savings are: it is a sum of terms that are not below zero. *)
Lemma calculateValueScore_not_nan (p : Product) :
  PrimFloat.is_nan (calculateValueScore p) = false.
Proof.
  apply nonneg_not_nan. unfold calculateValueScore. cbv zeta.
  assert (H0 : nonneg (Prim2SF 0)) by exact I.
  set (cp := parseComparePriceToFloat (ComparePrice p)).
  assert (H1 : nonneg (Prim2SF (if PrimFloat.ltb 0 cp then (0 + 100 / cp)%float
                                else 0%float))).
  { destruct (PrimFloat.ltb 0 cp) eqn:E; [|exact H0].
    rewrite FloatAxioms.ltb_spec in E.
    apply add_nonneg; [exact H0|]. rewrite FloatAxioms.div_spec.
    change (Prim2SF 100) with (S754_finite false 7036874417766400 (-46)).
    apply SFdiv_nonneg. exact E. }
  apply labels_loop_nonneg with (labels := Labels p) in H1.
  destruct (SavingsAmount p) as [savings|]; [|exact H1].
  destruct (PrimFloat.ltb 0 savings) eqn:E; [|exact H1].
  rewrite FloatAxioms.ltb_spec in E.
  apply add_nonneg; [exact H1|]. rewrite FloatAxioms.mul_spec.
  change (Prim2SF 0.5) with (S754_finite false 4503599627370496 (-53)).
  apply SFmul_nonneg. exact E.
Qed.
End ScoreIsNumber.

(* ===================================================================== *)
(** * products.go: the orders of [best_value] and [cheapest]              *)
(* ===================================================================== *)

Section SortProductsModes.
Context `{GoLib}.
Local Open Scope nat_scope.

Lemma sortProducts_in_order (products : list Product) (prefs : SearchPreferences) :
  Forall (sort_key_defined prefs) products ->
  exists sorted,
    sortProducts products prefs = Some sorted
    /\ sorted ≡ₚ products
    /\ forall i j x y, i < j -> sorted !! i = Some x -> sorted !! j = Some y ->
                       lessProducts prefs y x = false.
Proof.
  intros Hkeys.
  destruct (sort_safe.Slice_safe (lessProducts prefs) products) as (sorted & Hrun & _).
  exists sorted. split; [exact Hrun|].
  destruct (sort_correct.Slice_sorted (lessProducts prefs) (sort_key_defined prefs)
              (fun x y _ _ => lessProducts_asym prefs x y)
              (fun x y z _ Hy _ => lessProducts_negtrans prefs x y z Hy)
              products sorted Hkeys Hrun) as [Hperm Hsorted].
  split; [exact Hperm|].
  intros i j x y Hij Hx Hy.
  apply (Hsorted i j x y); try lia; try assumption.
  apply lookup_lt_Some in Hy. exact Hy.
Qed.

(** C2, as amended: the value score is the price part (100 over the parsed
    compare price when that is above zero, else nothing), plus 10 for each
    label of the product that contains a quality label - once for each
    such label, not once for the product - plus half the savings when they
    are above zero; and [best_value] returns the products with the scores
    descending: no product has a higher score than one before it. *)
Theorem best_value_score_and_order :
  (forall p : Product, calculateValueScore p = score_bonus_per_label p)
  /\ (forall (products : list Product) (prefs : SearchPreferences),
        SortBy prefs = "best_value" ->
        exists sorted,
          sortProducts products prefs = Some sorted
          /\ sorted ≡ₚ products
          /\ forall i j x y,
               i < j -> sorted !! i = Some x -> sorted !! j = Some y ->
               PrimFloat.ltb (calculateValueScore x) (calculateValueScore y) = false).
Proof.
  split; [exact calculateValueScore_spec|].
  intros products prefs Hmode.
  destruct (sortProducts_in_order products prefs) as (sorted & Hrun & Hperm & Hord).
  { apply Forall_forall. intros p _. unfold sort_key_defined. rewrite Hmode.
    cbn [String.eqb Ascii.eqb Bool.eqb]. apply calculateValueScore_not_nan. }
  exists sorted. split; [exact Hrun|]. split; [exact Hperm|].
  intros i j x y Hij Hx Hy. specialize (Hord i j x y Hij Hx Hy).
  unfold lessProducts in Hord. rewrite Hmode in Hord.
  cbn [String.eqb Ascii.eqb Bool.eqb] in Hord. exact Hord.
Qed.

Lemma cheapest_in_order (products : list Product) (prefs : SearchPreferences) :
  SortBy prefs = "cheapest" ->
  Forall (fun p => PrimFloat.is_nan (parseComparePriceToFloat (ComparePrice p))
                   = false) products ->
  exists sorted,
    sortProducts products prefs = Some sorted
    /\ sorted ≡ₚ products
    /\ forall i j x y,
         i < j -> sorted !! i = Some x -> sorted !! j = Some y ->
         PrimFloat.ltb (parseComparePriceToFloat (ComparePrice y))
                       (parseComparePriceToFloat (ComparePrice x)) = false.
Proof.
  intros Hmode Hkeys.
  destruct (sortProducts_in_order products prefs) as (sorted & Hrun & Hperm & Hord).
  { eapply Forall_impl; [exact Hkeys|]. intros p Hp. unfold sort_key_defined.
    rewrite Hmode. cbn [String.eqb Ascii.eqb Bool.eqb]. exact Hp. }
  exists sorted. split; [exact Hrun|]. split; [exact Hperm|].
  intros i j x y Hij Hx Hy. specialize (Hord i j x y Hij Hx Hy).
  unfold lessProducts in Hord. rewrite Hmode in Hord.
  cbn [String.eqb Ascii.eqb Bool.eqb] in Hord. exact Hord.
Qed.
End SortProductsModes.

(** C5, as amended: when every parsed compare price is a number,
    [cheapest] returns the same products with the prices ascending - no
    product is cheaper than one before it; the products priced 30, 10 and 20
    come out as 10, 20, 30. *)
Theorem sortProducts_cheapest_ascending :
  (forall (G : GoLib) (products : list Product) (prefs : SearchPreferences),
      SortBy prefs = "cheapest" ->
      Forall (fun p => PrimFloat.is_nan
                         (parseComparePriceToFloat (H := G) (ComparePrice p))
                       = false) products ->
      exists sorted,
        sortProducts (H := G) products prefs = Some sorted
        /\ sorted ≡ₚ products
        /\ forall i j x y,
             (i < j)%nat -> sorted !! i = Some x -> sorted !! j = Some y ->
             PrimFloat.ltb (parseComparePriceToFloat (H := G) (ComparePrice y))
                           (parseComparePriceToFloat (H := G) (ComparePrice x))
             = false)
  /\ sortProducts (H := reference.golib) [sample.milk30; sample.milk10; sample.milk20]
       (sample.prefs 0 [] "cheapest")
     = Some [sample.milk10; sample.milk20; sample.milk30].
Proof.
  split; [intros G; exact (cheapest_in_order (H := G))|].
  vm_compute. reflexivity.
Qed.


(* ===================================================================== *)
(** * The statements on concrete inputs                                   *)
(* ===================================================================== *)

Section Examples.
#[local] Existing Instance reference.golib.






(** Against C3 as stated: with a ceiling of 50 and a required label, a
    product whose compare price is not well-formed - so counts as 0, below
    the ceiling - is dropped all the same. *)
Lemma filterProducts_unpriced_dropped :
  let prefs := sample.prefs 50 ["krav"] "" in
  PrimFloat.ltb 0 (MaxPricePerUnit prefs) = true
  /\ snd (ParseFloat (normalizedPrice (ComparePrice sample.unpriced)))
     = Some strconv.ErrSyntax
  /\ withinCeiling prefs sample.unpriced = true
  /\ filterProducts [sample.unpriced] prefs = [].
Proof. vm_compute. repeat split; reflexivity. Qed.

Lemma filterProducts_price_ceiling_witness :
  filterProducts [sample.milk51; sample.unpriced; sample.milk20]
    (sample.prefs 50 [] "")
  = [sample.unpriced; sample.milk20].
Proof.
  destruct (filterProducts_price_ceiling
              [sample.milk51; sample.unpriced; sample.milk20]
              (sample.prefs 50 [] "") eq_refl) as (_ & Hnone & _).
  rewrite (Hnone eq_refl). vm_compute. reflexivity.
Defined.

(** Against C2 as stated: two labels of the product match quality labels
    (["krav"] and ["svensk"]); the code adds the bonus for each, 100/20 + 10
    + 10, where one bonus a product would give 15. *)
Lemma calculateValueScore_two_bonuses :
  calculateValueScore sample.milk20 = 25%float
  /\ score_bonus_once sample.milk20 = 15%float.
Proof. vm_compute. split; reflexivity. Qed.

Lemma SearchProducts_validation_witness :
  exists field message,
    SearchProducts (H0 := sample.network 200 200) None "mjolk" 0 101 None
      (sample.start (sample.account "" 0))
    = (Fail (ValidationError field message), sample.start (sample.account "" 0))
    /\ field = "size".
Proof.
  destruct (SearchProducts_validation (H0 := sample.network 200 200) None
              "mjolk" 0 101 None (sample.start (sample.account "" 0)))
    as (field & message & Hrun & Hfield); [lia|].
  exists field, message. split; [exact Hrun|].
  destruct Hfield as [[_ Hq]|[[_ Hp]|[Hf _]]]; [discriminate|lia|exact Hf].
Defined.

Lemma pass_through_without_sort_directive_witness :
  fst (SearchProducts (H0 := sample.network 200 200) None "mjolk" 0 10 None
         (sample.start (sample.account "" 0)))
  = Ok sample.catalogue
  /\ sortProducts sample.catalogue (sample.prefs 0 [] "alphabetical")
     = Some sample.catalogue.
Proof.
  destruct (pass_through_without_sort_directive (H0 := sample.network 200 200))
    as (_ & Hsearch & Hsort).
  split.
  - erewrite Hsearch; [reflexivity|discriminate|lia|lia| | | |];
      [vm_compute; reflexivity|reflexivity|reflexivity|reflexivity].
  - apply Hsort; discriminate.
Defined.

End Examples.

(* ===================================================================== *)
(** * The further facts at sample inputs                                  *)
(* ===================================================================== *)

Section MoreExamples.
#[local] Existing Instance reference.golib.

Lemma DoRequest_unprotected_once_witness :
  let s := sample.start (sample.account "" 0) in
  DoRequest (H0 := sample.network 200 200) None "GET" sample.cart None false s
  = (Ok {| StatusCode := 401; Body := Some "" |},
     sent (H0 := sample.network 200 200)
       (plain_request sample.base "GET" sample.cart "") s).
Proof.
  intros s.
  rewrite (DoRequest_unprotected_once (H0 := sample.network 200 200)
             None "GET" sample.cart None s).
  vm_compute. reflexivity.
Defined.

Lemma DoRequest_cancelled_witness :
  let s := sample.start (sample.account "" 0) in
  DoRequest (H0 := sample.network 200 200) (Some fixtures.cancelled) "DELETE"
    sample.cart None true s
  = (Fail ContextErr, s).
Proof.
  intros s.
  apply (DoRequest_cancelled (H0 := sample.network 200 200) fixtures.cancelled).
  reflexivity.
Defined.

Lemma GetCSRFToken_cached_witness :
  let s := sample.start (sample.account "" 0) in
  let s' := snd (GetCSRFToken (H0 := sample.network 200 200) s) in
  csrfToken (client s') = "tok"
  /\ GetCSRFToken (H0 := sample.network 200 200) s' = (Ok "tok", s').
Proof.
  intros s s'.
  assert (E : GetCSRFToken (H0 := sample.network 200 200) s = (Ok "tok", s'))
    by (vm_compute; reflexivity).
  destruct (GetCSRFToken_cached (H0 := sample.network 200 200) s s' "tok" E)
    as (_ & Htok & Hagain & _).
  split; [exact Htok|exact Hagain].
Defined.

Lemma FetchCSRFToken_refresh_witness :
  let s := sample.start (sample.account "stale" 0) in
  let s' := snd (FetchCSRFToken (H0 := sample.network 200 200) s) in
  client s' = set_csrfToken "tok" (client s)
  /\ log s' = [EvSend (get_request (sample.base ++ EndpointCSRFToken))].
Proof.
  intros s s'.
  assert (E : FetchCSRFToken (H0 := sample.network 200 200) s = (Ok "tok", s'))
    by (vm_compute; reflexivity).
  pose proof (FetchCSRFToken_refresh (H0 := sample.network 200 200) s s' _ E)
    as Hrefresh.
  cbv zeta in Hrefresh.
  change (NewRequest_ok (Network := sample.network 200 200) "GET"
            (baseURL (client s) ++ EndpointCSRFToken)) with true in Hrefresh.
  cbv iota in Hrefresh. destruct Hrefresh as (_ & Hs & _).
  rewrite Hs. split; reflexivity.
Defined.

Lemma Login_validates_first_witness :
  let s := sample.start (sample.account "" 0) in
  exists message,
    Login (H0 := sample.network 200 200) None "199001011234" "short" s
    = (Fail (ValidationError "password" message),
       {| client := client s; world := world s; log := [EvLogin] |}).
Proof.
  intros s.
  destruct (Login_validates_first (H0 := sample.network 200 200) None
              "199001011234" "short" s) as [message Hrun];
    [right; cbn; lia|].
  exists message. exact Hrun.
Defined.

Lemma Login_success_witness :
  let s := sample.start (fixtures.anonymous "" 1) in
  let s' := snd (Login (H0 := sample.network 200 200) None "199001011234"
                   "hunter22" s) in
  List.length (log s') = 4%nat
  /\ exists token,
       client s' = {| baseURL := sample.base; csrfToken := token;
                      username := "199001011234"; password := "hunter22";
                      authAttempts := 0 |}.
Proof.
  intros s s'.
  assert (E : Login (H0 := sample.network 200 200) None "199001011234"
                "hunter22" s = (Ok tt, s')) by (vm_compute; reflexivity).
  destruct (Login_success (H0 := sample.network 200 200) None _ _ s s' E)
    as (_ & _ & Hlog & token & _ & Hclient).
  split; [rewrite Hlog; reflexivity|]. exists token. exact Hclient.
Defined.


Lemma DoRequest_protected_requests_witness :
  let s := sample.start (sample.account "" 0) in
  let run := DoRequest (H0 := sample.network 200 200) None "DELETE" sample.cart
               None true s in
  exists evs,
    log (snd run) = evs /\ (nlogins evs <= 1)%nat
    /\ forall req, In (EvSend req) evs ->
         URL req = sample.base ++ sample.cart ->
         exists token, token <> ""
                       /\ Header_Get "X-CSRF-TOKEN" (Header req) = Some token.
Proof.
  intros s run.
  destruct (DoRequest_protected_requests (H0 := sample.network 200 200)
              None "DELETE" sample.cart None s (snd run) (fst run)
              (surjective_pairing run)) as (evs & Hlog & Hl & Hall).
  exists evs. split; [exact Hlog|]. split; [exact Hl|].
  intros req Hin Hurl.
  destruct (Hall req Hin) as [->|[->|[->|(_ & _ & _ & Htoken)]]];
    [discriminate|discriminate|discriminate|exact Htoken].
Defined.



Lemma SearchProducts_single_request_witness :
  let s := sample.start (sample.account "" 0) in
  let run := SearchProducts (H0 := sample.network 200 200) None "mjolk" 0 10
               None s in
  (List.length (log (snd run)) <= 1)%nat.
Proof.
  intros s run.
  destruct (SearchProducts_single_request (H0 := sample.network 200 200)
              None "mjolk" 0 10 None s (snd run) (fst run)
              (surjective_pairing run)) as [[Hs|Hs] _];
    rewrite Hs; cbn; lia.
Defined.

Lemma filterProducts_without_ceiling_witness :
  filterProducts [sample.milk51; sample.unpriced; sample.milk20]
    (sample.prefs 0 [] "cheapest")
  = [sample.milk51; sample.unpriced; sample.milk20].
Proof.
  destruct (filterProducts_without_ceiling
              [sample.milk51; sample.unpriced; sample.milk20]
              (sample.prefs 0 [] "cheapest") eq_refl) as [_ Hall].
  exact (Hall eq_refl).
Defined.

Lemma ValidateTimeSlot_sound_witness :
  exists h1 m1 h2 m2,
    "08:00" = clock.format h1 m1 /\ "10:30" = clock.format h2 m2
    /\ h1 * 60 + m1 < h2 * 60 + m2.
Proof.
  assert (E : ValidateTimeSlot "08:00 - 10:30" = ("08:00", "10:30", None))
    by (vm_compute; reflexivity).
  destruct (ValidateTimeSlot_sound _ _ _ _ E)
    as (part0 & part1 & h1 & m1 & h2 & m2 & _ & _ & _ & _ & _ & _ & _ & E1 & E2 & _ & _ & Hlt).
  exists h1, m1, h2, m2. split; [exact E1|]. split; [exact E2|exact Hlt].
Defined.

Lemma ValidateTimeSlot_round_trip_witness :
  ValidateTimeSlot (clock.format 8 0 ++ "-" ++ clock.format 10 30)
  = (clock.format 8 0, clock.format 10 30, None).
Proof.
  apply (ValidateTimeSlot_round_trip 8 0 10 30); lia.
Defined.


#[local] Existing Instance shop.codec.

Lemma GetCart_single_request_witness :
  let s := sample.start (sample.account "" 0) in
  let run := GetCart (H0 := shop.network 200) None s in
  exists summary,
    fst run = Ok summary
    /\ List.length (log (snd run)) = 1%nat
    /\ summary = summarize shop.cartData.
Proof.
  intros s run.
  assert (E : fst run = Ok (summarize shop.cartData)) by (vm_compute; reflexivity).
  destruct (GetCart_single_request (H0 := shop.network 200) None s (snd run)
              (fst run) (surjective_pairing run)) as (_ & Ho & _).
  rewrite E in Ho. destruct Ho as (resp & body & cartData & Hs & _).
  exists (summarize shop.cartData). split; [exact E|].
  split; [rewrite Hs; reflexivity|reflexivity].
Defined.

Lemma RemoveFromCart_posts_witness :
  let s := sample.start (sample.account "tok" 0) in
  let run := RemoveFromCart (H0 := shop.network 200) None "101_ST" 5 s in
  exists evs,
    log (snd run) = evs
    /\ Forall (posts_quantity sample.base "101_ST"
                 (fun n => 0 <= n /\ (5 <= 0 -> n = 0))) evs.
Proof.
  intros s run.
  destruct (RemoveFromCart_posts (H0 := shop.network 200) None "101_ST" 5 s
              (snd run) (fst run) (surjective_pairing run))
    as ((evs & Hlog & Hall) & _).
  exists evs. split; [exact Hlog|exact Hall].
Defined.

Lemma AddToCart_posts_witness :
  let s := sample.start (sample.account "tok" 0) in
  AddToCart (H0 := shop.network 200) None "101_ST" 1000 s
  = (Fail (ValidationError "quantity" "max 999"), s).
Proof.
  intros s.
  pose (run := AddToCart (H0 := shop.network 200) None "101_ST" 1000 s).
  destruct (AddToCart_posts (H0 := shop.network 200) None "101_ST" 1000 s
              (snd run) (fst run) (surjective_pairing run)) as [_ Hbad].
  destruct Hbad as [Hs _]; [right; right; lia|].
  vm_compute. reflexivity.
Defined.

Lemma CheckDeliverability_answers_witness :
  let s := sample.start (sample.account "" 0) in
  let run := CheckDeliverability (H0 := shop.network 500) None "11151" s in
  fst run = Ok false.
Proof.
  intros s run.
  destruct (CheckDeliverability_answers (H0 := shop.network 500) None "11151" s
              (snd run) (fst run) (surjective_pairing run))
    as (_ & _ & _ & Hfalse & _).
  apply (Hfalse {| StatusCode := 500; Body := Some "yes" |});
    [vm_compute; reflexivity|vm_compute; reflexivity|discriminate].
Defined.

Lemma SetupDelivery_steps_witness :
  let s := sample.start (sample.account "tok" 0) in
  let slot := slotOfRaw (H0 := shop.network 200) sample.slot in
  let run := SetupDelivery (H0 := shop.network 200) None shop.address slot s in
  exists info,
    fst run = Ok info
    /\ DeliveryInfo.TotalFee info = 158%float.
Proof.
  intros s slot run.
  assert (E : exists info, fst run = Ok info)
    by (eexists; vm_compute; reflexivity).
  destruct E as [info E].
  destruct (SetupDelivery_steps (H0 := shop.network 200) None shop.address slot s
              (snd run) (fst run) (surjective_pairing run)) as [_ Ho].
  rewrite E in Ho. destruct Ho as (Hinfo & _).
  exists info. split; [exact E|]. rewrite Hinfo. vm_compute. reflexivity.
Defined.

Lemma SetupDelivery_not_deliverable_witness :
  let s := sample.start (sample.account "tok" 0) in
  let slot := slotOfRaw (H0 := shop.network 401) sample.slot in
  exists e,
    fst (SetupDelivery (H0 := shop.network 401) None shop.address slot s) = Fail e
    /\ IsValidationError e = true.
Proof.
  intros s slot.
  rewrite (SetupDelivery_not_deliverable (H0 := shop.network 401) None
             shop.address slot s {| StatusCode := 401; Body := Some "yes" |});
    [eexists; split; reflexivity|vm_compute; reflexivity|discriminate
    |reflexivity|vm_compute; reflexivity|discriminate].
Defined.


Lemma SearchProducts_returns_filtered_witness :
  let s := sample.start (sample.account "" 0) in
  let prefs := sample.prefs 25 [] "cheapest" in
  let run := SearchProducts (H0 := sample.network 200 200) None "mjolk" 0 10
               (Some prefs) s in
  fst run = Ok [sample.milk10; sample.milk20]
  /\ [sample.milk10; sample.milk20] ≡ₚ filterProducts sample.catalogue prefs.
Proof.
  intros s prefs run.
  assert (E : fst run = Ok [sample.milk10; sample.milk20]) by (vm_compute; reflexivity).
  destruct (SearchProducts_returns_filtered (H0 := sample.network 200 200) None
              "mjolk" 0 10 (Some prefs) s (snd run) (fst run)
              (surjective_pairing run)) as [_ Hok].
  destruct (Hok _ E) as (resp & body & results & _ & _ & _ & _ & Hdec & Hperm).
  split; [exact E|].
  assert (Hres : results = sample.catalogue).
  { cbn in Hdec. destruct (String.eqb body "catalogue"); [|discriminate].
    injection Hdec as <-. reflexivity. }
  rewrite <- Hres. exact Hperm.
Defined.

Lemma sortProducts_sorted_witness :
  let prefs := sample.prefs 0 [] "cheapest" in
  Forall (sort_key_defined prefs) sample.catalogue
  /\ exists sorted,
       sortProducts sample.catalogue prefs = Some sorted
       /\ sorted ≡ₚ sample.catalogue
       /\ forall i j x y, (i < j)%nat -> sorted !! i = Some x -> sorted !! j = Some y ->
                          lessProducts prefs y x = false.
Proof.
  intros prefs.
  assert (K : Forall (sort_key_defined prefs) sample.catalogue)
    by (unfold sample.catalogue; repeat (constructor; [vm_compute; reflexivity|]);
        constructor).
  split; [exact K|]. exact (sortProducts_sorted sample.catalogue prefs K).
Defined.

(** Against C5 as stated: a compare price that reads "NaN" parses to NaN,
    which is neither below nor above any price; [cheapest] leaves the
    product priced 10 behind the product priced 20. *)
Lemma sortProducts_cheapest_nan :
  sortProducts [sample.milk20; sample.milkNaN; sample.milk10]
    (sample.prefs 0 [] "cheapest")
  = Some [sample.milk20; sample.milkNaN; sample.milk10]
  /\ PrimFloat.ltb (parseComparePriceToFloat (ComparePrice sample.milk10))
                   (parseComparePriceToFloat (ComparePrice sample.milk20)) = true.
Proof. vm_compute. split; reflexivity. Qed.

Lemma sortProducts_cheapest_ascending_witness :
  exists sorted,
    sortProducts sample.catalogue (sample.prefs 0 [] "cheapest") = Some sorted
    /\ sorted ≡ₚ sample.catalogue
    /\ forall i j x y,
         (i < j)%nat -> sorted !! i = Some x -> sorted !! j = Some y ->
         PrimFloat.ltb (parseComparePriceToFloat (ComparePrice y))
                       (parseComparePriceToFloat (ComparePrice x)) = false.
Proof.
  apply (proj1 sortProducts_cheapest_ascending reference.golib sample.catalogue
           (sample.prefs 0 [] "cheapest")); [reflexivity|].
  unfold sample.catalogue. repeat (constructor; [vm_compute; reflexivity|]).
  constructor.
Defined.

Lemma best_value_score_and_order_witness :
  calculateValueScore sample.milk20 = score_bonus_per_label sample.milk20
  /\ exists sorted,
       sortProducts sample.catalogue (sample.prefs 0 [] "best_value") = Some sorted
       /\ sorted ≡ₚ sample.catalogue
       /\ forall i j x y,
            (i < j)%nat -> sorted !! i = Some x -> sorted !! j = Some y ->
            PrimFloat.ltb (calculateValueScore x) (calculateValueScore y) = false.
Proof.
  destruct (best_value_score_and_order (H := reference.golib)) as [Hscore Horder].
  split; [apply Hscore|].
  apply (Horder sample.catalogue (sample.prefs 0 [] "best_value")). reflexivity.
Defined.

End MoreExamples.
